(** * A shallow embedding of jsoncpp's [OurReader] (src/lib_json/json_reader.cpp)

    The reader is a single-pass tokenizer and recursive-descent parser over a
    byte range [begin_, end_).  Pointers into the document are modelled by
    their offset from [begin_] (a [Z], as [ptrdiff_t]); the document itself is
    a list of bytes, each a [Z] in [0, 256).  The [Value] tree the reader
    fills is addressed through paths, since the reader keeps pointers into it
    ([nodes_], [lastValue_]). *)

From Stdlib Require Import ZArith String Ascii Bool List Lia DecimalString.
Import ListNotations.
Open Scope Z_scope.

(** ** Bytes and character constants *)

Definition ch (a : ascii) : Z := Z.of_N (N_of_ascii a).

Fixpoint bytes (s : string) : list Z :=
  match s with
  | EmptyString => []
  | String a s' => ch a :: bytes s'
  end.

Definition byte_to_ascii (c : Z) : ascii := ascii_of_N (Z.to_N (c mod 256)).

Fixpoint string_of_bytes (l : list Z) : string :=
  match l with
  | [] => EmptyString
  | c :: l' => String (byte_to_ascii c) (string_of_bytes l')
  end.

Fixpoint bytes_eqb (a b : list Z) : bool :=
  match a, b with
  | [], [] => true
  | x :: a', y :: b' => (x =? y) && bytes_eqb a' b'
  | _, _ => false
  end.

Definition is_nil {A : Type} (l : list A) : bool :=
  match l with [] => true | _ => false end.

Definition c_NUL : Z := 0.
Definition c_BS : Z := 8.            (* '\b' *)
Definition c_TAB : Z := 9.           (* '\t' *)
Definition c_LF : Z := 10.           (* '\n' *)
Definition c_FF : Z := 12.           (* '\f' *)
Definition c_CR : Z := 13.           (* '\r' *)
Definition c_SPACE : Z := 32.        (* ' ' *)
Definition c_DQUOTE : Z := 34.       (* double quote *)
Definition c_SQUOTE : Z := 39.       (* single quote *)
Definition c_STAR : Z := 42.         (* '*' *)
Definition c_PLUS : Z := 43.         (* '+' *)
Definition c_COMMA : Z := 44.        (* ',' *)
Definition c_MINUS : Z := 45.        (* '-' *)
Definition c_DOT : Z := 46.          (* '.' *)
Definition c_SLASH : Z := 47.        (* '/' *)
Definition c_0 : Z := 48.            (* '0' *)
Definition c_9 : Z := 57.            (* '9' *)
Definition c_COLON : Z := 58.        (* ':' *)
Definition c_A : Z := 65.            (* 'A' *)
Definition c_E : Z := 69.            (* 'E' *)
Definition c_F : Z := 70.            (* 'F' *)
Definition c_I : Z := 73.            (* 'I' *)
Definition c_N : Z := 78.            (* 'N' *)
Definition c_LBRACKET : Z := 91.     (* '[' *)
Definition c_BACKSLASH : Z := 92.    (* '\\' *)
Definition c_RBRACKET : Z := 93.     (* ']' *)
Definition c_a : Z := 97.            (* 'a' *)
Definition c_b : Z := 98.            (* 'b' *)
Definition c_e : Z := 101.           (* 'e' *)
Definition c_f : Z := 102.           (* 'f' *)
Definition c_n : Z := 110.           (* 'n' *)
Definition c_r : Z := 114.           (* 'r' *)
Definition c_t : Z := 116.           (* 't' *)
Definition c_u : Z := 117.           (* 'u' *)
Definition c_LBRACE : Z := 123.      (* '{' *)
Definition c_RBRACE : Z := 125.      (* '}' *)

(** [c >= '0' && c <= '9'].  The outcome is the same whether [char] is signed
    or unsigned: a byte above 127 fails one of the two comparisons. *)
Definition is_digit (c : Z) : bool := (c_0 <=? c) && (c <=? c_9).

(** ** Fixed-width integers *)

(** Conversion to [int] (32 bits, two's complement). *)
Definition to_int (z : Z) : Z := (z + 2 ^ 31) mod 2 ^ 32 - 2 ^ 31.

(** Conversion to [size_t] (64 bits). *)
Definition to_size_t (z : Z) : Z := z mod 2 ^ 64.

(** Conversion to [Value::LargestUInt] and [Value::LargestInt].

    Modelled from the spec: the integer types of value.h are not part of this
    file; the spec gives the platform's widest integer width through its
    extremes, 9223372036854775807 and -9223372036854775808, i.e. 64 bits. *)
Definition to_LargestUInt (z : Z) : Z := z mod 2 ^ 64.
Definition to_LargestInt (z : Z) : Z := (z + 2 ^ 63) mod 2 ^ 64 - 2 ^ 63.
Definition minLargestInt : Z := - 2 ^ 63.
Definition maxLargestInt : Z := 2 ^ 63 - 1.
Definition maxLargestUInt : Z := 2 ^ 64 - 1.

(** ** What the reader takes from its host *)

(** The floating-point type and the library calls on it, the locale fix-up of
    json_tool.h, and [Value::maxInt] (the largest [Value::Int], declared in
    value.h).  None of them is defined in json_reader.cpp; the reader is
    parametric in them. *)
Record Host : Type := {
  double : Type;
  (** [sscanf(buffer, "%lf", &value)]: [Some value] when the count is 1. *)
  sscanf_lf : list Z -> option double;
  fixNumericLocaleInput : list Z -> list Z;
  quiet_NaN : double;
  infinity : double;
  (** unary minus on [double] *)
  dneg : double -> double;
  (** [Value::asString] on a real value *)
  double_asString : double -> list Z;
  maxInt : Z;
  (** The byte that the memory holds at [end_], behind the document
      [begin_, end_): it is no part of the document and the caller promises
      nothing about it, but [getLocationLineAndColumn] reads it behind a
      carriage return that ends the document. *)
  past_the_end : list Z -> Z
}.

(** ** Features (class Features) *)

Record Features : Type := {
  allowComments_ : bool;
  strictRoot_ : bool;
  allowDroppedNullPlaceholders_ : bool;
  allowNumericKeys_ : bool;
  allowSingleQuotes_ : bool;
  failIfExtra_ : bool;
  rejectDupKeys_ : bool;
  allowSpecialFloats_ : bool;
  stackLimit_ : Z
}.

(** [CharReaderBuilder::setDefaults] *)
Definition defaultFeatures : Features :=
  {| allowComments_ := true; strictRoot_ := false;
     allowDroppedNullPlaceholders_ := false; allowNumericKeys_ := false;
     allowSingleQuotes_ := false; failIfExtra_ := false;
     rejectDupKeys_ := false; allowSpecialFloats_ := false;
     stackLimit_ := 1000 |}.

Definition defaultCollectComments : bool := true.

(** [CharReaderBuilder::strictMode] *)
Definition strictFeatures : Features :=
  {| allowComments_ := false; strictRoot_ := true;
     allowDroppedNullPlaceholders_ := false; allowNumericKeys_ := false;
     allowSingleQuotes_ := false; failIfExtra_ := true;
     rejectDupKeys_ := true; allowSpecialFloats_ := false;
     stackLimit_ := 1000 |}.

(** The defaults with one switch turned. *)
Definition singleQuoteFeatures : Features :=
  {| allowComments_ := true; strictRoot_ := false;
     allowDroppedNullPlaceholders_ := false; allowNumericKeys_ := false;
     allowSingleQuotes_ := true; failIfExtra_ := false;
     rejectDupKeys_ := false; allowSpecialFloats_ := false;
     stackLimit_ := 1000 |}.

Definition droppedNullFeatures : Features :=
  {| allowComments_ := true; strictRoot_ := false;
     allowDroppedNullPlaceholders_ := true; allowNumericKeys_ := false;
     allowSingleQuotes_ := false; failIfExtra_ := false;
     rejectDupKeys_ := false; allowSpecialFloats_ := false;
     stackLimit_ := 1000 |}.

Definition failIfExtraFeatures : Features :=
  {| allowComments_ := true; strictRoot_ := false;
     allowDroppedNullPlaceholders_ := false; allowNumericKeys_ := false;
     allowSingleQuotes_ := false; failIfExtra_ := true;
     rejectDupKeys_ := false; allowSpecialFloats_ := false;
     stackLimit_ := 1000 |}.

Definition specialFloatsFeatures : Features :=
  {| allowComments_ := true; strictRoot_ := false;
     allowDroppedNullPlaceholders_ := false; allowNumericKeys_ := false;
     allowSingleQuotes_ := false; failIfExtra_ := false;
     rejectDupKeys_ := false; allowSpecialFloats_ := true;
     stackLimit_ := 1000 |}.

(** The default features with another [stackLimit]. *)
Definition stackLimitFeatures (n : Z) : Features :=
  {| allowComments_ := true; strictRoot_ := false;
     allowDroppedNullPlaceholders_ := false; allowNumericKeys_ := false;
     allowSingleQuotes_ := false; failIfExtra_ := false;
     rejectDupKeys_ := false; allowSpecialFloats_ := false;
     stackLimit_ := n |}.

(** The strict mode with another [stackLimit]. *)
Definition strictStackLimitFeatures (n : Z) : Features :=
  {| allowComments_ := false; strictRoot_ := true;
     allowDroppedNullPlaceholders_ := false; allowNumericKeys_ := false;
     allowSingleQuotes_ := false; failIfExtra_ := true;
     rejectDupKeys_ := true; allowSpecialFloats_ := false;
     stackLimit_ := n |}.

(** ** Tokens and errors *)

Inductive TokenType : Type :=
| tokenEndOfStream | tokenObjectBegin | tokenObjectEnd | tokenArrayBegin
| tokenArrayEnd | tokenString | tokenNumber | tokenTrue | tokenFalse
| tokenNull | tokenNaN | tokenPosInf | tokenNegInf | tokenArraySeparator
| tokenMemberSeparator | tokenComment | tokenError.

Definition TokenType_eqb (a b : TokenType) : bool :=
  match a, b with
  | tokenEndOfStream, tokenEndOfStream | tokenObjectBegin, tokenObjectBegin
  | tokenObjectEnd, tokenObjectEnd | tokenArrayBegin, tokenArrayBegin
  | tokenArrayEnd, tokenArrayEnd | tokenString, tokenString
  | tokenNumber, tokenNumber | tokenTrue, tokenTrue | tokenFalse, tokenFalse
  | tokenNull, tokenNull | tokenNaN, tokenNaN | tokenPosInf, tokenPosInf
  | tokenNegInf, tokenNegInf | tokenArraySeparator, tokenArraySeparator
  | tokenMemberSeparator, tokenMemberSeparator | tokenComment, tokenComment
  | tokenError, tokenError => true
  | _, _ => false
  end.

Record Token : Type := {
  type_ : TokenType;
  offsetStart_ : Z;
  offsetEnd_ : Z
}.

Record ErrorLocation : Type := { line_ : Z; column_ : Z }.

Record ErrorInfo : Type := {
  token_ : ErrorLocation;
  message_ : string;
  extra_ : ErrorLocation
}.

(** [ErrorLocation()] *)
Definition noLocation : ErrorLocation := {| line_ := 0; column_ := 0 |}.

Definition defaultErrorInfo : ErrorInfo :=
  {| token_ := noLocation; message_ := EmptyString; extra_ := noLocation |}.

Inductive CommentPlacement : Type :=
| commentBefore | commentAfterOnSameLine | commentAfter.

(** [std::deque::resize(n)]: truncate, or pad with default elements. *)
Definition resize {A : Type} (d : A) (n : nat) (l : list A) : list A :=
  firstn n l ++ repeat d (n - length l)%nat.

(** ** Results of the parser

    The parser either returns, or aborts through [throwRuntimeError]. The
    loops over tokens and the recursion on values are driven by fuel. *)
Inductive result (A : Type) : Type :=
| Ok (a : A)
| Fatal (msg : string)
| OutOfFuel.
Arguments Ok {A} a.
Arguments Fatal {A} msg.
Arguments OutOfFuel {A}.

Definition bind {A B : Type} (m : result A) (k : A -> result B) : result B :=
  match m with
  | Ok a => k a
  | Fatal msg => Fatal msg
  | OutOfFuel => OutOfFuel
  end.

Notation "'do' x <- m ; k" := (bind m (fun x => k))
  (at level 10, x pattern, m at level 100, k at level 200).

(** ** The Value tree

    Modelled from the spec: class [Value] (value.h, json_value.cpp) is not
    part of this file.  The spec asks of it to hold null, bool, int, uint,
    double, string, array and object payloads, to carry the byte offsets
    [offset_start] and [offset_limit] and one comment per placement, to set a
    member by key (keys unique within an object), to tell whether a member is
    present, and to swap its payload in place. *)

Section ValueModel.

Variable H : Host.

Inductive PayloadF (V : Type) : Type :=
| nullValue
| intValue (i : Z)
| uintValue (u : Z)
| realValue (d : double H)
| stringValue (s : list Z)
| booleanValue (b : bool)
| arrayValue (elems : list V)
| objectValue (members : list (list Z * V)).

#[warnings="-register-all"]
Inductive Value : Type :=
  mkValue { payload : PayloadF Value;
            offsetStart : Z;
            offsetLimit : Z;
            comment_before : option (list Z);
            comment_after_on_same_line : option (list Z);
            comment_after : option (list Z) }.

(** [Value()] *)
Definition Value_null : Value :=
  mkValue (nullValue Value) 0 0 None None None.

Definition swapPayload (p : PayloadF Value) (v : Value) : Value :=
  mkValue p (offsetStart v) (offsetLimit v)
          (comment_before v) (comment_after_on_same_line v) (comment_after v).

Definition setOffsetStart (o : Z) (v : Value) : Value :=
  mkValue (payload v) o (offsetLimit v)
          (comment_before v) (comment_after_on_same_line v) (comment_after v).

Definition setOffsetLimit (o : Z) (v : Value) : Value :=
  mkValue (payload v) (offsetStart v) o
          (comment_before v) (comment_after_on_same_line v) (comment_after v).

Definition setComment (c : list Z) (placement : CommentPlacement) (v : Value)
  : Value :=
  match placement with
  | commentBefore =>
      mkValue (payload v) (offsetStart v) (offsetLimit v)
              (Some c) (comment_after_on_same_line v) (comment_after v)
  | commentAfterOnSameLine =>
      mkValue (payload v) (offsetStart v) (offsetLimit v)
              (comment_before v) (Some c) (comment_after v)
  | commentAfter =>
      mkValue (payload v) (offsetStart v) (offsetLimit v)
              (comment_before v) (comment_after_on_same_line v) (Some c)
  end.

Definition isArray (v : Value) : bool :=
  match payload v with arrayValue _ _ => true | _ => false end.

Definition isObject (v : Value) : bool :=
  match payload v with objectValue _ _ => true | _ => false end.

Fixpoint members_find (k : list Z) (m : list (list Z * Value))
  : option Value :=
  match m with
  | [] => None
  | (k', v) :: m' => if bytes_eqb k k' then Some v else members_find k m'
  end.

Fixpoint members_modify (k : list Z) (f : Value -> Value)
         (m : list (list Z * Value)) : list (list Z * Value) :=
  match m with
  | [] => []
  | (k', v) :: m' =>
      if bytes_eqb k k' then (k', f v) :: m'
      else (k', v) :: members_modify k f m'
  end.

Fixpoint elems_modify (i : nat) (f : Value -> Value) (l : list Value)
  : list Value :=
  match l, i with
  | [], _ => []
  | v :: l', O => f v :: l'
  | v :: l', S i' => v :: elems_modify i' f l'
  end.

Definition isMember (k : list Z) (v : Value) : bool :=
  match payload v with
  | objectValue _ m =>
      match members_find k m with Some _ => true | None => false end
  | _ => false
  end.

(** [v[name]]: the member slot of [name], created as null when absent; a
    null value turns into an object first. *)
Definition member_slot (k : list Z) (v : Value) : Value :=
  match payload v with
  | objectValue _ m =>
      match members_find k m with
      | Some _ => v
      | None => swapPayload (objectValue Value (m ++ [(k, Value_null)])) v
      end
  | nullValue _ => swapPayload (objectValue Value [(k, Value_null)]) v
  | _ => v
  end.

(** [v[index]]: the element slot at [index], created as null (with the
    slots below it) when absent; a null value turns into an array first. *)
Definition element_slot (i : nat) (v : Value) : Value :=
  match payload v with
  | arrayValue _ l =>
      if (i <? List.length l)%nat then v
      else swapPayload
             (arrayValue Value
                (l ++ repeat Value_null (S i - List.length l)%nat)) v
  | nullValue _ =>
      swapPayload (arrayValue Value (repeat Value_null (S i))) v
  | _ => v
  end.

(** [Value::asString] of a number: its canonical string form. *)
Definition asString (v : Value) : list Z :=
  match payload v with
  | intValue _ i => bytes (NilZero.string_of_int (Z.to_int i))
  | uintValue _ u => bytes (NilZero.string_of_int (Z.to_int u))
  | realValue _ d => double_asString H d
  | stringValue _ s => s
  | booleanValue _ b => bytes (if b then "true" else "false")
  | _ => []
  end.

(** Pointers into the tree: the path from the root to the value. *)
Inductive Step : Type :=
| Member (key : list Z)
| Index (i : nat).

Definition Path : Type := list Step.

Fixpoint get_at (p : Path) (v : Value) : option Value :=
  match p with
  | [] => Some v
  | Member k :: p' =>
      match payload v with
      | objectValue _ m =>
          match members_find k m with
          | Some w => get_at p' w
          | None => None
          end
      | _ => None
      end
  | Index i :: p' =>
      match payload v with
      | arrayValue _ l =>
          match nth_error l i with
          | Some w => get_at p' w
          | None => None
          end
      | _ => None
      end
  end.

Fixpoint modify_at (p : Path) (f : Value -> Value) (v : Value) : Value :=
  match p with
  | [] => f v
  | Member k :: p' =>
      match payload v with
      | objectValue _ m =>
          swapPayload (objectValue Value (members_modify k (modify_at p' f) m)) v
      | _ => v
      end
  | Index i :: p' =>
      match payload v with
      | arrayValue _ l =>
          swapPayload (arrayValue Value (elems_modify i (modify_at p' f) l)) v
      | _ => v
      end
  end.

End ValueModel.

Arguments nullValue {H V}.
Arguments intValue {H V} i.
Arguments uintValue {H V} u.
Arguments realValue {H V} d.
Arguments stringValue {H V} s.
Arguments booleanValue {H V} b.
Arguments arrayValue {H V} elems.
Arguments objectValue {H V} members.
Arguments mkValue {H}.
Arguments payload {H}.
Arguments offsetStart {H}.
Arguments offsetLimit {H}.
Arguments comment_before {H}.
Arguments comment_after_on_same_line {H}.
Arguments comment_after {H}.
Arguments Value_null {H}.
Arguments swapPayload {H}.
Arguments setOffsetStart {H}.
Arguments setOffsetLimit {H}.
Arguments setComment {H}.
Arguments isArray {H}.
Arguments isObject {H}.
Arguments isMember {H}.
Arguments member_slot {H}.
Arguments element_slot {H}.
Arguments asString {H}.
Arguments get_at {H}.
Arguments modify_at {H}.

(** ** The reader *)

Section Reader.

Variable H : Host.
Variable features_ : Features.

(** The document [begin_, end_). *)
Variable doc : list Z.

Definition end_ : Z := Z.of_nat (List.length doc).

(** The bytes from offset [i] to [end_]. *)
Definition suffix (i : Z) : list Z := skipn (Z.to_nat i) doc.

(** The bytes of [begin_ + a, begin_ + b). *)
Definition slice (a b : Z) : list Z := firstn (Z.to_nat (b - a)) (suffix a).

(** [*(begin_ + i)], for an offset within the document.  The one place
    where the reader dereferences [end_] itself
    ([getLocationLineAndColumn]) reads [past_the_end] instead. *)
Definition at_ (i : Z) : Z := nth (Z.to_nat i) doc c_NUL.

Record OurReader : Type := {
  root_ : Value H;                 (* the tree the pointers below lead into *)
  nodes_ : list Path;              (* top of the stack first *)
  errors_ : list ErrorInfo;
  current_ : Z;
  lastValueEnd_ : option Z;        (* a null pointer is None *)
  lastValue_ : option Path;
  commentsBefore_ : list Z;
  collectComments_ : bool
}.

Definition set_root (r : OurReader) (v : Value H) : OurReader :=
  {| root_ := v; nodes_ := nodes_ r; errors_ := errors_ r;
     current_ := current_ r; lastValueEnd_ := lastValueEnd_ r;
     lastValue_ := lastValue_ r; commentsBefore_ := commentsBefore_ r;
     collectComments_ := collectComments_ r |}.

Definition set_nodes (r : OurReader) (n : list Path) : OurReader :=
  {| root_ := root_ r; nodes_ := n; errors_ := errors_ r;
     current_ := current_ r; lastValueEnd_ := lastValueEnd_ r;
     lastValue_ := lastValue_ r; commentsBefore_ := commentsBefore_ r;
     collectComments_ := collectComments_ r |}.

Definition set_errors (r : OurReader) (e : list ErrorInfo) : OurReader :=
  {| root_ := root_ r; nodes_ := nodes_ r; errors_ := e;
     current_ := current_ r; lastValueEnd_ := lastValueEnd_ r;
     lastValue_ := lastValue_ r; commentsBefore_ := commentsBefore_ r;
     collectComments_ := collectComments_ r |}.

Definition set_current (r : OurReader) (c : Z) : OurReader :=
  {| root_ := root_ r; nodes_ := nodes_ r; errors_ := errors_ r;
     current_ := c; lastValueEnd_ := lastValueEnd_ r;
     lastValue_ := lastValue_ r; commentsBefore_ := commentsBefore_ r;
     collectComments_ := collectComments_ r |}.

Definition set_lastValue (r : OurReader) (e : option Z) (p : option Path)
  : OurReader :=
  {| root_ := root_ r; nodes_ := nodes_ r; errors_ := errors_ r;
     current_ := current_ r; lastValueEnd_ := e;
     lastValue_ := p; commentsBefore_ := commentsBefore_ r;
     collectComments_ := collectComments_ r |}.

Definition set_commentsBefore (r : OurReader) (c : list Z) : OurReader :=
  {| root_ := root_ r; nodes_ := nodes_ r; errors_ := errors_ r;
     current_ := current_ r; lastValueEnd_ := lastValueEnd_ r;
     lastValue_ := lastValue_ r; commentsBefore_ := c;
     collectComments_ := collectComments_ r |}.

(** [nodes_.top()], as a path; the root when the stack is empty. *)
Definition top (r : OurReader) : Path :=
  match nodes_ r with
  | p :: _ => p
  | [] => []
  end.

(** [currentValue().f(...)]: apply [f] to the value on top of the stack. *)
Definition onCurrentValue (f : Value H -> Value H) (r : OurReader) : OurReader :=
  set_root r (modify_at (top r) f (root_ r)).

Definition push (p : Path) (r : OurReader) : OurReader :=
  set_nodes r (p :: nodes_ r).

Definition pop (r : OurReader) : OurReader :=
  set_nodes r (tl (nodes_ r)).

(** *** Location map *)

Definition containsNewLine (a b : Z) : bool :=
  existsb (fun c => (c =? c_LF) || (c =? c_CR)) (slice a b).

(** The loop of [getLocationLineAndColumn]: [rest] are the bytes from
    [current] to [end_], so that [current != end_] reads [rest <> []]. *)
Fixpoint locate_loop (rest : list Z) (current lastLineStart line : Z) (e : Z)
  : Z * Z :=
  match rest with
  | [] => (lastLineStart, line)
  | c :: rest' =>
      if current <? e then
        if c =? c_CR then
          match rest' with
          | c' :: rest'' =>
              if c' =? c_LF
              then locate_loop rest'' (current + 2) (current + 2) (line + 1) e
              else locate_loop rest' (current + 1) (current + 1) (line + 1) e
          | [] =>
              (* the byte read here is the one at [end_] *)
              if past_the_end H doc =? c_LF
              then (current + 2, line + 1)
              else (current + 1, line + 1)
          end
        else if c =? c_LF then
          locate_loop rest' (current + 1) (current + 1) (line + 1) e
        else locate_loop rest' (current + 1) lastLineStart line e
      else (lastLineStart, line)
  end.

Definition getLocationLineAndColumn (offset : Z) : ErrorLocation :=
  let '(lastLineStart, line) := locate_loop doc 0 0 0 offset in
  {| line_ := line + 1;
     column_ := to_size_t (to_int (offset - lastLineStart) + 1) |}.

Definition addError (message : string) (token : Token) (extra : option Z)
           (r : OurReader) : bool * OurReader :=
  let info :=
    {| token_ := getLocationLineAndColumn (offsetStart_ token);
       message_ := message;
       extra_ := match extra with
                 | Some e => getLocationLineAndColumn e
                 | None => noLocation
                 end |} in
  (false, set_errors r (errors_ r ++ [info])).

(** *** Byte cursor *)

Definition getNextChar (r : OurReader) : Z * OurReader :=
  if current_ r =? end_ then (c_NUL, r)
  else (at_ (current_ r), set_current r (current_ r + 1)).

Definition is_space (c : Z) : bool :=
  (c =? c_SPACE) || (c =? c_TAB) || (c =? c_CR) || (c =? c_LF).

Fixpoint skipSpaces_loop (rest : list Z) (current : Z) : Z :=
  match rest with
  | [] => current
  | c :: rest' =>
      if is_space c then skipSpaces_loop rest' (current + 1) else current
  end.

Definition skipSpaces (r : OurReader) : OurReader :=
  set_current r (skipSpaces_loop (suffix (current_ r)) (current_ r)).

Definition match_ (pattern : list Z) (r : OurReader) : bool * OurReader :=
  let patternLength := Z.of_nat (List.length pattern) in
  if end_ - current_ r <? patternLength then (false, r)
  else if bytes_eqb (slice (current_ r) (current_ r + patternLength)) pattern
       then (true, set_current r (current_ r + patternLength))
       else (false, r).


(** *** Tokenizer *)

(** The loop shared by [readString] (closing on the double quote) and
    [readStringSingleQuote] (closing on the single quote): [rest] are the
    bytes from [current] on; the result is the new cursor and the last
    character read. *)
Fixpoint readString_loop (quote : Z) (rest : list Z) (current c : Z) : Z * Z :=
  match rest with
  | [] => (current, c)
  | c' :: rest1 =>
      if c' =? c_BACKSLASH then
        match rest1 with
        | [] => (current + 1, c')      (* getNextChar at the end: no advance *)
        | _ :: rest2 => readString_loop quote rest2 (current + 2) c'
        end
      else if c' =? quote then (current + 1, c')
      else readString_loop quote rest1 (current + 1) c'
  end.

Definition readString (r : OurReader) : bool * OurReader :=
  let '(current, c) :=
    readString_loop c_DQUOTE (suffix (current_ r)) (current_ r) c_NUL in
  (c =? c_DQUOTE, set_current r current).

Definition readStringSingleQuote (r : OurReader) : bool * OurReader :=
  let '(current, c) :=
    readString_loop c_SQUOTE (suffix (current_ r)) (current_ r) c_NUL in
  (c =? c_SQUOTE, set_current r current).

(** [c = (current_ = p) < end_ ? *p++ : 0], with [rest] the bytes from [p]:
    the new [c], [current_], [p] and the bytes from the new [p]. *)
Definition number_step (p : Z) (rest : list Z) : Z * Z * Z * list Z :=
  match rest with
  | [] => (c_NUL, p, p, [])
  | x :: rest' => (x, p, p + 1, rest')
  end.

(** [while (c >= '0' && c <= '9') c = (current_ = p) < end_ ? *p++ : 0] *)
Fixpoint number_digits (rest : list Z) (c current p : Z)
  : Z * Z * Z * list Z :=
  if is_digit c then
    match rest with
    | [] => (c_NUL, p, p, [])
    | x :: rest' => number_digits rest' x p (p + 1)
    end
  else (c, current, p, rest).

Definition readNumber (checkInf : bool) (r : OurReader) : bool * OurReader :=
  let p := current_ r in
  if checkInf && negb (p =? end_) && (at_ p =? c_I)
  then (false, set_current r (p + 1))
  else
    (* integral part *)
    let '(c, current, p, rest) := number_digits (suffix p) c_0 (current_ r) p in
    (* fractional part *)
    let '(c, current, p, rest) :=
      if c =? c_DOT then
        let '(c, current, p, rest) := number_step p rest in
        number_digits rest c current p
      else (c, current, p, rest) in
    (* exponential part *)
    let '(c, current, p, rest) :=
      if (c =? c_e) || (c =? c_E) then
        let '(c, current, p, rest) := number_step p rest in
        let '(c, current, p, rest) :=
          if (c =? c_PLUS) || (c =? c_MINUS)
          then number_step p rest
          else (c, current, p, rest) in
        number_digits rest c current p
      else (c, current, p, rest) in
    (true, set_current r current).

(** [while ((current_ + 1) < end_)]: at least two bytes are left. *)
Fixpoint readCStyleComment_loop (rest : list Z) (current : Z) : Z :=
  match rest with
  | c :: ((c' :: _) as rest') =>
      if (c =? c_STAR) && (c' =? c_SLASH) then current + 1
      else readCStyleComment_loop rest' (current + 1)
  | _ => current
  end.

Definition readCStyleComment (r : OurReader) : bool * OurReader :=
  let r1 :=
    set_current r (readCStyleComment_loop (suffix (current_ r)) (current_ r)) in
  let '(c, r2) := getNextChar r1 in
  (c =? c_SLASH, r2).

Fixpoint readCppStyleComment_loop (rest : list Z) (current : Z) : Z :=
  match rest with
  | [] => current
  | c :: rest' =>
      if c =? c_LF then current + 1
      else if c =? c_CR then
        (* Consume DOS EOL. *)
        match rest' with
        | c' :: _ => if c' =? c_LF then current + 2 else current + 1
        | [] => current + 1
        end
      else readCppStyleComment_loop rest' (current + 1)
  end.

Definition readCppStyleComment (r : OurReader) : bool * OurReader :=
  (true,
   set_current r (readCppStyleComment_loop (suffix (current_ r)) (current_ r))).

Fixpoint normalizeEOL (l : list Z) : list Z :=
  match l with
  | [] => []
  | c :: l' =>
      if c =? c_CR then
        match l' with
        | c' :: l'' =>
            if c' =? c_LF then c_LF :: normalizeEOL l''   (* dos EOL *)
            else c_LF :: normalizeEOL l'                   (* Mac EOL *)
        | [] => [c_LF]
        end
      else c :: normalizeEOL l'
  end.

Definition addComment (a b : Z) (placement : CommentPlacement) (r : OurReader)
  : OurReader :=
  let normalized := normalizeEOL (slice a b) in
  match placement with
  | commentAfterOnSameLine =>
      match lastValue_ r with
      | Some p => set_root r (modify_at p (setComment normalized placement) (root_ r))
      | None => r
      end
  | _ => set_commentsBefore r (commentsBefore_ r ++ normalized)
  end.

Definition readComment (r : OurReader) : bool * OurReader :=
  let commentBegin := current_ r - 1 in
  let '(c, r) := getNextChar r in
  let '(successful, r) :=
    if c =? c_STAR then readCStyleComment r
    else if c =? c_SLASH then readCppStyleComment r
    else (false, r) in
  if negb successful then (false, r)
  else if collectComments_ r then
    let placement :=
      match lastValueEnd_ r with
      | Some lve =>
          if negb (containsNewLine lve commentBegin)
             && (negb (c =? c_STAR)
                 || negb (containsNewLine commentBegin (current_ r)))
          then commentAfterOnSameLine
          else commentBefore
      | None => commentBefore
      end in
    (true, addComment commentBegin (current_ r) placement r)
  else (true, r).

(** [readToken]: the returned boolean (always true) and the token read. *)
Definition readToken (r : OurReader) : bool * Token * OurReader :=
  let r := skipSpaces r in
  let offsetStart := current_ r in
  let '(c, r) := getNextChar r in
  let '(ty, ok, r) :=
    if c =? c_LBRACE then (tokenObjectBegin, true, r)
    else if c =? c_RBRACE then (tokenObjectEnd, true, r)
    else if c =? c_LBRACKET then (tokenArrayBegin, true, r)
    else if c =? c_RBRACKET then (tokenArrayEnd, true, r)
    else if c =? c_DQUOTE then
      let '(ok, r) := readString r in (tokenString, ok, r)
    else if (c =? c_SQUOTE) && allowSingleQuotes_ features_ then
      let '(ok, r) := readStringSingleQuote r in (tokenString, ok, r)
    else if (c =? c_SQUOTE) || (c =? c_SLASH) then
      (* the single quote falls through to the comment case *)
      let '(ok, r) := readComment r in (tokenComment, ok, r)
    else if is_digit c then
      let '(_, r) := readNumber false r in (tokenNumber, true, r)
    else if c =? c_MINUS then
      let '(isNumber, r) := readNumber true r in
      if isNumber then (tokenNumber, true, r)
      else if allowSpecialFloats_ features_ then
        let '(ok, r) := match_ (bytes "nfinity") r in (tokenNegInf, ok, r)
      else (tokenNegInf, false, r)
    else if c =? c_t then
      let '(ok, r) := match_ (bytes "rue") r in (tokenTrue, ok, r)
    else if c =? c_f then
      let '(ok, r) := match_ (bytes "alse") r in (tokenFalse, ok, r)
    else if c =? c_n then
      let '(ok, r) := match_ (bytes "ull") r in (tokenNull, ok, r)
    else if c =? c_N then
      if allowSpecialFloats_ features_ then
        let '(ok, r) := match_ (bytes "aN") r in (tokenNaN, ok, r)
      else (tokenError, false, r)
    else if c =? c_I then
      if allowSpecialFloats_ features_ then
        let '(ok, r) := match_ (bytes "nfinity") r in (tokenPosInf, ok, r)
      else (tokenError, false, r)
    else if c =? c_COMMA then (tokenArraySeparator, true, r)
    else if c =? c_COLON then (tokenMemberSeparator, true, r)
    else if c =? c_NUL then (tokenEndOfStream, true, r)
    else (tokenError, false, r) in
  let ty := if ok then ty else tokenError in
  (true,
   {| type_ := ty; offsetStart_ := offsetStart; offsetEnd_ := current_ r |},
   r).

(** *** String decoder *)

Definition hex_digit (c : Z) : option Z :=
  if (c_0 <=? c) && (c <=? c_9) then Some (c - c_0)
  else if (c_a <=? c) && (c <=? c_f) then Some (c - c_a + 10)
  else if (c_A <=? c) && (c <=? c_F) then Some (c - c_A + 10)
  else None.

(** The [for] loop of [decodeUnicodeEscapeSequence] with [n] rounds to go:
    the value read ([None] at a byte that is no hexadecimal digit) and the
    new [current]. *)
Fixpoint decodeUnicodeEscapeSequence_loop (n : nat) (current unicode : Z)
  : option Z * Z :=
  match n with
  | O => (Some unicode, current)
  | S n' =>
      let c := at_ current in
      let current := current + 1 in
      let unicode := unicode * 16 in
      match hex_digit c with
      | Some d => decodeUnicodeEscapeSequence_loop n' current (unicode + d)
      | None => (None, current)
      end
  end.

(** Returns the success flag, the new [current] and [ret_unicode]. *)
Definition decodeUnicodeEscapeSequence (token : Token) (current e : Z)
           (r : OurReader) : bool * Z * Z * OurReader :=
  if e - current <? 4 then
    let '(ok, r) :=
      addError "Bad unicode escape sequence in string: four digits expected."
               token (Some current) r in
    (ok, current, 0, r)
  else
    match decodeUnicodeEscapeSequence_loop 4 current 0 with
    | (Some unicode, current) => (true, current, unicode, r)
    | (None, current) =>
        let '(ok, r) :=
          addError
            "Bad unicode escape sequence in string: hexadecimal digit expected."
            token (Some current) r in
        (ok, current, 0, r)
    end.

Definition decodeUnicodeCodePoint (token : Token) (current e : Z)
           (r : OurReader) : bool * Z * Z * OurReader :=
  let '(ok, current, unicode, r) :=
    decodeUnicodeEscapeSequence token current e r in
  if negb ok then (false, current, unicode, r)
  else if (0xD800 <=? unicode) && (unicode <=? 0xDBFF) then
    (* surrogate pairs *)
    if e - current <? 6 then
      let '(ok, r) :=
        addError
          "additional six characters expected to parse unicode surrogate pair."
          token (Some current) r in
      (ok, current, unicode, r)
    else
      let c1 := at_ current in
      let current := current + 1 in
      if c1 =? c_BACKSLASH then
        let c2 := at_ current in
        let current := current + 1 in
        if c2 =? c_u then
          let '(ok, current, surrogatePair, r) :=
            decodeUnicodeEscapeSequence token current e r in
          if ok then
            (true, current,
             0x10000 + Z.shiftl (Z.land unicode 0x3FF) 10
             + Z.land surrogatePair 0x3FF, r)
          else (false, current, unicode, r)
        else
          let '(ok, r) :=
            addError
              "expecting another \u token to begin the second half of a unicode surrogate pair"
              token (Some current) r in
          (ok, current, unicode, r)
      else
        let '(ok, r) :=
          addError
            "expecting another \u token to begin the second half of a unicode surrogate pair"
            token (Some current) r in
        (ok, current, unicode, r)
  else (true, current, unicode, r).

(** Modelled from the spec: [codePointToUTF8] (json_tool.h) is not part of
    this file; code points are emitted as UTF-8 using the standard 1-4 byte
    encoding. *)
Definition codePointToUTF8 (cp : Z) : list Z :=
  if cp <=? 0x7F then [cp]
  else if cp <=? 0x7FF then
    [Z.lor 0xC0 (Z.shiftr cp 6); Z.lor 0x80 (Z.land cp 0x3F)]
  else if cp <=? 0xFFFF then
    [Z.lor 0xE0 (Z.shiftr cp 12);
     Z.lor 0x80 (Z.land (Z.shiftr cp 6) 0x3F);
     Z.lor 0x80 (Z.land cp 0x3F)]
  else if cp <=? 0x10FFFF then
    [Z.lor 0xF0 (Z.shiftr cp 18);
     Z.lor 0x80 (Z.land (Z.shiftr cp 12) 0x3F);
     Z.lor 0x80 (Z.land (Z.shiftr cp 6) 0x3F);
     Z.lor 0x80 (Z.land cp 0x3F)]
  else [].

(** The loop of [decodeString(token, decoded)].  Every round reads at least
    one byte, so the distance to [e] bounds the rounds. *)
Fixpoint decodeString_loop (fuel : nat) (token : Token) (current e : Z)
         (decoded : list Z) (r : OurReader)
  : result (bool * list Z * OurReader) :=
  if current =? e then Ok (true, decoded, r)
  else
    match fuel with
    | O => OutOfFuel
    | S fuel' =>
        let c := at_ current in
        let current := current + 1 in
        if c =? c_DQUOTE then Ok (true, decoded, r)
        else if c =? c_BACKSLASH then
          if current =? e then
            let '(ok, r) :=
              addError "Empty escape sequence in string" token (Some current) r in
            Ok (ok, decoded, r)
          else
            let escape := at_ current in
            let current := current + 1 in
            if escape =? c_DQUOTE then
              decodeString_loop fuel' token current e (decoded ++ [c_DQUOTE]) r
            else if escape =? c_SLASH then
              decodeString_loop fuel' token current e (decoded ++ [c_SLASH]) r
            else if escape =? c_BACKSLASH then
              decodeString_loop fuel' token current e (decoded ++ [c_BACKSLASH]) r
            else if escape =? c_b then
              decodeString_loop fuel' token current e (decoded ++ [c_BS]) r
            else if escape =? c_f then
              decodeString_loop fuel' token current e (decoded ++ [c_FF]) r
            else if escape =? c_n then
              decodeString_loop fuel' token current e (decoded ++ [c_LF]) r
            else if escape =? c_r then
              decodeString_loop fuel' token current e (decoded ++ [c_CR]) r
            else if escape =? c_t then
              decodeString_loop fuel' token current e (decoded ++ [c_TAB]) r
            else if escape =? c_u then
              let '(ok, current, unicode, r) :=
                decodeUnicodeCodePoint token current e r in
              if ok then
                decodeString_loop fuel' token current e
                                  (decoded ++ codePointToUTF8 unicode) r
              else Ok (false, decoded, r)
            else
              let '(ok, r) :=
                addError "Bad escape sequence in string" token (Some current) r in
              Ok (ok, decoded, r)
        else decodeString_loop fuel' token current e (decoded ++ [c]) r
    end.

(** [decodeString(token, decoded)], entered with an empty [decoded]. *)
Definition decodeString_to (token : Token) (r : OurReader)
  : result (bool * list Z * OurReader) :=
  let current := offsetStart_ token + 1 in    (* skip the opening quote *)
  let e := offsetEnd_ token - 1 in            (* do not include the closing one *)
  decodeString_loop (Z.to_nat (offsetEnd_ token - offsetStart_ token))
                    token current e [] r.

Definition install (p : PayloadF H (Value H)) (token : Token) (r : OurReader)
  : OurReader :=
  onCurrentValue (setOffsetLimit (offsetEnd_ token))
    (onCurrentValue (setOffsetStart (offsetStart_ token))
       (onCurrentValue (swapPayload p) r)).

(** [decodeString(token)] *)
Definition decodeString (token : Token) (r : OurReader)
  : result (bool * OurReader) :=
  do (ok, decoded_string, r) <- decodeString_to token r;
  if negb ok then Ok (false, r)
  else Ok (true, install (stringValue decoded_string) token r).

(** *** Number decoder *)

(** [Value(x)] for a payload [x]. *)
Definition Value_of (p : PayloadF H (Value H)) : Value H :=
  swapPayload p Value_null.

Definition decodeDouble_to (token : Token) (r : OurReader)
  : bool * Value H * OurReader :=
  let bufferSize := 32 in
  let length := offsetEnd_ token - offsetStart_ token in
  (* Sanity check to avoid buffer overflow exploits. *)
  if length <? 0 then
    let '(ok, r) := addError "Unable to parse token length" token None r in
    (ok, Value_null, r)
  else
    let literal := slice (offsetStart_ token) (offsetEnd_ token) in
    let scanned :=
      if length <=? bufferSize
      then sscanf_lf H (fixNumericLocaleInput H literal)
      else sscanf_lf H literal in
    match scanned with
    | None =>
        let '(ok, r) :=
          addError ("'" ++ string_of_bytes literal ++ "' is not a number.")
                   token None r in
        (ok, Value_null, r)
    | Some value => (true, Value_of (realValue value), r)
    end.

(** [decodeDouble(token)] *)
Definition decodeDouble (token : Token) (r : OurReader) : bool * OurReader :=
  let '(ok, decoded, r) := decodeDouble_to token r in
  if negb ok then (false, r)
  else (true, install (payload decoded) token r).

(** The [while (current < end)] loop of [decodeNumber] over the bytes [rest]
    of [current, end): [Some value] at the end of the integer path, [None]
    where the code hands over to [decodeDouble]. *)
Fixpoint decodeNumber_loop (rest : list Z) (maxIntegerValue threshold value : Z)
  : option Z :=
  match rest with
  | [] => Some value
  | c :: rest' =>
      if (c <? c_0) || (c >? c_9) then None
      else
        let digit := c - c_0 in
        if (value >=? threshold)
           && ((value >? threshold) || negb (is_nil rest')
               || (digit >? maxIntegerValue mod 10))
        then None
        else decodeNumber_loop rest' maxIntegerValue threshold
                               (to_LargestUInt (value * 10 + digit))
  end.

(** [decodeNumber(token, decoded)] *)
Definition decodeNumber_to (token : Token) (r : OurReader)
  : bool * Value H * OurReader :=
  let current := offsetStart_ token in
  let e := offsetEnd_ token in
  let isNegative := at_ current =? c_MINUS in
  let current := if isNegative then current + 1 else current in
  let maxIntegerValue :=
    if isNegative then to_LargestUInt (- minLargestInt) else maxLargestUInt in
  let threshold := maxIntegerValue / 10 in
  match decodeNumber_loop (slice current e) maxIntegerValue threshold 0 with
  | None => decodeDouble_to token r
  | Some value =>
      if isNegative then
        (true, Value_of (intValue (to_LargestInt (- to_LargestInt value))), r)
      else if value <=? to_LargestUInt (maxInt H) then
        (true, Value_of (intValue (to_LargestInt value)), r)
      else (true, Value_of (uintValue value), r)
  end.

(** [decodeNumber(token)] *)
Definition decodeNumber (token : Token) (r : OurReader) : bool * OurReader :=
  let '(ok, decoded, r) := decodeNumber_to token r in
  if negb ok then (false, r)
  else (true, install (payload decoded) token r).

(** *** Value parser *)

(** [do readToken(token); while (token.type_ == tokenComment)] *)
Fixpoint skipCommentTokens_loop (fuel : nat) (r : OurReader)
  : result (Token * OurReader) :=
  match fuel with
  | O => OutOfFuel
  | S fuel' =>
      let '(_, token, r) := readToken r in
      if TokenType_eqb (type_ token) tokenComment
      then skipCommentTokens_loop fuel' r
      else Ok (token, r)
  end.

Definition skipCommentTokens (fuel : nat) (r : OurReader)
  : result (Token * OurReader) :=
  if allowComments_ features_ then skipCommentTokens_loop fuel r
  else let '(_, token, r) := readToken r in Ok (token, r).

(** [while (token.type_ == tokenComment && ok) ok = readToken(token)] *)
Fixpoint skipComments_while (fuel : nat) (ok : bool) (token : Token)
         (r : OurReader) : result (bool * Token * OurReader) :=
  if TokenType_eqb (type_ token) tokenComment && ok then
    match fuel with
    | O => OutOfFuel
    | S fuel' =>
        let '(ok, token, r) := readToken r in
        skipComments_while fuel' ok token r
    end
  else Ok (ok, token, r).

(** The [for (;;)] loop of [recoverFromError]. *)
Fixpoint recoverFromError_loop (fuel : nat) (skipUntilToken : TokenType)
         (errorCount : nat) (r : OurReader) : result OurReader :=
  match fuel with
  | O => OutOfFuel
  | S fuel' =>
      let '(ok, skip, r) := readToken r in
      let r :=
        if negb ok
        then set_errors r (resize defaultErrorInfo errorCount (errors_ r))
        else r in
      if TokenType_eqb (type_ skip) skipUntilToken
         || TokenType_eqb (type_ skip) tokenEndOfStream
      then Ok r
      else recoverFromError_loop fuel' skipUntilToken errorCount r
  end.

Definition recoverFromError (fuel : nat) (skipUntilToken : TokenType)
           (r : OurReader) : result (bool * OurReader) :=
  let errorCount := List.length (errors_ r) in
  do r <- recoverFromError_loop fuel skipUntilToken errorCount r;
  Ok (false, set_errors r (resize defaultErrorInfo errorCount (errors_ r))).

Definition addErrorAndRecover (fuel : nat) (message : string) (token : Token)
           (skipUntilToken : TokenType) (r : OurReader)
  : result (bool * OurReader) :=
  let '(_, r) := addError message token None r in
  recoverFromError fuel skipUntilToken r.

(** [currentValue().isMember(name)] *)
Definition currentValue_isMember (name : list Z) (r : OurReader) : bool :=
  match get_at (top r) (root_ r) with
  | Some v => isMember name v
  | None => false
  end.

Section Recursion.

(** The recursive call of [readValue] from [readObject] and [readArray]. *)
Variable readValue_rec : OurReader -> result (bool * OurReader).

(** One round of the [while (readToken(tokenName))] loop of [readObject] per
    unit of fuel; [name] is the local of that name. *)
Fixpoint readObject_loop (fuel : nat) (name : list Z) (r : OurReader)
  : result (bool * OurReader) :=
  match fuel with
  | O => OutOfFuel
  | S fuel' =>
      let missingName (tokenName : Token) (r : OurReader) :=
        addErrorAndRecover fuel' "Missing '}' or object member name"
                           tokenName tokenObjectEnd r in
      let '(ok, tokenName, r) := readToken r in
      if negb ok then missingName tokenName r
      else
        do (initialTokenOk, tokenName, r) <-
           skipComments_while fuel' true tokenName r;
        if negb initialTokenOk then missingName tokenName r
        else if TokenType_eqb (type_ tokenName) tokenObjectEnd && is_nil name
        then Ok (true, r)   (* empty object *)
        else
          (* the member name: [None] where the code breaks out of the loop *)
          do key <-
             (if TokenType_eqb (type_ tokenName) tokenString then
                do (ok, name, r) <- decodeString_to tokenName r;
                Ok (Some (ok, name, r))
              else if TokenType_eqb (type_ tokenName) tokenNumber
                      && allowNumericKeys_ features_ then
                let '(ok, numberName, r) := decodeNumber_to tokenName r in
                Ok (Some (ok, if ok then asString numberName else [], r))
              else Ok None);
          match key with
          | None => missingName tokenName r
          | Some (false, _, r) => recoverFromError fuel' tokenObjectEnd r
          | Some (true, name, r) =>
              let '(ok, colon, r) := readToken r in
              if negb ok
                 || negb (TokenType_eqb (type_ colon) tokenMemberSeparator)
              then addErrorAndRecover fuel'
                     "Missing ':' after object member name" colon
                     tokenObjectEnd r
              else if Z.of_nat (List.length name) >=? 2 ^ 30
              then Fatal "keylength >= 2^30"
              else if rejectDupKeys_ features_ && currentValue_isMember name r
              then addErrorAndRecover fuel'
                     ("Duplicate key: '" ++ string_of_bytes name ++ "'")
                     tokenName tokenObjectEnd r
              else
                let r := onCurrentValue (member_slot name) r in
                let r := push (top r ++ [Member name]) r in
                do (ok, r) <- readValue_rec r;
                let r := pop r in
                if negb ok   (* error already set *)
                then recoverFromError fuel' tokenObjectEnd r
                else
                  let '(ok, comma, r) := readToken r in
                  if negb ok
                     || (negb (TokenType_eqb (type_ comma) tokenObjectEnd)
                         && negb (TokenType_eqb (type_ comma) tokenArraySeparator)
                         && negb (TokenType_eqb (type_ comma) tokenComment))
                  then addErrorAndRecover fuel'
                         "Missing ',' or '}' in object declaration" comma
                         tokenObjectEnd r
                  else
                    do (finalizeTokenOk, comma, r) <-
                       skipComments_while fuel' true comma r;
                    if TokenType_eqb (type_ comma) tokenObjectEnd
                    then Ok (true, r)
                    else readObject_loop fuel' name r
          end
  end.

Definition readObject (fuel : nat) (tokenStart : Token) (r : OurReader)
  : result (bool * OurReader) :=
  let r := onCurrentValue (swapPayload (objectValue [])) r in
  let r := onCurrentValue (setOffsetStart (offsetStart_ tokenStart)) r in
  readObject_loop fuel [] r.

(** One round of the [for (;;)] loop of [readArray] per unit of fuel. *)
Fixpoint readArray_loop (fuel : nat) (index : nat) (r : OurReader)
  : result (bool * OurReader) :=
  match fuel with
  | O => OutOfFuel
  | S fuel' =>
      let r := onCurrentValue (element_slot index) r in
      let r := push (top r ++ [Index index]) r in
      do (ok, r) <- readValue_rec r;
      let r := pop r in
      if negb ok   (* error already set *)
      then recoverFromError fuel' tokenArrayEnd r
      else
        (* Accept Comment after last item in the array. *)
        let '(ok, token, r) := readToken r in
        do (ok, token, r) <- skipComments_while fuel' ok token r;
        let badTokenType :=
          negb (TokenType_eqb (type_ token) tokenArraySeparator)
          && negb (TokenType_eqb (type_ token) tokenArrayEnd) in
        if negb ok || badTokenType
        then addErrorAndRecover fuel'
               "Missing ',' or ']' in array declaration" token tokenArrayEnd r
        else if TokenType_eqb (type_ token) tokenArrayEnd then Ok (true, r)
        else readArray_loop fuel' (S index) r
  end.

Definition readArray (fuel : nat) (tokenStart : Token) (r : OurReader)
  : result (bool * OurReader) :=
  let r := onCurrentValue (swapPayload (arrayValue [])) r in
  let r := onCurrentValue (setOffsetStart (offsetStart_ tokenStart)) r in
  let r := skipSpaces r in
  if negb (current_ r =? end_) && (at_ (current_ r) =? c_RBRACKET)
  then   (* empty array *)
    let '(_, endArray, r) := readToken r in Ok (true, r)
  else readArray_loop fuel 0%nat r.

Definition readValue_body (fuel : nat) (r : OurReader)
  : result (bool * OurReader) :=
  (*  To preserve the old behaviour we cast size_t to int. *)
  if to_int (Z.of_nat (List.length (nodes_ r))) >? stackLimit_ features_
  then Fatal "Exceeded stackLimit in readValue()."
  else
    do (token, r) <- skipCommentTokens fuel r;
    let r :=
      if collectComments_ r && negb (is_nil (commentsBefore_ r))
      then set_commentsBefore
             (onCurrentValue (setComment (commentsBefore_ r) commentBefore) r) []
      else r in
    let finish (successful : bool) (r : OurReader) :=
      let r :=
        if collectComments_ r
        then set_lastValue r (Some (current_ r)) (Some (top r))
        else r in
      Ok (successful, r) in
    let syntaxError (r : OurReader) :=
      let r := onCurrentValue (setOffsetStart (offsetStart_ token)) r in
      let r := onCurrentValue (setOffsetLimit (offsetEnd_ token)) r in
      Ok (addError "Syntax error: value, object or array expected." token None r) in
    match type_ token with
    | tokenObjectBegin =>
        do (successful, r) <- readObject fuel token r;
        finish successful (onCurrentValue (setOffsetLimit (current_ r)) r)
    | tokenArrayBegin =>
        do (successful, r) <- readArray fuel token r;
        finish successful (onCurrentValue (setOffsetLimit (current_ r)) r)
    | tokenNumber =>
        let '(successful, r) := decodeNumber token r in
        finish successful r
    | tokenString =>
        do (successful, r) <- decodeString token r;
        finish successful r
    | tokenTrue => finish true (install (booleanValue true) token r)
    | tokenFalse => finish true (install (booleanValue false) token r)
    | tokenNull => finish true (install nullValue token r)
    | tokenNaN => finish true (install (realValue (quiet_NaN H)) token r)
    | tokenPosInf => finish true (install (realValue (infinity H)) token r)
    | tokenNegInf =>
        finish true (install (realValue (dneg H (infinity H))) token r)
    | tokenArraySeparator | tokenObjectEnd | tokenArrayEnd =>
        if allowDroppedNullPlaceholders_ features_ then
          (* Un-read the current token and mark the current value as a null
             token. *)
          let r := set_current r (current_ r - 1) in
          let r := onCurrentValue (swapPayload nullValue) r in
          let r := onCurrentValue (setOffsetStart (current_ r - 1)) r in
          let r := onCurrentValue (setOffsetLimit (current_ r)) r in
          finish true r
        else syntaxError r
    | _ => syntaxError r
    end.

End Recursion.

Fixpoint readValue (fuel : nat) (r : OurReader) : result (bool * OurReader) :=
  match fuel with
  | O => OutOfFuel
  | S fuel' => readValue_body (readValue fuel') fuel' r
  end.

(** [parse(beginDoc, endDoc, root, collectComments)]: the success flag and
    the reader as it is left, with the tree and the error journal. *)
Definition parse (fuel : nat) (root : Value H) (collectComments : bool)
  : result (bool * OurReader) :=
  let collectComments :=
    if negb (allowComments_ features_) then false else collectComments in
  let r :=
    {| root_ := root; nodes_ := [[]]; errors_ := [];
       current_ := 0; lastValueEnd_ := None; lastValue_ := None;
       commentsBefore_ := []; collectComments_ := collectComments |} in
  do (successful, r) <- readValue fuel r;
  do (token, r) <- skipCommentTokens fuel r;
  if failIfExtra_ features_
     && ((strictRoot_ features_ || negb (TokenType_eqb (type_ token) tokenError))
         && negb (TokenType_eqb (type_ token) tokenEndOfStream))
  then
    Ok (addError "Extra non-whitespace after JSON value." token None r)
  else
    let r :=
      if collectComments_ r && negb (is_nil (commentsBefore_ r))
      then set_root r (setComment (commentsBefore_ r) commentAfter (root_ r))
      else r in
    if strictRoot_ features_
       && (negb (isArray (root_ r)) && negb (isObject (root_ r)))
    then
      (* Set error location to start of doc, ideally should be first token
         found in doc *)
      let token :=
        {| type_ := tokenError; offsetStart_ := 0; offsetEnd_ := end_ |} in
      Ok (addError
            "A valid JSON document must be either an array or an object value."
            token None r)
    else Ok (successful, r).
End Reader.

Arguments OurReader H : clear implicits.
Arguments root_ {H} _.
Arguments nodes_ {H} _.
Arguments errors_ {H} _.
Arguments current_ {H} _.
Arguments lastValueEnd_ {H} _.
Arguments lastValue_ {H} _.
Arguments commentsBefore_ {H} _.
Arguments collectComments_ {H} _.
Arguments set_root {H} r v.
Arguments set_nodes {H} r n.
Arguments set_errors {H} r e.
Arguments set_current {H} r c.
Arguments set_lastValue {H} r e p.
Arguments set_commentsBefore {H} r c.
Arguments top {H} r.
Arguments onCurrentValue {H} f r.
Arguments push {H} p r.
Arguments pop {H} r.
Arguments addError {H} doc message token extra r.
Arguments getNextChar {H} doc r.
Arguments skipSpaces {H} doc r.
Arguments match_ {H} doc pattern r.
Arguments readString {H} doc r.
Arguments readStringSingleQuote {H} doc r.
Arguments readNumber {H} doc checkInf r.
Arguments readCStyleComment {H} doc r.
Arguments readCppStyleComment {H} doc r.
Arguments addComment {H} doc a b placement r.
Arguments readComment {H} doc r.
Arguments readToken {H} features_ doc r.
Arguments decodeUnicodeEscapeSequence {H} doc token current e r.
Arguments decodeUnicodeCodePoint {H} doc token current e r.
Arguments decodeString_loop {H} doc fuel token current e decoded r.
Arguments decodeString_to {H} doc token r.
Arguments decodeString {H} doc token r.
Arguments install {H} p token r.
Arguments Value_of {H} p.
Arguments decodeDouble_to {H} doc token r.
Arguments decodeDouble {H} doc token r.
Arguments decodeNumber_to {H} doc token r.
Arguments decodeNumber {H} doc token r.
Arguments skipCommentTokens_loop {H} features_ doc fuel r.
Arguments skipCommentTokens {H} features_ doc fuel r.
Arguments skipComments_while {H} features_ doc fuel ok token r.
Arguments recoverFromError_loop {H} features_ doc fuel skipUntilToken errorCount r.
Arguments recoverFromError {H} features_ doc fuel skipUntilToken r.
Arguments addErrorAndRecover {H} features_ doc fuel message token skipUntilToken r.
Arguments currentValue_isMember {H} name r.
Arguments readObject_loop {H} features_ doc readValue_rec fuel name r.
Arguments readObject {H} features_ doc readValue_rec fuel tokenStart r.
Arguments readArray_loop {H} features_ doc readValue_rec fuel index r.
Arguments readArray {H} features_ doc readValue_rec fuel tokenStart r.
Arguments readValue_body {H} features_ doc readValue_rec fuel r.
Arguments readValue {H} features_ doc fuel r.
Arguments parse {H} features_ doc fuel root collectComments.

(** ** Reports of the journal

    [snprintf_d] stands for what [snprintf] writes for a ["%d"]: the C
    library is not part of this file. *)

Section Report.

Variable H : Host.
Variable snprintf_d : Z -> string.

Definition newline : string := String (ascii_of_nat 10) EmptyString.

(** [ErrorLocation::toString]: the text is cut to the 50 characters the
    buffer holds before its terminator. *)
Definition toString (location : ErrorLocation) : string :=
  substring 0 50
    ("Line " ++ snprintf_d (line_ location) ++ ", Column "
     ++ snprintf_d (column_ location))%string.

(** What [getFormattedErrorMessages] adds for one entry of the journal. *)
Definition formatError (error : ErrorInfo) : string :=
  (("* " ++ toString (token_ error) ++ newline)
   ++ ("  " ++ message_ error ++ newline)
   ++ (if line_ (extra_ error) >? 0
       then "See " ++ toString (extra_ error) ++ " for detail." ++ newline
       else ""))%string.

Definition getFormattedErrorMessages (r : OurReader H) : string :=
  fold_left (fun formattedMessage error =>
               (formattedMessage ++ formatError error)%string)
            (errors_ r) ""%string.

(** [pushError(value, message)], on the reader as the last [parse] of [doc]
    has left it. *)
Definition pushError (doc : list Z) (value : Value H) (message : string)
           (r : OurReader H) : bool * OurReader H :=
  let length := end_ doc in
  if (offsetStart value >? length) || (offsetLimit value >? length)
  then (false, r)
  else
    let info :=
      {| token_ := getLocationLineAndColumn H doc (offsetStart value);
         message_ := message;
         extra_ := noLocation |} in
    (true, set_errors r (errors_ r ++ [info])).

(** [pushError(value, message, extra)] *)
Definition pushError_extra (doc : list Z) (value : Value H) (message : string)
           (extra : Value H) (r : OurReader H) : bool * OurReader H :=
  let length := end_ doc in
  if (offsetStart value >? length) || (offsetLimit value >? length)
     || (offsetLimit extra >? length)
  then (false, r)
  else
    let info :=
      {| token_ := getLocationLineAndColumn H doc (offsetStart value);
         message_ := message;
         extra_ := getLocationLineAndColumn H doc (offsetStart extra) |} in
    (true, set_errors r (errors_ r ++ [info])).

(** [OurCharReader::parse], asked for the error text: the flag, the reader
    as it is left, and the text. *)
Definition OurCharReader_parse (features : Features) (collectComments : bool)
           (doc : list Z) (fuel : nat) (root : Value H)
  : result (bool * OurReader H * string) :=
  do (ok, r) <- parse features doc fuel root collectComments;
  Ok (ok, r, getFormattedErrorMessages r).

End Report.

Arguments getFormattedErrorMessages {H} snprintf_d r.
Arguments pushError {H} doc value message r.
Arguments pushError_extra {H} doc value message extra r.
Arguments OurCharReader_parse {H} snprintf_d features collectComments doc fuel root.

(** ** Running the reader on a text *)

(** A host to run the reader on: the C locale, a 32-bit [Value::Int], and
    a [double] kept as the text it was scanned from.  Its [sscanf_lf]
    accepts what strtod accepts at the start of a number token: an optional
    sign, then a digit, or a point and a digit. *)
Definition starts_number (l : list Z) : bool :=
  let l :=
    match l with
    | c :: l' => if (c =? c_MINUS) || (c =? c_PLUS) then l' else l
    | [] => l
    end in
  match l with
  | c :: l' =>
      if is_digit c then true
      else if c =? c_DOT then
        match l' with d :: _ => is_digit d | [] => false end
      else false
  | [] => false
  end.

Definition plainHost : Host :=
  {| double := list Z;
     sscanf_lf := fun l => if starts_number l then Some l else None;
     fixNumericLocaleInput := fun l => l;
     quiet_NaN := bytes "nan";
     infinity := bytes "inf";
     dneg := fun d => c_MINUS :: d;
     double_asString := fun d => d;
     maxInt := 2 ^ 31 - 1;
     past_the_end := fun _ => c_NUL |}.

(** [plainHost] for a document that is the front of a longer buffer, with
    a line feed as the first byte behind it. *)
Definition lineFeedBehind : Host :=
  {| double := list Z;
     sscanf_lf := fun l => if starts_number l then Some l else None;
     fixNumericLocaleInput := fun l => l;
     quiet_NaN := bytes "nan";
     infinity := bytes "inf";
     dneg := fun d => c_MINUS :: d;
     double_asString := fun d => d;
     maxInt := 2 ^ 31 - 1;
     past_the_end := fun _ => c_LF |}.

(** The bytes of a text in which every double quote is written as a
    backquote (byte 96). *)
Definition json_text (s : string) : list Z :=
  map (fun c => if c =? 96 then c_DQUOTE else c) (bytes s).

(** Fuel that lets [parse] run to its end: every round of a loop and every
    nested value reads at least one byte. *)
Definition fuel_for (doc : list Z) : nat := S (S (List.length doc)).

(** What [snprintf] writes for a ["%d"] where the evaluations need one: the
    argument is a [size_t], of which ["%d"] prints the low 32 bits as a
    signed [int]. *)
Definition decimal (z : Z) : string :=
  NilZero.string_of_int (Z.to_int (to_int z)).

Definition parse_bytes (H : Host) (features : Features) (doc : list Z)
  : result (bool * OurReader H) :=
  parse features doc (fuel_for doc) Value_null defaultCollectComments.

(** What a caller sees of a parse: the flag, the tree and the journal. *)
Definition outcome {H : Host} (res : result (bool * OurReader H))
  : result (bool * Value H * list ErrorInfo) :=
  do (ok, r) <- res; Ok (ok, root_ r, errors_ r).

Definition leaf {H : Host} (p : PayloadF H (Value H)) (a b : Z) : Value H :=
  mkValue p a b None None None.

(** The reader as [parse] sets it up on [root], with the cursor at
    [current]. *)
Definition reader_at {H : Host} (root : Value H) (collectComments : bool)
           (current : Z) : OurReader H :=
  {| root_ := root; nodes_ := [[]]; errors_ := []; current_ := current;
     lastValueEnd_ := None; lastValue_ := None; commentsBefore_ := [];
     collectComments_ := collectComments |}.

(** ** Vocabulary of the statements *)

(** The number written by a run of decimal digits, continuing from [acc]. *)
Definition digits_value_from (acc : Z) (digits : list Z) : Z :=
  fold_left (fun a c => a * 10 + (c - c_0)) digits acc.

Definition digits_value (digits : list Z) : Z := digits_value_from 0 digits.

(** The value of four hexadecimal digits. *)
Definition hex4_value (a b c d : Z) : option Z :=
  match hex_digit a, hex_digit b, hex_digit c, hex_digit d with
  | Some x, Some y, Some z, Some w => Some (((x * 16 + y) * 16 + z) * 16 + w)
  | _, _, _, _ => None
  end.

Definition is_high_surrogate (u : Z) : bool := (0xD800 <=? u) && (u <=? 0xDBFF).

(** What follows the two bytes of a unicode escape, read as the code does:
    [l] are the bytes up to the closing quote; the result is the code point
    and the number of bytes it takes, or [None] for an error.  A code unit
    in the high-surrogate range asks for a second escape, whose four digits
    are taken whatever their value. *)
Definition codePoint_spec (l : list Z) : option (Z * Z) :=
  match l with
  | h1 :: h2 :: h3 :: h4 :: rest =>
      match hex4_value h1 h2 h3 h4 with
      | None => None
      | Some high =>
          if is_high_surrogate high then
            match rest with
            | b :: u :: l1 :: l2 :: l3 :: l4 :: _ =>
                if (b =? c_BACKSLASH) && (u =? c_u) then
                  match hex4_value l1 l2 l3 l4 with
                  | Some low =>
                      Some (0x10000 + Z.shiftl (Z.land high 0x3FF) 10
                            + Z.land low 0x3FF, 10)
                  | None => None
                  end
                else None
            | _ => None
            end
          else Some (high, 4)
      end
  | _ => None
  end.

(** [skipped_until features doc kind r r']: reading tokens from [r], the
    first one of [kind] or EndOfStream is the one whose reading leaves the
    reader in [r']. *)
Inductive skipped_until {H : Host} (features : Features) (doc : list Z)
          (kind : TokenType) : OurReader H -> OurReader H -> Prop :=
| skipped_stop r token r' :
    readToken features doc r = (true, token, r') ->
    type_ token = kind \/ type_ token = tokenEndOfStream ->
    skipped_until features doc kind r r'
| skipped_step r token r1 r' :
    readToken features doc r = (true, token, r1) ->
    type_ token <> kind ->
    type_ token <> tokenEndOfStream ->
    skipped_until features doc kind r1 r' ->
    skipped_until features doc kind r r'.

(** [advances doc r r']: from [r] to [r'] the cursor has moved forward
    within the document, and the journal, the stack and the comment switch
    are as they were. *)
Definition advances {H : Host} (doc : list Z) (r r' : OurReader H) : Prop :=
  current_ r <= current_ r' <= end_ doc
  /\ errors_ r' = errors_ r
  /\ nodes_ r' = nodes_ r
  /\ collectComments_ r' = collectComments_ r.

(** The entry [parse] appends when input is left after the value. *)
Definition extraError (H : Host) (doc : list Z) (token : Token) : ErrorInfo :=
  {| token_ := getLocationLineAndColumn H doc (offsetStart_ token);
     message_ := "Extra non-whitespace after JSON value.";
     extra_ := noLocation |}.

(** The entry [parse] appends when the root must be an array or an object
    and is not. *)
Definition strictRootError (H : Host) (doc : list Z) : ErrorInfo :=
  {| token_ := getLocationLineAndColumn H doc 0;
     message_ :=
       "A valid JSON document must be either an array or an object value.";
     extra_ := noLocation |}.

(** [same_frame r r']: what reading a token leaves alone: the journal, the
    stack, the comment switch and the kind of the root. *)
Definition same_frame {H : Host} (r r' : OurReader H) : Prop :=
  errors_ r' = errors_ r
  /\ nodes_ r' = nodes_ r
  /\ collectComments_ r' = collectComments_ r
  /\ isArray (root_ r') = isArray (root_ r)
  /\ isObject (root_ r') = isObject (root_ r).

(** ** JSON texts

    The documents of the depth theorem: a syntax tree that keeps the white
    space between tokens, and the text it stands for. *)

(** One character of a string: a byte written as it is, a backslash escape,
    a unicode escape, or a surrogate pair of two unicode escapes. *)
Inductive jchar : Type :=
| Plain (c : Z)
| Escape (c : Z)
| Unicode (h1 h2 h3 h4 : Z)
| Surrogates (h1 h2 h3 h4 l1 l2 l3 l4 : Z).

Definition simple_escape (c : Z) : bool :=
  (c =? c_DQUOTE) || (c =? c_SLASH) || (c =? c_BACKSLASH) || (c =? c_b)
  || (c =? c_f) || (c =? c_n) || (c =? c_r) || (c =? c_t).

Definition is_low_surrogate (u : Z) : bool := (0xDC00 <=? u) && (u <=? 0xDFFF).

Definition jchar_ok (x : jchar) : bool :=
  match x with
  | Plain c => negb (c =? c_DQUOTE) && negb (c =? c_BACKSLASH)
  | Escape c => simple_escape c
  | Unicode h1 h2 h3 h4 =>
      match hex4_value h1 h2 h3 h4 with
      | Some u => negb (is_high_surrogate u)
      | None => false
      end
  | Surrogates h1 h2 h3 h4 l1 l2 l3 l4 =>
      match hex4_value h1 h2 h3 h4, hex4_value l1 l2 l3 l4 with
      | Some high, Some low => is_high_surrogate high && is_low_surrogate low
      | _, _ => false
      end
  end.

Definition print_jchar (x : jchar) : list Z :=
  match x with
  | Plain c => [c]
  | Escape c => [c_BACKSLASH; c]
  | Unicode h1 h2 h3 h4 => [c_BACKSLASH; c_u; h1; h2; h3; h4]
  | Surrogates h1 h2 h3 h4 l1 l2 l3 l4 =>
      [c_BACKSLASH; c_u; h1; h2; h3; h4; c_BACKSLASH; c_u; l1; l2; l3; l4]
  end.

Definition print_chars (s : list jchar) : list Z := flat_map print_jchar s.

Definition print_string (s : list jchar) : list Z :=
  c_DQUOTE :: print_chars s ++ [c_DQUOTE].

(** The bytes a character of a string stands for. *)
Definition escape_byte (c : Z) : Z :=
  if c =? c_b then c_BS
  else if c =? c_f then c_FF
  else if c =? c_n then c_LF
  else if c =? c_r then c_CR
  else if c =? c_t then c_TAB
  else c.

Definition decode_jchar (x : jchar) : list Z :=
  match x with
  | Plain c => [c]
  | Escape c => [escape_byte c]
  | Unicode h1 h2 h3 h4 =>
      match hex4_value h1 h2 h3 h4 with
      | Some u => codePointToUTF8 u
      | None => []
      end
  | Surrogates h1 h2 h3 h4 l1 l2 l3 l4 =>
      match hex4_value h1 h2 h3 h4, hex4_value l1 l2 l3 l4 with
      | Some high, Some low =>
          codePointToUTF8 (0x10000 + Z.shiftl (Z.land high 0x3FF) 10
                           + Z.land low 0x3FF)
      | _, _ => []
      end
  end.

Definition decode_chars (s : list jchar) : list Z := flat_map decode_jchar s.

(** A number: an optional minus sign, the digits of the integer part, an
    optional fraction (its digits) and an optional exponent (the letter, an
    optional sign, the digits). *)
Record jnumber : Type := {
  minus : bool;
  integer : list Z;
  fraction : option (list Z);
  exponent : option (Z * option Z * list Z)
}.

Definition digits_ok (ds : list Z) : bool :=
  negb (is_nil ds) && forallb is_digit ds.

Definition jnumber_ok (n : jnumber) : bool :=
  digits_ok (integer n)
  && match fraction n with
     | Some ds => digits_ok ds
     | None => true
     end
  && match exponent n with
     | Some (e, sign, ds) =>
         ((e =? c_e) || (e =? c_E))
         && match sign with
            | Some sg => (sg =? c_PLUS) || (sg =? c_MINUS)
            | None => true
            end
         && digits_ok ds
     | None => true
     end.

Definition print_fraction (f : option (list Z)) : list Z :=
  match f with
  | Some ds => c_DOT :: ds
  | None => []
  end.

Definition print_exponent (x : option (Z * option Z * list Z)) : list Z :=
  match x with
  | Some (e, Some sg, ds) => e :: sg :: ds
  | Some (e, None, ds) => e :: ds
  | None => []
  end.

Definition print_number (n : jnumber) : list Z :=
  (if minus n then [c_MINUS] else [])
  ++ integer n ++ print_fraction (fraction n) ++ print_exponent (exponent n).

(** Values, with the white space around the elements of an array and around
    the names and values of an object. *)
Inductive json : Type :=
| JNull
| JTrue
| JFalse
| JNumber (n : jnumber)
| JString (s : list jchar)
| JEmptyArray (ws : list Z)
| JArray (es : elements)
| JEmptyObject (ws : list Z)
| JObject (ms : members)
with elements : Type :=
| ELast (ws1 : list Z) (v : json) (ws2 : list Z)
| ECons (ws1 : list Z) (v : json) (ws2 : list Z) (es : elements)
with members : Type :=
| MLast (ws1 : list Z) (k : list jchar) (ws2 ws3 : list Z) (v : json)
        (ws4 : list Z)
| MCons (ws1 : list Z) (k : list jchar) (ws2 ws3 : list Z) (v : json)
        (ws4 : list Z) (ms : members).

Scheme json_ind' := Induction for json Sort Prop
  with elements_ind' := Induction for elements Sort Prop
  with members_ind' := Induction for members Sort Prop.

Combined Scheme json_mutind from json_ind', elements_ind', members_ind'.

Fixpoint print (v : json) : list Z :=
  match v with
  | JNull => bytes "null"
  | JTrue => bytes "true"
  | JFalse => bytes "false"
  | JNumber n => print_number n
  | JString s => print_string s
  | JEmptyArray ws => c_LBRACKET :: ws ++ [c_RBRACKET]
  | JArray es => c_LBRACKET :: print_elements es ++ [c_RBRACKET]
  | JEmptyObject ws => c_LBRACE :: ws ++ [c_RBRACE]
  | JObject ms => c_LBRACE :: print_members ms ++ [c_RBRACE]
  end
with print_elements (es : elements) : list Z :=
  match es with
  | ELast ws1 v ws2 => ws1 ++ print v ++ ws2
  | ECons ws1 v ws2 es' =>
      ws1 ++ print v ++ ws2 ++ c_COMMA :: print_elements es'
  end
with print_members (ms : members) : list Z :=
  match ms with
  | MLast ws1 k ws2 ws3 v ws4 =>
      ws1 ++ print_string k ++ ws2 ++ c_COLON :: ws3 ++ print v ++ ws4
  | MCons ws1 k ws2 ws3 v ws4 ms' =>
      ws1 ++ print_string k ++ ws2 ++ c_COLON :: ws3 ++ print v ++ ws4
      ++ c_COMMA :: print_members ms'
  end.

(** The recursion depth of a value: the number of values nested in one
    another along its deepest branch, itself included. *)
Fixpoint depth (v : json) : nat :=
  match v with
  | JArray es => S (depth_elements es)
  | JObject ms => S (depth_members ms)
  | _ => 1
  end
with depth_elements (es : elements) : nat :=
  match es with
  | ELast _ v _ => depth v
  | ECons _ v _ es' => Nat.max (depth v) (depth_elements es')
  end
with depth_members (ms : members) : nat :=
  match ms with
  | MLast _ _ _ _ v _ => depth v
  | MCons _ _ _ _ v _ ms' => Nat.max (depth v) (depth_members ms')
  end.

Definition is_ws (l : list Z) : bool := forallb is_space l.

(** Well-formed trees: white space where white space is meant, well-formed
    numbers and strings. *)
Fixpoint json_ok (v : json) : bool :=
  match v with
  | JNull | JTrue | JFalse => true
  | JNumber n => jnumber_ok n
  | JString s => forallb jchar_ok s
  | JEmptyArray ws => is_ws ws
  | JArray es => elements_ok es
  | JEmptyObject ws => is_ws ws
  | JObject ms => members_ok ms
  end
with elements_ok (es : elements) : bool :=
  match es with
  | ELast ws1 v ws2 => is_ws ws1 && json_ok v && is_ws ws2
  | ECons ws1 v ws2 es' =>
      is_ws ws1 && json_ok v && is_ws ws2 && elements_ok es'
  end
with members_ok (ms : members) : bool :=
  match ms with
  | MLast ws1 k ws2 ws3 v ws4 =>
      is_ws ws1 && forallb jchar_ok k && is_ws ws2 && is_ws ws3
      && json_ok v && is_ws ws4
  | MCons ws1 k ws2 ws3 v ws4 ms' =>
      is_ws ws1 && forallb jchar_ok k && is_ws ws2 && is_ws ws3
      && json_ok v && is_ws ws4 && members_ok ms'
  end.

(** A document: a value between white space. *)
Definition document (ws1 : list Z) (v : json) (ws2 : list Z) : list Z :=
  ws1 ++ print v ++ ws2.

(** What the host must do for numbers: its [sscanf] accepts every text that
    starts as a number does, before and after the locale fix-up. *)
Definition scans_numbers (H : Host) : Prop :=
  forall l : list Z,
    starts_number l = true ->
    sscanf_lf H l <> None /\ sscanf_lf H (fixNumericLocaleInput H l) <> None.

(** The white space before the first element of an array, and the rest of
    the text of its elements. *)
Definition elements_head (es : elements) : list Z :=
  match es with
  | ELast ws1 _ _ | ECons ws1 _ _ _ => ws1
  end.

Definition elements_body (es : elements) : list Z :=
  match es with
  | ELast _ v ws2 => print v ++ ws2
  | ECons _ v ws2 es' => print v ++ ws2 ++ c_COMMA :: print_elements es'
  end.

(** [positioned doc r l]: the bytes from the cursor of [r] to the end of the
    document are [l]. *)
Definition positioned {H : Host} (doc : list Z) (r : OurReader H) (l : list Z)
  : Prop :=
  0 <= current_ r <= end_ doc /\ suffix doc (current_ r) = l.

(** [lands r r' pos]: [r'] has its cursor at [pos], and the journal and the
    stack of [r]. *)
Definition lands {H : Host} (r r' : OurReader H) (pos : Z) : Prop :=
  current_ r' = pos /\ errors_ r' = errors_ r /\ nodes_ r' = nodes_ r.

(** The head of a text is no white space. *)
Definition solid (l : list Z) : Prop :=
  match l with
  | [] => True
  | c :: _ => is_space c = false
  end.

(** What may follow a value: nothing, or a byte that continues no number. *)
Definition follower (rest : list Z) : Prop :=
  match rest with
  | [] => True
  | c :: _ =>
      is_digit c = false /\ c <> c_DOT /\ c <> c_e /\ c <> c_E
  end.

(** [room limit r d]: with the stack of [r], a value of depth [d] stays
    within the limit. *)
Definition room {H : Host} (limit : Z) (r : OurReader H) (d : nat) : bool :=
  Z.of_nat (List.length (nodes_ r)) + Z.of_nat d - 1 <=? limit.

(** ** The tree a text stands for *)

Section Trees.

Variable H : Host.

(** The payload [decodeNumber] gives for a number literal read by itself. *)
Definition number_payload (literal : list Z) : PayloadF H (Value H) :=
  let token :=
    {| type_ := tokenNumber; offsetStart_ := 0;
       offsetEnd_ := Z.of_nat (List.length literal) |} in
  let '(_, decoded, _) :=
    decodeNumber_to literal token (reader_at Value_null false 0) in
  payload decoded.

(** [put w slot]: the value [readValue] leaves in [slot] for [w]: the
    payload and the offsets of [w], and the comments of the slot. *)
Definition put (w slot : Value H) : Value H :=
  mkValue (payload w) (offsetStart w) (offsetLimit w)
          (comment_before slot) (comment_after_on_same_line slot)
          (comment_after slot).

(** [upsert k w m]: the members [m] once [w] has been read into the member
    [k]: in the place of the member when [m] has the name, behind the other
    members when it has not. *)
Definition upsert (k : list Z) (w : Value H) (m : list (list Z * Value H))
  : list (list Z * Value H) :=
  match members_find H k m with
  | Some _ => members_modify H k (put w) m
  | None => m ++ [(k, w)]
  end.

(** The value for the text of [v] at offset [pos] of the document: its
    payload, the offsets of its text, and no comment. *)
Fixpoint tree (pos : Z) (v : json) : Value H :=
  let limit := pos + Z.of_nat (List.length (print v)) in
  match v with
  | JNull => leaf nullValue pos limit
  | JTrue => leaf (booleanValue true) pos limit
  | JFalse => leaf (booleanValue false) pos limit
  | JNumber n => leaf (number_payload (print_number n)) pos limit
  | JString s => leaf (stringValue (decode_chars s)) pos limit
  | JEmptyArray _ => leaf (arrayValue []) pos limit
  | JArray es =>
      leaf (arrayValue
              (trees_elements (pos + 1 + Z.of_nat (List.length (elements_head es)))
                              es))
           pos limit
  | JEmptyObject _ => leaf (objectValue []) pos limit
  | JObject ms =>
      leaf (objectValue (trees_members [] (pos + 1) ms)) pos limit
  end
(** [pos] is the offset of the first element's value. *)
with trees_elements (pos : Z) (es : elements) : list (Value H) :=
  match es with
  | ELast _ v _ => [tree pos v]
  | ECons _ v ws2 es' =>
      tree pos v
      :: trees_elements
           (pos + Z.of_nat (List.length (print v))
            + Z.of_nat (List.length ws2) + 1
            + Z.of_nat (List.length (elements_head es')))
           es'
  end
(** [pos] is the offset of the white space before the first name, and [m]
    are the members read before it. *)
with trees_members (m : list (list Z * Value H)) (pos : Z) (ms : members)
  : list (list Z * Value H) :=
  match ms with
  | MLast ws1 k ws2 ws3 v _ =>
      upsert (decode_chars k)
             (tree (pos + Z.of_nat (List.length ws1)
                    + Z.of_nat (List.length (print_string k))
                    + Z.of_nat (List.length ws2) + 1
                    + Z.of_nat (List.length ws3)) v)
             m
  | MCons ws1 k ws2 ws3 v ws4 ms' =>
      trees_members
        (upsert (decode_chars k)
                (tree (pos + Z.of_nat (List.length ws1)
                       + Z.of_nat (List.length (print_string k))
                       + Z.of_nat (List.length ws2) + 1
                       + Z.of_nat (List.length ws3)) v)
                m)
        (pos + Z.of_nat (List.length ws1)
         + Z.of_nat (List.length (print_string k))
         + Z.of_nat (List.length ws2) + 1
         + Z.of_nat (List.length ws3)
         + Z.of_nat (List.length (print v))
         + Z.of_nat (List.length ws4) + 1)
        ms'
  end.

(** [yields r r' pos root']: [r'] is [r] with the cursor at [pos] and the
    tree [root']; the last value noted for the comments may differ. *)
Definition yields (r r' : OurReader H) (pos : Z) (root' : Value H) : Prop :=
  current_ r' = pos
  /\ root_ r' = root'
  /\ errors_ r' = errors_ r
  /\ nodes_ r' = nodes_ r
  /\ commentsBefore_ r' = commentsBefore_ r
  /\ collectComments_ r' = collectComments_ r.

End Trees.

Arguments number_payload {H} literal.
Arguments tree {H} pos v.
Arguments trees_elements {H} pos es.
Arguments trees_members {H} m pos ms.
Arguments upsert {H} k w m.
Arguments put {H} w slot.
Arguments yields {H} r r' pos root'.

(** The names of the members of an object, decoded. *)
Fixpoint member_names (ms : members) : list (list Z) :=
  match ms with
  | MLast _ k _ _ _ _ => [decode_chars k]
  | MCons _ k _ _ _ _ ms' => decode_chars k :: member_names ms'
  end.

(** No object of the text has two members of the same name. *)
Fixpoint names_distinct (v : json) : Prop :=
  match v with
  | JArray es => names_distinct_elements es
  | JObject ms => NoDup (member_names ms) /\ names_distinct_members ms
  | _ => True
  end
with names_distinct_elements (es : elements) : Prop :=
  match es with
  | ELast _ v _ => names_distinct v
  | ECons _ v _ es' => names_distinct v /\ names_distinct_elements es'
  end
with names_distinct_members (ms : members) : Prop :=
  match ms with
  | MLast _ _ _ _ v _ => names_distinct v
  | MCons _ _ _ _ v _ ms' => names_distinct v /\ names_distinct_members ms'
  end.

Definition is_container (v : json) : bool :=
  match v with
  | JEmptyArray _ | JArray _ | JEmptyObject _ | JObject _ => true
  | _ => false
  end.

(** ** Vocabulary of the run of the parser *)

(** [reports r r' ok]: after a success the journal of [r'] is the one of
    [r]; after a failure it has one more entry. *)
Definition reports {H : Host} (r r' : OurReader H) (ok : bool) : Prop :=
  if ok then errors_ r' = errors_ r
  else exists info, errors_ r' = errors_ r ++ [info].

(** The bytes between the cursor and the end of the document. *)
Definition bytes_left {H : Host} (doc : list Z) (r : OurReader H) : nat :=
  Z.to_nat (end_ doc - current_ r).

(** The messages of the two fatal errors of the reader. *)
Definition is_fatal_message (message : string) : Prop :=
  message = "Exceeded stackLimit in readValue()."%string
  \/ message = "keylength >= 2^30"%string.

(** [settled doc r res]: the run from [r] has come to an end with [res]: a
    fatal error of the reader, or a reader whose cursor is not behind the
    one of [r] and within the document, with the stack and the comment
    switch of [r], and with the journal as [reports] says. *)
Definition settled {H : Host} (doc : list Z) (r : OurReader H)
           (res : result (bool * OurReader H)) : Prop :=
  match res with
  | Ok (ok, r') =>
      current_ r <= current_ r' <= end_ doc
      /\ nodes_ r' = nodes_ r
      /\ collectComments_ r' = collectComments_ r
      /\ reports r r' ok
  | Fatal message => is_fatal_message message
  | OutOfFuel => False
  end.

(** ** Vocabulary of the locations *)

(** The line breaks of a text without carriage returns, and the bytes
    behind its last line break, counted on from [acc]. *)
Definition line_breaks (l : list Z) : Z :=
  Z.of_nat (count_occ Z.eq_dec l c_LF).

Definition bytes_in_last_line (acc : Z) (l : list Z) : Z :=
  fold_left (fun a c => if c =? c_LF then 0 else a + 1) l acc.

(** The line ends of a text with carriage returns: a line feed is one,
    and so is a carriage return with no line feed behind it; a carriage
    return and the line feed behind it are one line end together. *)
Fixpoint line_ends (l : list Z) : Z :=
  match l with
  | [] => 0
  | c :: l' =>
      (if c =? c_LF then 1
       else if c =? c_CR then
         match l' with
         | c' :: _ => if c' =? c_LF then 0 else 1
         | [] => 1
         end
       else 0)
      + line_ends l'
  end.

(** The bytes behind the last line feed or carriage return of a text,
    counted on from [acc]. *)
Definition bytes_behind_line_end (acc : Z) (l : list Z) : Z :=
  fold_left (fun a c => if (c =? c_LF) || (c =? c_CR) then 0 else a + 1) l acc.

(** The last byte of the text is a carriage return. *)
Definition ends_in_CR (l : list Z) : bool := last l c_NUL =? c_CR.

(** ** Vocabulary of the comments *)

(** [l] holds no [*/]. *)
Definition no_comment_end (l : list Z) : Prop :=
  forall body rest : list Z, l <> body ++ c_STAR :: c_SLASH :: rest.

(** [l] holds no end of line. *)
Definition no_eol (l : list Z) : Prop :=
  Forall (fun c => c <> c_LF /\ c <> c_CR) l.

(** * Facts *)

Lemma skipn_cons_inv {A : Type} (d : A) (n : nat) (l : list A) (c : A)
      (rest : list A) :
  skipn n l = c :: rest ->
  nth n l d = c /\ (n < List.length l)%nat /\ skipn (S n) l = rest.
Proof.
  revert l. induction n as [|n IH]; intros l Hs.
  - destruct l; simpl in *; [discriminate|]. inversion Hs; subst.
    repeat split; lia.
  - destruct l as [|x l]; simpl in Hs; [discriminate|].
    destruct (IH l Hs) as (A1 & B1 & C1). simpl. repeat split; auto; lia.
Qed.

Lemma list_length_ind {A : Type} (P : list A -> Prop) :
  (forall l, (forall l', (List.length l' < List.length l)%nat -> P l') -> P l) ->
  forall l, P l.
Proof.
  intros Hstep l.
  assert (G : forall n l, (List.length l < n)%nat -> P l).
  { induction n as [|n IH]; intros l0 Hl; [lia|].
    apply Hstep. intros l' Hl'. apply IH. lia. }
  apply (G (S (List.length l))). lia.
Qed.

Section Facts.

Variable H : Host.
Variable features_ : Features.
Variable doc : list Z.

Local Abbreviation end_ := (end_ doc).
Local Abbreviation suffix := (suffix doc).
Local Abbreviation slice := (slice doc).
Local Abbreviation at_ := (at_ doc).
Local Abbreviation OurReader := (OurReader H).

Lemma suffix_cons (i c : Z) (rest : list Z) :
  0 <= i -> suffix i = c :: rest ->
  at_ i = c /\ i < end_ /\ suffix (i + 1) = rest.
Proof.
  unfold suffix, at_, end_. intros Hi Hs.
  replace (Z.to_nat (i + 1)) with (S (Z.to_nat i)) by lia.
  destruct (skipn_cons_inv c_NUL _ _ _ _ Hs) as (A1 & B1 & C1).
  repeat split; auto; lia.
Qed.


Lemma suffix_app (i : Z) (a b : list Z) :
  0 <= i -> suffix i = a ++ b -> suffix (i + Z.of_nat (List.length a)) = b.
Proof.
  revert i. induction a as [|x a IH]; intros i Hi Hs.
  - simpl. now rewrite Z.add_0_r.
  - simpl in Hs. destruct (suffix_cons _ _ _ Hi Hs) as (_ & _ & Hs').
    apply IH in Hs'; [|lia].
    rewrite <- Hs'. f_equal. simpl List.length. lia.
Qed.

Lemma slice_cons (a b c : Z) (rest : list Z) :
  0 <= a -> slice a b = c :: rest ->
  at_ a = c /\ a < b /\ slice (a + 1) b = rest.
Proof.
  unfold slice. intros Ha Hs.
  destruct (Z.to_nat (b - a)) as [|k] eqn:Hk; [discriminate|].
  destruct (suffix a) as [|x l] eqn:Hsuf; [discriminate|].
  simpl in Hs. inversion Hs; subst.
  destruct (suffix_cons _ _ _ Ha Hsuf) as (A1 & _ & C1).
  rewrite C1. replace (Z.to_nat (b - (a + 1))) with k by lia.
  repeat split; auto; lia.
Qed.

Lemma slice_nil_at (a : Z) : slice a a = [].
Proof. unfold slice. now rewrite Z.sub_diag. Qed.

(** *** The integer path of the number decoder *)

Lemma digits_value_from_cons (v c : Z) (ds : list Z) :
  digits_value_from v (c :: ds) = digits_value_from (v * 10 + (c - c_0)) ds.
Proof. reflexivity. Qed.

Lemma is_digit_range (c : Z) : is_digit c = true -> 48 <= c <= 57.
Proof.
  unfold is_digit, c_0, c_9. intros E. apply andb_prop in E as [E1 E2].
  apply Z.leb_le in E1, E2. lia.
Qed.

Lemma digits_value_from_ge (ds : list Z) (v : Z) :
  forallb is_digit ds = true -> 0 <= v ->
  v <= digits_value_from v ds
  /\ (ds <> [] -> 10 * v <= digits_value_from v ds).
Proof.
  revert v. induction ds as [|c ds IH]; intros v Hd Hv.
  - split; [unfold digits_value_from; simpl; lia | congruence].
  - simpl in Hd. apply andb_prop in Hd as [Hc Hd].
    apply is_digit_range in Hc. rewrite digits_value_from_cons.
    unfold c_0. destruct (IH (v * 10 + (c - 48)) Hd) as [I1 _]; lia.
Qed.

Lemma decodeNumber_loop_spec (M : Z) (ds : list Z) (v : Z) :
  10 <= M < 2 ^ 64 ->
  forallb is_digit ds = true -> 0 <= v <= M ->
  decodeNumber_loop ds M (M / 10) v =
    if digits_value_from v ds <=? M then Some (digits_value_from v ds)
    else None.
Proof.
  intros HM. revert v. induction ds as [|c ds IH]; intros v Hd Hv.
  - simpl. unfold digits_value_from; simpl.
    destruct (Z.leb_spec v M); [reflexivity | lia].
  - simpl in Hd. apply andb_prop in Hd as [Hc Hd].
    pose proof (is_digit_range _ Hc) as Hr.
    rewrite digits_value_from_cons.
    pose proof (Z.div_mod M 10 ltac:(lia)) as Hdm.
    pose proof (Z.mod_pos_bound M 10 ltac:(lia)) as Hmb.
    assert (HT : 1 <= M / 10) by (apply Z.div_le_lower_bound; lia).
    destruct (digits_value_from_ge ds (v * 10 + (c - c_0)) Hd
                ltac:(unfold c_0; lia)) as [G1 G2].
    simpl decodeNumber_loop. unfold c_0, c_9 in *.
    replace ((c <? 48) || (c >? 57)) with false
      by (symmetry; apply orb_false_intro; lia).
    destruct (v >=? M / 10) eqn:E1; simpl.
    + apply Z.geb_le in E1.
      destruct (v >? M / 10) eqn:E2; simpl.
      * apply Z.gtb_lt in E2.
        destruct (Z.leb_spec (digits_value_from (v * 10 + (c - 48)) ds) M);
          [lia | reflexivity].
      * assert (v = M / 10) by lia. subst v.
        destruct ds as [|c' ds]; simpl is_nil; simpl negb; simpl orb.
        -- destruct (c - 48 >? M mod 10) eqn:E3.
           ++ apply Z.gtb_lt in E3. unfold digits_value_from; simpl.
              destruct (Z.leb_spec (M / 10 * 10 + (c - 48)) M);
                [lia | reflexivity].
           ++ assert (c - 48 <= M mod 10) by lia.
              unfold to_LargestUInt. rewrite Z.mod_small by lia.
              rewrite IH; auto. lia.
        -- specialize (G2 ltac:(congruence)).
           destruct (Z.leb_spec
                       (digits_value_from (M / 10 * 10 + (c - 48)) (c' :: ds)) M);
             [lia | reflexivity].
    + assert (v < M / 10) by lia.
      unfold to_LargestUInt. rewrite Z.mod_small by lia.
      rewrite IH; auto. lia.
Qed.


(** A number token made of an optional minus
    sign and decimal digits whose magnitude does not exceed the allowed
    maximum (the magnitude of the least signed integer when negative, the
    greatest unsigned integer otherwise) decodes to a signed integer when the
    literal is negative, to a signed integer when the value does not exceed
    [Value::maxInt], and to an unsigned integer otherwise; a literal whose
    magnitude exceeds the maximum is handed to the double path. *)
Lemma decodeNumber_to_spec (token : Token) (r : OurReader)
      (negative : bool) (digits : list Z) :
  0 <= maxInt H <= maxLargestInt ->
  0 <= offsetStart_ token ->
  slice (offsetStart_ token) (offsetEnd_ token)
  = (if negative then [c_MINUS] else []) ++ digits ->
  forallb is_digit digits = true ->
  negative = true \/ digits <> [] ->
  decodeNumber_to doc token r =
    let magnitude := digits_value digits in
    if magnitude <=? (if negative then - minLargestInt else maxLargestUInt)
    then
      (true,
       Value_of (if negative then intValue (- magnitude)
                 else if magnitude <=? maxInt H then intValue magnitude
                      else uintValue magnitude),
       r)
    else decodeDouble_to doc token r.
Proof.
  intros HmaxInt Hstart Hslice Hdigits Hshape.
  unfold decodeNumber_to, maxLargestInt, minLargestInt, maxLargestUInt in *.
  pose proof (digits_value_from_ge digits 0 Hdigits ltac:(lia)) as [Hge _].
  fold (digits_value digits) in Hge.
  destruct negative.
  - (* the literal starts with the minus sign *)
    simpl app in Hslice.
    destruct (slice_cons _ _ _ _ Hstart Hslice) as (Hat & _ & Hrest).
    rewrite Hat, Z.eqb_refl, Hrest.
    change (to_LargestUInt (- - 2 ^ 63)) with (2 ^ 63).
    rewrite (decodeNumber_loop_spec (2 ^ 63)) by (auto; lia).
    fold (digits_value digits). cbv zeta.
    change (- - 2 ^ 63) with (2 ^ 63).
    destruct (Z.leb_spec (digits_value digits) (2 ^ 63)); [|reflexivity].
    do 3 f_equal. unfold to_LargestInt.
    destruct (Z.eq_dec (digits_value digits) (2 ^ 63)) as [E|E].
    + rewrite E. reflexivity.
    + rewrite (Z.mod_small (digits_value digits + 2 ^ 63)) by lia.
      replace (- (digits_value digits + 2 ^ 63 - 2 ^ 63) + 2 ^ 63)
        with (2 ^ 63 - digits_value digits) by lia.
      rewrite Z.mod_small by lia. f_equal. lia.
  - (* the literal starts with a digit *)
    destruct Hshape as [|Hne]; [discriminate|].
    destruct digits as [|c ds]; [congruence|].
    simpl app in Hslice.
    destruct (slice_cons _ _ _ _ Hstart Hslice) as (Hat & _ & _).
    rewrite Hat. simpl in Hdigits. apply andb_prop in Hdigits as [Hc Hds].
    pose proof (is_digit_range _ Hc) as Hr.
    replace (c =? c_MINUS) with false
      by (symmetry; apply Z.eqb_neq; unfold c_MINUS; lia).
    rewrite Hslice.
    rewrite (decodeNumber_loop_spec (2 ^ 64 - 1))
      by (simpl; try rewrite Hc; auto; lia).
    fold (digits_value (c :: ds)). cbv zeta.
    destruct (Z.leb_spec (digits_value (c :: ds)) (2 ^ 64 - 1)); [|reflexivity].
    unfold to_LargestUInt. rewrite (Z.mod_small (maxInt H)) by lia.
    destruct (Z.leb_spec (digits_value (c :: ds)) (maxInt H)); [|reflexivity].
    do 4 f_equal. unfold to_LargestInt.
    rewrite Z.mod_small by lia. lia.
Qed.

(** C2, as the code has it.  A number token made of an optional minus
    sign and decimal digits whose magnitude does not exceed the allowed
    maximum (the magnitude of the least signed integer when negative, the
    greatest unsigned integer otherwise) decodes to a signed integer when the
    literal is negative, to a signed integer when the value does not exceed
    [Value::maxInt], and to an unsigned integer otherwise; a literal whose
    magnitude exceeds the maximum is handed to the double path. *)
Theorem decodeNumber_promotion (token : Token) (r : OurReader)
        (negative : bool) (digits : list Z) :
  0 <= maxInt H <= maxLargestInt ->
  0 <= offsetStart_ token ->
  slice (offsetStart_ token) (offsetEnd_ token)
  = (if negative then [c_MINUS] else []) ++ digits ->
  forallb is_digit digits = true ->
  negative = true \/ digits <> [] ->
  decodeNumber_to doc token r =
    let magnitude := digits_value digits in
    if magnitude <=? (if negative then - minLargestInt else maxLargestUInt)
    then
      (true,
       Value_of (if negative then intValue (- magnitude)
                 else if magnitude <=? maxInt H then intValue magnitude
                      else uintValue magnitude),
       r)
    else decodeDouble_to doc token r.
Proof. exact (decodeNumber_to_spec token r negative digits). Qed.

(** *** The string decoder *)

Lemma slice_length (a b : Z) :
  0 <= a -> a <= b -> b <= end_ -> Z.of_nat (List.length (slice a b)) = b - a.
Proof.
  unfold slice, suffix, end_. intros.
  rewrite length_firstn, length_skipn. lia.
Qed.

Lemma hex_loop_position (n : nat) (cur u v : Z) (cur' : Z) :
  decodeUnicodeEscapeSequence_loop doc n cur u = (Some v, cur') ->
  cur' = cur + Z.of_nat n.
Proof.
  revert cur u. induction n as [|n IH]; intros cur u E; simpl in E.
  - inversion E. lia.
  - destruct (hex_digit (at_ cur)); [|discriminate].
    apply IH in E. lia.
Qed.

Lemma decodeUnicodeEscapeSequence_spec (token : Token) (cur e : Z)
      (r : OurReader) :
  0 <= cur -> cur <= e -> e <= end_ ->
  match slice cur e with
  | h1 :: h2 :: h3 :: h4 :: _ =>
      match hex4_value h1 h2 h3 h4 with
      | Some u =>
          decodeUnicodeEscapeSequence doc token cur e r = (true, cur + 4, u, r)
      | None =>
          exists cur' info,
          decodeUnicodeEscapeSequence doc token cur e r
          = (false, cur', 0, set_errors r (errors_ r ++ [info]))
      end
  | _ =>
      exists info,
      decodeUnicodeEscapeSequence doc token cur e r
      = (false, cur, 0, set_errors r (errors_ r ++ [info]))
  end.
Proof.
  intros H0 H1 H2. pose proof (slice_length cur e H0 H1 H2) as HL.
  unfold decodeUnicodeEscapeSequence.
  destruct (slice cur e) as [|h1 [|h2 [|h3 [|h4 rest]]]] eqn:Hs;
    simpl List.length in HL;
    try (replace (e - cur <? 4) with true by (symmetry; apply Z.ltb_lt; lia);
         simpl; eexists; reflexivity).
  replace (e - cur <? 4) with false by (symmetry; apply Z.ltb_ge; lia).
  destruct (slice_cons _ _ _ _ H0 Hs) as (A1 & _ & S1).
  destruct (slice_cons (cur + 1) _ _ _ ltac:(lia) S1) as (A2 & _ & S2).
  destruct (slice_cons (cur + 1 + 1) _ _ _ ltac:(lia) S2) as (A3 & _ & S3).
  destruct (slice_cons (cur + 1 + 1 + 1) _ _ _ ltac:(lia) S3) as (A4 & _ & _).
  unfold hex4_value. simpl decodeUnicodeEscapeSequence_loop.
  rewrite A1. destruct (hex_digit h1) as [x|];
    [|simpl; do 2 eexists; reflexivity].
  rewrite A2. destruct (hex_digit h2) as [y|];
    [|simpl; do 2 eexists; reflexivity].
  rewrite A3. destruct (hex_digit h3) as [z|];
    [|simpl; do 2 eexists; reflexivity].
  rewrite A4. destruct (hex_digit h4) as [w|];
    [|simpl; do 2 eexists; reflexivity].
  replace (cur + 1 + 1 + 1 + 1) with (cur + 4) by lia. reflexivity.
Qed.

Lemma slice_drop (a b : Z) (x y : list Z) :
  0 <= a -> slice a b = x ++ y ->
  slice (a + Z.of_nat (List.length x)) b = y.
Proof.
  revert a. induction x as [|c x IH]; intros a Ha Hs.
  - simpl. now rewrite Z.add_0_r.
  - simpl in Hs. destruct (slice_cons _ _ _ _ Ha Hs) as (_ & _ & Hs').
    apply IH in Hs'; [|lia]. rewrite <- Hs'. f_equal.
    simpl List.length. lia.
Qed.

Lemma decodeUnicodeCodePoint_spec (token : Token) (cur e : Z) (r : OurReader) :
  0 <= cur -> cur <= e -> e <= end_ ->
  match codePoint_spec (slice cur e) with
  | Some (cp, n) =>
      decodeUnicodeCodePoint doc token cur e r = (true, cur + n, cp, r)
  | None =>
      exists cur' u info,
      decodeUnicodeCodePoint doc token cur e r
      = (false, cur', u, set_errors r (errors_ r ++ [info]))
  end.
Proof.
  intros H0 H1 H2.
  pose proof (decodeUnicodeEscapeSequence_spec token cur e r H0 H1 H2) as D1.
  pose proof (slice_length cur e H0 H1 H2) as HL.
  unfold codePoint_spec, decodeUnicodeCodePoint.
  destruct (slice cur e) as [|h1 [|h2 [|h3 [|h4 rest]]]] eqn:Hs;
    try (destruct D1 as (info & ->); simpl; do 3 eexists; reflexivity).
  destruct (hex4_value h1 h2 h3 h4) as [high|];
    [|destruct D1 as (c' & info & ->); simpl; do 3 eexists; reflexivity].
  rewrite D1. simpl negb. cbv iota. fold (is_high_surrogate high).
  destruct (is_high_surrogate high); [|reflexivity].
  pose proof (slice_drop cur e [h1; h2; h3; h4] rest H0 Hs) as Hs'.
  simpl List.length in Hs', HL.
  replace (cur + Z.of_nat 4) with (cur + 4) in Hs' by lia.
  assert (HL' : Z.of_nat (List.length rest) = e - (cur + 4)) by lia.
  pose proof (decodeUnicodeEscapeSequence_spec token (cur + 6) e r) as D2.
  destruct rest as [|b [|u [|l1 [|l2 [|l3 [|l4 rest']]]]]];
    simpl List.length in HL';
    try (replace (e - (cur + 4) <? 6) with true
           by (symmetry; apply Z.ltb_lt; lia);
         simpl; do 3 eexists; reflexivity).
  replace (e - (cur + 4) <? 6) with false by (symmetry; apply Z.ltb_ge; lia).
  destruct (slice_cons (cur + 4) _ _ _ ltac:(lia) Hs') as (A1 & _ & S1).
  destruct (slice_cons (cur + 4 + 1) _ _ _ ltac:(lia) S1) as (A2 & _ & S2).
  replace (cur + 4 + 1 + 1) with (cur + 6) in * by lia.
  rewrite A1. specialize (D2 ltac:(lia) ltac:(lia) H2). rewrite S2 in D2.
  destruct (b =? c_BACKSLASH); simpl andb;
    [|simpl; do 3 eexists; reflexivity].
  rewrite A2.
  destruct (u =? c_u); [|simpl; do 3 eexists; reflexivity].
  replace (cur + 4 + 1 + 1) with (cur + 6) by lia.
  destruct (hex4_value l1 l2 l3 l4) as [low|].
  - rewrite D2. replace (cur + 6 + 4) with (cur + 10) by lia. reflexivity.
  - destruct D2 as (c' & info & ->). do 3 eexists. reflexivity.
Qed.

(** At a unicode escape (a backslash and the letter
    u) the string decoder reads four hexadecimal digits; when they give a
    code unit in the high-surrogate range [0xD800, 0xDBFF], the next six
    bytes must be a second unicode escape, whose four digits are taken
    whatever their value, and the code point
    0x10000 + ((high & 0x3FF) << 10) + (low & 0x3FF) is emitted as UTF-8;
    a high surrogate followed by fewer than six bytes, or by bytes that are
    not such an escape, is an error; any other code unit, a lone low
    surrogate included, is emitted as UTF-8 by itself. *)
Lemma decodeString_loop_unicode (fuel : nat) (token : Token) (cur e : Z)
      (decoded : list Z) (r : OurReader) (tail : list Z) :
  0 <= cur -> e <= end_ ->
  slice cur e = c_BACKSLASH :: c_u :: tail ->
  match codePoint_spec tail with
  | Some (cp, n) =>
      decodeString_loop doc (S fuel) token cur e decoded r
      = decodeString_loop doc fuel token (cur + 2 + n) e
                          (decoded ++ codePointToUTF8 cp) r
  | None =>
      exists info,
      decodeString_loop doc (S fuel) token cur e decoded r
      = Ok (false, decoded, set_errors r (errors_ r ++ [info]))
  end.
Proof.
  intros H0 H2 Hs.
  destruct (slice_cons _ _ _ _ H0 Hs) as (A1 & L1 & S1).
  destruct (slice_cons (cur + 1) _ _ _ ltac:(lia) S1) as (A2 & L2 & S2).
  replace (cur + 1 + 1) with (cur + 2) in * by lia.
  pose proof (decodeUnicodeCodePoint_spec token (cur + 2) e r
                ltac:(lia) ltac:(lia) H2) as D.
  rewrite S2 in D.
  assert (E : decodeString_loop doc (S fuel) token cur e decoded r
             = (let '(ok, current, unicode, r0) :=
                  decodeUnicodeCodePoint doc token (cur + 2) e r in
                if ok
                then decodeString_loop doc fuel token current e
                       (decoded ++ codePointToUTF8 unicode) r0
                else Ok (false, decoded, r0))).
  { simpl decodeString_loop.
    replace (cur =? e) with false by (symmetry; apply Z.eqb_neq; lia).
    rewrite A1. change (c_BACKSLASH =? c_DQUOTE) with false.
    change (c_BACKSLASH =? c_BACKSLASH) with true. cbv iota.
    replace (cur + 1 =? e) with false by (symmetry; apply Z.eqb_neq; lia).
    rewrite A2.
    replace (cur + 1 + 1) with (cur + 2) by lia. reflexivity. }
  rewrite E. clear E.
  destruct (codePoint_spec tail) as [[cp n]|].
  - rewrite D. reflexivity.
  - destruct D as (c' & u & info & ->). exists info. reflexivity.
Qed.

(** C3, as the code has it.  At a unicode escape (a backslash and the letter
    u) the string decoder reads four hexadecimal digits; when they give a
    code unit in the high-surrogate range [0xD800, 0xDBFF], the next six
    bytes must be a second unicode escape, whose four digits are taken
    whatever their value, and the code point
    0x10000 + ((high & 0x3FF) << 10) + (low & 0x3FF) is emitted as UTF-8;
    a high surrogate followed by fewer than six bytes, or by bytes that are
    not such an escape, is an error; any other code unit, a lone low
    surrogate included, is emitted as UTF-8 by itself. *)
Theorem decodeString_unicode_escape (fuel : nat) (token : Token) (cur e : Z)
        (decoded : list Z) (r : OurReader) (tail : list Z) :
  0 <= cur -> e <= end_ ->
  slice cur e = c_BACKSLASH :: c_u :: tail ->
  match codePoint_spec tail with
  | Some (cp, n) =>
      decodeString_loop doc (S fuel) token cur e decoded r
      = decodeString_loop doc fuel token (cur + 2 + n) e
                          (decoded ++ codePointToUTF8 cp) r
  | None =>
      exists info,
      decodeString_loop doc (S fuel) token cur e decoded r
      = Ok (false, decoded, set_errors r (errors_ r ++ [info]))
  end.
Proof. exact (decodeString_loop_unicode fuel token cur e decoded r tail). Qed.

Lemma decodeUnicodeEscapeSequence_extend (token token' : Token)
      (cur e' e c u : Z) (r r' : OurReader) :
  decodeUnicodeEscapeSequence doc token' cur e' r = (true, c, u, r') ->
  e' <= e ->
  decodeUnicodeEscapeSequence doc token cur e r = (true, c, u, r)
  /\ r' = r /\ c = cur + 4 /\ cur + 4 <= e'.
Proof.
  unfold decodeUnicodeEscapeSequence. intros E Hle.
  destruct (Z.ltb_spec (e' - cur) 4); [simpl in E; discriminate|].
  replace (e - cur <? 4) with false by (symmetry; apply Z.ltb_ge; lia).
  destruct (decodeUnicodeEscapeSequence_loop doc 4 cur 0) as [[v|] c0] eqn:EL;
    [|simpl in E; discriminate].
  apply hex_loop_position in EL. inversion E; subst.
  repeat split; auto; lia.
Qed.

Lemma decodeUnicodeCodePoint_extend (token token' : Token)
      (cur e' e c u : Z) (r r' : OurReader) :
  decodeUnicodeCodePoint doc token' cur e' r = (true, c, u, r') ->
  e' <= e ->
  decodeUnicodeCodePoint doc token cur e r = (true, c, u, r)
  /\ r' = r /\ cur < c <= e'.
Proof.
  unfold decodeUnicodeCodePoint. intros E Hle.
  destruct (decodeUnicodeEscapeSequence doc token' cur e' r)
    as [[[ok1 c1] u1] r1] eqn:E1.
  destruct ok1; [|simpl in E; discriminate].
  destruct (decodeUnicodeEscapeSequence_extend token _ _ _ e _ _ _ _ E1 Hle)
    as (-> & -> & -> & B1).
  simpl negb in *. cbv iota in *.
  destruct ((55296 <=? u1) && (u1 <=? 56319)).
  - destruct (Z.ltb_spec (e' - (cur + 4)) 6); [simpl in E; discriminate|].
    replace (e - (cur + 4) <? 6) with false
      by (symmetry; apply Z.ltb_ge; lia).
    destruct (at_ (cur + 4) =? c_BACKSLASH); [|simpl in E; discriminate].
    destruct (at_ (cur + 4 + 1) =? c_u); [|simpl in E; discriminate].
    destruct (decodeUnicodeEscapeSequence doc token' (cur + 4 + 1 + 1) e' r)
      as [[[ok2 c2] u2] r2] eqn:E2.
    destruct ok2; [|discriminate].
    destruct (decodeUnicodeEscapeSequence_extend token _ _ _ e _ _ _ _ E2 Hle)
      as (-> & -> & -> & B2).
    set (cp := _ + Z.land u2 _) in *. clearbody cp.
    injection E as Ec Eu Er. subst c u r'.
    split; [reflexivity|]. split; [reflexivity|]. lia.
  - injection E as Ec Eu Er. subst c u r'.
    split; [reflexivity|]. split; [reflexivity|]. lia.
Qed.

Lemma decodeString_loop_extend (token token' : Token) (e' e : Z)
      (r : OurReader) :
  e' < e -> at_ e' = c_DQUOTE ->
  forall (fuel : nat) (cur : Z) (decoded dec : list Z) (r' : OurReader)
         (fuel' : nat),
    cur <= e' ->
    decodeString_loop doc fuel token' cur e' decoded r = Ok (true, dec, r') ->
    (fuel < fuel')%nat ->
    decodeString_loop doc fuel' token cur e decoded r = Ok (true, dec, r)
    /\ r' = r.
Proof.
  intros Hlt Hq. induction fuel as [|fuel IH];
    intros cur decoded dec r' fuel' Hcur E Hfuel;
    (destruct fuel' as [|fuel']; [lia|]).
  - simpl in E. destruct (Z.eqb_spec cur e'); [|discriminate].
    inversion E; subst. simpl.
    replace (e' =? e) with false by (symmetry; apply Z.eqb_neq; lia).
    rewrite Hq. change (c_DQUOTE =? c_DQUOTE) with true. auto.
  - simpl in E. simpl.
    destruct (Z.eqb_spec cur e') as [->|Hne].
    + inversion E; subst.
      replace (e' =? e) with false by (symmetry; apply Z.eqb_neq; lia).
      rewrite Hq. change (c_DQUOTE =? c_DQUOTE) with true. auto.
    + replace (cur =? e) with false by (symmetry; apply Z.eqb_neq; lia).
      destruct (at_ cur =? c_DQUOTE); [inversion E; subst; auto|].
      destruct (at_ cur =? c_BACKSLASH).
      * destruct (Z.eqb_spec (cur + 1) e'); [simpl in E; discriminate|].
        replace (cur + 1 =? e) with false
          by (symmetry; apply Z.eqb_neq; lia).
        repeat match goal with
               | |- context [if ?c =? ?d then _ else _] =>
                   destruct (c =? d);
                   [apply (IH (cur + 1 + 1) _ _ _ fuel' ltac:(lia) E ltac:(lia))|]
               end.
        destruct (at_ (cur + 1) =? c_u); [|simpl in E; discriminate].
        destruct (decodeUnicodeCodePoint doc token' (cur + 1 + 1) e' r)
          as [[[ok1 c1] u1] r1] eqn:E1.
        destruct ok1; [|discriminate].
        destruct (decodeUnicodeCodePoint_extend token _ _ _ e _ _ _ _ E1
                    ltac:(lia)) as (-> & -> & B1).
        apply (IH c1 _ _ _ fuel' ltac:(lia) E ltac:(lia)).
      * apply (IH (cur + 1) _ _ _ fuel' ltac:(lia) E ltac:(lia)).
Qed.


(** *** The tokenizer moves forward *)

Local Abbreviation advances := (advances doc).

Lemma suffix_length (i : Z) :
  0 <= i <= end_ -> i + Z.of_nat (List.length (suffix i)) = end_.
Proof. unfold suffix, end_. intros. rewrite length_skipn. lia. Qed.

Lemma advances_refl (r : OurReader) : current_ r <= end_ -> advances r r.
Proof. unfold advances. intuition lia. Qed.

Lemma advances_trans (r1 r2 r3 : OurReader) :
  advances r1 r2 -> advances r2 r3 -> advances r1 r3.
Proof. unfold advances. intuition (try congruence; try lia). Qed.

Lemma advances_set_current (r : OurReader) (c : Z) :
  current_ r <= c <= end_ -> advances r (set_current r c).
Proof. unfold advances. simpl. intuition lia. Qed.

Lemma skipSpaces_loop_bounds (rest : list Z) (cur : Z) :
  cur <= skipSpaces_loop rest cur <= cur + Z.of_nat (List.length rest).
Proof.
  revert cur. induction rest as [|c rest IH]; intros cur; simpl; [lia|].
  destruct (is_space c); [|lia]. specialize (IH (cur + 1)). lia.
Qed.

Lemma skipSpaces_advances (r : OurReader) :
  0 <= current_ r <= end_ -> advances r (skipSpaces doc r).
Proof.
  intros Hb. apply advances_set_current.
  pose proof (skipSpaces_loop_bounds (suffix (current_ r)) (current_ r)).
  pose proof (suffix_length _ Hb). lia.
Qed.

Lemma getNextChar_advances (r : OurReader) :
  0 <= current_ r <= end_ -> advances r (snd (getNextChar doc r)).
Proof.
  intros Hb. unfold getNextChar.
  destruct (Z.eqb_spec (current_ r) end_); simpl.
  - apply advances_refl. lia.
  - apply advances_set_current. lia.
Qed.

Lemma match_advances (pattern : list Z) (r : OurReader) :
  0 <= current_ r <= end_ -> advances r (snd (match_ doc pattern r)).
Proof.
  intros Hb. unfold match_.
  destruct (Z.ltb_spec (end_ - current_ r) (Z.of_nat (List.length pattern)));
    simpl; [apply advances_refl; lia|].
  destruct (bytes_eqb _ _); simpl.
  - apply advances_set_current. lia.
  - apply advances_refl. lia.
Qed.

Lemma readString_loop_bounds (q : Z) (rest : list Z) :
  forall cur c,
    cur <= fst (readString_loop q rest cur c)
    <= cur + Z.of_nat (List.length rest).
Proof.
  induction rest as [rest IH] using list_length_ind.
  intros cur c. destruct rest as [|c' rest1]; simpl; [lia|].
  destruct (c' =? c_BACKSLASH).
  - destruct rest1 as [|x rest2]; simpl; [lia|].
    specialize (IH rest2 ltac:(simpl; lia) (cur + 2) c'). lia.
  - destruct (c' =? q); simpl; [lia|].
    specialize (IH rest1 ltac:(simpl; lia) (cur + 1) c'). lia.
Qed.

Lemma readString_advances (r : OurReader) :
  0 <= current_ r <= end_ -> advances r (snd (readString doc r)).
Proof.
  intros Hb. unfold readString.
  pose proof (readString_loop_bounds c_DQUOTE (suffix (current_ r))
                (current_ r) c_NUL) as B.
  destruct (readString_loop _ _ _ _) as [c0 c1]. simpl in *.
  apply advances_set_current. pose proof (suffix_length _ Hb). lia.
Qed.

Lemma readStringSingleQuote_advances (r : OurReader) :
  0 <= current_ r <= end_ -> advances r (snd (readStringSingleQuote doc r)).
Proof.
  intros Hb. unfold readStringSingleQuote.
  pose proof (readString_loop_bounds c_SQUOTE (suffix (current_ r))
                (current_ r) c_NUL) as B.
  destruct (readString_loop _ _ _ _) as [c0 c1]. simpl in *.
  apply advances_set_current. pose proof (suffix_length _ Hb). lia.
Qed.

Lemma number_step_inv (p : Z) (rest : list Z) :
  p + Z.of_nat (List.length rest) = end_ ->
  let '(c, current, p', rest') := number_step p rest in
  current = p /\ current <= p' /\ p' + Z.of_nat (List.length rest') = end_.
Proof.
  intros Hp. destruct rest as [|x rest]; simpl in *; repeat split; lia.
Qed.

Lemma number_digits_inv (rest : list Z) :
  forall c current p,
    current <= p -> p + Z.of_nat (List.length rest) = end_ ->
    let '(c', current', p', rest') := number_digits rest c current p in
    current <= current' /\ current' <= p'
    /\ p' + Z.of_nat (List.length rest') = end_.
Proof.
  induction rest as [|x rest IH]; intros c current p Hc Hp; simpl.
  - destruct (is_digit c); simpl in *; repeat split; lia.
  - destruct (is_digit c); [|simpl in *; repeat split; lia].
    specialize (IH x p (p + 1) ltac:(lia) ltac:(simpl in Hp; lia)).
    destruct (number_digits rest x p (p + 1)) as [[[c' cur'] p'] rest'].
    intuition lia.
Qed.

Lemma readNumber_advances (checkInf : bool) (r : OurReader) :
  0 <= current_ r <= end_ -> advances r (snd (readNumber doc checkInf r)).
Proof.
  intros Hb. unfold readNumber.
  destruct (checkInf && negb (current_ r =? end_) && (at_ (current_ r) =? c_I))
           eqn:EI.
  - simpl. apply advances_set_current.
    apply andb_prop in EI as [EI _]. apply andb_prop in EI as [_ EI].
    apply negb_true_iff, Z.eqb_neq in EI. lia.
  - pose proof (number_digits_inv (suffix (current_ r)) c_0 (current_ r)
                  (current_ r) ltac:(lia) (suffix_length _ Hb)) as D1.
    destruct (number_digits (suffix (current_ r)) c_0 (current_ r) (current_ r))
      as [[[c1 cur1] p1] rest1].
    destruct D1 as (D1a & D1b & D1c).
    assert (D2 : let '(c2, cur2, p2, rest2) :=
                   (if c1 =? c_DOT
                    then let '(c, current, p, rest) := number_step p1 rest1 in
                         number_digits rest c current p
                    else (c1, cur1, p1, rest1)) in
                 cur1 <= cur2 /\ cur2 <= p2
                 /\ p2 + Z.of_nat (List.length rest2) = end_).
    { destruct (c1 =? c_DOT); [|repeat split; lia].
      pose proof (number_step_inv p1 rest1 D1c) as S1.
      destruct (number_step p1 rest1) as [[[c cur] p] rest].
      destruct S1 as (S1a & S1b & S1c).
      pose proof (number_digits_inv rest c cur p S1b S1c) as D.
      destruct (number_digits rest c cur p) as [[[c' cur'] p'] rest'].
      intuition lia. }
    destruct (if c1 =? c_DOT then _ else _) as [[[c2 cur2] p2] rest2].
    destruct D2 as (D2a & D2b & D2c).
    assert (D3 : let '(c3, cur3, p3, rest3) :=
                   (if (c2 =? c_e) || (c2 =? c_E)
                    then
                      let '(c, current, p, rest) := number_step p2 rest2 in
                      let '(c0, current0, p0, rest0) :=
                        if (c =? c_PLUS) || (c =? c_MINUS)
                        then number_step p rest
                        else (c, current, p, rest) in
                      number_digits rest0 c0 current0 p0
                    else (c2, cur2, p2, rest2)) in
                 cur2 <= cur3 /\ cur3 <= p3
                 /\ p3 + Z.of_nat (List.length rest3) = end_).
    { destruct ((c2 =? c_e) || (c2 =? c_E)); [|repeat split; lia].
      pose proof (number_step_inv p2 rest2 D2c) as S1.
      destruct (number_step p2 rest2) as [[[c cur] p] rest].
      destruct S1 as (S1a & S1b & S1c).
      assert (S2 : let '(c0, current0, p0, rest0) :=
                     (if (c =? c_PLUS) || (c =? c_MINUS)
                      then number_step p rest
                      else (c, cur, p, rest)) in
                   cur <= current0 /\ current0 <= p0
                   /\ p0 + Z.of_nat (List.length rest0) = end_).
      { destruct ((c =? c_PLUS) || (c =? c_MINUS)); [|repeat split; lia].
        pose proof (number_step_inv p rest S1c) as S2.
        destruct (number_step p rest) as [[[c0 cur0] p0] rest0].
        intuition lia. }
      destruct (if (c =? c_PLUS) || (c =? c_MINUS) then _ else _)
        as [[[c0 cur0] p0] rest0].
      destruct S2 as (S2a & S2b & S2c).
      pose proof (number_digits_inv rest0 c0 cur0 p0 S2b S2c) as D.
      destruct (number_digits rest0 c0 cur0 p0) as [[[c' cur'] p'] rest'].
      intuition lia. }
    destruct (if (c2 =? c_e) || (c2 =? c_E) then _ else _)
      as [[[c3 cur3] p3] rest3].
    destruct D3 as (D3a & D3b & D3c).
    simpl. apply advances_set_current. lia.
Qed.

Lemma readCStyleComment_loop_bounds (rest : list Z) (cur : Z) :
  cur <= readCStyleComment_loop rest cur <= cur + Z.of_nat (List.length rest).
Proof.
  revert cur. induction rest as [|c rest IH]; intros cur; simpl; [lia|].
  destruct rest as [|c' rest]; [simpl; lia|].
  destruct ((c =? c_STAR) && (c' =? c_SLASH)); [simpl; lia|].
  specialize (IH (cur + 1)). simpl List.length in *. lia.
Qed.

Lemma readCStyleComment_advances (r : OurReader) :
  0 <= current_ r <= end_ -> advances r (snd (readCStyleComment doc r)).
Proof.
  intros Hb. unfold readCStyleComment.
  pose proof (readCStyleComment_loop_bounds (suffix (current_ r)) (current_ r)).
  pose proof (suffix_length _ Hb).
  assert (A1 : advances r
                 (set_current r (readCStyleComment_loop (suffix (current_ r))
                                                        (current_ r))))
    by (apply advances_set_current; lia).
  pose proof (getNextChar_advances
                (set_current r (readCStyleComment_loop (suffix (current_ r))
                                                       (current_ r)))
                ltac:(simpl; lia)) as A2.
  destruct (getNextChar doc _) as [c r2]. simpl in *.
  eapply advances_trans; eauto.
Qed.

Lemma readCppStyleComment_loop_bounds (rest : list Z) (cur : Z) :
  cur <= readCppStyleComment_loop rest cur
  <= cur + Z.of_nat (List.length rest).
Proof.
  revert cur. induction rest as [|c rest IH]; intros cur; simpl; [lia|].
  destruct (c =? c_LF); [lia|].
  destruct (c =? c_CR).
  - destruct rest as [|c' rest]; simpl; [lia|]. destruct (c' =? c_LF); lia.
  - specialize (IH (cur + 1)). lia.
Qed.

Lemma readCppStyleComment_advances (r : OurReader) :
  0 <= current_ r <= end_ -> advances r (snd (readCppStyleComment doc r)).
Proof.
  intros Hb. unfold readCppStyleComment. simpl.
  pose proof (readCppStyleComment_loop_bounds (suffix (current_ r))
                                              (current_ r)).
  pose proof (suffix_length _ Hb).
  apply advances_set_current. lia.
Qed.

Lemma addComment_advances (a b : Z) (placement : CommentPlacement)
      (r : OurReader) :
  current_ r <= end_ -> advances r (addComment doc a b placement r).
Proof.
  intros Hb. unfold addComment.
  destruct placement; try destruct (lastValue_ r);
    unfold advances; simpl; intuition lia.
Qed.

Lemma readComment_advances (r : OurReader) :
  0 <= current_ r <= end_ -> advances r (snd (readComment doc r)).
Proof.
  intros Hb. unfold readComment.
  pose proof (getNextChar_advances r Hb) as A1.
  destruct (getNextChar doc r) as [c r1]. simpl in A1.
  assert (Hb1 : 0 <= current_ r1 <= end_) by (unfold advances in A1; lia).
  assert (A2 : advances r1
                 (snd (if c =? c_STAR then readCStyleComment doc r1
                       else if c =? c_SLASH then readCppStyleComment doc r1
                            else (false, r1)))).
  { destruct (c =? c_STAR); [now apply readCStyleComment_advances|].
    destruct (c =? c_SLASH); [now apply readCppStyleComment_advances|].
    simpl. apply advances_refl. lia. }
  destruct (if c =? c_STAR then _ else _) as [successful r2]. simpl in A2.
  pose proof (advances_trans _ _ _ A1 A2) as A3.
  destruct successful; simpl; auto.
  destruct (collectComments_ r2); simpl; auto.
  eapply advances_trans; [exact A3|].
  apply addComment_advances. unfold advances in A3. lia.
Qed.

Ltac reader_bounds r Hb :=
  assert (Hb : 0 <= current_ r <= end_)
    by (unfold advances in *; cbn [snd] in *; lia).

Ltac scanner_advances :=
  let Hb := fresh "Hb" in
  match goal with
  | |- context [readString doc ?r] =>
      reader_bounds r Hb; pose proof (readString_advances r Hb);
      destruct (readString doc r) as [? ?]; cbn [snd] in *
  | |- context [readStringSingleQuote doc ?r] =>
      reader_bounds r Hb; pose proof (readStringSingleQuote_advances r Hb);
      destruct (readStringSingleQuote doc r) as [? ?]; cbn [snd] in *
  | |- context [readComment doc ?r] =>
      reader_bounds r Hb; pose proof (readComment_advances r Hb);
      destruct (readComment doc r) as [? ?]; cbn [snd] in *
  | |- context [readNumber doc ?b ?r] =>
      reader_bounds r Hb; pose proof (readNumber_advances b r Hb);
      destruct (readNumber doc b r) as [? ?]; cbn [snd] in *
  | |- context [match_ doc ?p ?r] =>
      reader_bounds r Hb; pose proof (match_advances p r Hb);
      destruct (match_ doc p r) as [? ?]; cbn [snd] in *
  end.

Lemma readToken_advances (r : OurReader) :
  0 <= current_ r <= end_ ->
  let '(ok, token, r') := readToken features_ doc r in
  ok = true /\ advances r r'
  /\ (type_ token <> tokenEndOfStream -> current_ r < current_ r')
  /\ current_ r <= offsetStart_ token <= offsetEnd_ token
  /\ offsetEnd_ token = current_ r'.
Proof.
  intros Hb. unfold readToken.
  pose proof (skipSpaces_advances r Hb) as A1.
  set (r1 := skipSpaces doc r) in *.
  assert (Hb1 : 0 <= current_ r1 <= end_) by (unfold advances in A1; lia).
  unfold getNextChar. destruct (Z.eqb_spec (current_ r1) end_) as [Hend|Hend].
  - change (c_NUL =? c_LBRACE) with false. change (c_NUL =? c_RBRACE) with false.
    change (c_NUL =? c_LBRACKET) with false.
    change (c_NUL =? c_RBRACKET) with false.
    change (c_NUL =? c_DQUOTE) with false. change (c_NUL =? c_SQUOTE) with false.
    change (c_NUL =? c_SLASH) with false. change (is_digit c_NUL) with false.
    change (c_NUL =? c_MINUS) with false. change (c_NUL =? c_t) with false.
    change (c_NUL =? c_f) with false. change (c_NUL =? c_n) with false.
    change (c_NUL =? c_N) with false. change (c_NUL =? c_I) with false.
    change (c_NUL =? c_COMMA) with false. change (c_NUL =? c_COLON) with false.
    change (c_NUL =? c_NUL) with true.
    cbv beta iota. simpl andb. simpl orb. cbv beta iota.
    unfold advances in *. cbn [type_ offsetStart_ offsetEnd_].
    intuition (try congruence; try lia).
  - set (c := at_ (current_ r1)). clearbody c.
    assert (A2 : advances r1 (set_current r1 (current_ r1 + 1)))
      by (apply advances_set_current; lia).
    assert (Hb2 : 0 <= current_ (set_current r1 (current_ r1 + 1)) <= end_)
      by (cbn [current_ set_current]; lia).
    assert (P2 : current_ r1 < current_ (set_current r1 (current_ r1 + 1)))
      by (cbn [current_ set_current]; lia).
    assert (O2 : current_ (set_current r1 (current_ r1 + 1)) = current_ r1 + 1)
      by reflexivity.
    revert A2 Hb2 P2 O2.
    generalize (set_current r1 (current_ r1 + 1)). intros r2 A2 Hb2 P2 O2.
    pose proof (advances_trans _ _ _ A1 A2) as A3.
    assert (G : forall (ty : TokenType) (r3 : OurReader),
               advances r2 r3 ->
               true = true /\ advances r r3
               /\ (type_ {| type_ := ty; offsetStart_ := current_ r1;
                            offsetEnd_ := current_ r3 |} <> tokenEndOfStream ->
                   current_ r < current_ r3)
               /\ current_ r <=
                  offsetStart_ {| type_ := ty; offsetStart_ := current_ r1;
                                  offsetEnd_ := current_ r3 |} <=
                  offsetEnd_ {| type_ := ty; offsetStart_ := current_ r1;
                                offsetEnd_ := current_ r3 |}
               /\ offsetEnd_ {| type_ := ty; offsetStart_ := current_ r1;
                                offsetEnd_ := current_ r3 |} = current_ r3).
    { intros ty r3 A4. pose proof (advances_trans _ _ _ A3 A4) as A5.
      unfold advances in *. cbn [type_ offsetStart_ offsetEnd_].
      intuition lia. }
    pose proof (advances_refl r2 ltac:(lia)) as R2.
    repeat first [ match goal with
                   | |- context [if ?b then _ else _] => destruct b
                   end
                 | scanner_advances ];
      cbv beta iota zeta; apply G; eauto using advances_trans.
Qed.

(** *** Recovery *)

Lemma TokenType_eqb_eq (a b : TokenType) : TokenType_eqb a b = true <-> a = b.
Proof. split; [destruct a, b; simpl; congruence | intros ->; destruct b; auto]. Qed.

Lemma TokenType_eqb_neq (a b : TokenType) : TokenType_eqb a b = false <-> a <> b.
Proof.
  split.
  - intros E Hab. apply TokenType_eqb_eq in Hab. congruence.
  - intros Hab. destruct (TokenType_eqb a b) eqn:E; auto.
    apply TokenType_eqb_eq in E. contradiction.
Qed.

Lemma resize_same {A : Type} (d : A) (l : list A) :
  resize d (List.length l) l = l.
Proof.
  unfold resize. rewrite firstn_all, Nat.sub_diag. simpl. apply app_nil_r.
Qed.

Lemma set_errors_same (r : OurReader) : set_errors r (errors_ r) = r.
Proof. destruct r; reflexivity. Qed.

Lemma recoverFromError_loop_spec (kind : TokenType) (fuel : nat) :
  forall r : OurReader,
    0 <= current_ r <= end_ ->
    (Z.to_nat (end_ - current_ r) < fuel)%nat ->
    exists r',
      recoverFromError_loop features_ doc fuel kind (List.length (errors_ r)) r
      = Ok r'
      /\ skipped_until features_ doc kind r r'
      /\ advances r r'.
Proof.
  induction fuel as [|fuel IH]; intros r Hb Hfuel; [lia|].
  simpl. pose proof (readToken_advances r Hb) as T.
  destruct (readToken features_ doc r) as [[ok token] r1] eqn:ET.
  destruct T as (-> & A1 & P1 & _).
  simpl negb. cbv iota.
  destruct (TokenType_eqb (type_ token) kind
            || TokenType_eqb (type_ token) tokenEndOfStream) eqn:EK.
  - exists r1. split; [reflexivity|]. split; [|exact A1].
    eapply skipped_stop; [exact ET|].
    apply orb_prop in EK as [EK|EK]; apply TokenType_eqb_eq in EK; auto.
  - apply orb_false_elim in EK as [EK1 EK2].
    apply TokenType_eqb_neq in EK1, EK2. specialize (P1 EK2).
    assert (Hb1 : 0 <= current_ r1 <= end_) by (unfold advances in A1; lia).
    destruct (IH r1 Hb1 ltac:(lia)) as (r' & E' & S' & A').
    assert (EL : errors_ r1 = errors_ r) by apply A1.
    rewrite EL in E'. exists r'. split; [exact E'|]. split.
    + eapply skipped_step; eauto.
    + eapply advances_trans; eauto.
Qed.

(** C7.  [recoverFromError] reads tokens up to and including the first one
    of the kind asked for or EndOfStream, returns false, and leaves the
    journal as it was before recovery began: nothing that tokenizing during
    recovery could have added stays, and nothing reported before is lost.
    One unit of fuel per byte left, and one more, is enough for the loop. *)
Theorem recoverFromError_restores_journal (fuel : nat) (kind : TokenType)
        (r : OurReader) :
  0 <= current_ r <= end_ ->
  (Z.to_nat (end_ - current_ r) < fuel)%nat ->
  exists r',
    recoverFromError features_ doc fuel kind r = Ok (false, r')
    /\ skipped_until features_ doc kind r r'
    /\ errors_ r' = errors_ r.
Proof.
  intros Hb Hfuel. unfold recoverFromError.
  destruct (recoverFromError_loop_spec kind fuel r Hb Hfuel)
    as (r' & E & S & A).
  rewrite E. simpl bind.
  assert (EL : errors_ r' = errors_ r) by apply A.
  exists r'. rewrite <- EL, resize_same, set_errors_same. auto.
Qed.

(** *** A document without a value *)

Lemma readToken_at_end (r : OurReader) :
  current_ (skipSpaces doc r) = end_ ->
  readToken features_ doc r
  = (true,
     {| type_ := tokenEndOfStream; offsetStart_ := end_; offsetEnd_ := end_ |},
     skipSpaces doc r).
Proof.
  intros E. unfold readToken, getNextChar. rewrite E, Z.eqb_refl.
  change (c_NUL =? c_LBRACE) with false. change (c_NUL =? c_RBRACE) with false.
  change (c_NUL =? c_LBRACKET) with false.
  change (c_NUL =? c_RBRACKET) with false.
  change (c_NUL =? c_DQUOTE) with false. change (c_NUL =? c_SQUOTE) with false.
  change (c_NUL =? c_SLASH) with false. change (is_digit c_NUL) with false.
  change (c_NUL =? c_MINUS) with false. change (c_NUL =? c_t) with false.
  change (c_NUL =? c_f) with false. change (c_NUL =? c_n) with false.
  change (c_NUL =? c_N) with false. change (c_NUL =? c_I) with false.
  change (c_NUL =? c_COMMA) with false. change (c_NUL =? c_COLON) with false.
  change (c_NUL =? c_NUL) with true.
  cbv beta iota. simpl andb. simpl orb. cbv beta iota. rewrite E. reflexivity.
Qed.

Lemma skipSpaces_loop_blank (rest : list Z) (cur : Z) :
  forallb is_space rest = true ->
  skipSpaces_loop rest cur = cur + Z.of_nat (List.length rest).
Proof.
  revert cur. induction rest as [|c rest IH]; intros cur Hb; simpl.
  - lia.
  - simpl in Hb. apply andb_prop in Hb as [Hc Hr]. rewrite Hc, IH by auto. lia.
Qed.

Lemma forallb_skipn {A : Type} (f : A -> bool) (n : nat) (l : list A) :
  forallb f l = true -> forallb f (skipn n l) = true.
Proof.
  revert l. induction n as [|n IH]; intros l Hl; simpl; auto.
  destruct l as [|x l]; auto. simpl in Hl. apply andb_prop in Hl as [_ Hl].
  auto.
Qed.

Lemma skipSpaces_blank (r : OurReader) :
  forallb is_space doc = true -> 0 <= current_ r <= end_ ->
  skipSpaces doc r = set_current r end_.
Proof.
  intros Hd Hb. unfold skipSpaces. f_equal.
  rewrite skipSpaces_loop_blank by (apply forallb_skipn; auto).
  apply suffix_length; auto.
Qed.

Lemma readToken_blank (r : OurReader) :
  forallb is_space doc = true -> 0 <= current_ r <= end_ ->
  readToken features_ doc r
  = (true,
     {| type_ := tokenEndOfStream; offsetStart_ := end_; offsetEnd_ := end_ |},
     set_current r end_).
Proof.
  intros Hd Hb. rewrite readToken_at_end; rewrite skipSpaces_blank; auto.
Qed.

Lemma skipCommentTokens_blank (fuel : nat) (r : OurReader) :
  forallb is_space doc = true -> 0 <= current_ r <= end_ ->
  skipCommentTokens features_ doc (S fuel) r
  = Ok ({| type_ := tokenEndOfStream; offsetStart_ := end_;
           offsetEnd_ := end_ |},
        set_current r end_).
Proof.
  intros Hd Hb. unfold skipCommentTokens. simpl.
  rewrite readToken_blank by auto. simpl. destruct (allowComments_ features_); auto.
Qed.

Lemma end_nonneg : 0 <= end_.
Proof. unfold end_. lia. Qed.

End Facts.

(** On a document that is empty or holds only spaces, tabs, carriage
    returns and line feeds, [parse] with the default features returns false,
    and the journal holds exactly one entry, with the message of the missing
    value and what [getLocationLineAndColumn] makes of the end of the
    document. *)
Lemma parse_blank_document_entry (H : Host) (doc : list Z) (root : Value H)
      (collectComments : bool) (fuel : nat) :
  forallb is_space doc = true ->
  (2 <= fuel)%nat ->
  exists r,
    parse defaultFeatures doc fuel root collectComments = Ok (false, r)
    /\ errors_ r
       = [ {| token_ := getLocationLineAndColumn H doc (end_ doc);
              message_ := "Syntax error: value, object or array expected.";
              extra_ := noLocation |} ].
Proof.
  intros Hd Hfuel. destruct fuel as [|[|fuel]]; try lia.
  unfold parse. pose proof (end_nonneg doc) as He.
  set (r0 := {| root_ := root; nodes_ := [[]]; errors_ := []; current_ := 0;
                lastValueEnd_ := None; lastValue_ := None;
                commentsBefore_ := []; collectComments_ := _ |}).
  assert (E1 : exists r1,
             readValue defaultFeatures doc (S (S fuel)) r0 = Ok (false, r1)
             /\ current_ r1 = end_ doc
             /\ commentsBefore_ r1 = []
             /\ errors_ r1
                = [ {| token_ := getLocationLineAndColumn H doc (end_ doc);
                       message_ := "Syntax error: value, object or array expected.";
                       extra_ := noLocation |} ]).
  { simpl readValue. unfold readValue_body.
    change (to_int (Z.of_nat (List.length (nodes_ r0)))
            >? stackLimit_ defaultFeatures) with false. cbv iota.
    rewrite skipCommentTokens_blank by (auto; simpl; lia).
    simpl bind. cbv beta iota zeta.
    change (commentsBefore_ (set_current r0 (end_ doc))) with (@nil Z).
    simpl is_nil. rewrite andb_false_r. cbv iota.
    cbn [type_]. eexists. split; [reflexivity|]. auto. }
  destruct E1 as (r1 & -> & C1 & B1 & J1). simpl bind.
  rewrite skipCommentTokens_blank by (auto; lia).
  simpl bind. cbv beta iota zeta. cbn [failIfExtra_ strictRoot_ defaultFeatures].
  simpl andb. cbv iota.
  cbn [commentsBefore_ set_current collectComments_]. rewrite B1.
  simpl is_nil. rewrite andb_false_r. cbv iota.
  eexists. split; [reflexivity|]. exact J1.
Qed.

(** * The value parser *)

Lemma bytes_eqb_refl (k : list Z) : bytes_eqb k k = true.
Proof. induction k as [|x k IH]; simpl; auto. now rewrite Z.eqb_refl. Qed.

Section ValueFacts.

Variable H : Host.

Lemma members_find_modify (k : list Z) (g : Value H -> Value H)
      (m : list (list Z * Value H)) :
  members_find H k (members_modify H k g m)
  = option_map g (members_find H k m).
Proof.
  induction m as [|[k' v] m IH]; simpl; auto.
  destruct (bytes_eqb k k') eqn:E; simpl; rewrite E; auto.
Qed.

Lemma elems_nth_modify (i : nat) (g : Value H -> Value H) (l : list (Value H)) :
  nth_error (elems_modify H i g l) i = option_map g (nth_error l i).
Proof.
  revert i. induction l as [|v l IH]; intros [|i]; simpl; auto.
Qed.

Lemma get_at_modify_at (p : Path) (f : Value H -> Value H) (v : Value H) :
  get_at p (modify_at p f v) = option_map f (get_at p v).
Proof.
  revert v. induction p as [|[k|i] p IH]; intros v; simpl; auto.
  - destruct (payload v) as [ | | | | | | l | m] eqn:E; simpl; rewrite ?E; auto.
    rewrite members_find_modify.
    destruct (members_find H k m); simpl; auto.
  - destruct (payload v) as [ | | | | | | l | m] eqn:E; simpl; rewrite ?E; auto.
    rewrite elems_nth_modify. destruct (nth_error l i); simpl; auto.
Qed.

Lemma modify_at_kind (p : Path) (f : Value H -> Value H) (v : Value H) :
  (forall w, payload (f w) = payload w) ->
  isArray (modify_at p f v) = isArray v
  /\ isObject (modify_at p f v) = isObject v.
Proof.
  intros Hf. unfold isArray, isObject.
  destruct p as [|[k|i] p]; simpl.
  - now rewrite Hf.
  - destruct (payload v) eqn:E; simpl; rewrite ?E; auto.
  - destruct (payload v) eqn:E; simpl; rewrite ?E; auto.
Qed.

End ValueFacts.

Section ParserFacts.

Variable H : Host.
Variable features_ : Features.
Variable doc : list Z.

Local Abbreviation end_ := (end_ doc).
Local Abbreviation OurReader := (OurReader H).

Lemma same_frame_refl (r : OurReader) : same_frame r r.
Proof. unfold same_frame. auto. Qed.

Lemma same_frame_trans (r1 r2 r3 : OurReader) :
  same_frame r1 r2 -> same_frame r2 r3 -> same_frame r1 r3.
Proof. unfold same_frame. intuition congruence. Qed.

Lemma same_frame_set_current (r : OurReader) (c : Z) :
  same_frame r (set_current r c).
Proof. unfold same_frame. auto. Qed.

Lemma setComment_payload (c : list Z) (pl : CommentPlacement) (w : Value H) :
  payload (setComment c pl w) = payload w.
Proof. destruct pl; reflexivity. Qed.

Lemma same_frame_addComment (a b : Z) (pl : CommentPlacement) (r : OurReader) :
  same_frame r (addComment doc a b pl r).
Proof.
  unfold addComment, same_frame.
  destruct pl; try destruct (lastValue_ r); simpl; auto.
  destruct (modify_at_kind H p (setComment (normalizeEOL (slice doc a b))
                                           commentAfterOnSameLine)
              (root_ r) (setComment_payload _ _)) as [A1 A2].
  auto.
Qed.

Ltac split_cases :=
  repeat first
    [ progress cbn [snd fst]
    | match goal with
      | |- context [if ?b then _ else _] => destruct b
      | |- context [match ?x with (_, _) => _ end] => destruct x
      end ].

Lemma getNextChar_frame (r : OurReader) :
  same_frame r (snd (getNextChar doc r)).
Proof.
  unfold getNextChar. split_cases;
    [apply same_frame_refl | apply same_frame_set_current].
Qed.

Lemma readNumber_frame (b : bool) (r : OurReader) :
  same_frame r (snd (readNumber doc b r)).
Proof. unfold readNumber. split_cases; apply same_frame_set_current. Qed.

Lemma readString_frame (r : OurReader) :
  same_frame r (snd (readString doc r)).
Proof. unfold readString. split_cases; apply same_frame_set_current. Qed.

Lemma readStringSingleQuote_frame (r : OurReader) :
  same_frame r (snd (readStringSingleQuote doc r)).
Proof.
  unfold readStringSingleQuote. split_cases; apply same_frame_set_current.
Qed.

Lemma match_frame (pattern : list Z) (r : OurReader) :
  same_frame r (snd (match_ doc pattern r)).
Proof.
  unfold match_. split_cases;
    first [apply same_frame_refl | apply same_frame_set_current].
Qed.

Lemma readComment_frame (r : OurReader) :
  same_frame r (snd (readComment doc r)).
Proof.
  unfold readComment.
  pose proof (getNextChar_frame r) as F1.
  destruct (getNextChar doc r) as [c r1]. cbn [snd] in F1.
  assert (F2 : same_frame r1
                 (snd (if c =? c_STAR then readCStyleComment doc r1
                       else if c =? c_SLASH then readCppStyleComment doc r1
                            else (false, r1)))).
  { destruct (c =? c_STAR).
    - unfold readCStyleComment.
      pose proof (getNextChar_frame
                    (set_current r1
                       (readCStyleComment_loop (suffix doc (current_ r1))
                                               (current_ r1)))) as F.
      destruct (getNextChar doc _) as [c' r2]. cbn [snd] in *.
      eapply same_frame_trans; [apply same_frame_set_current | exact F].
    - destruct (c =? c_SLASH); cbn [snd];
        [apply same_frame_set_current | apply same_frame_refl]. }
  destruct (if c =? c_STAR then _ else _) as [successful r2]. cbn [snd] in F2.
  pose proof (same_frame_trans _ _ _ F1 F2) as F3.
  destruct successful; cbn [negb snd]; auto.
  destruct (collectComments_ r2); cbn [snd]; auto.
  eapply same_frame_trans; [exact F3 | apply same_frame_addComment].
Qed.

Lemma readToken_frame (r : OurReader) :
  same_frame r (snd (readToken features_ doc r)).
Proof.
  unfold readToken.
  assert (F1 : same_frame r (skipSpaces doc r))
    by apply same_frame_set_current.
  revert F1. generalize (skipSpaces doc r). intros r1 F1.
  pose proof (getNextChar_frame r1) as F2.
  destruct (getNextChar doc r1) as [c r2]. cbn [snd] in F2.
  pose proof (same_frame_trans _ _ _ F1 F2) as F3.
  repeat first
    [ match goal with
      | |- context [if ?b then _ else _] => destruct b
      end
    | match goal with
      | |- context [readString doc ?x] =>
          pose proof (readString_frame x); destruct (readString doc x)
      | |- context [readStringSingleQuote doc ?x] =>
          pose proof (readStringSingleQuote_frame x);
          destruct (readStringSingleQuote doc x)
      | |- context [readComment doc ?x] =>
          pose proof (readComment_frame x); destruct (readComment doc x)
      | |- context [readNumber doc ?b ?x] =>
          pose proof (readNumber_frame b x); destruct (readNumber doc b x)
      | |- context [match_ doc ?p ?x] =>
          pose proof (match_frame p x); destruct (match_ doc p x)
      end; cbn [snd] in * ];
    cbv beta iota zeta; cbn [snd]; eauto using same_frame_trans.
Qed.

Lemma skipCommentTokens_frame (fuel : nat) :
  forall (r r' : OurReader) (token : Token),
    skipCommentTokens features_ doc fuel r = Ok (token, r') ->
    same_frame r r'.
Proof.
  unfold skipCommentTokens. intros r r' token.
  destruct (allowComments_ features_).
  - revert r. induction fuel as [|fuel IH]; intros r E; simpl in E;
      [discriminate|].
    pose proof (readToken_frame r) as F.
    destruct (readToken features_ doc r) as [[ok t] r1]. cbn [snd] in F.
    destruct (TokenType_eqb (type_ t) tokenComment).
    + eapply same_frame_trans; [exact F | apply IH; exact E].
    + inversion E; subst. exact F.
  - pose proof (readToken_frame r) as F.
    destruct (readToken features_ doc r) as [[ok t] r1]. cbn [snd] in F.
    intros E. inversion E; subst. exact F.
Qed.

(** C4, as the code has it.  After the top-level value, [parse] reads one
    more token, skipping comments.  With failIfExtra enabled, a token that
    is not EndOfStream makes [parse] append the extra-input error and return
    false, unless it is an Error token and strictRoot is disabled: with
    strictRoot enabled an Error token is reported like any other.  In every
    other case the token is ignored: no entry is added for it, and the
    result is the one of the value parse, subject to the strictRoot check
    on the root. *)
Theorem parse_fail_if_extra (fuel : nat) (root : Value H)
        (collectComments successful : bool) (r1 r2 : OurReader)
        (token : Token) :
  readValue features_ doc fuel
            (reader_at root
               (if negb (allowComments_ features_) then false
                else collectComments) 0)
  = Ok (successful, r1) ->
  skipCommentTokens features_ doc fuel r1 = Ok (token, r2) ->
  if failIfExtra_ features_
     && ((strictRoot_ features_ || negb (TokenType_eqb (type_ token) tokenError))
         && negb (TokenType_eqb (type_ token) tokenEndOfStream))
  then
    parse features_ doc fuel root collectComments
    = Ok (false, set_errors r2 (errors_ r1 ++ [extraError H doc token]))
  else
    exists r',
      parse features_ doc fuel root collectComments
      = Ok (if strictRoot_ features_
               && (negb (isArray (root_ r1)) && negb (isObject (root_ r1)))
            then false else successful,
            r')
      /\ errors_ r'
         = if strictRoot_ features_
              && (negb (isArray (root_ r1)) && negb (isObject (root_ r1)))
           then errors_ r1 ++ [strictRootError H doc]
           else errors_ r1.
Proof.
  intros E1 E2. unfold parse. fold (reader_at root
    (if negb (allowComments_ features_) then false else collectComments) 0).
  rewrite E1. cbn [bind]. rewrite E2. cbn [bind].
  destruct (skipCommentTokens_frame _ _ _ _ E2) as (J & _ & _ & KA & KO).
  destruct (failIfExtra_ features_
            && ((strictRoot_ features_
                 || negb (TokenType_eqb (type_ token) tokenError))
                && negb (TokenType_eqb (type_ token) tokenEndOfStream))).
  - unfold addError, extraError. rewrite J. reflexivity.
  - set (r3 := if collectComments_ r2 && negb (is_nil (commentsBefore_ r2))
               then set_root r2 (setComment (commentsBefore_ r2) commentAfter
                                            (root_ r2))
               else r2).
    assert (F3 : errors_ r3 = errors_ r1
                 /\ isArray (root_ r3) = isArray (root_ r1)
                 /\ isObject (root_ r3) = isObject (root_ r1)).
    { subst r3. rewrite <- J, <- KA, <- KO.
      destruct (collectComments_ r2 && negb (is_nil (commentsBefore_ r2)));
        auto. }
    destruct F3 as (J3 & KA3 & KO3). clearbody r3.
    rewrite KA3, KO3.
    destruct (strictRoot_ features_
              && (negb (isArray (root_ r1)) && negb (isObject (root_ r1)))).
    + unfold addError, strictRootError. eexists. split; [reflexivity|].
      cbn [errors_ set_errors offsetStart_]. now rewrite J3.
    + eexists. split; [reflexivity|]. exact J3.
Qed.

Lemma get_at_onCurrentValue (f : Value H -> Value H) (r : OurReader) :
  get_at (top (onCurrentValue f r)) (root_ (onCurrentValue f r))
  = option_map f (get_at (top r) (root_ r)).
Proof. unfold onCurrentValue, top. simpl. apply get_at_modify_at. Qed.

End ParserFacts.

(** * Well-formed documents and the depth limit *)

Section DocumentFacts.

Variable H : Host.
Variable features_ : Features.
Variable doc : list Z.

Local Abbreviation end_ := (end_ doc).
Local Abbreviation suffix := (suffix doc).
Local Abbreviation slice := (slice doc).
Local Abbreviation at_ := (at_ doc).
Local Abbreviation OurReader := (OurReader H).
Local Abbreviation positioned := (positioned doc).

Lemma positioned_bounds (r : OurReader) (l : list Z) :
  positioned r l ->
  0 <= current_ r /\ current_ r + Z.of_nat (List.length l) = end_.
Proof.
  intros [H0 Hs]. split; [lia|]. subst l. now apply suffix_length.
Qed.

Lemma positioned_app (r : OurReader) (a b : list Z) :
  positioned r (a ++ b) ->
  positioned (set_current r (current_ r + Z.of_nat (List.length a))) b.
Proof.
  intros P. destruct (positioned_bounds _ _ P) as [B0 B1].
  destruct P as [H0 Hs]. rewrite length_app in B1.
  split; cbn [current_ set_current]; [lia|].
  apply suffix_app; [lia|exact Hs].
Qed.

Lemma positioned_cons (r : OurReader) (c : Z) (l : list Z) :
  positioned r (c :: l) ->
  at_ (current_ r) = c /\ current_ r < end_
  /\ positioned (set_current r (current_ r + 1)) l.
Proof.
  intros P. pose proof (positioned_app r [c] l P) as P1.
  destruct P as [H0 Hs].
  destruct (suffix_cons doc (current_ r) c l ltac:(lia) Hs) as (A1 & A2 & _).
  auto.
Qed.

Lemma positioned_frame (r r' : OurReader) (l : list Z) :
  current_ r' = current_ r -> positioned r l -> positioned r' l.
Proof. unfold positioned. intros ->. auto. Qed.

Lemma getNextChar_cons (r : OurReader) (c : Z) (l : list Z) :
  positioned r (c :: l) ->
  getNextChar doc r = (c, set_current r (current_ r + 1)).
Proof.
  intros P. destruct (positioned_cons _ _ _ P) as (A1 & A2 & _).
  unfold getNextChar.
  replace (current_ r =? end_) with false by (symmetry; apply Z.eqb_neq; lia).
  now rewrite A1.
Qed.

Lemma set_current_same (r : OurReader) : set_current r (current_ r) = r.
Proof. destruct r; reflexivity. Qed.

Lemma skipSpaces_loop_ws (ws l : list Z) (cur : Z) :
  is_ws ws = true -> solid l ->
  skipSpaces_loop (ws ++ l) cur = cur + Z.of_nat (List.length ws).
Proof.
  revert cur. induction ws as [|c ws IH]; intros cur Hws Hl.
  - simpl. destruct l as [|c l]; simpl; [lia|]. simpl in Hl. rewrite Hl. lia.
  - simpl in Hws. apply andb_prop in Hws as [Hc Hws]. simpl.
    rewrite Hc, IH by auto. lia.
Qed.

Lemma skipSpaces_ws (r : OurReader) (ws l : list Z) :
  is_ws ws = true -> solid l -> positioned r (ws ++ l) ->
  skipSpaces doc r = set_current r (current_ r + Z.of_nat (List.length ws)).
Proof.
  intros Hws Hl [_ Hs]. unfold skipSpaces. rewrite Hs.
  now rewrite skipSpaces_loop_ws.
Qed.

(** Reading a token behind white space is reading it at its first byte. *)
Lemma readToken_ws (r : OurReader) (ws l : list Z) :
  is_ws ws = true -> solid l -> positioned r (ws ++ l) ->
  readToken features_ doc r
  = readToken features_ doc
              (set_current r (current_ r + Z.of_nat (List.length ws))).
Proof.
  intros Hws Hl P. unfold readToken.
  rewrite (skipSpaces_ws r ws l Hws Hl P).
  rewrite (skipSpaces_ws (set_current r _) [] l eq_refl Hl
             (positioned_app r ws l P)).
  cbn [List.length current_ set_current]. rewrite Z.add_0_r. reflexivity.
Qed.

Lemma skipSpaces_solid (r : OurReader) (l : list Z) :
  solid l -> positioned r l -> skipSpaces doc r = r.
Proof.
  intros Hl P. rewrite (skipSpaces_ws r [] l eq_refl Hl P).
  cbn [List.length]. rewrite Z.add_0_r. apply set_current_same.
Qed.

Lemma match_exact (pattern l : list Z) (r : OurReader) :
  positioned r (pattern ++ l) ->
  match_ doc pattern r
  = (true, set_current r (current_ r + Z.of_nat (List.length pattern))).
Proof.
  intros P. destruct (positioned_bounds _ _ P) as [B0 B1].
  rewrite length_app in B1. destruct P as [_ Hs]. unfold match_.
  replace (end_ - current_ r <? Z.of_nat (List.length pattern)) with false
    by (symmetry; apply Z.ltb_ge; lia).
  unfold slice. rewrite Hs.
  replace (Z.to_nat (current_ r + Z.of_nat (List.length pattern) - current_ r))
    with (List.length pattern) by lia.
  rewrite firstn_app, Nat.sub_diag, firstn_all. simpl firstn.
  rewrite app_nil_r, bytes_eqb_refl. reflexivity.
Qed.

Ltac token_at P :=
  unfold readToken;
  match type of P with
  | positioned ?r (?c :: ?l) =>
      rewrite (skipSpaces_solid r (c :: l) ltac:(reflexivity) P);
      rewrite (getNextChar_cons r c l P)
  end.

Lemma readToken_ObjectBegin (r : OurReader) (l : list Z) :
  positioned r (c_LBRACE :: l) ->
  readToken features_ doc r
  = (true,
     {| type_ := tokenObjectBegin; offsetStart_ := current_ r;
        offsetEnd_ := current_ r + 1 |},
     set_current r (current_ r + 1)).
Proof. intros P. token_at P. reflexivity. Qed.

Lemma readToken_ObjectEnd (r : OurReader) (l : list Z) :
  positioned r (c_RBRACE :: l) ->
  readToken features_ doc r
  = (true,
     {| type_ := tokenObjectEnd; offsetStart_ := current_ r;
        offsetEnd_ := current_ r + 1 |},
     set_current r (current_ r + 1)).
Proof. intros P. token_at P. reflexivity. Qed.

Lemma readToken_ArrayBegin (r : OurReader) (l : list Z) :
  positioned r (c_LBRACKET :: l) ->
  readToken features_ doc r
  = (true,
     {| type_ := tokenArrayBegin; offsetStart_ := current_ r;
        offsetEnd_ := current_ r + 1 |},
     set_current r (current_ r + 1)).
Proof. intros P. token_at P. reflexivity. Qed.

Lemma readToken_ArrayEnd (r : OurReader) (l : list Z) :
  positioned r (c_RBRACKET :: l) ->
  readToken features_ doc r
  = (true,
     {| type_ := tokenArrayEnd; offsetStart_ := current_ r;
        offsetEnd_ := current_ r + 1 |},
     set_current r (current_ r + 1)).
Proof. intros P. token_at P. reflexivity. Qed.

Lemma readToken_ArraySeparator (r : OurReader) (l : list Z) :
  positioned r (c_COMMA :: l) ->
  readToken features_ doc r
  = (true,
     {| type_ := tokenArraySeparator; offsetStart_ := current_ r;
        offsetEnd_ := current_ r + 1 |},
     set_current r (current_ r + 1)).
Proof. intros P. token_at P. reflexivity. Qed.

Lemma readToken_MemberSeparator (r : OurReader) (l : list Z) :
  positioned r (c_COLON :: l) ->
  readToken features_ doc r
  = (true,
     {| type_ := tokenMemberSeparator; offsetStart_ := current_ r;
        offsetEnd_ := current_ r + 1 |},
     set_current r (current_ r + 1)).
Proof. intros P. token_at P. reflexivity. Qed.

Lemma readToken_true (r : OurReader) (l : list Z) :
  positioned r (bytes "true" ++ l) ->
  readToken features_ doc r
  = (true,
     {| type_ := tokenTrue; offsetStart_ := current_ r;
        offsetEnd_ := current_ r + 4 |},
     set_current r (current_ r + 4)).
Proof.
  intros P. change (positioned r (c_t :: (bytes "rue" ++ l))) in P.
  token_at P. destruct (positioned_cons _ _ _ P) as (_ & _ & P1).
  change (c_t =? c_LBRACE) with false. change (c_t =? c_RBRACE) with false.
  change (c_t =? c_LBRACKET) with false. change (c_t =? c_RBRACKET) with false.
  change (c_t =? c_DQUOTE) with false. change (c_t =? c_SQUOTE) with false.
  change (c_t =? c_SLASH) with false. change (is_digit c_t) with false.
  change (c_t =? c_MINUS) with false. change (c_t =? c_t) with true.
  cbn [andb orb]. cbv iota.
  rewrite (match_exact (bytes "rue") l _ P1).
  cbn [current_ set_current List.length bytes].
  replace (current_ r + 1 + Z.of_nat 3) with (current_ r + 4) by lia.
  reflexivity.
Qed.

Lemma readToken_false (r : OurReader) (l : list Z) :
  positioned r (bytes "false" ++ l) ->
  readToken features_ doc r
  = (true,
     {| type_ := tokenFalse; offsetStart_ := current_ r;
        offsetEnd_ := current_ r + 5 |},
     set_current r (current_ r + 5)).
Proof.
  intros P. change (positioned r (c_f :: (bytes "alse" ++ l))) in P.
  token_at P. destruct (positioned_cons _ _ _ P) as (_ & _ & P1).
  change (c_f =? c_LBRACE) with false. change (c_f =? c_RBRACE) with false.
  change (c_f =? c_LBRACKET) with false. change (c_f =? c_RBRACKET) with false.
  change (c_f =? c_DQUOTE) with false. change (c_f =? c_SQUOTE) with false.
  change (c_f =? c_SLASH) with false. change (is_digit c_f) with false.
  change (c_f =? c_MINUS) with false. change (c_f =? c_t) with false.
  change (c_f =? c_f) with true.
  cbn [andb orb]. cbv iota.
  rewrite (match_exact (bytes "alse") l _ P1).
  cbn [current_ set_current List.length bytes].
  replace (current_ r + 1 + Z.of_nat 4) with (current_ r + 5) by lia.
  reflexivity.
Qed.

Lemma readToken_null (r : OurReader) (l : list Z) :
  positioned r (bytes "null" ++ l) ->
  readToken features_ doc r
  = (true,
     {| type_ := tokenNull; offsetStart_ := current_ r;
        offsetEnd_ := current_ r + 4 |},
     set_current r (current_ r + 4)).
Proof.
  intros P. change (positioned r (c_n :: (bytes "ull" ++ l))) in P.
  token_at P. destruct (positioned_cons _ _ _ P) as (_ & _ & P1).
  change (c_n =? c_LBRACE) with false. change (c_n =? c_RBRACE) with false.
  change (c_n =? c_LBRACKET) with false. change (c_n =? c_RBRACKET) with false.
  change (c_n =? c_DQUOTE) with false. change (c_n =? c_SQUOTE) with false.
  change (c_n =? c_SLASH) with false. change (is_digit c_n) with false.
  change (c_n =? c_MINUS) with false. change (c_n =? c_t) with false.
  change (c_n =? c_f) with false. change (c_n =? c_n) with true.
  cbn [andb orb]. cbv iota.
  rewrite (match_exact (bytes "ull") l _ P1).
  cbn [current_ set_current List.length bytes].
  replace (current_ r + 1 + Z.of_nat 3) with (current_ r + 4) by lia.
  reflexivity.
Qed.

(** *** String tokens *)

Lemma readString_loop_plain (q c c0 cur : Z) (rest : list Z) :
  c <> c_BACKSLASH -> c <> q ->
  readString_loop q (c :: rest) cur c0 = readString_loop q rest (cur + 1) c.
Proof.
  intros H1 H2. simpl.
  apply Z.eqb_neq in H1, H2. now rewrite H1, H2.
Qed.

Lemma readString_loop_escape (q e c0 cur : Z) (rest : list Z) :
  readString_loop q (c_BACKSLASH :: e :: rest) cur c0
  = readString_loop q rest (cur + 2) c_BACKSLASH.
Proof. reflexivity. Qed.

Lemma hex_digit_plain (c d : Z) :
  hex_digit c = Some d -> c <> c_BACKSLASH /\ c <> c_DQUOTE /\ 0 <= d < 16.
Proof.
  unfold hex_digit, c_0, c_9, c_a, c_f, c_A, c_F, c_BACKSLASH, c_DQUOTE.
  intros E.
  destruct ((48 <=? c) && (c <=? 57)) eqn:E1;
    [|destruct ((97 <=? c) && (c <=? 102)) eqn:E2;
      [|destruct ((65 <=? c) && (c <=? 70)) eqn:E3; [|discriminate]]];
    inversion E; subst; lia.
Qed.

Lemma hex4_value_digits (h1 h2 h3 h4 u : Z) :
  hex4_value h1 h2 h3 h4 = Some u ->
  exists d1 d2 d3 d4,
    hex_digit h1 = Some d1 /\ hex_digit h2 = Some d2
    /\ hex_digit h3 = Some d3 /\ hex_digit h4 = Some d4.
Proof.
  unfold hex4_value. intros E.
  destruct (hex_digit h1) as [d1|]; [|discriminate].
  destruct (hex_digit h2) as [d2|]; [|discriminate].
  destruct (hex_digit h3) as [d3|]; [|discriminate].
  destruct (hex_digit h4) as [d4|]; [|discriminate].
  exists d1, d2, d3, d4. auto.
Qed.

Lemma readString_loop_hex4 (h1 h2 h3 h4 u c0 cur : Z) (rest : list Z) :
  hex4_value h1 h2 h3 h4 = Some u ->
  readString_loop c_DQUOTE (h1 :: h2 :: h3 :: h4 :: rest) cur c0
  = readString_loop c_DQUOTE rest (cur + 4) h4.
Proof.
  intros E. destruct (hex4_value_digits _ _ _ _ _ E)
    as (d1 & d2 & d3 & d4 & E1 & E2 & E3 & E4).
  apply hex_digit_plain in E1, E2, E3, E4.
  rewrite !readString_loop_plain by tauto.
  f_equal. lia.
Qed.

Lemma readString_loop_chars (cs : list jchar) :
  forall (l : list Z) (cur c0 : Z),
    forallb jchar_ok cs = true ->
    readString_loop c_DQUOTE (print_chars cs ++ c_DQUOTE :: l) cur c0
    = (cur + Z.of_nat (List.length (print_chars cs)) + 1, c_DQUOTE).
Proof.
  induction cs as [|x cs IH]; intros l cur c0 Hok.
  - simpl. f_equal. lia.
  - simpl in Hok. apply andb_prop in Hok as [Hx Hcs].
    unfold print_chars. cbn [flat_map]. fold (print_chars cs).
    rewrite <- app_assoc, length_app.
    destruct x as [c|c|h1 h2 h3 h4|h1 h2 h3 h4 l1 l2 l3 l4];
      cbn [print_jchar app List.length jchar_ok] in *.
    + apply andb_prop in Hx as [Hq Hb].
      apply negb_true_iff, Z.eqb_neq in Hq, Hb.
      rewrite readString_loop_plain by auto.
      rewrite IH by auto. f_equal. lia.
    + rewrite readString_loop_escape, IH by auto. f_equal. lia.
    + destruct (hex4_value h1 h2 h3 h4) as [u|] eqn:E; [|discriminate].
      rewrite readString_loop_escape, (readString_loop_hex4 _ _ _ _ _ _ _ _ E).
      rewrite IH by auto. f_equal. lia.
    + destruct (hex4_value h1 h2 h3 h4) as [hi|] eqn:E1; [|discriminate].
      destruct (hex4_value l1 l2 l3 l4) as [lo|] eqn:E2; [|discriminate].
      rewrite readString_loop_escape, (readString_loop_hex4 _ _ _ _ _ _ _ _ E1).
      rewrite readString_loop_escape, (readString_loop_hex4 _ _ _ _ _ _ _ _ E2).
      rewrite IH by auto. f_equal. lia.
Qed.

Lemma readToken_String (r : OurReader) (cs : list jchar) (l : list Z) :
  forallb jchar_ok cs = true ->
  positioned r (print_string cs ++ l) ->
  readToken features_ doc r
  = (true,
     {| type_ := tokenString; offsetStart_ := current_ r;
        offsetEnd_ := current_ r + Z.of_nat (List.length (print_string cs)) |},
     set_current r (current_ r + Z.of_nat (List.length (print_string cs)))).
Proof.
  intros Hok P. unfold print_string in *.
  change (positioned r (c_DQUOTE :: (print_chars cs ++ c_DQUOTE :: l)))
    in P || (cbn [app] in P; rewrite <- app_assoc in P; cbn [app] in P).
  token_at P. destruct (positioned_cons _ _ _ P) as (_ & _ & [_ P1]).
  change (c_DQUOTE =? c_LBRACE) with false.
  change (c_DQUOTE =? c_RBRACE) with false.
  change (c_DQUOTE =? c_LBRACKET) with false.
  change (c_DQUOTE =? c_RBRACKET) with false.
  change (c_DQUOTE =? c_DQUOTE) with true. cbv iota.
  unfold readString. rewrite P1, readString_loop_chars by auto.
  cbn [current_ set_current List.length]. rewrite length_app.
  cbn [List.length].
  replace (current_ r + 1 + Z.of_nat (List.length (print_chars cs)) + 1)
    with (current_ r + Z.of_nat (S (List.length (print_chars cs) + 1)))
    by lia.
  reflexivity.
Qed.

Lemma slice_of_suffix (a : Z) (x y : list Z) :
  0 <= a -> suffix a = x ++ y -> slice a (a + Z.of_nat (List.length x)) = x.
Proof.
  intros Ha Hs. unfold slice. rewrite Hs.
  replace (Z.to_nat (a + Z.of_nat (List.length x) - a)) with (List.length x)
    by lia.
  rewrite firstn_app, Nat.sub_diag, firstn_all. simpl. apply app_nil_r.
Qed.

Lemma suffix_le_end (a : Z) (x : list Z) :
  0 <= a -> suffix a = x -> x <> [] -> a + Z.of_nat (List.length x) = end_.
Proof.
  intros Ha Hs Hx. subst x. unfold suffix, end_ in *. rewrite length_skipn.
  destruct (Nat.le_gt_cases (Z.to_nat a) (List.length doc)); [lia|].
  rewrite skipn_all2 in Hx by lia. congruence.
Qed.

Lemma simple_escape_cases (c : Z) :
  simple_escape c = true ->
  c = c_DQUOTE \/ c = c_SLASH \/ c = c_BACKSLASH \/ c = c_b \/ c = c_f
  \/ c = c_n \/ c = c_r \/ c = c_t.
Proof.
  unfold simple_escape. intros E.
  repeat (apply orb_prop in E as [E|E]); apply Z.eqb_eq in E; tauto.
Qed.

Lemma decodeString_loop_escape (fuel : nat) (token : Token) (cur e c : Z)
      (decoded : list Z) (r : OurReader) :
  simple_escape c = true ->
  at_ cur = c_BACKSLASH -> at_ (cur + 1) = c -> cur <> e -> cur + 1 <> e ->
  decodeString_loop doc (S fuel) token cur e decoded r
  = decodeString_loop doc fuel token (cur + 2) e (decoded ++ [escape_byte c]) r.
Proof.
  intros Hc A1 A2 N1 N2. simpl decodeString_loop.
  apply Z.eqb_neq in N1, N2. rewrite N1, A1, N2, A2.
  replace (cur + 1 + 1) with (cur + 2) by lia.
  change (c_BACKSLASH =? c_DQUOTE) with false.
  change (c_BACKSLASH =? c_BACKSLASH) with true. cbv iota.
  destruct (simple_escape_cases c Hc) as [->|[->|[->|[->|[->|[->|[->| ->]]]]]]];
    reflexivity.
Qed.

Lemma decodeString_loop_plain (fuel : nat) (token : Token) (cur e c : Z)
      (decoded : list Z) (r : OurReader) :
  c <> c_DQUOTE -> c <> c_BACKSLASH -> at_ cur = c -> cur <> e ->
  decodeString_loop doc (S fuel) token cur e decoded r
  = decodeString_loop doc fuel token (cur + 1) e (decoded ++ [c]) r.
Proof.
  intros H1 H2 A1 N1. simpl decodeString_loop.
  apply Z.eqb_neq in N1, H1, H2. now rewrite N1, A1, H1, H2.
Qed.

Lemma decodeString_loop_chars (token : Token) (e : Z) (r : OurReader)
      (cs : list jchar) :
  forall (fuel : nat) (cur : Z) (decoded : list Z),
    forallb jchar_ok cs = true ->
    0 <= cur -> cur <= e -> e <= end_ ->
    slice cur e = print_chars cs ->
    (List.length (print_chars cs) <= fuel)%nat ->
    decodeString_loop doc fuel token cur e decoded r
    = Ok (true, decoded ++ decode_chars cs, r).
Proof.
  induction cs as [|x cs IH]; intros fuel cur decoded Hok H0 H1 H2 Hs Hfuel.
  - pose proof (slice_length doc cur e H0 H1 H2) as HL. rewrite Hs in HL.
    simpl in HL. assert (cur = e) by lia. subst e.
    destruct fuel; simpl; rewrite Z.eqb_refl, app_nil_r; reflexivity.
  - simpl in Hok. apply andb_prop in Hok as [Hx Hcs].
    unfold print_chars, decode_chars in *. cbn [flat_map] in *.
    fold (print_chars cs) in *. fold (decode_chars cs) in *.
    rewrite length_app in Hfuel.
    destruct x as [c|c|h1 h2 h3 h4|h1 h2 h3 h4 l1 l2 l3 l4];
      cbn [print_jchar decode_jchar app List.length jchar_ok] in *.
    + destruct (slice_cons doc _ _ _ _ H0 Hs) as (A1 & L1 & S1).
      apply andb_prop in Hx as [Hq Hb].
      apply negb_true_iff, Z.eqb_neq in Hq, Hb.
      destruct fuel as [|fuel]; [lia|].
      rewrite (decodeString_loop_plain fuel token cur e c) by (auto; lia).
      rewrite IH by (auto; lia). now rewrite <- app_assoc.
    + destruct (slice_cons doc _ _ _ _ H0 Hs) as (A1 & L1 & S1).
      destruct (slice_cons doc (cur + 1) _ _ _ ltac:(lia) S1) as (A2 & L2 & S2).
      replace (cur + 1 + 1) with (cur + 2) in S2 by lia.
      destruct fuel as [|fuel]; [lia|].
      rewrite (decodeString_loop_escape fuel token cur e c) by (auto; lia).
      rewrite IH by (auto; lia). now rewrite <- app_assoc.
    + destruct (hex4_value h1 h2 h3 h4) as [u|] eqn:E; [|discriminate].
      apply negb_true_iff in Hx.
      destruct fuel as [|fuel]; [lia|].
      pose proof (decodeString_loop_unicode H doc fuel token cur e decoded r
                    _ H0 H2 Hs) as D.
      unfold codePoint_spec in D. rewrite E, Hx in D. rewrite D.
      pose proof (slice_drop doc cur e [c_BACKSLASH; c_u; h1; h2; h3; h4]
                    (print_chars cs) H0 Hs) as S6.
      pose proof (slice_length doc cur e H0 H1 H2) as HL. rewrite Hs in HL.
      cbn [List.length] in S6, HL.
      replace (cur + Z.of_nat 6) with (cur + 2 + 4) in S6 by lia.
      rewrite IH by (auto; lia). now rewrite <- app_assoc.
    + destruct (hex4_value h1 h2 h3 h4) as [hi|] eqn:E1; [|discriminate].
      destruct (hex4_value l1 l2 l3 l4) as [lo|] eqn:E2; [|discriminate].
      apply andb_prop in Hx as [Hhi _].
      destruct fuel as [|fuel]; [lia|].
      pose proof (decodeString_loop_unicode H doc fuel token cur e decoded r
                    _ H0 H2 Hs) as D.
      unfold codePoint_spec in D. rewrite E1, Hhi in D.
      change (c_BACKSLASH =? c_BACKSLASH) with true in D.
      change (c_u =? c_u) with true in D. cbn [andb] in D.
      rewrite E2 in D. rewrite D.
      pose proof (slice_drop doc cur e
                    [c_BACKSLASH; c_u; h1; h2; h3; h4;
                     c_BACKSLASH; c_u; l1; l2; l3; l4]
                    (print_chars cs) H0 Hs) as S12.
      pose proof (slice_length doc cur e H0 H1 H2) as HL. rewrite Hs in HL.
      cbn [List.length] in S12, HL.
      replace (cur + Z.of_nat 12) with (cur + 2 + 10) in S12 by lia.
      rewrite IH by (auto; lia). now rewrite <- app_assoc.
Qed.

Lemma decodeString_to_chars (r : OurReader) (cs : list jchar) (l : list Z)
      (s : Z) (ty : TokenType) :
  forallb jchar_ok cs = true ->
  0 <= s -> suffix s = print_string cs ++ l ->
  decodeString_to doc
    {| type_ := ty; offsetStart_ := s;
       offsetEnd_ := s + Z.of_nat (List.length (print_string cs)) |} r
  = Ok (true, decode_chars cs, r).
Proof.
  intros Hok H0 Hs. unfold decodeString_to. cbn [offsetStart_ offsetEnd_].
  unfold print_string in *. cbn [app List.length] in *.
  rewrite <- app_assoc in Hs. cbn [app] in Hs.
  destruct (suffix_cons doc _ _ _ H0 Hs) as (_ & _ & Hs1).
  assert (H1 : 0 <= s + 1) by lia.
  pose proof (slice_of_suffix (s + 1) _ _ H1 Hs1) as SL.
  pose proof (suffix_le_end (s + 1) _ H1 Hs1
                ltac:(destruct (print_chars cs); discriminate)) as LE.
  rewrite length_app in *. cbn [List.length] in *.
  replace (s + Z.of_nat (S (List.length (print_chars cs) + 1)) - 1)
    with (s + 1 + Z.of_nat (List.length (print_chars cs))) by lia.
  rewrite (decodeString_loop_chars _ _ r cs) by (auto; lia).
  reflexivity.
Qed.

(** *** Number tokens *)

Lemma number_digits_stop (rest : list Z) (c cur p : Z) :
  is_digit c = false -> number_digits rest c cur p = (c, cur, p, rest).
Proof. intros E. destruct rest; simpl; now rewrite E. Qed.

Lemma number_digits_run (ds : list Z) :
  forall (rest : list Z) (c cur p : Z),
    is_digit c = true -> forallb is_digit ds = true ->
    match rest with [] => True | x :: _ => is_digit x = false end ->
    number_digits (ds ++ rest) c cur p
    = number_step (p + Z.of_nat (List.length ds)) rest.
Proof.
  induction ds as [|d ds IH]; intros rest c cur p Hc Hds Hrest.
  - cbn [app List.length]. rewrite Z.add_0_r.
    destruct rest as [|x t]; simpl; rewrite Hc; [reflexivity|].
    now rewrite number_digits_stop.
  - simpl in Hds. apply andb_prop in Hds as [Hd Hds].
    cbn [app number_digits]. rewrite Hc, IH by auto.
    f_equal. cbn [List.length]. lia.
Qed.

(** After a step onto a run of digits, the digits loop stops behind it. *)
Lemma number_digits_phase (ds rest : list Z) (q : Z) :
  forallb is_digit ds = true ->
  match rest with [] => True | x :: _ => is_digit x = false end ->
  (let '(c, cur, p, rest0) := number_step q (ds ++ rest) in
   number_digits rest0 c cur p)
  = number_step (q + Z.of_nat (List.length ds)) rest.
Proof.
  intros Hds Hrest. destruct ds as [|d ds].
  - cbn [app List.length]. rewrite Z.add_0_r.
    destruct rest as [|x t]; [reflexivity|].
    cbn [number_step]. now rewrite number_digits_stop.
  - simpl in Hds. apply andb_prop in Hds as [Hd Hds].
    cbn [app number_step]. rewrite number_digits_run by auto.
    f_equal. cbn [List.length]. lia.
Qed.

Lemma digits_ok_inv (ds : list Z) :
  digits_ok ds = true -> ds <> [] /\ forallb is_digit ds = true.
Proof.
  unfold digits_ok. intros E. apply andb_prop in E as [E1 E2].
  split; auto. destruct ds; [discriminate|congruence].
Qed.

Lemma follower_nondigit (l : list Z) :
  follower l -> match l with [] => True | x :: _ => is_digit x = false end.
Proof. destruct l; simpl; tauto. Qed.

Lemma readNumber_exact (r : OurReader) (checkInf : bool) (ds0 : list Z)
      (f : option (list Z)) (x : option (Z * option Z * list Z))
      (l : list Z) :
  forallb is_digit ds0 = true ->
  (checkInf = true -> ds0 <> []) ->
  match f with Some ds => digits_ok ds | None => true end = true ->
  match x with
  | Some (e, sign, ds) =>
      ((e =? c_e) || (e =? c_E))
      && match sign with
         | Some sg => (sg =? c_PLUS) || (sg =? c_MINUS)
         | None => true
         end
      && digits_ok ds
  | None => true
  end = true ->
  follower l ->
  positioned r (ds0 ++ print_fraction f ++ print_exponent x ++ l) ->
  readNumber doc checkInf r
  = (true,
     set_current r
       (current_ r
        + Z.of_nat (List.length (ds0 ++ print_fraction f ++ print_exponent x)))).
Proof.
  intros Hds0 Hinf Hf Hx Hl P. unfold readNumber.
  assert (EI : checkInf && negb (current_ r =? end_) && (at_ (current_ r) =? c_I)
               = false).
  { destruct checkInf; [|reflexivity]. specialize (Hinf eq_refl).
    destruct ds0 as [|d ds0]; [congruence|].
    cbn [app] in P. destruct (positioned_cons _ _ _ P) as (A & _ & _).
    simpl in Hds0. apply andb_prop in Hds0 as [Hd _].
    apply is_digit_range in Hd. rewrite A.
    replace (d =? c_I) with false
      by (symmetry; apply Z.eqb_neq; unfold c_I; lia).
    apply andb_false_r. }
  rewrite EI. destruct P as [_ Hs]. rewrite Hs.
  pose proof (follower_nondigit l Hl) as Hnd.
  assert (HnotDot : match l with [] => True | c :: _ => c <> c_DOT end)
    by (destruct l; simpl in *; tauto).
  assert (HnotE : match l with
                  | [] => True
                  | c :: _ => c <> c_e /\ c <> c_E
                  end)
    by (destruct l; simpl in *; tauto).
  (* the exponent part, from the step onto its text *)
  assert (PX : forall q,
             (let '(c, current, p, rest) :=
                number_step q (print_exponent x ++ l) in
              let '(c, current, p, rest) :=
                if (c =? c_e) || (c =? c_E)
                then
                  let '(c, current, p, rest) := number_step p rest in
                  let '(c, current, p, rest) :=
                    if (c =? c_PLUS) || (c =? c_MINUS)
                    then number_step p rest
                    else (c, current, p, rest) in
                  number_digits rest c current p
                else (c, current, p, rest) in
              current)
             = q + Z.of_nat (List.length (print_exponent x))).
  { intros q. destruct x as [[[e [sg|]] xd]|]; cbn [print_exponent].
    - apply andb_prop in Hx as [Hx Hxd]. apply andb_prop in Hx as [He Hsg].
      apply digits_ok_inv in Hxd as [Hne Hxd].
      cbn [app number_step]. rewrite He, Hsg.
      pose proof (number_digits_phase xd l (q + 1 + 1) Hxd Hnd) as PH.
      destruct (number_step (q + 1 + 1) (xd ++ l)) as [[[c1 cur1] p1] rest1].
      rewrite PH. destruct l; cbn [number_step List.length]; lia.
    - apply andb_prop in Hx as [Hx Hxd]. apply andb_prop in Hx as [He _].
      apply digits_ok_inv in Hxd as [Hne Hxd].
      cbn [app number_step]. rewrite He.
      destruct xd as [|x1 xd]; [congruence|].
      simpl in Hxd. apply andb_prop in Hxd as [Hx1 Hxd].
      cbn [app number_step].
      pose proof (is_digit_range _ Hx1) as R1.
      replace ((x1 =? c_PLUS) || (x1 =? c_MINUS)) with false
        by (symmetry; apply orb_false_intro; apply Z.eqb_neq;
            unfold c_PLUS, c_MINUS; lia).
      rewrite number_digits_run by auto.
      destruct l; cbn [number_step List.length]; lia.
    - cbn [app List.length]. destruct l as [|c l]; cbn [number_step].
      + change (c_NUL =? c_e) with false. change (c_NUL =? c_E) with false.
        cbn [orb]. lia.
      + destruct HnotE as [N1 N2]. apply Z.eqb_neq in N1, N2.
        rewrite N1, N2. cbn [orb]. lia. }
  (* the fraction part *)
  assert (PF : forall q,
             (let '(c, current, p, rest) :=
                number_step q (print_fraction f ++ print_exponent x ++ l) in
              let '(c, current, p, rest) :=
                if c =? c_DOT
                then
                  let '(c, current, p, rest) := number_step p rest in
                  number_digits rest c current p
                else (c, current, p, rest) in
              let '(c, current, p, rest) :=
                if (c =? c_e) || (c =? c_E)
                then
                  let '(c, current, p, rest) := number_step p rest in
                  let '(c, current, p, rest) :=
                    if (c =? c_PLUS) || (c =? c_MINUS)
                    then number_step p rest
                    else (c, current, p, rest) in
                  number_digits rest c current p
                else (c, current, p, rest) in
              current)
             = q + Z.of_nat (List.length (print_fraction f ++ print_exponent x))).
  { intros q. destruct f as [fd|]; cbn [print_fraction].
    - apply digits_ok_inv in Hf as [Hne Hfd].
      cbn [app number_step]. change (c_DOT =? c_DOT) with true. cbv iota.
      assert (Hnd' : match print_exponent x ++ l with
                     | [] => True
                     | c :: _ => is_digit c = false
                     end).
      { destruct x as [[[e [sg|]] xd]|]; cbn [print_exponent app]; auto;
          apply andb_prop in Hx as [Hx _]; apply andb_prop in Hx as [He _];
          apply orb_prop in He as [He|He]; apply Z.eqb_eq in He; subst e;
          reflexivity. }
      pose proof (number_digits_phase fd (print_exponent x ++ l) (q + 1)
                    Hfd Hnd') as PH.
      destruct (number_step (q + 1) (fd ++ print_exponent x ++ l))
        as [[[c1 cur1] p1] rest1].
      rewrite PH. specialize (PX (q + 1 + Z.of_nat (List.length fd))).
      destruct (number_step (q + 1 + Z.of_nat (List.length fd))
                            (print_exponent x ++ l))
        as [[[c2 cur2] p2] rest2].
      rewrite PX. cbn [List.length]. rewrite length_app. lia.
    - cbn [app]. specialize (PX q).
      assert (ND : (fst (fst (fst (number_step q (print_exponent x ++ l))))
                    =? c_DOT) = false).
      { destruct x as [[[e [sg|]] xd]|]; cbn [print_exponent app number_step fst];
          try (apply andb_prop in Hx as [Hx _]; apply andb_prop in Hx as [He _];
               apply orb_prop in He as [He|He]; apply Z.eqb_eq in He; subst e;
               reflexivity).
        destruct l as [|c l]; cbn [number_step fst]; [reflexivity|].
        now apply Z.eqb_neq. }
      destruct (number_step q (print_exponent x ++ l))
        as [[[c2 cur2] p2] rest2].
      cbn [fst] in ND. rewrite ND. exact PX. }
  (* the integral part *)
  assert (Hnd0 : match print_fraction f ++ print_exponent x ++ l with
                 | [] => True
                 | c :: _ => is_digit c = false
                 end).
  { destruct f as [fd|]; cbn [print_fraction app]; [reflexivity|].
    destruct x as [[[e [sg|]] xd]|]; cbn [print_exponent app]; auto;
      apply andb_prop in Hx as [Hx _]; apply andb_prop in Hx as [He _];
      apply orb_prop in He as [He|He]; apply Z.eqb_eq in He; subst e;
      reflexivity. }
  rewrite number_digits_run by (auto; reflexivity).
  specialize (PF (current_ r + Z.of_nat (List.length ds0))).
  destruct (number_step (current_ r + Z.of_nat (List.length ds0))
                        (print_fraction f ++ print_exponent x ++ l))
    as [[[c1 cur1] p1] rest1].
  destruct (if c1 =? c_DOT then _ else _) as [[[c2 cur2] p2] rest2].
  destruct (if (c2 =? c_e) || (c2 =? c_E) then _ else _)
    as [[[c3 cur3] p3] rest3].
  rewrite PF. rewrite (length_app ds0). f_equal. f_equal. lia.
Qed.

Lemma readToken_Number (r : OurReader) (n : jnumber) (l : list Z) :
  jnumber_ok n = true -> follower l ->
  positioned r (print_number n ++ l) ->
  readToken features_ doc r
  = (true,
     {| type_ := tokenNumber; offsetStart_ := current_ r;
        offsetEnd_ := current_ r + Z.of_nat (List.length (print_number n)) |},
     set_current r (current_ r + Z.of_nat (List.length (print_number n)))).
Proof.
  intros Hok Hl P. unfold jnumber_ok in Hok.
  apply andb_prop in Hok as [Hok Hx]. apply andb_prop in Hok as [Hi Hf].
  apply digits_ok_inv in Hi as [Hne Hi].
  unfold print_number in *. rewrite <- !app_assoc in P.
  destruct (minus n).
  - (* the minus sign, then the digits *)
    cbn [app] in P. token_at P.
    destruct (positioned_cons _ _ _ P) as (_ & _ & P1).
    change (c_MINUS =? c_LBRACE) with false.
    change (c_MINUS =? c_RBRACE) with false.
    change (c_MINUS =? c_LBRACKET) with false.
    change (c_MINUS =? c_RBRACKET) with false.
    change (c_MINUS =? c_DQUOTE) with false.
    change (c_MINUS =? c_SQUOTE) with false.
    change (c_MINUS =? c_SLASH) with false.
    change (is_digit c_MINUS) with false.
    change (c_MINUS =? c_MINUS) with true.
    cbn [andb orb]. cbv iota.
    rewrite (readNumber_exact _ true (integer n) (fraction n) (exponent n) l
               Hi ltac:(auto) Hf Hx Hl P1).
    cbn [current_ set_current app List.length].
    replace (current_ r + 1
             + Z.of_nat (List.length (integer n ++ print_fraction (fraction n)
                                      ++ print_exponent (exponent n))))
      with (current_ r
            + Z.of_nat (S (List.length
                             (integer n ++ print_fraction (fraction n)
                              ++ print_exponent (exponent n))))) by lia.
    reflexivity.
  - (* a digit first *)
    destruct (integer n) as [|d ds] eqn:EI; [congruence|].
    cbn [app] in P. simpl in Hi. apply andb_prop in Hi as [Hd Hds].
    pose proof (is_digit_range _ Hd) as R.
    assert (Hsolid : is_space d = false).
    { unfold is_space, c_SPACE, c_TAB, c_CR, c_LF.
      repeat (apply orb_false_intro); apply Z.eqb_neq; lia. }
    unfold readToken.
    rewrite (skipSpaces_solid r (d :: _) Hsolid P).
    rewrite (getNextChar_cons r d _ P).
    destruct (positioned_cons _ _ _ P) as (_ & _ & P1).
    replace (d =? c_LBRACE) with false
      by (symmetry; apply Z.eqb_neq; unfold c_LBRACE; lia).
    replace (d =? c_RBRACE) with false
      by (symmetry; apply Z.eqb_neq; unfold c_RBRACE; lia).
    replace (d =? c_LBRACKET) with false
      by (symmetry; apply Z.eqb_neq; unfold c_LBRACKET; lia).
    replace (d =? c_RBRACKET) with false
      by (symmetry; apply Z.eqb_neq; unfold c_RBRACKET; lia).
    replace (d =? c_DQUOTE) with false
      by (symmetry; apply Z.eqb_neq; unfold c_DQUOTE; lia).
    replace (d =? c_SQUOTE) with false
      by (symmetry; apply Z.eqb_neq; unfold c_SQUOTE; lia).
    replace (d =? c_SLASH) with false
      by (symmetry; apply Z.eqb_neq; unfold c_SLASH; lia).
    rewrite Hd. cbn [andb orb]. cbv iota.
    rewrite (readNumber_exact _ false ds (fraction n) (exponent n) l
               Hds ltac:(discriminate) Hf Hx Hl P1).
    cbn [current_ set_current app List.length].
    replace (current_ r + 1
             + Z.of_nat (List.length (ds ++ print_fraction (fraction n)
                                      ++ print_exponent (exponent n))))
      with (current_ r
            + Z.of_nat (S (List.length
                             (ds ++ print_fraction (fraction n)
                              ++ print_exponent (exponent n))))) by lia.
    reflexivity.
Qed.

(** *** Values *)

Hypothesis host_scans : scans_numbers H.
Hypothesis no_dup_check : rejectDupKeys_ features_ = false.

Local Abbreviation limit := (stackLimit_ features_).
Local Abbreviation stack_message := ("Exceeded stackLimit in readValue()."%string).

Lemma to_int_small (z : Z) : 0 <= z < 2 ^ 31 -> to_int z = z.
Proof. intros Hz. unfold to_int. rewrite Z.mod_small; lia. Qed.

Lemma lands_refl (r : OurReader) : lands r r (current_ r).
Proof. unfold lands. auto. Qed.

Lemma lands_trans (r1 r2 r3 : OurReader) (p2 p3 : Z) :
  lands r1 r2 p2 -> lands r2 r3 p3 -> lands r1 r3 p3.
Proof. unfold lands. intuition congruence. Qed.

Lemma skipCommentTokens_token (fuel : nat) (r r' : OurReader) (ok : bool)
      (token : Token) :
  readToken features_ doc r = (ok, token, r') ->
  type_ token <> tokenComment ->
  skipCommentTokens features_ doc (S fuel) r = Ok (token, r').
Proof.
  intros E Hty. apply TokenType_eqb_neq in Hty.
  unfold skipCommentTokens. cbn [skipCommentTokens_loop]. rewrite E, Hty.
  destruct (allowComments_ features_); reflexivity.
Qed.

Lemma skipComments_while_token (fuel : nat) (r : OurReader) (ok : bool)
      (token : Token) :
  type_ token <> tokenComment ->
  skipComments_while features_ doc fuel ok token r = Ok (ok, token, r).
Proof.
  intros Hty. apply TokenType_eqb_neq in Hty.
  destruct fuel; cbn [skipComments_while]; rewrite Hty; reflexivity.
Qed.

Lemma starts_number_print (n : jnumber) :
  jnumber_ok n = true -> starts_number (print_number n) = true.
Proof.
  unfold jnumber_ok, print_number. intros Hok.
  apply andb_prop in Hok as [Hok _]. apply andb_prop in Hok as [Hi _].
  apply digits_ok_inv in Hi as [Hne Hi].
  destruct (integer n) as [|d ds]; [congruence|].
  simpl in Hi. apply andb_prop in Hi as [Hd _].
  pose proof (is_digit_range _ Hd) as R.
  destruct (minus n); unfold starts_number; cbn [app]; cbv zeta.
  - change ((c_MINUS =? c_MINUS) || (c_MINUS =? c_PLUS)) with true.
    cbv iota. now rewrite Hd.
  - replace ((d =? c_MINUS) || (d =? c_PLUS)) with false
      by (symmetry; apply orb_false_intro; apply Z.eqb_neq;
          unfold c_MINUS, c_PLUS; lia).
    cbv iota. now rewrite Hd.
Qed.

Lemma decodeNumber_to_ok (r : OurReader) (n : jnumber) (l : list Z) (s : Z)
      (ty : TokenType) :
  jnumber_ok n = true -> 0 <= s -> suffix s = print_number n ++ l ->
  exists v,
    decodeNumber_to doc
      {| type_ := ty; offsetStart_ := s;
         offsetEnd_ := s + Z.of_nat (List.length (print_number n)) |} r
    = (true, v, r).
Proof.
  intros Hok H0 Hs. unfold decodeNumber_to. cbn [offsetStart_ offsetEnd_].
  destruct (decodeNumber_loop _ _ _ _) as [value|].
  - destruct (at_ s =? c_MINUS); [eexists; reflexivity|].
    destruct (value <=? to_LargestUInt (maxInt H)); eexists; reflexivity.
  - unfold decodeDouble_to. cbn [offsetStart_ offsetEnd_].
    replace (s + Z.of_nat (List.length (print_number n)) - s <? 0) with false
      by (symmetry; apply Z.ltb_ge; lia).
    rewrite (slice_of_suffix _ _ _ H0 Hs).
    destruct (host_scans _ (starts_number_print n Hok)) as [S1 S2].
    destruct (_ <=? 32).
    + destruct (sscanf_lf H (fixNumericLocaleInput H (print_number n)));
        [eexists; reflexivity|congruence].
    + destruct (sscanf_lf H (print_number n));
        [eexists; reflexivity|congruence].
Qed.

Lemma lands_install (p : PayloadF H (Value H)) (token : Token) (r : OurReader) :
  lands r (install p token r) (current_ r).
Proof. unfold lands. auto. Qed.

Lemma readValue_guard (fuel : nat) (r : OurReader) :
  to_int (Z.of_nat (List.length (nodes_ r))) > limit ->
  readValue features_ doc (S fuel) r = Fatal stack_message.
Proof.
  intros Hg. cbn [readValue]. unfold readValue_body.
  replace (to_int (Z.of_nat (List.length (nodes_ r))) >? limit) with true
    by (symmetry; apply Z.gtb_lt; lia).
  reflexivity.
Qed.

(** What [readValue] does between the token and the dispatch on its type:
    the comments gathered so far go to the value on top of the stack. *)
Lemma commentsBefore_lands (r1 : OurReader) :
  lands r1
    (if collectComments_ r1 && negb (is_nil (commentsBefore_ r1))
     then set_commentsBefore
            (onCurrentValue (setComment (commentsBefore_ r1) commentBefore) r1)
            []
     else r1)
    (current_ r1).
Proof.
  destruct (collectComments_ r1 && negb (is_nil (commentsBefore_ r1)));
    unfold lands; auto.
Qed.

Ltac enter_value Hg Etok r2 L2 :=
  cbn [readValue]; unfold readValue_body;
  match goal with
  | |- context [to_int ?n >? ?l] =>
      replace (to_int n >? l) with false
        by (symmetry; rewrite Z.gtb_ltb; apply Z.ltb_ge; exact Hg)
  end;
  rewrite Etok; cbn [bind]; cbv beta zeta;
  match goal with
  | |- context [if collectComments_ ?r1 && negb (is_nil (commentsBefore_ ?r1))
                then ?a else ?b] =>
      pose proof (commentsBefore_lands r1) as L2;
      set (r2 := if collectComments_ r1 && negb (is_nil (commentsBefore_ r1))
                 then a else b) in *;
      clearbody r2
  end.

Lemma finish_lands (successful : bool) (r : OurReader) :
  exists r',
    (if collectComments_ r
     then Ok (successful,
              set_lastValue r (Some (current_ r)) (Some (top r)))
     else Ok (successful, r))
    = Ok (successful, r') /\ lands r r' (current_ r).
Proof.
  destruct (collectComments_ r); eexists; split; try reflexivity;
    unfold lands; auto.
Qed.

Lemma readValue_literal (fuel : nat) (r r1 : OurReader) (token : Token) :
  to_int (Z.of_nat (List.length (nodes_ r))) <= limit ->
  skipCommentTokens features_ doc fuel r = Ok (token, r1) ->
  type_ token = tokenTrue \/ type_ token = tokenFalse
  \/ type_ token = tokenNull ->
  exists r',
    readValue features_ doc (S fuel) r = Ok (true, r')
    /\ lands r1 r' (current_ r1).
Proof.
  intros Hg Etok Hty. enter_value Hg Etok r2 L2.
  assert (G : forall p : PayloadF H (Value H),
             exists r',
               (let r := if collectComments_ (install p token r2)
                         then set_lastValue (install p token r2)
                                (Some (current_ (install p token r2)))
                                (Some (top (install p token r2)))
                         else install p token r2 in
                Ok (true, r)) = Ok (true, r')
               /\ lands r1 r' (current_ r1)).
  { intros p. cbv zeta. eexists. split; [reflexivity|].
    destruct (collectComments_ (install p token r2)); unfold lands in *;
      cbn; intuition congruence. }
  destruct Hty as [K|[K|K]]; rewrite K; apply G.
Qed.

Lemma lands_finish (r1 r3 : OurReader) :
  lands r1 r3 (current_ r1) ->
  lands r1
    (if collectComments_ r3
     then set_lastValue r3 (Some (current_ r3)) (Some (top r3))
     else r3)
    (current_ r1).
Proof.
  intros L. destruct (collectComments_ r3); unfold lands in *; cbn;
    intuition congruence.
Qed.

Lemma readValue_Number (fuel : nat) (r r1 : OurReader) (token : Token) :
  to_int (Z.of_nat (List.length (nodes_ r))) <= limit ->
  skipCommentTokens features_ doc fuel r = Ok (token, r1) ->
  type_ token = tokenNumber ->
  (forall r2 : OurReader,
      exists v, decodeNumber_to doc token r2 = (true, v, r2)) ->
  exists r',
    readValue features_ doc (S fuel) r = Ok (true, r')
    /\ lands r1 r' (current_ r1).
Proof.
  intros Hg Etok Hty Hdec. enter_value Hg Etok r2 L2. rewrite Hty.
  unfold decodeNumber. destruct (Hdec r2) as (v & ->). cbn [negb].
  eexists. split; [reflexivity|].
  apply lands_finish. unfold lands in *. cbn. intuition congruence.
Qed.

Lemma readValue_String (fuel : nat) (r r1 : OurReader) (token : Token) :
  to_int (Z.of_nat (List.length (nodes_ r))) <= limit ->
  skipCommentTokens features_ doc fuel r = Ok (token, r1) ->
  type_ token = tokenString ->
  (forall r2 : OurReader,
      exists s, decodeString_to doc token r2 = Ok (true, s, r2)) ->
  exists r',
    readValue features_ doc (S fuel) r = Ok (true, r')
    /\ lands r1 r' (current_ r1).
Proof.
  intros Hg Etok Hty Hdec. enter_value Hg Etok r2 L2. rewrite Hty.
  unfold decodeString. destruct (Hdec r2) as (s & ->). cbn [bind negb].
  eexists. split; [reflexivity|].
  apply lands_finish. unfold lands in *. cbn. intuition congruence.
Qed.

Lemma readValue_ArrayBegin (fuel : nat) (r r1 : OurReader) (token : Token) :
  to_int (Z.of_nat (List.length (nodes_ r))) <= limit ->
  skipCommentTokens features_ doc fuel r = Ok (token, r1) ->
  type_ token = tokenArrayBegin ->
  exists r2,
    lands r1 r2 (current_ r1)
    /\ (forall r3,
           readArray features_ doc (readValue features_ doc fuel) fuel token r2
           = Ok (true, r3) ->
           exists r',
             readValue features_ doc (S fuel) r = Ok (true, r')
             /\ lands r3 r' (current_ r3))
    /\ (forall m,
           readArray features_ doc (readValue features_ doc fuel) fuel token r2
           = Fatal m ->
           readValue features_ doc (S fuel) r = Fatal m).
Proof.
  intros Hg Etok Hty. enter_value Hg Etok r2 L2. rewrite Hty.
  exists r2. split; [exact L2|]. split.
  - intros r3 ->. cbn [bind]. eexists. split; [reflexivity|].
    destruct (collectComments_ _); unfold lands; cbn; auto.
  - intros m ->. reflexivity.
Qed.

Lemma readValue_ObjectBegin (fuel : nat) (r r1 : OurReader) (token : Token) :
  to_int (Z.of_nat (List.length (nodes_ r))) <= limit ->
  skipCommentTokens features_ doc fuel r = Ok (token, r1) ->
  type_ token = tokenObjectBegin ->
  exists r2,
    lands r1 r2 (current_ r1)
    /\ (forall r3,
           readObject features_ doc (readValue features_ doc fuel) fuel token r2
           = Ok (true, r3) ->
           exists r',
             readValue features_ doc (S fuel) r = Ok (true, r')
             /\ lands r3 r' (current_ r3))
    /\ (forall m,
           readObject features_ doc (readValue features_ doc fuel) fuel token r2
           = Fatal m ->
           readValue features_ doc (S fuel) r = Fatal m).
Proof.
  intros Hg Etok Hty. enter_value Hg Etok r2 L2. rewrite Hty.
  exists r2. split; [exact L2|]. split.
  - intros r3 ->. cbn [bind]. eexists. split; [reflexivity|].
    destruct (collectComments_ _); unfold lands; cbn; auto.
  - intros m ->. reflexivity.
Qed.

(** *** Shapes of texts *)

Lemma is_space_cases (c : Z) :
  is_space c = true -> c = c_SPACE \/ c = c_TAB \/ c = c_CR \/ c = c_LF.
Proof.
  unfold is_space. intros E.
  repeat (apply orb_prop in E as [E|E]); apply Z.eqb_eq in E; tauto.
Qed.

Lemma follower_ws (ws : list Z) : is_ws ws = true -> follower ws.
Proof.
  destruct ws as [|w ws]; simpl; auto. intros E.
  apply andb_prop in E as [E _].
  destruct (is_space_cases w E) as [->|[->|[->| ->]]];
    repeat split; try reflexivity; discriminate.
Qed.

Lemma follower_ws_then (ws l : list Z) (c : Z) :
  is_ws ws = true ->
  c = c_COMMA \/ c = c_RBRACKET \/ c = c_RBRACE ->
  follower (ws ++ c :: l).
Proof.
  intros Hws Hc. destruct ws as [|w ws].
  - simpl. destruct Hc as [->|[->| ->]];
      repeat split; try reflexivity; discriminate.
  - apply (follower_ws (w :: ws)) in Hws. exact Hws.
Qed.

Lemma print_first (v : json) :
  json_ok v = true ->
  exists c l, print v = c :: l /\ is_space c = false /\ c <> c_RBRACKET.
Proof.
  destruct v as [ | | |n|s|ws|es|ws|ms]; cbn [print json_ok]; intros Hok;
    try (do 2 eexists; split; [reflexivity|split; [reflexivity|discriminate]]).
  unfold jnumber_ok in Hok. apply andb_prop in Hok as [Hok _].
  apply andb_prop in Hok as [Hi _]. apply digits_ok_inv in Hi as [Hne Hi].
  unfold print_number. destruct (minus n); cbn [app].
  - do 2 eexists. split; [reflexivity|split; [reflexivity|discriminate]].
  - destruct (integer n) as [|d ds]; [congruence|].
    simpl in Hi. apply andb_prop in Hi as [Hd _].
    apply is_digit_range in Hd. cbn [app]. do 2 eexists.
    split; [reflexivity|]. split.
    + unfold is_space, c_SPACE, c_TAB, c_CR, c_LF.
      repeat (apply orb_false_intro); apply Z.eqb_neq; lia.
    + unfold c_RBRACKET. lia.
Qed.

Lemma solid_print (v : json) (l : list Z) :
  json_ok v = true -> solid (print v ++ l).
Proof.
  intros Hok. destruct (print_first v Hok) as (c & t & -> & Hc & _).
  exact Hc.
Qed.

Lemma print_nonempty (v : json) :
  json_ok v = true -> (1 <= List.length (print v))%nat.
Proof.
  intros Hok. destruct (print_first v Hok) as (c & t & -> & _).
  simpl. lia.
Qed.

Lemma depth_pos (v : json) : (1 <= depth v)%nat.
Proof. destruct v; simpl; lia. Qed.

Lemma print_elements_split (es : elements) :
  print_elements es = elements_head es ++ elements_body es.
Proof. destruct es; reflexivity. Qed.

Lemma codePointToUTF8_length (cp : Z) :
  (List.length (codePointToUTF8 cp) <= 4)%nat.
Proof.
  unfold codePointToUTF8.
  repeat match goal with
         | |- context [if ?b then _ else _] => destruct b
         end; simpl; lia.
Qed.

Lemma decode_chars_length (cs : list jchar) :
  (List.length (decode_chars cs) <= List.length (print_chars cs))%nat.
Proof.
  induction cs as [|x cs IH]; [simpl; lia|].
  unfold decode_chars, print_chars in *. cbn [flat_map].
  rewrite !length_app.
  assert (List.length (decode_jchar x) <= List.length (print_jchar x))%nat.
  { destruct x as [c|c|h1 h2 h3 h4|h1 h2 h3 h4 l1 l2 l3 l4];
      cbn [decode_jchar print_jchar List.length]; try lia.
    - destruct (hex4_value h1 h2 h3 h4); [|simpl; lia].
      pose proof (codePointToUTF8_length z). lia.
    - destruct (hex4_value h1 h2 h3 h4); [|simpl; lia].
      destruct (hex4_value l1 l2 l3 l4); [|simpl; lia].
      match goal with
      | |- context [codePointToUTF8 ?u] =>
          pose proof (codePointToUTF8_length u)
      end. lia. }
  lia.
Qed.

(** *** Punctuation behind white space *)

Lemma positioned_shift (r r' : OurReader) (a b : list Z) :
  positioned r (a ++ b) ->
  current_ r' = current_ r + Z.of_nat (List.length a) ->
  positioned r' b.
Proof.
  intros P E. apply positioned_app in P.
  refine (positioned_frame _ r' b _ P). exact E.
Qed.

Lemma readToken_punct (r : OurReader) (ws l : list Z) (c : Z)
      (ty : TokenType) :
  is_ws ws = true ->
  positioned r (ws ++ c :: l) ->
  (c = c_COMMA /\ ty = tokenArraySeparator)
  \/ (c = c_RBRACKET /\ ty = tokenArrayEnd)
  \/ (c = c_RBRACE /\ ty = tokenObjectEnd)
  \/ (c = c_COLON /\ ty = tokenMemberSeparator)
  \/ (c = c_LBRACKET /\ ty = tokenArrayBegin)
  \/ (c = c_LBRACE /\ ty = tokenObjectBegin) ->
  exists token,
    readToken features_ doc r
    = (true, token,
       set_current r (current_ r + Z.of_nat (List.length ws) + 1))
    /\ type_ token = ty.
Proof.
  intros Hws P Hc.
  assert (S0 : solid (c :: l)).
  { destruct Hc as [[-> _]|[[-> _]|[[-> _]|[[-> _]|[[-> _]|[-> _]]]]]];
      reflexivity. }
  rewrite (readToken_ws r ws (c :: l) Hws S0 P).
  apply positioned_app in P.
  destruct Hc as [[-> ->]|[[-> ->]|[[-> ->]|[[-> ->]|[[-> ->]|[-> ->]]]]]].
  - rewrite (readToken_ArraySeparator _ l P). eexists. split; reflexivity.
  - rewrite (readToken_ArrayEnd _ l P). eexists. split; reflexivity.
  - rewrite (readToken_ObjectEnd _ l P). eexists. split; reflexivity.
  - rewrite (readToken_MemberSeparator _ l P). eexists. split; reflexivity.
  - rewrite (readToken_ArrayBegin _ l P). eexists. split; reflexivity.
  - rewrite (readToken_ObjectBegin _ l P). eexists. split; reflexivity.
Qed.

(** One round of the loop of [readArray]: the element is read by the
    recursive call with one more node on the stack, and the separator or
    the closing bracket behind it decides how the loop goes on. *)
Lemma readArray_loop_step (fuel_rec fuel idx : nat) (r : OurReader)
      (v : json) (wsA ws2 : list Z) (c : Z) (rest : list Z) :
  is_ws ws2 = true ->
  c = c_COMMA \/ c = c_RBRACKET ->
  positioned r (wsA ++ print v ++ ws2 ++ c :: rest) ->
  exists (r1 : OurReader) (p : Path),
    current_ r1 = current_ r /\ errors_ r1 = errors_ r
    /\ nodes_ r1 = p :: nodes_ r
    /\ (forall m,
           readValue features_ doc fuel_rec r1 = Fatal m ->
           readArray_loop features_ doc (readValue features_ doc fuel_rec)
                          (S fuel) idx r = Fatal m)
    /\ (forall r2,
           readValue features_ doc fuel_rec r1 = Ok (true, r2) ->
           lands r1 r2
                 (current_ r + Z.of_nat (List.length wsA)
                  + Z.of_nat (List.length (print v))) ->
           exists r3,
             lands r r3
                   (current_ r + Z.of_nat (List.length wsA)
                    + Z.of_nat (List.length (print v))
                    + Z.of_nat (List.length ws2) + 1)
             /\ readArray_loop features_ doc
                  (readValue features_ doc fuel_rec) (S fuel) idx r
                = if c =? c_RBRACKET then Ok (true, r3)
                  else readArray_loop features_ doc
                         (readValue features_ doc fuel_rec) fuel (S idx) r3).
Proof.
  intros Hws2 Hc P.
  set (r0 := onCurrentValue (element_slot idx) r).
  set (r1 := push (top r0 ++ [Index idx]) r0).
  exists r1, (top r0 ++ [Index idx]).
  split; [reflexivity|]. split; [reflexivity|]. split; [reflexivity|].
  split.
  - intros m E. cbn [readArray_loop]. fold r0. fold r1. rewrite E.
    reflexivity.
  - intros r2 E (Lc & Le & Ln).
    assert (P2 : positioned (pop r2) (ws2 ++ c :: rest)).
    { rewrite app_assoc in P.
      apply (positioned_shift r (pop r2) _ _ P).
      cbn [pop set_nodes current_]. rewrite Lc, length_app. lia. }
    assert (Hty : exists ty,
               (c = c_COMMA /\ ty = tokenArraySeparator)
               \/ (c = c_RBRACKET /\ ty = tokenArrayEnd)).
    { destruct Hc as [->| ->]; eexists; [left|right]; split; reflexivity. }
    destruct Hty as (ty & Hty).
    destruct (readToken_punct (pop r2) ws2 rest c ty Hws2 P2) as (tok & Et & Ety).
    { destruct Hty as [Hh|Hh]; tauto. }
    eexists. split; cycle 1.
    + cbn [readArray_loop]. fold r0. fold r1. rewrite E. cbn [bind negb].
      rewrite Et.
      rewrite skipComments_while_token
        by (rewrite Ety; destruct Hty as [[_ ->]|[_ ->]]; discriminate).
      cbn [bind]. rewrite Ety.
      destruct Hty as [[-> ->]|[-> ->]]; reflexivity.
    + split; [|split].
      * cbn [pop set_nodes set_current current_]. rewrite Lc. reflexivity.
      * cbn [pop set_nodes set_current errors_]. rewrite Le. reflexivity.
      * cbn [pop set_nodes set_current nodes_]. rewrite Ln. reflexivity.
Qed.

(** One round of the loop of [readObject]: the name, the colon, the value
    read by the recursive call with one more node on the stack, and the
    separator or the closing brace behind it. *)
Lemma readObject_loop_step (fuel_rec fuel : nat) (name : list Z)
      (r : OurReader) (k : list jchar) (v : json)
      (ws1 ws2 ws3 ws4 : list Z) (c : Z) (rest : list Z) :
  is_ws ws1 = true -> forallb jchar_ok k = true -> is_ws ws2 = true ->
  is_ws ws4 = true ->
  c = c_COMMA \/ c = c_RBRACE ->
  Z.of_nat (List.length (print_chars k)) < 2 ^ 30 ->
  positioned r (ws1 ++ print_string k ++ ws2 ++ c_COLON
                    :: ws3 ++ print v ++ ws4 ++ c :: rest) ->
  exists (r1 : OurReader) (p : Path),
    current_ r1
    = current_ r + Z.of_nat (List.length ws1)
      + Z.of_nat (List.length (print_string k))
      + Z.of_nat (List.length ws2) + 1
    /\ errors_ r1 = errors_ r
    /\ nodes_ r1 = p :: nodes_ r
    /\ (forall m,
           readValue features_ doc fuel_rec r1 = Fatal m ->
           readObject_loop features_ doc (readValue features_ doc fuel_rec)
                           (S fuel) name r = Fatal m)
    /\ (forall r2,
           readValue features_ doc fuel_rec r1 = Ok (true, r2) ->
           lands r1 r2
                 (current_ r1 + Z.of_nat (List.length ws3)
                  + Z.of_nat (List.length (print v))) ->
           exists r3,
             lands r r3
                   (current_ r1 + Z.of_nat (List.length ws3)
                    + Z.of_nat (List.length (print v))
                    + Z.of_nat (List.length ws4) + 1)
             /\ readObject_loop features_ doc
                  (readValue features_ doc fuel_rec) (S fuel) name r
                = if c =? c_RBRACE then Ok (true, r3)
                  else readObject_loop features_ doc
                         (readValue features_ doc fuel_rec) fuel
                         (decode_chars k) r3).
Proof.
  intros Hws1 Hk Hws2 Hws4 Hc Hlen P.
  pose proof (positioned_bounds r _ P) as [Hcur _].
  (* the name *)
  assert (S1 : solid (print_string k ++ ws2 ++ c_COLON
                        :: ws3 ++ print v ++ ws4 ++ c :: rest))
    by reflexivity.
  pose proof (readToken_ws r ws1 _ Hws1 S1 P) as E1.
  pose proof (positioned_app r ws1 _ P) as P1.
  rewrite (readToken_String _ k _ Hk P1) in E1.
  cbn [set_current current_] in E1.
  set (s := current_ r + Z.of_nat (List.length ws1)) in *.
  set (tokS := {| type_ := tokenString; offsetStart_ := s;
                  offsetEnd_ := s + Z.of_nat (List.length (print_string k)) |})
    in *.
  set (rS := set_current (set_current r s)
                         (s + Z.of_nat (List.length (print_string k)))) in *.
  assert (D : decodeString_to doc tokS rS = Ok (true, decode_chars k, rS)).
  { apply (decodeString_to_chars rS k
             (ws2 ++ c_COLON :: ws3 ++ print v ++ ws4 ++ c :: rest) s
             tokenString Hk); [subst s; lia|].
    destruct P1 as [_ P1]. exact P1. }
  (* the colon *)
  assert (P2 : positioned rS (ws2 ++ c_COLON
                                  :: ws3 ++ print v ++ ws4 ++ c :: rest)).
  { apply (positioned_shift _ rS _ _ P1). reflexivity. }
  destruct (readToken_punct rS ws2 _ c_COLON tokenMemberSeparator Hws2 P2)
    as (tokC & E2 & Ety2); [tauto|].
  set (rC := set_current rS (current_ rS + Z.of_nat (List.length ws2) + 1))
    in *.
  set (r0 := onCurrentValue (member_slot (decode_chars k)) rC).
  set (r1 := push (top r0 ++ [Member (decode_chars k)]) r0).
  assert (Hshort : (Z.of_nat (List.length (decode_chars k)) >=? 2 ^ 30)
                   = false).
  { pose proof (decode_chars_length k).
    rewrite Z.geb_leb. apply Z.leb_gt. lia. }
  exists r1, (top r0 ++ [Member (decode_chars k)]).
  split; [reflexivity|]. split; [reflexivity|]. split; [reflexivity|].
  split.
  - intros m E. cbn [readObject_loop]. rewrite E1. cbn [negb].
    rewrite skipComments_while_token by discriminate.
    cbn [bind negb type_ tokS TokenType_eqb andb].
    rewrite D. cbn [bind]. rewrite E2. rewrite Ety2.
    cbn [negb TokenType_eqb orb]. rewrite Hshort, no_dup_check.
    cbn [andb]. fold rC. fold r0. fold r1. rewrite E. reflexivity.
  - intros r2 E (Lc & Le & Ln).
    assert (P3 : positioned (pop r2) (ws4 ++ c :: rest)).
    { apply (positioned_shift rC (pop r2) (ws3 ++ print v) _).
      - rewrite <- app_assoc.
        apply (positioned_shift rS rC (ws2 ++ [c_COLON]) _).
        + rewrite <- app_assoc. exact P2.
        + subst rC. cbn [set_current current_]. rewrite length_app.
          cbn [List.length]. lia.
      - cbn [pop set_nodes current_]. rewrite Lc, length_app.
        subst r1 r0 rC. cbn [push onCurrentValue set_nodes set_root
                                  set_current current_]. lia. }
    assert (Hty : exists ty,
               (c = c_COMMA /\ ty = tokenArraySeparator)
               \/ (c = c_RBRACE /\ ty = tokenObjectEnd)).
    { destruct Hc as [->| ->]; eexists; [left|right]; split; reflexivity. }
    destruct Hty as (ty & Hty).
    destruct (readToken_punct (pop r2) ws4 rest c ty Hws4 P3)
      as (tok & Et & Ety).
    { destruct Hty as [Hh|Hh]; tauto. }
    eexists. split; cycle 1.
    + cbn [readObject_loop]. rewrite E1. cbn [negb].
      rewrite skipComments_while_token by discriminate.
      cbn [bind negb type_ tokS TokenType_eqb andb].
      rewrite D. cbn [bind]. rewrite E2. rewrite Ety2.
      cbn [negb TokenType_eqb orb]. rewrite Hshort, no_dup_check.
      cbn [andb]. fold rC. fold r0. fold r1. rewrite E. cbn [bind negb].
      rewrite Et.
      rewrite skipComments_while_token
        by (rewrite Ety; destruct Hty as [[_ ->]|[_ ->]]; discriminate).
      cbn [bind]. rewrite Ety.
      destruct Hty as [[-> ->]|[-> ->]]; reflexivity.
    + split; [|split].
      * cbn [pop set_nodes set_current current_]. rewrite Lc. reflexivity.
      * cbn [pop set_nodes set_current errors_]. rewrite Le. reflexivity.
      * cbn [pop set_nodes set_current nodes_]. rewrite Ln. reflexivity.
Qed.

(** *** Entering an array and an object *)

Lemma readArray_empty (fuel : nat)
      (rec : OurReader -> result (bool * OurReader)) (token : Token)
      (r : OurReader) (ws rest : list Z) :
  is_ws ws = true ->
  positioned r (ws ++ c_RBRACKET :: rest) ->
  exists r',
    readArray features_ doc rec fuel token r = Ok (true, r')
    /\ lands r r' (current_ r + Z.of_nat (List.length ws) + 1).
Proof.
  intros Hws P. unfold readArray.
  set (r0 := onCurrentValue (setOffsetStart (offsetStart_ token))
               (onCurrentValue (swapPayload (arrayValue [])) r)).
  assert (P0 : positioned r0 (ws ++ c_RBRACKET :: rest))
    by (refine (positioned_frame r r0 _ _ P); reflexivity).
  rewrite (skipSpaces_ws r0 ws (c_RBRACKET :: rest) Hws ltac:(reflexivity) P0).
  pose proof (positioned_app r0 ws _ P0) as P1.
  destruct (positioned_cons _ _ _ P1) as (Hat & Hlt & _).
  rewrite Hat.
  replace (current_ (set_current r0 (current_ r0 + Z.of_nat (List.length ws)))
           =? end_) with false by (symmetry; apply Z.eqb_neq; lia).
  cbn [negb andb]. rewrite Z.eqb_refl.
  rewrite (readToken_ArrayEnd _ rest P1).
  eexists. split; [reflexivity|]. repeat split.
Qed.

Lemma readArray_elements (fuel : nat)
      (rec : OurReader -> result (bool * OurReader)) (token : Token)
      (r : OurReader) (es : elements) (rest : list Z) :
  elements_ok es = true ->
  positioned r (print_elements es ++ c_RBRACKET :: rest) ->
  exists r0,
    lands r r0 (current_ r + Z.of_nat (List.length (elements_head es)))
    /\ readArray features_ doc rec fuel token r
       = readArray_loop features_ doc rec fuel 0 r0.
Proof.
  intros Hok P. unfold readArray.
  set (r0 := onCurrentValue (setOffsetStart (offsetStart_ token))
               (onCurrentValue (swapPayload (arrayValue [])) r)).
  rewrite print_elements_split, <- app_assoc in P.
  assert (P0 : positioned r0 (elements_head es ++ elements_body es
                                ++ c_RBRACKET :: rest))
    by (refine (positioned_frame r r0 _ _ P); reflexivity).
  assert (Hh : is_ws (elements_head es) = true
               /\ exists v l, json_ok v = true
                              /\ elements_body es = print v ++ l).
  { destruct es as [ws1 v ws2|ws1 v ws2 es']; cbn [elements_ok] in Hok;
      repeat (apply andb_prop in Hok as [Hok ?]);
      (split; [assumption|]); exists v; eexists; split;
      try reflexivity; assumption. }
  destruct Hh as (Hws & v & l & Hv & Eb).
  destruct (print_first v Hv) as (c & t & Ev & Hc & Hne).
  rewrite Eb, Ev in P0. cbn [app] in P0.
  rewrite (skipSpaces_ws r0 (elements_head es)
             (c :: (t ++ l) ++ c_RBRACKET :: rest) Hws Hc P0).
  pose proof (positioned_app r0 _ _ P0) as P1.
  destruct (positioned_cons _ _ _ P1) as (Hat & Hlt & _).
  rewrite Hat.
  replace (c =? c_RBRACKET) with false by (symmetry; apply Z.eqb_neq; exact Hne).
  rewrite andb_false_r.
  eexists. split; [|reflexivity]. repeat split.
Qed.

Lemma readObject_loop_empty (fuel : nat)
      (rec : OurReader -> result (bool * OurReader))
      (r : OurReader) (ws rest : list Z) :
  is_ws ws = true ->
  positioned r (ws ++ c_RBRACE :: rest) ->
  exists r',
    readObject_loop features_ doc rec (S fuel) [] r = Ok (true, r')
    /\ lands r r' (current_ r + Z.of_nat (List.length ws) + 1).
Proof.
  intros Hws P.
  destruct (readToken_punct r ws rest c_RBRACE tokenObjectEnd Hws P)
    as (tok & Et & Ety); [tauto|].
  cbn [readObject_loop]. rewrite Et. cbn [negb].
  rewrite skipComments_while_token by (rewrite Ety; discriminate).
  cbn [bind negb]. rewrite Ety. cbn [TokenType_eqb is_nil andb].
  eexists. split; [reflexivity|]. repeat split.
Qed.

Lemma readObject_enter (fuel : nat)
      (rec : OurReader -> result (bool * OurReader)) (token : Token)
      (r : OurReader) :
  exists r0,
    lands r r0 (current_ r)
    /\ readObject features_ doc rec fuel token r
       = readObject_loop features_ doc rec fuel [] r0.
Proof.
  eexists. split; [|reflexivity]. repeat split.
Qed.

(** *** Values of a given depth *)

Hypothesis doc_small : Z.of_nat (List.length doc) < 2 ^ 30.

Lemma lands_via (r r1 r' : OurReader) (pos : Z) :
  current_ r1 = pos -> errors_ r1 = errors_ r -> nodes_ r1 = nodes_ r ->
  lands r1 r' (current_ r1) -> lands r r' pos.
Proof.
  intros Ec Ee En (Lc & Le & Ln). repeat split; congruence.
Qed.

Lemma room_scalar (r : OurReader) :
  Z.of_nat (List.length (nodes_ r)) <= limit -> room limit r 1 = true.
Proof. intros Hg. unfold room. apply Z.leb_le. lia. Qed.

Lemma room_guard (r : OurReader) (d : nat) :
  (1 <= d)%nat -> Z.of_nat (List.length (nodes_ r)) > limit ->
  room limit r d = false.
Proof. intros Hd Hg. unfold room. apply Z.leb_gt. lia. Qed.

Lemma room_push (r r1 : OurReader) (p : Path) (d : nat) :
  nodes_ r1 = p :: nodes_ r -> room limit r1 d = room limit r (S d).
Proof.
  intros E. unfold room. rewrite E. cbn [List.length]. f_equal. lia.
Qed.

Lemma room_same (r r3 : OurReader) (d : nat) :
  nodes_ r3 = nodes_ r -> room limit r3 d = room limit r d.
Proof. intros E. unfold room. rewrite E. reflexivity. Qed.

Lemma room_max (r : OurReader) (a b : nat) :
  room limit r (S (Nat.max a b))
  = room limit r (S a) && room limit r (S b).
Proof.
  unfold room.
  destruct (Z.leb_spec (Z.of_nat (List.length (nodes_ r)) + Z.of_nat (S a) - 1)
                       limit);
    destruct (Z.leb_spec (Z.of_nat (List.length (nodes_ r))
                          + Z.of_nat (S b) - 1) limit);
    cbn [andb]; [apply Z.leb_le|apply Z.leb_gt|apply Z.leb_gt|apply Z.leb_gt];
    lia.
Qed.

Lemma elements_head_ws (es : elements) :
  elements_ok es = true -> is_ws (elements_head es) = true.
Proof.
  destruct es; cbn [elements_ok elements_head]; intros Hok;
    repeat (apply andb_prop in Hok as [Hok ?]); assumption.
Qed.

Ltac lens_in Hl :=
  repeat first [rewrite length_app in Hl
               |progress (cbn [List.length] in Hl)].

Ltac lens :=
  repeat first [rewrite length_app|progress (cbn [List.length])].

Ltac value_prelude f Hg :=
  intros Hok fuel r ws rest Hws Hfol P Hfuel Hsize;
  pose proof (positioned_bounds r _ P) as [Hcur Hend];
  destruct (Z_le_gt_dec (Z.of_nat (List.length (nodes_ r))) limit) as [Hg0|Hg0];
  [ assert (Hg : to_int (Z.of_nat (List.length (nodes_ r))) <= limit)
      by (rewrite to_int_small; lia)
  | split; intros Hroom;
    [ rewrite (room_guard r _ (depth_pos _) Hg0) in Hroom; discriminate
    | destruct fuel as [|f]; [simpl in Hfuel; lia|];
      apply readValue_guard; rewrite to_int_small; lia ] ].

Lemma readValue_depth_mutual :
  (forall v : json,
      json_ok v = true ->
      forall (fuel : nat) (r : OurReader) (ws rest : list Z),
        is_ws ws = true -> follower rest ->
        positioned r (ws ++ print v ++ rest) ->
        (List.length (ws ++ print v ++ rest) < fuel)%nat ->
        Z.of_nat (List.length (nodes_ r))
        + Z.of_nat (List.length (ws ++ print v ++ rest)) < 2 ^ 31 ->
        (room limit r (depth v) = true ->
         exists r',
           readValue features_ doc fuel r = Ok (true, r')
           /\ lands r r' (current_ r + Z.of_nat (List.length ws)
                          + Z.of_nat (List.length (print v))))
        /\ (room limit r (depth v) = false ->
            readValue features_ doc fuel r = Fatal stack_message))
  /\ (forall es : elements,
         elements_ok es = true ->
         forall (fuel_rec fuel idx : nat) (r : OurReader) (wsA rest : list Z),
           is_ws wsA = true ->
           positioned r (wsA ++ elements_body es ++ c_RBRACKET :: rest) ->
           (List.length (wsA ++ elements_body es ++ c_RBRACKET :: rest)
            < fuel_rec)%nat ->
           (List.length (wsA ++ elements_body es ++ c_RBRACKET :: rest)
            < fuel)%nat ->
           Z.of_nat (List.length (nodes_ r)) + 1
           + Z.of_nat (List.length
                         (wsA ++ elements_body es ++ c_RBRACKET :: rest))
           < 2 ^ 31 ->
           (room limit r (S (depth_elements es)) = true ->
            exists r',
              readArray_loop features_ doc (readValue features_ doc fuel_rec)
                             fuel idx r = Ok (true, r')
              /\ lands r r' (current_ r + Z.of_nat (List.length wsA)
                             + Z.of_nat (List.length (elements_body es)) + 1))
           /\ (room limit r (S (depth_elements es)) = false ->
               readArray_loop features_ doc (readValue features_ doc fuel_rec)
                              fuel idx r = Fatal stack_message))
  /\ (forall ms : members,
         members_ok ms = true ->
         forall (fuel_rec fuel : nat) (name : list Z) (r : OurReader)
                (rest : list Z),
           positioned r (print_members ms ++ c_RBRACE :: rest) ->
           (List.length (print_members ms ++ c_RBRACE :: rest)
            < fuel_rec)%nat ->
           (List.length (print_members ms ++ c_RBRACE :: rest) < fuel)%nat ->
           Z.of_nat (List.length (nodes_ r)) + 1
           + Z.of_nat (List.length (print_members ms ++ c_RBRACE :: rest))
           < 2 ^ 31 ->
           (room limit r (S (depth_members ms)) = true ->
            exists r',
              readObject_loop features_ doc (readValue features_ doc fuel_rec)
                              fuel name r = Ok (true, r')
              /\ lands r r' (current_ r
                             + Z.of_nat (List.length (print_members ms)) + 1))
           /\ (room limit r (S (depth_members ms)) = false ->
               readObject_loop features_ doc
                               (readValue features_ doc fuel_rec)
                               fuel name r = Fatal stack_message)).
Proof.
  apply json_mutind.
  - (* null *)
    value_prelude f Hg. cbn [print depth] in *.
    destruct fuel as [|[|f]]; [simpl in Hfuel; lia| |].
    { rewrite !length_app in Hfuel. simpl in Hfuel. lia. }
    pose proof (readToken_ws r ws _ Hws (eq_refl : solid (bytes "null" ++ rest)) P) as E.
    rewrite (readToken_null _ rest (positioned_app r ws _ P)) in E.
    pose proof (skipCommentTokens_token f _ _ _ _ E ltac:(discriminate)) as Etok.
    destruct (readValue_literal _ _ _ _ Hg Etok) as (r' & E' & L');
      [cbn; tauto|].
    split; intros Hroom.
    + exists r'. split; [exact E'|].
      refine (lands_via r _ r' _ _ _ _ L'); reflexivity.
    + rewrite room_scalar in Hroom by exact Hg0. discriminate.
  - (* true *)
    value_prelude f Hg. cbn [print depth] in *.
    destruct fuel as [|[|f]]; [simpl in Hfuel; lia| |].
    { rewrite !length_app in Hfuel. simpl in Hfuel. lia. }
    pose proof (readToken_ws r ws _ Hws (eq_refl : solid (bytes "true" ++ rest)) P) as E.
    rewrite (readToken_true _ rest (positioned_app r ws _ P)) in E.
    pose proof (skipCommentTokens_token f _ _ _ _ E ltac:(discriminate)) as Etok.
    destruct (readValue_literal _ _ _ _ Hg Etok) as (r' & E' & L');
      [cbn; tauto|].
    split; intros Hroom.
    + exists r'. split; [exact E'|].
      refine (lands_via r _ r' _ _ _ _ L'); reflexivity.
    + rewrite room_scalar in Hroom by exact Hg0. discriminate.
  - (* false *)
    value_prelude f Hg. cbn [print depth] in *.
    destruct fuel as [|[|f]]; [simpl in Hfuel; lia| |].
    { rewrite !length_app in Hfuel. simpl in Hfuel. lia. }
    pose proof (readToken_ws r ws _ Hws (eq_refl : solid (bytes "false" ++ rest)) P) as E.
    rewrite (readToken_false _ rest (positioned_app r ws _ P)) in E.
    pose proof (skipCommentTokens_token f _ _ _ _ E ltac:(discriminate)) as Etok.
    destruct (readValue_literal _ _ _ _ Hg Etok) as (r' & E' & L');
      [cbn; tauto|].
    split; intros Hroom.
    + exists r'. split; [exact E'|].
      refine (lands_via r _ r' _ _ _ _ L'); reflexivity.
    + rewrite room_scalar in Hroom by exact Hg0. discriminate.
  - (* a number *)
    intros n. value_prelude f Hg.
    pose proof (print_nonempty (JNumber n) Hok) as Hne.
    cbn [print depth json_ok] in *.
    destruct fuel as [|[|f]]; [simpl in Hfuel; lia| |].
    { rewrite !length_app in Hfuel. simpl in Hfuel. lia. }
    pose proof (readToken_ws r ws _ Hws (solid_print (JNumber n) rest Hok) P)
      as E.
    cbn [print] in E.
    pose proof (positioned_app r ws _ P) as P1.
    rewrite (readToken_Number _ n rest Hok Hfol P1) in E.
    pose proof (skipCommentTokens_token f _ _ _ _ E ltac:(discriminate)) as Etok.
    destruct (readValue_Number _ _ _ _ Hg Etok eq_refl) as (r' & E' & L').
    { intros r2. apply (decodeNumber_to_ok r2 n rest _ tokenNumber Hok).
      - cbn [set_current current_]. lia.
      - destruct P1 as [_ P1]. exact P1. }
    split; intros Hroom.
    + exists r'. split; [exact E'|].
      refine (lands_via r _ r' _ _ _ _ L'); reflexivity.
    + rewrite room_scalar in Hroom by exact Hg0. discriminate.
  - (* a string *)
    intros s. value_prelude f Hg.
    cbn [print depth json_ok] in *.
    destruct fuel as [|[|f]]; [simpl in Hfuel; lia| |].
    { rewrite !length_app in Hfuel. simpl in Hfuel. lia. }
    pose proof (readToken_ws r ws _ Hws
                  (eq_refl : solid (print_string s ++ rest)) P) as E.
    pose proof (positioned_app r ws _ P) as P1.
    rewrite (readToken_String _ s rest Hok P1) in E.
    pose proof (skipCommentTokens_token f _ _ _ _ E ltac:(discriminate)) as Etok.
    destruct (readValue_String _ _ _ _ Hg Etok eq_refl) as (r' & E' & L').
    { intros r2. exists (decode_chars s).
      apply (decodeString_to_chars r2 s rest _ tokenString Hok).
      - cbn [set_current current_]. lia.
      - destruct P1 as [_ P1]. exact P1. }
    split; intros Hroom.
    + exists r'. split; [exact E'|].
      refine (lands_via r _ r' _ _ _ _ L'); reflexivity.
    + rewrite room_scalar in Hroom by exact Hg0. discriminate.
  - (* an empty array *)
    intros ws0. value_prelude f Hg. cbn [print depth json_ok] in *.
    destruct fuel as [|[|f]]; [simpl in Hfuel; lia| |].
    { rewrite !length_app in Hfuel. simpl in Hfuel. lia. }
    assert (Et : (c_LBRACKET :: ws0 ++ [c_RBRACKET]) ++ rest
                 = c_LBRACKET :: ws0 ++ c_RBRACKET :: rest)
      by (cbn [app]; rewrite <- app_assoc; reflexivity).
    rewrite Et in P.
    destruct (readToken_punct r ws _ c_LBRACKET tokenArrayBegin Hws P)
      as (tok & E & Ety); [tauto|].
    pose proof (skipCommentTokens_token f _ _ _ _ E
                  ltac:(rewrite Ety; discriminate)) as Etok.
    destruct (readValue_ArrayBegin _ _ _ _ Hg Etok Ety)
      as (r2 & (L2c & L2e & L2n) & Hgood & _).
    cbn [set_current current_ errors_ nodes_] in L2c, L2e, L2n.
    assert (P2 : positioned r2 (ws0 ++ c_RBRACKET :: rest)).
    { apply (positioned_shift r r2 (ws ++ [c_LBRACKET])).
      - rewrite <- app_assoc. exact P.
      - rewrite L2c, length_app. cbn [List.length]. lia. }
    destruct (readArray_empty (S f) (readValue features_ doc (S f)) tok r2
                              ws0 rest Hok P2)
      as (r3 & E3 & L3c & L3e & L3n).
    destruct (Hgood r3 E3) as (r' & E' & L'c & L'e & L'n).
    split; intros Hroom.
    + exists r'. split; [exact E'|]. repeat split; try congruence.
      rewrite L'c, L3c, L2c. cbn [List.length].
      rewrite length_app. cbn [List.length]. lia.
    + rewrite room_scalar in Hroom by exact Hg0. discriminate.
  - (* an array *)
    intros es IH. value_prelude f Hg. cbn [print depth json_ok] in *.
    destruct fuel as [|[|f]]; [simpl in Hfuel; lia| |].
    { rewrite !length_app in Hfuel. simpl in Hfuel. lia. }
    assert (Et : (c_LBRACKET :: print_elements es ++ [c_RBRACKET]) ++ rest
                 = c_LBRACKET :: print_elements es ++ c_RBRACKET :: rest)
      by (cbn [app]; rewrite <- app_assoc; reflexivity).
    rewrite Et in P, Hfuel, Hsize.
    destruct (readToken_punct r ws _ c_LBRACKET tokenArrayBegin Hws P)
      as (tok & E & Ety); [tauto|].
    pose proof (skipCommentTokens_token f _ _ _ _ E
                  ltac:(rewrite Ety; discriminate)) as Etok.
    destruct (readValue_ArrayBegin _ _ _ _ Hg Etok Ety)
      as (r2 & (L2c & L2e & L2n) & Hgood & Hbad).
    cbn [set_current current_ errors_ nodes_] in L2c, L2e, L2n.
    assert (P2 : positioned r2 (print_elements es ++ c_RBRACKET :: rest)).
    { apply (positioned_shift r r2 (ws ++ [c_LBRACKET])).
      - rewrite <- app_assoc. exact P.
      - rewrite L2c, length_app. cbn [List.length]. lia. }
    destruct (readArray_elements (S f) (readValue features_ doc (S f)) tok r2
                                 es rest Hok P2)
      as (r0 & (L0c & L0e & L0n) & E0).
    assert (P0 : positioned r0 ([] ++ elements_body es ++ c_RBRACKET :: rest)).
    { apply (positioned_shift r2 r0 (elements_head es)).
      - rewrite print_elements_split, <- app_assoc in P2. exact P2.
      - exact L0c. }
    rewrite !length_app in Hfuel, Hsize. cbn [List.length] in Hfuel, Hsize.
    rewrite print_elements_split, !length_app in Hfuel, Hsize.
    cbn [List.length] in Hfuel, Hsize.
    destruct (IH Hok (S f) (S f) 0%nat r0 [] rest eq_refl P0) as [IHgood IHbad].
    { cbn [app]. rewrite length_app. cbn [List.length]. lia. }
    { cbn [app]. rewrite length_app. cbn [List.length]. lia. }
    { cbn [app]. rewrite length_app. cbn [List.length]. rewrite L0n, L2n.
      lia. }
    assert (Hroom0 : room limit r0 (S (depth_elements es))
                     = room limit r (S (depth_elements es)))
      by (unfold room; rewrite L0n, L2n; reflexivity).
    rewrite Hroom0 in IHgood, IHbad.
    split; intros Hroom.
    + destruct (IHgood Hroom) as (r3 & E3 & L3c & L3e & L3n).
      rewrite <- E0 in E3.
      destruct (Hgood r3 E3) as (r' & E' & L'c & L'e & L'n).
      exists r'. split; [exact E'|]. repeat split; try congruence.
      rewrite L'c, L3c, L0c, L2c. cbn [List.length].
      rewrite length_app, print_elements_split, length_app.
      cbn [List.length]. lia.
    + apply Hbad. rewrite E0. apply IHbad. exact Hroom.
  - (* an empty object *)
    intros ws0. value_prelude f Hg. cbn [print depth json_ok] in *.
    destruct fuel as [|[|f]]; [simpl in Hfuel; lia| |].
    { rewrite !length_app in Hfuel. simpl in Hfuel. lia. }
    assert (Et : (c_LBRACE :: ws0 ++ [c_RBRACE]) ++ rest
                 = c_LBRACE :: ws0 ++ c_RBRACE :: rest)
      by (cbn [app]; rewrite <- app_assoc; reflexivity).
    rewrite Et in P.
    destruct (readToken_punct r ws _ c_LBRACE tokenObjectBegin Hws P)
      as (tok & E & Ety); [tauto|].
    pose proof (skipCommentTokens_token f _ _ _ _ E
                  ltac:(rewrite Ety; discriminate)) as Etok.
    destruct (readValue_ObjectBegin _ _ _ _ Hg Etok Ety)
      as (r2 & (L2c & L2e & L2n) & Hgood & _).
    cbn [set_current current_ errors_ nodes_] in L2c, L2e, L2n.
    destruct (readObject_enter (S f) (readValue features_ doc (S f)) tok r2)
      as (r0 & (L0c & L0e & L0n) & E0).
    assert (P0 : positioned r0 (ws0 ++ c_RBRACE :: rest)).
    { apply (positioned_shift r r0 (ws ++ [c_LBRACE])).
      - rewrite <- app_assoc. exact P.
      - rewrite L0c, L2c, length_app. cbn [List.length]. lia. }
    destruct (readObject_loop_empty f (readValue features_ doc (S f)) r0
                                    ws0 rest Hok P0)
      as (r3 & E3 & L3c & L3e & L3n).
    rewrite <- E0 in E3.
    destruct (Hgood r3 E3) as (r' & E' & L'c & L'e & L'n).
    split; intros Hroom.
    + exists r'. split; [exact E'|]. repeat split; try congruence.
      rewrite L'c, L3c, L0c, L2c. cbn [List.length].
      rewrite length_app. cbn [List.length]. lia.
    + rewrite room_scalar in Hroom by exact Hg0. discriminate.
  - (* an object *)
    intros ms IH. value_prelude f Hg. cbn [print depth json_ok] in *.
    destruct fuel as [|[|f]]; [simpl in Hfuel; lia| |].
    { rewrite !length_app in Hfuel. simpl in Hfuel. lia. }
    assert (Et : (c_LBRACE :: print_members ms ++ [c_RBRACE]) ++ rest
                 = c_LBRACE :: print_members ms ++ c_RBRACE :: rest)
      by (cbn [app]; rewrite <- app_assoc; reflexivity).
    rewrite Et in P, Hfuel, Hsize.
    destruct (readToken_punct r ws _ c_LBRACE tokenObjectBegin Hws P)
      as (tok & E & Ety); [tauto|].
    pose proof (skipCommentTokens_token f _ _ _ _ E
                  ltac:(rewrite Ety; discriminate)) as Etok.
    destruct (readValue_ObjectBegin _ _ _ _ Hg Etok Ety)
      as (r2 & (L2c & L2e & L2n) & Hgood & Hbad).
    cbn [set_current current_ errors_ nodes_] in L2c, L2e, L2n.
    destruct (readObject_enter (S f) (readValue features_ doc (S f)) tok r2)
      as (r0 & (L0c & L0e & L0n) & E0).
    assert (P0 : positioned r0 (print_members ms ++ c_RBRACE :: rest)).
    { apply (positioned_shift r r0 (ws ++ [c_LBRACE])).
      - rewrite <- app_assoc. exact P.
      - rewrite L0c, L2c, length_app. cbn [List.length]. lia. }
    rewrite !length_app in Hfuel, Hsize. cbn [List.length] in Hfuel, Hsize.
    rewrite !length_app in Hfuel, Hsize. cbn [List.length] in Hfuel, Hsize.
    destruct (IH Hok (S f) (S f) [] r0 rest P0) as [IHgood IHbad].
    { rewrite length_app. cbn [List.length]. lia. }
    { rewrite length_app. cbn [List.length]. lia. }
    { rewrite length_app. cbn [List.length]. rewrite L0n, L2n. lia. }
    assert (Hroom0 : room limit r0 (S (depth_members ms))
                     = room limit r (S (depth_members ms)))
      by (unfold room; rewrite L0n, L2n; reflexivity).
    rewrite Hroom0 in IHgood, IHbad.
    split; intros Hroom.
    + destruct (IHgood Hroom) as (r3 & E3 & L3c & L3e & L3n).
      rewrite <- E0 in E3.
      destruct (Hgood r3 E3) as (r' & E' & L'c & L'e & L'n).
      exists r'. split; [exact E'|]. repeat split; try congruence.
      rewrite L'c, L3c, L0c, L2c. cbn [List.length].
      rewrite length_app. cbn [List.length]. lia.
    + apply Hbad. rewrite E0. apply IHbad. exact Hroom.
  - (* the last element *)
    intros ws1 v IHv ws2 Hok fuel_rec fuel idx r wsA rest HwsA P Hfr Hfuel
           Hsize.
    cbn [elements_ok elements_body depth_elements] in *.
    apply andb_prop in Hok as [Hok Hws2]. apply andb_prop in Hok as [Hws1 Hv].
    rewrite <- app_assoc in P, Hfr, Hfuel, Hsize.
    destruct fuel as [|f]; [simpl in Hfuel; lia|].
    destruct (readArray_loop_step fuel_rec f idx r v wsA ws2 c_RBRACKET rest
                                  Hws2 (or_intror eq_refl) P)
      as (r1 & p & H1c & H1e & H1n & Hfatal & Hstep).
    destruct (IHv Hv fuel_rec r1 wsA (ws2 ++ c_RBRACKET :: rest) HwsA)
      as [IHgood IHbad].
    { apply follower_ws_then; [exact Hws2|tauto]. }
    { refine (positioned_frame r r1 _ _ P). exact H1c. }
    { exact Hfr. }
    { rewrite H1n. cbn [List.length]. lia. }
    rewrite (room_push r r1 p _ H1n) in IHgood, IHbad.
    split; intros Hroom.
    + destruct (IHgood Hroom) as (r2 & E2 & L2).
      rewrite H1c in L2.
      destruct (Hstep r2 E2 L2) as (r3 & (L3c & L3e & L3n) & E3).
      exists r3. split; [exact E3|]. repeat split; try assumption.
      rewrite L3c, length_app. lia.
    + apply Hfatal. apply IHbad. exact Hroom.
  - (* an element and more *)
    intros ws1 v IHv ws2 es IHes Hok fuel_rec fuel idx r wsA rest HwsA P Hfr
           Hfuel Hsize.
    cbn [elements_ok elements_body depth_elements] in *.
    apply andb_prop in Hok as [Hok Hes]. apply andb_prop in Hok as [Hok Hws2].
    apply andb_prop in Hok as [Hws1 Hv].
    assert (Et : (print v ++ ws2 ++ c_COMMA :: print_elements es)
                   ++ c_RBRACKET :: rest
                 = print v ++ ws2 ++ c_COMMA
                     :: elements_head es ++ elements_body es
                     ++ c_RBRACKET :: rest).
    { rewrite print_elements_split, <- !app_assoc. cbn [app].
      rewrite <- !app_assoc. reflexivity. }
    rewrite Et in P, Hfr, Hfuel, Hsize.
    destruct fuel as [|f]; [simpl in Hfuel; lia|].
    destruct (readArray_loop_step fuel_rec f idx r v wsA ws2 c_COMMA _
                                  Hws2 (or_introl eq_refl) P)
      as (r1 & p & H1c & H1e & H1n & Hfatal & Hstep).
    destruct (IHv Hv fuel_rec r1 wsA
                  (ws2 ++ c_COMMA :: elements_head es ++ elements_body es
                       ++ c_RBRACKET :: rest) HwsA)
      as [IHgood IHbad].
    { apply follower_ws_then; [exact Hws2|tauto]. }
    { refine (positioned_frame r r1 _ _ P). exact H1c. }
    { exact Hfr. }
    { rewrite H1n. cbn [List.length]. lia. }
    rewrite (room_push r r1 p _ H1n) in IHgood, IHbad.
    rewrite room_max.
    assert (Hnext : forall r2,
               readValue features_ doc fuel_rec r1 = Ok (true, r2) ->
               lands r1 r2 (current_ r1 + Z.of_nat (List.length wsA)
                            + Z.of_nat (List.length (print v))) ->
               exists r3,
                 lands r r3 (current_ r + Z.of_nat (List.length wsA)
                             + Z.of_nat (List.length (print v))
                             + Z.of_nat (List.length ws2) + 1)
                 /\ readArray_loop features_ doc
                      (readValue features_ doc fuel_rec) (S f) idx r
                    = readArray_loop features_ doc
                        (readValue features_ doc fuel_rec) f (S idx) r3).
    { intros r2 E2 L2. rewrite H1c in L2.
      destruct (Hstep r2 E2 L2) as (r3 & L3 & E3).
      exists r3. split; [exact L3|exact E3]. }
    assert (Hrest : forall r3,
               lands r r3 (current_ r + Z.of_nat (List.length wsA)
                           + Z.of_nat (List.length (print v))
                           + Z.of_nat (List.length ws2) + 1) ->
               (room limit r (S (depth_elements es)) = true ->
                exists r',
                  readArray_loop features_ doc
                    (readValue features_ doc fuel_rec) f (S idx) r3
                  = Ok (true, r')
                  /\ lands r r'
                       (current_ r + Z.of_nat (List.length wsA)
                        + Z.of_nat
                            (List.length
                               (print v ++ ws2
                                  ++ c_COMMA :: print_elements es)) + 1))
               /\ (room limit r (S (depth_elements es)) = false ->
                   readArray_loop features_ doc
                     (readValue features_ doc fuel_rec) f (S idx) r3
                   = Fatal stack_message)).
    { intros r3 (L3c & L3e & L3n).
      assert (P3 : positioned r3 (elements_head es ++ elements_body es
                                    ++ c_RBRACKET :: rest)).
      { apply (positioned_shift r r3 (wsA ++ print v ++ ws2 ++ [c_COMMA])).
        - rewrite <- !app_assoc. exact P.
        - rewrite L3c, !length_app. cbn [List.length]. lia. }
      lens_in Hfr; lens_in Hfuel; lens_in Hsize.
      destruct (IHes Hes fuel_rec f (S idx) r3 (elements_head es) rest
                     (elements_head_ws es Hes) P3)
        as [IHesgood IHesbad].
      { rewrite !length_app. cbn [List.length]. lia. }
      { rewrite !length_app. cbn [List.length]. lia. }
      { rewrite !length_app, L3n. cbn [List.length]. lia. }
      rewrite (room_same r r3 _ L3n) in IHesgood, IHesbad.
      split; intros Hroom.
      - destruct (IHesgood Hroom) as (r' & E' & L'c & L'e & L'n).
        exists r'. split; [exact E'|]. repeat split; try congruence.
        rewrite L'c, L3c, print_elements_split, !length_app.
        cbn [List.length]. rewrite !length_app. lia.
      - apply IHesbad. exact Hroom. }
    split; intros Hroom.
    + apply andb_prop in Hroom as [Hr1 Hr2].
      destruct (IHgood Hr1) as (r2 & E2 & L2).
      destruct (Hnext r2 E2 L2) as (r3 & L3 & E3).
      rewrite E3. apply (Hrest r3 L3). exact Hr2.
    + destruct (room limit r (S (depth v))) eqn:Hr1.
      * cbn [andb] in Hroom.
        destruct (IHgood eq_refl) as (r2 & E2 & L2).
        destruct (Hnext r2 E2 L2) as (r3 & L3 & E3).
        rewrite E3. apply (Hrest r3 L3). exact Hroom.
      * apply Hfatal. apply IHbad. reflexivity.
  - (* the last member *)
    intros ws1 k ws2 ws3 v IHv ws4 Hok fuel_rec fuel name r rest P Hfr Hfuel
           Hsize.
    cbn [members_ok print_members depth_members] in *.
    apply andb_prop in Hok as [Hok Hws4]. apply andb_prop in Hok as [Hok Hv].
    apply andb_prop in Hok as [Hok Hws3]. apply andb_prop in Hok as [Hok Hws2].
    apply andb_prop in Hok as [Hws1 Hk].
    assert (Et : (ws1 ++ print_string k ++ ws2 ++ c_COLON
                      :: ws3 ++ print v ++ ws4) ++ c_RBRACE :: rest
                 = ws1 ++ print_string k ++ ws2 ++ c_COLON
                     :: ws3 ++ print v ++ ws4 ++ c_RBRACE :: rest).
    { rewrite <- !app_assoc. cbn [app]. rewrite <- !app_assoc. reflexivity. }
    rewrite Et in P, Hfr, Hfuel, Hsize.
    pose proof (positioned_bounds r _ P) as [Hcur Hend].
    unfold end_ in Hend.
    lens_in Hend; lens_in Hfr; lens_in Hfuel; lens_in Hsize.
    destruct fuel as [|f]; [lia|].
    destruct (readObject_loop_step fuel_rec f name r k v ws1 ws2 ws3 ws4
                                   c_RBRACE rest Hws1 Hk Hws2 Hws4
                                   (or_intror eq_refl))
      as (r1 & p & H1c & H1e & H1n & Hfatal & Hstep); [|exact P|].
    { unfold print_string in Hend. lens_in Hend. lia. }
    destruct (IHv Hv fuel_rec r1 ws3 (ws4 ++ c_RBRACE :: rest) Hws3)
      as [IHgood IHbad].
    { apply follower_ws_then; [exact Hws4|tauto]. }
    { apply (positioned_shift r r1
               (ws1 ++ print_string k ++ ws2 ++ [c_COLON])).
      - rewrite <- !app_assoc. exact P.
      - rewrite H1c. lens. lia. }
    { lens. lia. }
    { rewrite H1n. lens. lia. }
    rewrite (room_push r r1 p _ H1n) in IHgood, IHbad.
    split; intros Hroom.
    + destruct (IHgood Hroom) as (r2 & E2 & L2).
      destruct (Hstep r2 E2 L2) as (r3 & (L3c & L3e & L3n) & E3).
      exists r3. split; [exact E3|]. repeat split; try assumption.
      rewrite L3c, H1c. lens. lia.
    + apply Hfatal. apply IHbad. exact Hroom.
  - (* a member and more *)
    intros ws1 k ws2 ws3 v IHv ws4 ms IHms Hok fuel_rec fuel name r rest P
           Hfr Hfuel Hsize.
    cbn [members_ok print_members depth_members] in *.
    apply andb_prop in Hok as [Hok Hms].
    apply andb_prop in Hok as [Hok Hws4]. apply andb_prop in Hok as [Hok Hv].
    apply andb_prop in Hok as [Hok Hws3]. apply andb_prop in Hok as [Hok Hws2].
    apply andb_prop in Hok as [Hws1 Hk].
    assert (Et : (ws1 ++ print_string k ++ ws2 ++ c_COLON
                      :: ws3 ++ print v ++ ws4
                      ++ c_COMMA :: print_members ms) ++ c_RBRACE :: rest
                 = ws1 ++ print_string k ++ ws2 ++ c_COLON
                     :: ws3 ++ print v ++ ws4
                     ++ c_COMMA :: print_members ms ++ c_RBRACE :: rest).
    { rewrite <- !app_assoc. cbn [app]. rewrite <- !app_assoc. cbn [app].
      reflexivity. }
    rewrite Et in P, Hfr, Hfuel, Hsize.
    pose proof (positioned_bounds r _ P) as [Hcur Hend].
    unfold end_ in Hend.
    lens_in Hend; lens_in Hfr; lens_in Hfuel; lens_in Hsize.
    destruct fuel as [|f]; [lia|].
    destruct (readObject_loop_step fuel_rec f name r k v ws1 ws2 ws3 ws4
                                   c_COMMA
                                   (print_members ms ++ c_RBRACE :: rest)
                                   Hws1 Hk Hws2 Hws4 (or_introl eq_refl))
      as (r1 & p & H1c & H1e & H1n & Hfatal & Hstep); [|exact P|].
    { unfold print_string in Hend. lens_in Hend. lia. }
    destruct (IHv Hv fuel_rec r1 ws3
                  (ws4 ++ c_COMMA :: print_members ms ++ c_RBRACE :: rest)
                  Hws3)
      as [IHgood IHbad].
    { apply follower_ws_then; [exact Hws4|tauto]. }
    { apply (positioned_shift r r1
               (ws1 ++ print_string k ++ ws2 ++ [c_COLON])).
      - rewrite <- !app_assoc. exact P.
      - rewrite H1c. lens. lia. }
    { lens. lia. }
    { rewrite H1n. lens. lia. }
    rewrite (room_push r r1 p _ H1n) in IHgood, IHbad.
    rewrite room_max.
    assert (Hrest : forall r3,
               lands r r3 (current_ r1 + Z.of_nat (List.length ws3)
                           + Z.of_nat (List.length (print v))
                           + Z.of_nat (List.length ws4) + 1) ->
               (room limit r (S (depth_members ms)) = true ->
                exists r',
                  readObject_loop features_ doc
                    (readValue features_ doc fuel_rec) f (decode_chars k) r3
                  = Ok (true, r')
                  /\ lands r r'
                       (current_ r
                        + Z.of_nat
                            (List.length
                               (ws1 ++ print_string k ++ ws2 ++ c_COLON
                                    :: ws3 ++ print v ++ ws4
                                    ++ c_COMMA :: print_members ms)) + 1))
               /\ (room limit r (S (depth_members ms)) = false ->
                   readObject_loop features_ doc
                     (readValue features_ doc fuel_rec) f (decode_chars k) r3
                   = Fatal stack_message)).
    { intros r3 (L3c & L3e & L3n).
      assert (P3 : positioned r3 (print_members ms ++ c_RBRACE :: rest)).
      { apply (positioned_shift r r3
                 (ws1 ++ print_string k ++ ws2 ++ c_COLON
                      :: ws3 ++ print v ++ ws4 ++ [c_COMMA])).
        - rewrite <- !app_assoc. cbn [app]. rewrite <- !app_assoc. exact P.
        - rewrite L3c, H1c. lens. lia. }
      destruct (IHms Hms fuel_rec f (decode_chars k) r3 rest P3)
        as [IHmsgood IHmsbad].
      { lens. lia. }
      { lens. lia. }
      { rewrite L3n. lens. lia. }
      rewrite (room_same r r3 _ L3n) in IHmsgood, IHmsbad.
      split; intros Hroom.
      - destruct (IHmsgood Hroom) as (r' & E' & L'c & L'e & L'n).
        exists r'. split; [exact E'|]. repeat split; try congruence.
        rewrite L'c, L3c, H1c. lens. lia.
      - apply IHmsbad. exact Hroom. }
    split; intros Hroom.
    + apply andb_prop in Hroom as [Hr1 Hr2].
      destruct (IHgood Hr1) as (r2 & E2 & L2).
      destruct (Hstep r2 E2 L2) as (r3 & L3 & E3).
      rewrite E3. apply (Hrest r3 L3). exact Hr2.
    + destruct (room limit r (S (depth v))) eqn:Hr1.
      * cbn [andb] in Hroom.
        destruct (IHgood eq_refl) as (r2 & E2 & L2).
        destruct (Hstep r2 E2 L2) as (r3 & L3 & E3).
        rewrite E3. apply (Hrest r3 L3). exact Hroom.
      * apply Hfatal. apply IHbad. reflexivity.
Qed.

(** *** Whole documents *)

Lemma readToken_trailing (r : OurReader) (ws : list Z) :
  is_ws ws = true -> positioned r ws ->
  exists token r',
    readToken features_ doc r = (true, token, r')
    /\ type_ token = tokenEndOfStream /\ errors_ r' = errors_ r.
Proof.
  intros Hws P.
  pose proof (positioned_bounds r _ P) as [Hcur Hend].
  assert (P' : positioned r (ws ++ [])) by (rewrite app_nil_r; exact P).
  pose proof (skipSpaces_ws r ws [] Hws I P') as Es.
  pose proof (readToken_at_end H features_ doc r) as E.
  rewrite Es in E. cbn [set_current current_] in E.
  specialize (E Hend). rewrite E.
  do 2 eexists. split; [reflexivity|]. split; reflexivity.
Qed.

Lemma parse_document (ws1 : list Z) (v : json) (ws2 : list Z) (fuel : nat)
      (root : Value H) (collectComments : bool) :
  doc = document ws1 v ws2 ->
  strictRoot_ features_ = false ->
  is_ws ws1 = true -> json_ok v = true -> is_ws ws2 = true ->
  (List.length doc < fuel)%nat ->
  (Z.of_nat (depth v) <= limit ->
   exists r',
     parse features_ doc fuel root collectComments = Ok (true, r')
     /\ errors_ r' = [])
  /\ (limit < Z.of_nat (depth v) ->
      parse features_ doc fuel root collectComments = Fatal stack_message).
Proof.
  intros Edoc Hroot Hws1 Hv Hws2 Hfuel.
  unfold parse.
  set (r0 := {| root_ := root; nodes_ := [[]]; errors_ := [];
                current_ := 0; lastValueEnd_ := None; lastValue_ := None;
                commentsBefore_ := [];
                collectComments_ :=
                  if negb (allowComments_ features_) then false
                  else collectComments |}).
  assert (P0 : positioned r0 (ws1 ++ print v ++ ws2)).
  { split.
    - cbn [current_ r0]. unfold end_. lia.
    - cbn [current_ r0]. unfold suffix. cbn [Z.to_nat skipn]. exact Edoc. }
  destruct readValue_depth_mutual as [Hvalue _].
  destruct (Hvalue v Hv fuel r0 ws1 ws2 Hws1 (follower_ws ws2 Hws2) P0)
    as [Hgood Hbad].
  { unfold document in Edoc. rewrite <- Edoc. exact Hfuel. }
  { unfold document in Edoc. rewrite <- Edoc. cbn [nodes_ r0 List.length].
    lia. }
  assert (Hroom : room limit r0 (depth v) = (Z.of_nat (depth v) <=? limit)).
  { unfold room. cbn [nodes_ r0 List.length]. f_equal. lia. }
  rewrite Hroom in Hgood, Hbad.
  split; intros Hd.
  - destruct (Hgood ltac:(apply Z.leb_le; exact Hd))
      as (r1 & E1 & L1c & L1e & L1n).
    rewrite E1. cbn [bind].
    assert (P1 : positioned r1 ws2).
    { apply (positioned_shift r0 r1 (ws1 ++ print v)).
      - rewrite <- app_assoc. exact P0.
      - rewrite L1c, length_app. cbn [current_ r0]. lia. }
    destruct (readToken_trailing r1 ws2 Hws2 P1) as (tok & r2 & E2 & Ety & Ee).
    destruct fuel as [|f]; [lia|].
    rewrite (skipCommentTokens_token f r1 r2 true tok E2)
      by (rewrite Ety; discriminate).
    cbn [bind]. rewrite Ety, Hroot.
    cbn [TokenType_eqb negb andb orb]. rewrite andb_false_r.
    assert (He : errors_ r2 = []) by (rewrite Ee, L1e; reflexivity).
    eexists. split; [reflexivity|].
    destruct (collectComments_ r2 && negb (is_nil (commentsBefore_ r2)));
      exact He.
  - rewrite (Hbad ltac:(apply Z.leb_gt; exact Hd)). reflexivity.
Qed.

End DocumentFacts.

(** * The run of the parser *)

Section RunFacts.

Variable H : Host.
Variable features_ : Features.
Variable doc : list Z.

Local Abbreviation end_ := (end_ doc).
Local Abbreviation suffix := (suffix doc).
Local Abbreviation slice := (slice doc).
Local Abbreviation at_ := (at_ doc).
Local Abbreviation OurReader := (OurReader H).
Local Abbreviation advances := (advances doc).
Local Abbreviation bytes_left := (bytes_left doc).
Local Abbreviation settled := (settled doc).

Lemma recoverFromError_run (fuel : nat) (kind : TokenType) (r : OurReader) :
  0 <= current_ r <= end_ ->
  (bytes_left r < fuel)%nat ->
  exists r',
    recoverFromError features_ doc fuel kind r = Ok (false, r')
    /\ advances r r'.
Proof.
  intros Hb Hf.
  destruct (recoverFromError_loop_spec H features_ doc kind fuel r Hb Hf)
    as (r' & E & _ & A).
  unfold recoverFromError. rewrite E. cbn [bind].
  pose proof A as (Ac & Ae & An & Acc).
  rewrite <- Ae, resize_same, set_errors_same.
  exists r'. split; [reflexivity|exact A].
Qed.

Lemma addErrorAndRecover_run (fuel : nat) (message : string) (token : Token)
      (kind : TokenType) (r : OurReader) :
  0 <= current_ r <= end_ ->
  (bytes_left r < fuel)%nat ->
  exists r',
    addErrorAndRecover features_ doc fuel message token kind r
    = Ok (false, r')
    /\ current_ r <= current_ r' <= end_
    /\ nodes_ r' = nodes_ r
    /\ collectComments_ r' = collectComments_ r
    /\ exists info, errors_ r' = errors_ r ++ [info].
Proof.
  intros Hb Hf. unfold addErrorAndRecover, addError.
  match goal with
  | |- context [recoverFromError _ _ _ _ ?r0] =>
      destruct (recoverFromError_run fuel kind r0) as (r' & E & A)
  end; [exact Hb|exact Hf|].
  rewrite E. exists r'. split; [reflexivity|].
  destruct A as (Ac & Ae & An & Acc).
  cbn [set_errors current_ errors_ nodes_ collectComments_] in *.
  repeat split; try assumption; try lia.
  eexists. exact Ae.
Qed.

Lemma skipCommentTokens_loop_run (fuel : nat) :
  forall r : OurReader,
    0 <= current_ r <= end_ ->
    (bytes_left r < fuel)%nat ->
    exists token r',
      skipCommentTokens_loop features_ doc fuel r = Ok (token, r')
      /\ advances r r'
      /\ (type_ token <> tokenEndOfStream -> current_ r < current_ r')
      /\ 0 <= offsetStart_ token <= offsetEnd_ token
      /\ offsetEnd_ token = current_ r'.
Proof.
  induction fuel as [|fuel IH]; intros r Hb Hf; [lia|].
  cbn [skipCommentTokens_loop].
  pose proof (readToken_advances H features_ doc r Hb) as A.
  destruct (readToken features_ doc r) as [[ok token] r1].
  destruct A as (_ & A & Hp & Ho & He).
  destruct (TokenType_eqb (type_ token) tokenComment) eqn:Ec.
  - apply TokenType_eqb_eq in Ec.
    assert (Hlt : current_ r < current_ r1)
      by (apply Hp; rewrite Ec; discriminate).
    destruct A as (Ac & Ae & An & Acc).
    destruct (IH r1) as (token' & r' & E' & A' & Hp' & Ho' & He');
      [lia|unfold bytes_left in *; lia|].
    exists token', r'. split; [exact E'|].
    split.
    { apply (advances_trans H doc r r1 r'); [|exact A'].
      repeat split; auto; lia. }
    split; [intros _; destruct A' as (Ac' & _); lia|].
    split; assumption.
  - exists token, r1. split; [reflexivity|].
    split; [exact A|]. split; [exact Hp|]. split; [lia|exact He].
Qed.

Lemma skipCommentTokens_run (fuel : nat) (r : OurReader) :
  0 <= current_ r <= end_ ->
  (bytes_left r < fuel)%nat ->
  exists token r',
    skipCommentTokens features_ doc fuel r = Ok (token, r')
    /\ advances r r'
    /\ (type_ token <> tokenEndOfStream -> current_ r < current_ r')
    /\ 0 <= offsetStart_ token <= offsetEnd_ token
    /\ offsetEnd_ token = current_ r'.
Proof.
  intros Hb Hf. unfold skipCommentTokens.
  destruct (allowComments_ features_).
  - apply skipCommentTokens_loop_run; assumption.
  - pose proof (readToken_advances H features_ doc r Hb) as A.
    destruct (readToken features_ doc r) as [[ok token] r1].
    destruct A as (_ & A & Hp & Ho & He).
    exists token, r1. split; [reflexivity|].
    split; [exact A|]. split; [exact Hp|]. split; [lia|exact He].
Qed.

(** The loop that skips the comments behind a token: [c0] is a cursor the
    token in hand was read behind. *)
Lemma skipComments_while_run (c0 : Z) (fuel : nat) :
  forall (ok : bool) (token : Token) (r : OurReader),
    0 <= current_ r <= end_ ->
    (bytes_left r < fuel)%nat ->
    c0 <= current_ r ->
    (type_ token <> tokenEndOfStream -> c0 < current_ r) ->
    exists ok' token' r',
      skipComments_while features_ doc fuel ok token r = Ok (ok', token', r')
      /\ advances r r'
      /\ (type_ token' <> tokenEndOfStream -> c0 < current_ r')
      /\ (ok = true -> ok' = true /\ type_ token' <> tokenComment)
      /\ (type_ token <> tokenComment -> token' = token /\ r' = r).
Proof.
  induction fuel as [|fuel IH]; intros ok token r Hb Hf Hc Hp; [lia|].
  cbn [skipComments_while].
  destruct (TokenType_eqb (type_ token) tokenComment) eqn:Ec.
  - destruct ok; cbn [andb].
    + pose proof (readToken_advances H features_ doc r Hb) as A.
      destruct (readToken features_ doc r) as [[ok1 token1] r1].
      destruct A as (Eok & A & Hp1 & Ho & He). subst ok1.
      pose proof A as (Ac & Ae & An & Acc).
      apply TokenType_eqb_eq in Ec.
      destruct (Nat.eq_dec (bytes_left r) 0) as [Hz|Hz].
      * (* at the end of the document the token is EndOfStream *)
        assert (Hcur : current_ r1 = current_ r)
          by (unfold bytes_left in Hz; lia).
        assert (Ety : type_ token1 = tokenEndOfStream).
        { destruct (TokenType_eqb (type_ token1) tokenEndOfStream) eqn:E1.
          - apply TokenType_eqb_eq in E1. exact E1.
          - apply TokenType_eqb_neq in E1. specialize (Hp1 E1). lia. }
        destruct fuel as [|fuel'].
        -- cbn [skipComments_while]. rewrite Ety. cbn [TokenType_eqb andb].
           exists true, token1, r1. split; [reflexivity|].
           split; [exact A|]. split; [rewrite Ety; congruence|].
           split; [intros _; split; [reflexivity|rewrite Ety; discriminate]|].
           rewrite Ec. congruence.
        -- cbn [skipComments_while]. rewrite Ety. cbn [TokenType_eqb andb].
           exists true, token1, r1. split; [reflexivity|].
           split; [exact A|]. split; [rewrite Ety; congruence|].
           split; [intros _; split; [reflexivity|rewrite Ety; discriminate]|].
           rewrite Ec. congruence.
      * destruct (TokenType_eqb (type_ token1) tokenEndOfStream) eqn:E1.
        -- apply TokenType_eqb_eq in E1.
           assert (Es : skipComments_while features_ doc fuel true token1 r1
                        = Ok (true, token1, r1)).
           { destruct fuel; cbn [skipComments_while]; rewrite E1;
               reflexivity. }
           rewrite Es. exists true, token1, r1. split; [reflexivity|].
           split; [exact A|]. split; [rewrite E1; congruence|].
           split; [intros _; split; [reflexivity|rewrite E1; discriminate]|].
           rewrite Ec. congruence.
        -- apply TokenType_eqb_neq in E1. specialize (Hp1 E1).
           destruct (IH true token1 r1)
             as (ok' & token' & r' & E' & A' & Hp' & Hok' & _);
             [lia|unfold bytes_left in *; lia|lia|intros _; lia|].
           rewrite E'. exists ok', token', r'. split; [reflexivity|].
           split; [exact (advances_trans H doc r r1 r' A A')|].
           split; [exact Hp'|]. split; [intros _; apply Hok'; reflexivity|].
           rewrite Ec. congruence.
    + exists false, token, r. split; [reflexivity|].
      split; [apply advances_refl; lia|]. split; [exact Hp|].
      split; [discriminate|]. intros _. split; reflexivity.
  - cbn [andb]. exists ok, token, r. split; [reflexivity|].
    split; [apply advances_refl; lia|]. split; [exact Hp|].
    split; [|intros _; split; reflexivity].
    intros ->. split; [reflexivity|]. apply TokenType_eqb_neq. exact Ec.
Qed.

(** *** The string decoder *)

Lemma hex_digit_range (c d : Z) : hex_digit c = Some d -> 0 <= d < 16.
Proof.
  unfold hex_digit, c_0, c_9, c_a, c_f, c_A, c_F.
  repeat match goal with
         | |- context [if ?b then _ else _] => destruct b eqn:?
         end; intros E; inversion E; subst; lia.
Qed.

Lemma hex_loop_range (n : nat) :
  forall (cur u v cur' : Z),
    decodeUnicodeEscapeSequence_loop doc n cur u = (Some v, cur') ->
    0 <= u ->
    0 <= v < (u + 1) * 16 ^ Z.of_nat n.
Proof.
  induction n as [|n IH]; intros cur u v cur' E Hu.
  - cbn in E. inversion E; subst. cbn. lia.
  - cbn [decodeUnicodeEscapeSequence_loop] in E.
    destruct (hex_digit (at_ cur)) as [d|] eqn:Ed; [|discriminate].
    apply hex_digit_range in Ed.
    apply IH in E; [|lia].
    rewrite Nat2Z.inj_succ, Z.pow_succ_r by lia. nia.
Qed.

(** What an unsuccessful step of a decoder leaves: the reader with one more
    entry in the journal. *)
Lemma addError_shape (message : string) (token : Token) (extra : option Z)
      (r : OurReader) :
  exists info,
    addError doc message token extra r
    = (false, set_errors r (errors_ r ++ [info])).
Proof. unfold addError. eexists. reflexivity. Qed.

Lemma decodeUnicodeEscapeSequence_run (token : Token) (cur e : Z)
      (r : OurReader) :
  (exists u,
      decodeUnicodeEscapeSequence doc token cur e r = (true, cur + 4, u, r)
      /\ cur + 4 <= e /\ 0 <= u < 2 ^ 16)
  \/ (exists cur' u info,
         decodeUnicodeEscapeSequence doc token cur e r
         = (false, cur', u, set_errors r (errors_ r ++ [info]))).
Proof.
  unfold decodeUnicodeEscapeSequence.
  destruct (Z.ltb_spec (e - cur) 4) as [Hlt|Hge].
  - right. unfold addError. do 3 eexists. reflexivity.
  - destruct (decodeUnicodeEscapeSequence_loop doc 4 cur 0) as [[v|] cur']
      eqn:E.
    + left. pose proof (hex_loop_position doc 4 cur 0 v cur' E) as Hp.
      pose proof (hex_loop_range 4 cur 0 v cur' E ltac:(lia)) as Hr.
      exists v. subst cur'. split; [reflexivity|]. split; [lia|].
      change (16 ^ Z.of_nat 4) with (2 ^ 16) in Hr. lia.
    + right. unfold addError. do 3 eexists. reflexivity.
Qed.

(** A code point the decoder accepts lies within the Unicode range, and the
    cursor has moved over its escapes within the token. *)
Lemma decodeUnicodeCodePoint_run (token : Token) (cur e : Z) (r : OurReader) :
  (exists cur' cp,
      decodeUnicodeCodePoint doc token cur e r = (true, cur', cp, r)
      /\ cur < cur' <= e /\ 0 <= cp <= 0x10FFFF
      /\ (cp < 0xD800 \/ 0xDBFF < cp)
      /\ (cur' = cur + 4 \/ cur' = cur + 10))
  \/ (exists cur' u info,
         decodeUnicodeCodePoint doc token cur e r
         = (false, cur', u, set_errors r (errors_ r ++ [info]))).
Proof.
  unfold decodeUnicodeCodePoint.
  destruct (decodeUnicodeEscapeSequence_run token cur e r)
    as [(u & E & He & Hu)|(cur' & u & info & E)]; rewrite E; cbn [negb].
  2: { right. do 3 eexists. reflexivity. }
  destruct ((0xD800 <=? u) && (u <=? 0xDBFF)) eqn:Hs.
  2: { left. do 2 eexists. split; [reflexivity|].
       apply andb_false_iff in Hs as [Hs|Hs];
         [apply Z.leb_gt in Hs|apply Z.leb_gt in Hs]; lia. }
  destruct (Z.ltb_spec (e - (cur + 4)) 6) as [Hlt|Hge].
  { right. unfold addError. do 3 eexists. reflexivity. }
  destruct (at_ (cur + 4) =? c_BACKSLASH).
  2: { right. unfold addError. do 3 eexists. reflexivity. }
  destruct (at_ (cur + 4 + 1) =? c_u).
  2: { right. unfold addError. do 3 eexists. reflexivity. }
  destruct (decodeUnicodeEscapeSequence_run token (cur + 4 + 1 + 1) e r)
    as [(s & E2 & He2 & Hs2)|(cur' & s & info & E2)]; rewrite E2.
  2: { right. do 3 eexists. reflexivity. }
  left. do 2 eexists. split; [reflexivity|]. split; [lia|].
  change 0x3FF with (Z.ones 10).
  rewrite !Z.land_ones, Z.shiftl_mul_pow2 by lia.
  pose proof (Z.mod_pos_bound u (2 ^ 10) ltac:(lia)).
  pose proof (Z.mod_pos_bound s (2 ^ 10) ltac:(lia)).
  lia.
Qed.

Lemma decodeString_loop_run (token : Token) (e : Z) (fuel : nat) :
  forall (cur : Z) (decoded : list Z) (r : OurReader),
    cur <= e ->
    (Z.to_nat (e - cur) <= fuel)%nat ->
    exists ok decoded' r',
      decodeString_loop doc fuel token cur e decoded r
      = Ok (ok, decoded', r')
      /\ (r' = r /\ ok = true
          \/ ok = false
             /\ exists info, r' = set_errors r (errors_ r ++ [info])).
Proof.
  induction fuel as [|fuel IH]; intros cur decoded r Hc Hf.
  - assert (cur = e) by lia. subst cur. cbn [decodeString_loop].
    rewrite Z.eqb_refl. do 3 eexists. split; [reflexivity|]. left. tauto.
  - cbn [decodeString_loop].
    destruct (Z.eqb_spec cur e) as [->|Hne].
    { do 3 eexists. split; [reflexivity|]. left. tauto. }
    assert (Hnext : forall d, exists ok decoded' r',
               decodeString_loop doc fuel token (cur + 1) e d r
               = Ok (ok, decoded', r')
               /\ (r' = r /\ ok = true
                   \/ ok = false
                      /\ exists info, r' = set_errors r (errors_ r ++ [info])))
      by (intros d; apply IH; lia).
    destruct (at_ cur =? c_DQUOTE).
    { do 3 eexists. split; [reflexivity|]. left. tauto. }
    destruct (at_ cur =? c_BACKSLASH); [|apply Hnext].
    destruct (Z.eqb_spec (cur + 1) e) as [He|Hne2].
    { unfold addError. do 3 eexists. split; [reflexivity|]. right.
      split; [reflexivity|]. eexists. reflexivity. }
    assert (Hnext2 : forall d, exists ok decoded' r',
               decodeString_loop doc fuel token (cur + 1 + 1) e d r
               = Ok (ok, decoded', r')
               /\ (r' = r /\ ok = true
                   \/ ok = false
                      /\ exists info, r' = set_errors r (errors_ r ++ [info])))
      by (intros d; apply IH; lia).
    repeat match goal with
           | |- context [if at_ (cur + 1) =? ?c then _ else _] =>
               destruct (at_ (cur + 1) =? c); [try apply Hnext2|]
           end.
    + destruct (decodeUnicodeCodePoint_run token (cur + 1 + 1) e r)
        as [(cur' & cp & E & Hcur & _)|(cur' & u & info & E)]; rewrite E.
      * apply IH; lia.
      * do 3 eexists. split; [reflexivity|]. right. split; [reflexivity|].
        eexists. reflexivity.
    + unfold addError. do 3 eexists. split; [reflexivity|]. right.
      split; [reflexivity|]. eexists. reflexivity.
Qed.

Lemma readString_loop_closed (q : Z) (rest : list Z) (cur c0 cur' : Z) :
  c0 <> q ->
  readString_loop q rest cur c0 = (cur', q) ->
  cur < cur'.
Proof.
  intros Hq E. destruct rest as [|c' rest1]; cbn [readString_loop] in E.
  - inversion E. congruence.
  - destruct (c' =? c_BACKSLASH).
    + destruct rest1 as [|x rest2]; [inversion E; lia|].
      pose proof (readString_loop_bounds q rest2 (cur + 2) c') as B.
      rewrite E in B. cbn [fst] in B. lia.
    + destruct (c' =? q); [inversion E; lia|].
      pose proof (readString_loop_bounds q rest1 (cur + 1) c') as B.
      rewrite E in B. cbn [fst] in B. lia.
Qed.

(** A String token holds its two quotes at least. *)
Lemma readToken_string_token (r r' : OurReader) (ok : bool) (token : Token) :
  readToken features_ doc r = (ok, token, r') ->
  type_ token = tokenString ->
  offsetStart_ token + 2 <= offsetEnd_ token.
Proof.
  intros E.
  assert (G : type_ (snd (fst (readToken features_ doc r))) = tokenString ->
              offsetStart_ (snd (fst (readToken features_ doc r))) + 2
              <= offsetEnd_ (snd (fst (readToken features_ doc r))));
    [|rewrite E in G; exact G].
  clear E.
  unfold readToken, getNextChar, readString, readStringSingleQuote.
  set (r1 := skipSpaces doc r).
  destruct (current_ r1 =? end_).
  - cbn. discriminate.
  - set (c := at_ (current_ r1)). clearbody c. cbv beta iota zeta.
    repeat first
      [ match goal with
        | |- context [if ?b then _ else _] => destruct b eqn:?
        end
      | match goal with
        | |- context [readString_loop ?q ?l ?a ?b] =>
            destruct (readString_loop q l a b) as [? ?] eqn:?
        end
      | match goal with
        | |- context [readComment doc ?x] =>
            destruct (readComment doc x) as [? ?] eqn:?
        | |- context [readNumber doc ?b ?x] =>
            destruct (readNumber doc b x) as [? ?] eqn:?
        | |- context [match_ doc ?p ?x] =>
            destruct (match_ doc p x) as [? ?] eqn:?
        end ];
      cbn [fst snd type_ offsetStart_ offsetEnd_ set_current current_];
      intros Hty; try discriminate.
    + match goal with
      | Hq : (?c' =? c_DQUOTE) = true, Hl : readString_loop _ _ _ _ = _ |- _ =>
          apply Z.eqb_eq in Hq; subst c';
          apply readString_loop_closed in Hl; [|discriminate]
      end.
      cbn [set_current current_] in *. lia.
    + match goal with
      | Hq : (?c' =? c_SQUOTE) = true, Hl : readString_loop _ _ _ _ = _ |- _ =>
          apply Z.eqb_eq in Hq; subst c';
          apply readString_loop_closed in Hl; [|discriminate]
      end.
      cbn [set_current current_] in *. lia.
Qed.

Lemma decodeString_to_run (token : Token) (r : OurReader) :
  offsetStart_ token + 2 <= offsetEnd_ token ->
  exists ok decoded r',
    decodeString_to doc token r = Ok (ok, decoded, r')
    /\ (r' = r /\ ok = true
        \/ ok = false /\ exists info, r' = set_errors r (errors_ r ++ [info])).
Proof.
  intros Hlen. unfold decodeString_to. apply decodeString_loop_run; lia.
Qed.

(** *** The number decoder *)

Lemma decodeDouble_to_run (token : Token) (r : OurReader) :
  (exists v, decodeDouble_to doc token r = (true, v, r))
  \/ (exists v info,
         decodeDouble_to doc token r
         = (false, v, set_errors r (errors_ r ++ [info]))).
Proof.
  unfold decodeDouble_to, addError.
  destruct (offsetEnd_ token - offsetStart_ token <? 0).
  { right. do 2 eexists. reflexivity. }
  match goal with
  | |- context [match ?x with Some _ => _ | None => _ end] => destruct x
  end.
  - left. eexists. reflexivity.
  - right. do 2 eexists. reflexivity.
Qed.

Lemma decodeNumber_to_run (token : Token) (r : OurReader) :
  (exists v, decodeNumber_to doc token r = (true, v, r))
  \/ (exists v info,
         decodeNumber_to doc token r
         = (false, v, set_errors r (errors_ r ++ [info]))).
Proof.
  unfold decodeNumber_to.
  match goal with
  | |- context [match ?x with Some _ => _ | None => _ end] => destruct x
  end; [|apply decodeDouble_to_run].
  left.
  repeat match goal with
         | |- context [if ?b then _ else _] => destruct b
         end; eexists; reflexivity.
Qed.

(** *** Runs that have come to an end *)

Lemma settled_step (r r1 : OurReader) (res : result (bool * OurReader)) :
  advances r r1 -> settled r1 res -> settled r res.
Proof.
  intros (Ac & Ae & An & Acc). destruct res as [[ok r']|m|]; cbn; auto.
  intros (Hc & Hn & Hcc & Hr). repeat split; try congruence; try lia.
  unfold reports in *. rewrite <- Ae. exact Hr.
Qed.

Lemma settled_same (r r1 : OurReader) (res : result (bool * OurReader)) :
  current_ r1 = current_ r -> errors_ r1 = errors_ r ->
  nodes_ r1 = nodes_ r -> collectComments_ r1 = collectComments_ r ->
  current_ r <= end_ ->
  settled r1 res -> settled r res.
Proof.
  intros Ec Ee En Ecc Hb. apply settled_step.
  repeat split; try assumption; lia.
Qed.

Lemma settled_failed (r r' : OurReader) (info : ErrorInfo) :
  current_ r <= current_ r' <= end_ ->
  nodes_ r' = nodes_ r -> collectComments_ r' = collectComments_ r ->
  errors_ r' = errors_ r ++ [info] ->
  settled r (Ok (false, r')).
Proof.
  intros Hc Hn Hcc He. cbn. repeat split; try assumption; try lia.
  exists info. exact He.
Qed.

(** The end of [readValue]: the last value is noted down for the comments
    to come. *)
Lemma settled_finish (r r1 : OurReader) (ok : bool) :
  settled r (Ok (ok, r1)) ->
  settled r (Ok (ok,
                 if collectComments_ r1
                 then set_lastValue r1 (Some (current_ r1)) (Some (top r1))
                 else r1)).
Proof. intros Hs. destruct (collectComments_ r1); exact Hs. Qed.

Lemma decodeString_settled (token : Token) (r : OurReader) :
  offsetStart_ token + 2 <= offsetEnd_ token ->
  current_ r <= end_ ->
  exists ok r',
    decodeString doc token r = Ok (ok, r') /\ settled r (Ok (ok, r')).
Proof.
  intros Hlen Hb. unfold decodeString.
  destruct (decodeString_to_run token r Hlen)
    as (ok & decoded & r' & E & [[-> ->]|[-> (info & ->)]]);
    rewrite E; cbn [bind negb]; do 2 eexists; (split; [reflexivity|]).
  - cbn. repeat split; lia.
  - apply (settled_failed r _ info); try reflexivity. cbn. lia.
Qed.

Lemma decodeNumber_settled (token : Token) (r : OurReader) :
  current_ r <= end_ ->
  exists ok r',
    decodeNumber doc token r = (ok, r') /\ settled r (Ok (ok, r')).
Proof.
  intros Hb. unfold decodeNumber.
  destruct (decodeNumber_to_run token r) as [(v & E)|(v & info & E)];
    rewrite E; cbn [negb]; do 2 eexists; (split; [reflexivity|]).
  - cbn. repeat split; lia.
  - apply (settled_failed r _ info); try reflexivity. cbn. lia.
Qed.

Lemma settled_advances (r r' : OurReader) :
  settled r (Ok (true, r')) <-> advances r r'.
Proof.
  unfold advances. cbn. tauto.
Qed.

(** The value of an element or of a member has been read with its node on
    the stack: the node is taken off again. *)
Lemma settled_pop (r r1 r2 : OurReader) (p : Path) (ok : bool) :
  current_ r1 = current_ r -> errors_ r1 = errors_ r ->
  nodes_ r1 = p :: nodes_ r ->
  collectComments_ r1 = collectComments_ r ->
  settled r1 (Ok (ok, r2)) ->
  settled r (Ok (ok, pop r2)).
Proof.
  intros Ec Ee En Ecc (Hc & Hn & Hcc & Hr). cbn.
  rewrite Hn, En. cbn [tl]. repeat split; try congruence; try lia.
  unfold reports in *. rewrite <- Ee. exact Hr.
Qed.

(** *** Tokens as the loops receive them *)

Lemma skipCommentTokens_loop_string_token (fuel : nat) :
  forall (r r' : OurReader) (token : Token),
    skipCommentTokens_loop features_ doc fuel r = Ok (token, r') ->
    type_ token = tokenString ->
    offsetStart_ token + 2 <= offsetEnd_ token.
Proof.
  induction fuel as [|fuel IH]; intros r r' token E; [discriminate|].
  cbn [skipCommentTokens_loop] in E.
  destruct (readToken features_ doc r) as [[ok tok] r1] eqn:Et.
  destruct (TokenType_eqb (type_ tok) tokenComment).
  - exact (IH _ _ _ E).
  - inversion E; subst. exact (readToken_string_token _ _ _ _ Et).
Qed.

Lemma skipCommentTokens_string_token (fuel : nat) (r r' : OurReader)
      (token : Token) :
  skipCommentTokens features_ doc fuel r = Ok (token, r') ->
  type_ token = tokenString ->
  offsetStart_ token + 2 <= offsetEnd_ token.
Proof.
  unfold skipCommentTokens. destruct (allowComments_ features_).
  - apply skipCommentTokens_loop_string_token.
  - destruct (readToken features_ doc r) as [[ok tok] r1] eqn:Et.
    intros E. inversion E; subst.
    exact (readToken_string_token _ _ _ _ Et).
Qed.

Lemma skipComments_while_string_token (fuel : nat) :
  forall (ok ok' : bool) (token token' : Token) (r r' : OurReader),
    skipComments_while features_ doc fuel ok token r = Ok (ok', token', r') ->
    (type_ token = tokenString ->
     offsetStart_ token + 2 <= offsetEnd_ token) ->
    type_ token' = tokenString ->
    offsetStart_ token' + 2 <= offsetEnd_ token'.
Proof.
  induction fuel as [|fuel IH]; intros ok ok' token token' r r' E Hs;
    cbn [skipComments_while] in E;
    destruct (TokenType_eqb (type_ token) tokenComment && ok);
    try discriminate; try (inversion E; subst; exact Hs).
  destruct (readToken features_ doc r) as [[ok1 tok1] r1] eqn:Et.
  apply (IH _ _ _ _ _ _ E).
  exact (readToken_string_token _ _ _ _ Et).
Qed.

(** *** The loops of [readArray] and [readObject] *)

Section Loops.

Variable rec : OurReader -> result (bool * OurReader).
Variable fuel_rec : nat.

Hypothesis rec_settled :
  forall r : OurReader,
    0 <= current_ r <= end_ ->
    (bytes_left r + 1 < fuel_rec)%nat ->
    settled r (rec r).

Lemma readArray_loop_settled (fuel : nat) :
  forall (idx : nat) (r : OurReader),
    0 <= current_ r <= end_ ->
    (bytes_left r + 1 < fuel)%nat ->
    (bytes_left r + 1 < fuel_rec)%nat ->
    settled r (readArray_loop features_ doc rec fuel idx r).
Proof.
  induction fuel as [|fuel IH]; intros idx r Hb Hf Hfr; [lia|].
  cbn [readArray_loop].
  set (r0 := onCurrentValue (element_slot idx) r).
  set (r1 := push (top r0 ++ [Index idx]) r0).
  pose proof (rec_settled r1 Hb Hfr) as Hs.
  destruct (rec r1) as [[ok r2]|m|]; cbn [bind]; [|exact Hs|exact Hs].
  apply (settled_pop r r1 r2 (top r0 ++ [Index idx]) ok
                     eq_refl eq_refl eq_refl eq_refl) in Hs.
  destruct ok; cbn [negb].
  - apply settled_advances in Hs.
    pose proof Hs as (Hc & _).
    assert (Hbp : 0 <= current_ (pop r2) <= end_) by lia.
    pose proof (readToken_advances H features_ doc (pop r2) Hbp) as A.
    destruct (readToken features_ doc (pop r2)) as [[ok1 tok] r3].
    destruct A as (-> & A & Hp & Ho & He).
    pose proof A as (Hc3 & _).
    destruct (skipComments_while_run (current_ (pop r2)) fuel true tok r3)
      as (ok' & tok' & r4 & E4 & A4 & Hp4 & Hok4 & _);
      [lia|unfold bytes_left in *; lia|lia|exact Hp|].
    rewrite E4. cbn [bind].
    destruct (Hok4 eq_refl) as [-> Hnc]. cbn [negb orb].
    pose proof (advances_trans H doc _ _ _ Hs (advances_trans H doc _ _ _ A A4))
      as Hs4.
    pose proof Hs4 as (Hc4 & _).
    destruct (negb (TokenType_eqb (type_ tok') tokenArraySeparator)
              && negb (TokenType_eqb (type_ tok') tokenArrayEnd)) eqn:Hbad.
    + destruct (addErrorAndRecover_run
                  fuel "Missing ',' or ']' in array declaration" tok'
                  tokenArrayEnd r4)
        as (r5 & E5 & Hc5 & Hn5 & Hcc5 & info & He5);
        [lia|unfold bytes_left in *; lia|].
      rewrite E5. apply (settled_step r r4 _ Hs4).
      apply (settled_failed r4 r5 info); assumption.
    + destruct (TokenType_eqb (type_ tok') tokenArrayEnd) eqn:Hend.
      * apply settled_advances. exact Hs4.
      * rewrite andb_true_r in Hbad. apply negb_false_iff in Hbad.
        apply TokenType_eqb_eq in Hbad.
        assert (Hlt : current_ (pop r2) < current_ r4)
          by (apply Hp4; rewrite Hbad; discriminate).
        apply (settled_step r r4 _ Hs4).
        apply IH; [lia|unfold bytes_left in *; lia|unfold bytes_left in *; lia].
  - destruct Hs as (Hc & Hn & Hcc & info & He).
    destruct (recoverFromError_run fuel tokenArrayEnd (pop r2))
      as (r5 & E5 & Hc5 & He5 & Hn5 & Hcc5);
      [lia|unfold bytes_left in *; lia|].
    rewrite E5. apply (settled_failed r r5 info); try congruence. lia.
Qed.

(** A round ends with an error: [rX] is the reader the error is added to,
    read from [r]. *)
Ltac round_fails r rX A0X :=
  match goal with
  | |- settled r (addErrorAndRecover _ _ ?f ?msg ?t ?k rX) =>
      let r5 := fresh "r" in
      let E5 := fresh "E" in
      let Hc5 := fresh "Hc" in
      let Hn5 := fresh "Hn" in
      let Hcc5 := fresh "Hcc" in
      let info := fresh "info" in
      let He5 := fresh "He" in
      destruct (addErrorAndRecover_run f msg t k rX)
        as (r5 & E5 & Hc5 & Hn5 & Hcc5 & info & He5);
      [ pose proof A0X as (? & _); lia
      | pose proof A0X as (? & _); unfold bytes_left in *; lia
      | rewrite E5; apply (settled_step r rX _ A0X);
        apply (settled_failed rX r5 info); assumption ]
  end.

(** The part of a round of [readObject] behind the name: [r2] is the reader
    behind the name, read from [r]. *)
Ltac object_round_tail IH r r2 A02 Hlt :=
  let A3 := fresh "A3" in
  let A03 := fresh "A03" in
  let Hc2 := fresh "Hc2" in
  let Hc3 := fresh "Hc3" in
  let ok3 := fresh "ok" in
  let colon := fresh "colon" in
  let r3 := fresh "r" in
  pose proof A02 as (Hc2 & _);
  pose proof (readToken_advances H features_ doc r2 ltac:(lia)) as A3;
  destruct (readToken features_ doc r2) as [[ok3 colon] r3];
  destruct A3 as (-> & A3 & _); cbn [negb orb];
  pose proof (advances_trans H doc _ _ _ A02 A3) as A03;
  pose proof A03 as (Hc3 & _);
  pose proof A3 as (? & _);
  match goal with
  | |- context [if ?b then addErrorAndRecover _ _ _ _ _ _ r3 else _] =>
      destruct b; [round_fails r r3 A03|]
  end;
  match goal with
  | |- context [if ?b then Fatal _ else _] =>
      destruct b; [cbn; right; reflexivity|]
  end;
  match goal with
  | |- context [if ?b then addErrorAndRecover _ _ _ _ _ _ r3 else _] =>
      destruct b; [round_fails r r3 A03|]
  end;
  match goal with
  | |- context [rec ?r5] =>
      let Hs := fresh "Hs" in
      let ok6 := fresh "ok" in
      let r6 := fresh "r" in
      pose proof (rec_settled r5 ltac:(cbn; lia)
                              ltac:(unfold bytes_left in *; cbn; lia)) as Hs;
      destruct (rec r5) as [[ok6 r6]| |]; cbn [bind];
      [|exact Hs|exact Hs];
      apply (settled_pop r3 r5 r6 _ ok6 eq_refl eq_refl eq_refl eq_refl) in Hs;
      destruct ok6; cbn [negb];
      [ apply settled_advances in Hs;
        pose proof Hs as (? & _);
        let A06 := fresh "A06" in
        let Hc6 := fresh "Hc6" in
        pose proof (advances_trans H doc _ _ _ A03 Hs) as A06;
        pose proof A06 as (Hc6 & _);
        let A7 := fresh "A7" in
        let ok7 := fresh "ok" in
        let comma := fresh "comma" in
        let r7 := fresh "r" in
        pose proof (readToken_advances H features_ doc (pop r6) ltac:(lia))
          as A7;
        destruct (readToken features_ doc (pop r6)) as [[ok7 comma] r7];
        destruct A7 as (-> & A7 & _); cbn [negb orb];
        let A07 := fresh "A07" in
        let Hc7 := fresh "Hc7" in
        pose proof (advances_trans H doc _ _ _ A06 A7) as A07;
        pose proof A07 as (Hc7 & _);
        pose proof A7 as (? & _);
        match goal with
        | |- context [if ?b then addErrorAndRecover _ _ _ _ _ _ r7 else _] =>
            destruct b; [round_fails r r7 A07|]
        end;
        match goal with
        | |- context [skipComments_while _ _ ?f true comma r7] =>
            let ok8 := fresh "ok" in
            let tok8 := fresh "tok" in
            let r8 := fresh "r" in
            let E8 := fresh "E" in
            let A8 := fresh "A" in
            destruct (skipComments_while_run (current_ r) f true comma r7)
              as (ok8 & tok8 & r8 & E8 & A8 & _);
            [lia|unfold bytes_left in *; lia|lia|intros _; lia|];
            rewrite E8; cbn [bind];
            let A08 := fresh "A08" in
            let Hc8 := fresh "Hc8" in
            pose proof (advances_trans H doc _ _ _ A07 A8) as A08;
            pose proof A08 as (Hc8 & _);
            pose proof A8 as (? & _);
            match goal with
            | |- context [if ?b then Ok _ else _] =>
                destruct b;
                [ apply settled_advances; exact A08
                | apply (settled_step r _ _ A08);
                  apply IH;
                  [lia|unfold bytes_left in *; lia
                  |unfold bytes_left in *; lia] ]
            end
        end
      | let Hc := fresh "Hc" in
        let Hn := fresh "Hn" in
        let Hcc := fresh "Hcc" in
        let info := fresh "info" in
        let He := fresh "He" in
        destruct Hs as (Hc & Hn & Hcc & info & He);
        match goal with
        | |- context [recoverFromError _ _ ?f ?k (pop r6)] =>
            let r5 := fresh "r" in
            let E5 := fresh "E" in
            let Hc5 := fresh "Hc" in
            let He5 := fresh "He" in
            let Hn5 := fresh "Hn" in
            let Hcc5 := fresh "Hcc" in
            destruct (recoverFromError_run f k (pop r6))
              as (r5 & E5 & Hc5 & He5 & Hn5 & Hcc5);
            [lia|unfold bytes_left in *; lia|];
            rewrite E5; apply (settled_step r _ _ A03);
            apply (settled_failed _ _ info); try congruence; lia
        end ]
  end.

Lemma readObject_loop_settled (fuel : nat) :
  forall (name : list Z) (r : OurReader),
    0 <= current_ r <= end_ ->
    (bytes_left r + 1 < fuel)%nat ->
    (bytes_left r + 1 < fuel_rec)%nat ->
    settled r (readObject_loop features_ doc rec fuel name r).
Proof.
  induction fuel as [|fuel IH]; intros name r Hb Hf Hfr; [lia|].
  cbn [readObject_loop].
  pose proof (readToken_advances H features_ doc r Hb) as A.
  destruct (readToken features_ doc r) as [[ok1 tok] r1] eqn:Et.
  destruct A as (-> & A & Hp & Ho & He). cbn [negb].
  pose proof A as (Hc1 & _).
  destruct (skipComments_while_run (current_ r) fuel true tok r1)
    as (ok' & tok' & r2 & E2 & A2 & Hp2 & Hok2 & _);
    [lia|unfold bytes_left in *; lia|lia|exact Hp|].
  pose proof (skipComments_while_string_token
                fuel _ _ _ _ _ _ E2 (readToken_string_token _ _ _ _ Et))
    as Hstr.
  rewrite E2. cbn [bind].
  destruct (Hok2 eq_refl) as [-> Hnc]. cbn [negb].
  pose proof (advances_trans H doc _ _ _ A A2) as A02.
  pose proof A02 as (Hc02 & _).
  destruct (TokenType_eqb (type_ tok') tokenObjectEnd && is_nil name).
  { apply settled_advances. exact A02. }
  destruct (TokenType_eqb (type_ tok') tokenString) eqn:Es.
  - apply TokenType_eqb_eq in Es.
    assert (Hlt : current_ r < current_ r2)
      by (apply Hp2; rewrite Es; discriminate).
    destruct (decodeString_to_run tok' r2 (Hstr Es))
      as (ok & decoded & r3 & E3 & [[-> ->]|[-> (info & ->)]]);
      rewrite E3; cbn [bind].
    + object_round_tail IH r r2 A02 Hlt.
    + destruct (recoverFromError_run
                  fuel tokenObjectEnd
                  (set_errors r2 (errors_ r2 ++ [info])))
        as (r5 & E5 & Hc5 & He5 & Hn5 & Hcc5);
        [cbn; lia|unfold bytes_left in *; cbn; lia|].
      rewrite E5. apply (settled_step r r2 _ A02).
      cbn [set_errors current_ errors_ nodes_ collectComments_]
        in Hc5, He5, Hn5, Hcc5.
      apply (settled_failed r2 r5 info); assumption.
  - destruct (TokenType_eqb (type_ tok') tokenNumber
              && allowNumericKeys_ features_) eqn:En.
    + apply andb_prop in En as [En _]. apply TokenType_eqb_eq in En.
      assert (Hlt : current_ r < current_ r2)
        by (apply Hp2; rewrite En; discriminate).
      destruct (decodeNumber_to_run tok' r2) as [(v & E3)|(v & info & E3)];
        rewrite E3; cbn [bind].
      * object_round_tail IH r r2 A02 Hlt.
      * destruct (recoverFromError_run
                    fuel tokenObjectEnd
                    (set_errors r2 (errors_ r2 ++ [info])))
          as (r5 & E5 & Hc5 & He5 & Hn5 & Hcc5);
          [cbn; lia|unfold bytes_left in *; cbn; lia|].
        rewrite E5. apply (settled_step r r2 _ A02).
        cbn [set_errors current_ errors_ nodes_ collectComments_]
          in Hc5, He5, Hn5, Hcc5.
        apply (settled_failed r2 r5 info); assumption.
    + cbn [bind].
      destruct (addErrorAndRecover_run
                  fuel "Missing '}' or object member name" tok'
                  tokenObjectEnd r2)
        as (r5 & E5 & Hc5 & Hn5 & Hcc5 & info & He5);
        [lia|unfold bytes_left in *; lia|].
      rewrite E5. apply (settled_step r r2 _ A02).
      apply (settled_failed r2 r5 info); assumption.
Qed.

Lemma readArray_settled (fuel : nat) (token : Token) (r : OurReader) :
  0 <= current_ r <= end_ ->
  (bytes_left r + 1 < fuel)%nat ->
  (bytes_left r + 1 < fuel_rec)%nat ->
  settled r (readArray features_ doc rec fuel token r).
Proof.
  intros Hb Hf Hfr. unfold readArray.
  set (r0 := onCurrentValue (setOffsetStart (offsetStart_ token))
               (onCurrentValue (swapPayload (arrayValue [])) r)).
  assert (A0 : advances r r0) by (repeat split; cbn; lia).
  pose proof (skipSpaces_advances H doc r0 Hb) as A1.
  pose proof (advances_trans H doc _ _ _ A0 A1) as A01.
  pose proof A01 as (Hc1 & _).
  destruct (negb (current_ (skipSpaces doc r0) =? end_)
            && (at_ (current_ (skipSpaces doc r0)) =? c_RBRACKET)).
  - pose proof (readToken_advances H features_ doc (skipSpaces doc r0)
                                   ltac:(lia)) as A2.
    destruct (readToken features_ doc (skipSpaces doc r0))
      as [[ok2 tok2] r2].
    destruct A2 as (_ & A2 & _).
    apply settled_advances. exact (advances_trans H doc _ _ _ A01 A2).
  - apply (settled_step r _ _ A01).
    apply readArray_loop_settled;
      [lia|unfold bytes_left in *; lia|unfold bytes_left in *; lia].
Qed.

Lemma readObject_settled (fuel : nat) (token : Token) (r : OurReader) :
  0 <= current_ r <= end_ ->
  (bytes_left r + 1 < fuel)%nat ->
  (bytes_left r + 1 < fuel_rec)%nat ->
  settled r (readObject features_ doc rec fuel token r).
Proof.
  intros Hb Hf Hfr. unfold readObject.
  set (r0 := onCurrentValue (setOffsetStart (offsetStart_ token))
               (onCurrentValue (swapPayload (objectValue [])) r)).
  assert (A0 : advances r r0) by (repeat split; cbn; lia).
  apply (settled_step r _ _ A0).
  apply readObject_loop_settled; assumption.
Qed.

(** *** One call of [readValue] *)

Ltac value_done r :=
  cbv beta;
  match goal with
  | |- settled r (Ok (?ok, if collectComments_ ?x then _ else ?x)) =>
      apply (settled_finish r x ok)
  end.

Lemma readValue_body_settled (r : OurReader) :
  0 <= current_ r <= end_ ->
  (bytes_left r < fuel_rec)%nat ->
  settled r (readValue_body features_ doc rec fuel_rec r).
Proof.
  intros Hb Hf. unfold readValue_body.
  destruct (to_int (Z.of_nat (List.length (nodes_ r))) >? stackLimit_ features_).
  { cbn. left. reflexivity. }
  destruct (skipCommentTokens_run fuel_rec r Hb Hf)
    as (tok & r1 & E & A & Hp & Ho & He).
  pose proof (skipCommentTokens_string_token _ _ _ _ E) as Hstr.
  rewrite E. cbn [bind]. cbv zeta.
  match goal with
  | |- context [if collectComments_ r1 && negb (is_nil (commentsBefore_ r1))
                then ?a else r1] =>
      assert (A12 : advances r1
                      (if collectComments_ r1
                          && negb (is_nil (commentsBefore_ r1))
                       then a else r1))
        by (destruct (collectComments_ r1 && negb (is_nil (commentsBefore_ r1)));
            destruct A as (? & _); repeat split; cbn; lia);
      set (r2 := if collectComments_ r1 && negb (is_nil (commentsBefore_ r1))
                 then a else r1) in *;
      clearbody r2
  end.
  pose proof (advances_trans H doc _ _ _ A A12) as A02.
  pose proof A as (Hc1 & _). pose proof A12 as (Hc12 & _).
  pose proof A02 as (Hc2 & He2 & Hn2 & Hcc2).
  assert (Hsyntax :
            settled r
              (Ok (addError doc
                     "Syntax error: value, object or array expected." tok None
                     (onCurrentValue (setOffsetLimit (offsetEnd_ tok))
                        (onCurrentValue (setOffsetStart (offsetStart_ tok))
                                        r2))))).
  { unfold addError. eapply settled_failed; cbn; try eassumption; try lia.
    rewrite He2. reflexivity. }
  assert (Hplain : forall p : PayloadF H (Value H),
             settled r
               (Ok (true,
                    if collectComments_ (install p tok r2)
                    then set_lastValue (install p tok r2)
                           (Some (current_ (install p tok r2)))
                           (Some (top (install p tok r2)))
                    else install p tok r2))).
  { intros p. value_done r. apply settled_advances. exact A02. }
  destruct (type_ tok) eqn:Ety; try exact Hsyntax; try apply Hplain.
  - (* an object *)
    assert (Hlt : current_ r < current_ r1) by (apply Hp; discriminate).
    pose proof (readObject_settled fuel_rec tok r2 ltac:(lia)
                  ltac:(unfold bytes_left in *; lia)
                  ltac:(unfold bytes_left in *; lia)) as Hs.
    destruct (readObject features_ doc rec fuel_rec tok r2) as [[ok r3]|m|];
      cbn [bind]; [|exact Hs|exact Hs].
    value_done r. apply (settled_step r r2 _ A02). exact Hs.
  - (* a dropped value before the end of an object *)
    destruct (allowDroppedNullPlaceholders_ features_); [|exact Hsyntax].
    assert (Hlt : current_ r < current_ r1) by (apply Hp; discriminate).
    value_done r. cbn. repeat split; try assumption; lia.
  - (* an array *)
    assert (Hlt : current_ r < current_ r1) by (apply Hp; discriminate).
    pose proof (readArray_settled fuel_rec tok r2 ltac:(lia)
                  ltac:(unfold bytes_left in *; lia)
                  ltac:(unfold bytes_left in *; lia)) as Hs.
    destruct (readArray features_ doc rec fuel_rec tok r2) as [[ok r3]|m|];
      cbn [bind]; [|exact Hs|exact Hs].
    value_done r. apply (settled_step r r2 _ A02). exact Hs.
  - (* a dropped value before the end of an array *)
    destruct (allowDroppedNullPlaceholders_ features_); [|exact Hsyntax].
    assert (Hlt : current_ r < current_ r1) by (apply Hp; discriminate).
    value_done r. cbn. repeat split; try assumption; lia.
  - (* a string *)
    destruct (decodeString_settled tok r2 (Hstr eq_refl) ltac:(lia))
      as (ok & r3 & E3 & Hs).
    rewrite E3. cbn [bind]. value_done r.
    apply (settled_step r r2 _ A02). exact Hs.
  - (* a number *)
    destruct (decodeNumber_settled tok r2 ltac:(lia)) as (ok & r3 & E3 & Hs).
    rewrite E3. value_done r.
    apply (settled_step r r2 _ A02). exact Hs.
  - (* a dropped value before a comma *)
    destruct (allowDroppedNullPlaceholders_ features_); [|exact Hsyntax].
    assert (Hlt : current_ r < current_ r1) by (apply Hp; discriminate).
    value_done r. cbn. repeat split; try assumption; lia.
Qed.

End Loops.

Lemma readValue_settled (fuel : nat) :
  forall r : OurReader,
    0 <= current_ r <= end_ ->
    (bytes_left r + 1 < fuel)%nat ->
    settled r (readValue features_ doc fuel r).
Proof.
  induction fuel as [|fuel IH]; intros r Hb Hf; [lia|].
  cbn [readValue].
  apply (readValue_body_settled (readValue features_ doc fuel) fuel IH);
    [exact Hb|lia].
Qed.

Lemma parse_settled (fuel : nat) (root : Value H) (collectComments : bool) :
  (fuel_for doc <= fuel)%nat ->
  match parse features_ doc fuel root collectComments with
  | Ok (ok, r) =>
      0 <= current_ r <= end_
      /\ nodes_ r = [[]]
      /\ (ok = true <-> errors_ r = [])
      /\ (List.length (errors_ r) <= 2)%nat
  | Fatal message => is_fatal_message message
  | OutOfFuel => False
  end.
Proof.
  intros Hfuel. unfold fuel_for in Hfuel. unfold parse.
  set (r0 := {| root_ := root; nodes_ := [[]]; errors_ := [];
                current_ := 0; lastValueEnd_ := None; lastValue_ := None;
                commentsBefore_ := [];
                collectComments_ :=
                  if negb (allowComments_ features_) then false
                  else collectComments |}).
  pose proof (end_nonneg doc) as Hend.
  assert (Hb0 : 0 <= current_ r0 <= end_) by (cbn; lia).
  assert (Hlen0 : end_ = Z.of_nat (List.length doc)) by reflexivity.
  assert (Hl0 : bytes_left r0 = List.length doc).
  { unfold bytes_left. cbn [r0 current_]. lia. }
  pose proof (readValue_settled fuel r0 Hb0 ltac:(lia)) as Hs.
  destruct (readValue features_ doc fuel r0) as [[ok r1]|m|]; cbn [bind];
    [|exact Hs|exact Hs].
  destruct Hs as (Hc1 & Hn1 & Hcc1 & Hr1).
  cbn [r0 current_ nodes_ errors_] in Hc1, Hn1, Hr1.
  destruct (skipCommentTokens_run fuel r1 ltac:(lia)
              ltac:(unfold bytes_left; lia))
    as (tok & r2 & E2 & (Hc2 & He2 & Hn2 & Hcc2) & _).
  rewrite E2. cbn [bind].
  assert (Hlen : (List.length (errors_ r2) <= 1)%nat
                 /\ (ok = true <-> errors_ r2 = [])).
  { rewrite He2. unfold reports in Hr1. destruct ok.
    - cbn [app] in Hr1. rewrite Hr1. cbn. split; [lia|tauto].
    - destruct Hr1 as (info & ->). cbn. split; [lia|].
      split; discriminate. }
  destruct Hlen as [Hlen Hok].
  assert (Hfail : forall (message : string) (token : Token) (r3 : OurReader),
             current_ r3 = current_ r2 -> nodes_ r3 = nodes_ r2 ->
             errors_ r3 = errors_ r2 ->
             match Ok (addError doc message token None r3) with
             | Ok (ok, r) =>
                 0 <= current_ r <= end_
                 /\ nodes_ r = [[]]
                 /\ (ok = true <-> errors_ r = [])
                 /\ (List.length (errors_ r) <= 2)%nat
             | Fatal message => is_fatal_message message
             | OutOfFuel => False
             end).
  { intros message token r3 Ec En Ee. unfold addError.
    cbn [set_errors current_ nodes_ errors_].
    rewrite Ec, En, Ee, length_app. cbn [List.length].
    split; [lia|]. split; [congruence|]. split; [|lia].
    split; [discriminate|].
    intros Habs. apply app_eq_nil in Habs as [_ Habs]. discriminate. }
  destruct (failIfExtra_ features_
            && ((strictRoot_ features_
                 || negb (TokenType_eqb (type_ tok) tokenError))
                && negb (TokenType_eqb (type_ tok) tokenEndOfStream))).
  { apply Hfail; reflexivity. }
  match goal with
  | |- context [if collectComments_ r2 && negb (is_nil (commentsBefore_ r2))
                then ?a else r2] =>
      assert (F3 : current_ (if collectComments_ r2
                                && negb (is_nil (commentsBefore_ r2))
                             then a else r2) = current_ r2
                   /\ nodes_ (if collectComments_ r2
                                 && negb (is_nil (commentsBefore_ r2))
                              then a else r2) = nodes_ r2
                   /\ errors_ (if collectComments_ r2
                                  && negb (is_nil (commentsBefore_ r2))
                               then a else r2) = errors_ r2)
        by (destruct (collectComments_ r2 && negb (is_nil (commentsBefore_ r2)));
            repeat split);
      set (r3 := if collectComments_ r2 && negb (is_nil (commentsBefore_ r2))
                 then a else r2) in *;
      clearbody r3
  end.
  destruct F3 as (Ec3 & En3 & Ee3).
  destruct (strictRoot_ features_
            && (negb (isArray (root_ r3)) && negb (isObject (root_ r3)))).
  { apply Hfail; assumption. }
  rewrite Ec3, En3, Ee3. split; [lia|]. split; [congruence|].
  split; [exact Hok|lia].
Qed.

End RunFacts.

(** X1.  [parse] comes to an end on every document, for every setting of the
    features: with fuel for one round per byte ([fuel_for]) it never runs
    out of fuel; it returns, or it raises one of the two fatal errors of the
    reader. *)
Theorem parse_terminates (H : Host) (features_ : Features) (doc : list Z)
        (fuel : nat) (root : Value H) (collectComments : bool) :
  (fuel_for doc <= fuel)%nat ->
  (exists ok r,
      parse features_ doc fuel root collectComments = Ok (ok, r))
  \/ (exists message,
         parse features_ doc fuel root collectComments = Fatal message
         /\ is_fatal_message message).
Proof.
  intros Hfuel.
  pose proof (parse_settled H features_ doc fuel root collectComments Hfuel)
    as Hs.
  destruct (parse features_ doc fuel root collectComments) as [[ok r]|m|].
  - left. exists ok, r. reflexivity.
  - right. exists m. split; [reflexivity|exact Hs].
  - destruct Hs.
Qed.

(** X2.  What [parse] returns agrees with its journal: it returns true
    exactly when no error has been recorded, and a failed parse records one
    or two errors (the first error in the value, then at most one for input
    left behind it or for a root that is no array or object).  The stack is
    back to the root and the cursor is within the document. *)
Theorem parse_success_iff_no_error (H : Host) (features_ : Features)
        (doc : list Z) (fuel : nat) (root : Value H) (collectComments : bool)
        (ok : bool) (r : OurReader H) :
  (fuel_for doc <= fuel)%nat ->
  parse features_ doc fuel root collectComments = Ok (ok, r) ->
  (ok = true <-> errors_ r = [])
  /\ (List.length (errors_ r) <= 2)%nat
  /\ nodes_ r = [[]]
  /\ 0 <= current_ r <= end_ doc.
Proof.
  intros Hfuel E.
  pose proof (parse_settled H features_ doc fuel root collectComments Hfuel)
    as Hs.
  rewrite E in Hs. tauto.
Qed.

(** X3.  A call of [readValue] on a reader within the document, with fuel
    above the bytes left, comes to an end: it raises a fatal error, or it
    returns with the cursor not behind where it was and within the document
    and with the stack of nodes it was entered with; a success leaves the
    error journal as it was and a failure adds exactly one entry to it. *)
Theorem readValue_keeps_stack_and_journal (H : Host) (features_ : Features)
        (doc : list Z) (fuel : nat) (r : OurReader H) :
  0 <= current_ r <= end_ doc ->
  (bytes_left doc r + 1 < fuel)%nat ->
  settled doc r (readValue features_ doc fuel r).
Proof. apply readValue_settled. Qed.

(** X12.  What [decodeUnicodeCodePoint] hands to the UTF-8 encoder is a code
    point of the Unicode range, at most U+10FFFF, and never a high
    surrogate by itself; the cursor has moved over the four or ten bytes of
    its escapes, within the token, and the reader is untouched.  When it
    fails, the reader is the one it was given with one more entry in the
    journal. *)
Theorem decodeUnicodeCodePoint_within_unicode (H : Host) (doc : list Z)
        (token : Token) (cur e : Z) (r r' : OurReader H) (ok : bool)
        (cur' cp : Z) :
  decodeUnicodeCodePoint doc token cur e r = (ok, cur', cp, r') ->
  if ok
  then 0 <= cp <= 0x10FFFF /\ (cp < 0xD800 \/ 0xDBFF < cp)
       /\ (cur' = cur + 4 \/ cur' = cur + 10) /\ cur' <= e /\ r' = r
  else exists info, r' = set_errors r (errors_ r ++ [info]).
Proof.
  intros E.
  destruct (decodeUnicodeCodePoint_run H doc token cur e r)
    as [(c1 & cp1 & E1 & Hc & Hr & Hs & Hn)|(c1 & u & info & E1)];
    rewrite E1 in E; inversion E; subst.
  - repeat split; try lia; assumption.
  - exists info. reflexivity.
Qed.

(** * The scanners *)

Section ScannerFacts.

Variable H : Host.
Variable features_ : Features.
Variable doc : list Z.

Local Abbreviation end_ := (end_ doc).
Local Abbreviation suffix := (suffix doc).
Local Abbreviation slice := (slice doc).
Local Abbreviation at_ := (at_ doc).
Local Abbreviation OurReader := (OurReader H).

Lemma bytes_eqb_eq (a b : list Z) : bytes_eqb a b = true <-> a = b.
Proof.
  split; [|intros ->; apply bytes_eqb_refl].
  revert b. induction a as [|x a IH]; intros [|y b]; cbn; try discriminate;
    auto.
  intros E. apply andb_prop in E as [E1 E2]. apply Z.eqb_eq in E1.
  apply IH in E2. congruence.
Qed.

Lemma white_prefix (l : list Z) :
  exists ws rest, l = ws ++ rest /\ is_ws ws = true /\ solid rest.
Proof.
  induction l as [|c l (ws & rest & -> & Hws & Hs)].
  - exists [], []. repeat split.
  - destruct (is_space c) eqn:Ec.
    + exists (c :: ws), rest. repeat split; [|exact Hs].
      cbn. rewrite Ec. exact Hws.
    + exists [], (c :: ws ++ rest). repeat split. exact Ec.
Qed.

Lemma locate_loop_lines (l2 : list Z) :
  forall (post : list Z) (cur lls line : Z),
    ~ In c_CR l2 ->
    locate_loop H doc (l2 ++ post) cur lls line (cur + Z.of_nat (List.length l2))
    = (cur + Z.of_nat (List.length l2)
       - bytes_in_last_line (cur - lls) l2,
       line + line_breaks l2).
Proof.
  induction l2 as [|c l2 IH]; intros post cur lls line Hcr.
  - cbn [app List.length]. unfold line_breaks, bytes_in_last_line.
    cbn [count_occ fold_left Z.of_nat]. rewrite !Z.add_0_r.
    destruct post as [|x post]; cbn [locate_loop].
    + f_equal; lia.
    + rewrite Z.ltb_irrefl. f_equal; lia.
  - cbn [app locate_loop List.length].
    replace (cur <? cur + Z.of_nat (S (List.length l2))) with true
      by (symmetry; apply Z.ltb_lt; lia).
    assert (Hc : c <> c_CR) by (intros ->; apply Hcr; left; reflexivity).
    assert (Hcr2 : ~ In c_CR l2) by (intros Hin; apply Hcr; right; exact Hin).
    apply Z.eqb_neq in Hc. rewrite Hc.
    replace (cur + Z.of_nat (S (List.length l2)))
      with (cur + 1 + Z.of_nat (List.length l2)) by lia.
    unfold line_breaks, bytes_in_last_line. cbn [count_occ fold_left].
    destruct (Z.eqb_spec c c_LF) as [->|Hlf].
    + rewrite IH by exact Hcr2.
      destruct (Z.eq_dec c_LF c_LF) as [_|Hne]; [|congruence].
      unfold line_breaks, bytes_in_last_line.
      rewrite Nat2Z.inj_succ. f_equal; [|lia].
      replace (cur + 1 - (cur + 1)) with 0 by lia. reflexivity.
    + rewrite IH by exact Hcr2.
      destruct (Z.eq_dec c c_LF) as [Heq|_]; [congruence|].
      unfold line_breaks, bytes_in_last_line.
      replace (cur + 1 - lls) with (cur - lls + 1) by lia. reflexivity.
Qed.

Lemma bytes_in_last_line_bounds (l : list Z) :
  forall acc, 0 <= acc ->
    0 <= bytes_in_last_line acc l <= acc + Z.of_nat (List.length l).
Proof.
  unfold bytes_in_last_line.
  induction l as [|c l IH]; intros acc Hacc; cbn [fold_left List.length].
  - lia.
  - destruct (c =? c_LF).
    + specialize (IH 0 ltac:(lia)). lia.
    + specialize (IH (acc + 1) ltac:(lia)). lia.
Qed.

Lemma bytes_behind_line_end_bounds (l : list Z) :
  forall acc, 0 <= acc ->
    0 <= bytes_behind_line_end acc l <= acc + Z.of_nat (List.length l).
Proof.
  unfold bytes_behind_line_end.
  induction l as [|c l IH]; intros acc Hacc; cbn [fold_left List.length].
  - lia.
  - destruct ((c =? c_LF) || (c =? c_CR)).
    + specialize (IH 0 ltac:(lia)). lia.
    + specialize (IH (acc + 1) ltac:(lia)). lia.
Qed.

Lemma locate_loop_cons (c : Z) (rest' : list Z) (cur lls line e : Z) :
  locate_loop H doc (c :: rest') cur lls line e
  = if cur <? e then
      if c =? c_CR then
        match rest' with
        | c' :: rest'' =>
            if c' =? c_LF
            then locate_loop H doc rest'' (cur + 2) (cur + 2) (line + 1) e
            else locate_loop H doc rest' (cur + 1) (cur + 1) (line + 1) e
        | [] =>
            if past_the_end H doc =? c_LF
            then (cur + 2, line + 1)
            else (cur + 1, line + 1)
        end
      else if c =? c_LF then
        locate_loop H doc rest' (cur + 1) (cur + 1) (line + 1) e
      else locate_loop H doc rest' (cur + 1) lls line e
    else (lls, line).
Proof. reflexivity. Qed.

(** The loop of [getLocationLineAndColumn] run to the end of the document:
    carriage returns and all. *)
Lemma locate_loop_end (n : nat) :
  forall (rest : list Z) (cur lls line : Z),
    (List.length rest <= n)%nat ->
    locate_loop H doc rest cur lls line (cur + Z.of_nat (List.length rest))
    = ((if ends_in_CR rest && (past_the_end H doc =? c_LF)
        then cur + Z.of_nat (List.length rest) + 1
        else cur + Z.of_nat (List.length rest)
             - bytes_behind_line_end (cur - lls) rest),
       line + line_ends rest).
Proof.
  induction n as [|n IH]; intros rest cur lls line Hn.
  { destruct rest; [|cbn in Hn; lia]. cbn. f_equal; lia. }
  destruct rest as [|c rest']; [cbn; f_equal; lia|].
  assert (Hlt : (cur <? cur + Z.of_nat (List.length (c :: rest'))) = true)
    by (apply Z.ltb_lt; cbn [List.length]; lia).
  assert (Hstep : forall (l : list Z) (lls' line' : Z),
             (List.length l <= n)%nat ->
             forall k : Z,
               cur + Z.of_nat (List.length (c :: rest'))
               = cur + k + Z.of_nat (List.length l) ->
               locate_loop H doc l (cur + k) lls' line'
                           (cur + Z.of_nat (List.length (c :: rest')))
               = ((if ends_in_CR l && (past_the_end H doc =? c_LF)
                   then cur + k + Z.of_nat (List.length l) + 1
                   else cur + k + Z.of_nat (List.length l)
                        - bytes_behind_line_end (cur + k - lls') l),
                  line' + line_ends l)).
  { intros l lls' line' Hl k ->. apply IH. exact Hl. }
  cbn [List.length] in Hn.
  destruct (Z.eqb_spec c c_CR) as [->|Hcr].
  - destruct rest' as [|c' rest''].
    + (* the carriage return is the last byte: the byte behind it is read *)
      rewrite locate_loop_cons, Hlt.
      change (c_CR =? c_CR) with true. cbv iota.
      unfold ends_in_CR, bytes_behind_line_end.
      cbn [last fold_left line_ends List.length].
      change (c_CR =? c_CR) with true. change (c_CR =? c_LF) with false.
      cbn [andb orb].
      destruct (past_the_end H doc =? c_LF); f_equal; lia.
    + rewrite locate_loop_cons, Hlt.
      change (c_CR =? c_CR) with true. cbv iota.
      destruct (Z.eqb_spec c' c_LF) as [->|Hlf].
      * rewrite (Hstep rest'' (cur + 2) (line + 1) ltac:(cbn in Hn; lia) 2)
          by (cbn [List.length]; lia).
        unfold ends_in_CR, bytes_behind_line_end.
        cbn [fold_left line_ends List.length].
        change (c_CR =? c_CR) with true. change (c_CR =? c_LF) with false.
        change (c_LF =? c_LF) with true. cbn [andb orb].
        replace (cur + 2 - (cur + 2)) with 0 by lia.
        replace (last (c_CR :: c_LF :: rest'') c_NUL =? c_CR)
          with (last rest'' c_NUL =? c_CR).
        2:{ destruct rest'' as [|x rest3]; reflexivity. }
        destruct ((last rest'' c_NUL =? c_CR)
                  && (past_the_end H doc =? c_LF)); f_equal; lia.
      * rewrite (Hstep (c' :: rest'') (cur + 1) (line + 1)
                   ltac:(cbn in Hn |- *; lia) 1)
          by (cbn [List.length]; lia).
        unfold ends_in_CR, bytes_behind_line_end.
        cbn [line_ends]. cbn [fold_left List.length].
        change (c_CR =? c_CR) with true. change (c_CR =? c_LF) with false.
        apply Z.eqb_neq in Hlf. rewrite Hlf. cbn [andb orb].
        replace (cur + 1 - (cur + 1)) with 0 by lia.
        change (last (c_CR :: c' :: rest'') c_NUL)
          with (last (c' :: rest'') c_NUL).
        destruct ((last (c' :: rest'') c_NUL =? c_CR)
                  && (past_the_end H doc =? c_LF)); f_equal; lia.
  - rewrite locate_loop_cons, Hlt.
    apply Z.eqb_neq in Hcr. rewrite Hcr.
    assert (Hlast : ends_in_CR (c :: rest') = ends_in_CR rest').
    { unfold ends_in_CR. destruct rest' as [|x rest3]; [|reflexivity].
      cbn [last]. rewrite Hcr. reflexivity. }
    rewrite Hlast.
    destruct (Z.eqb_spec c c_LF) as [->|Hlf].
    + rewrite (Hstep rest' (cur + 1) (line + 1) ltac:(lia) 1)
        by (cbn [List.length]; lia).
      unfold bytes_behind_line_end. cbn [fold_left line_ends List.length].
      change (c_LF =? c_LF) with true. cbn [orb].
      replace (cur + 1 - (cur + 1)) with 0 by lia.
      destruct (ends_in_CR rest' && (past_the_end H doc =? c_LF));
        f_equal; lia.
    + rewrite (Hstep rest' lls line ltac:(lia) 1)
        by (cbn [List.length]; lia).
      unfold bytes_behind_line_end. cbn [fold_left line_ends List.length].
      apply Z.eqb_neq in Hlf. rewrite Hlf, Hcr. cbn [orb].
      replace (cur + 1 - lls) with (cur - lls + 1) by lia.
      destruct (ends_in_CR rest' && (past_the_end H doc =? c_LF));
        f_equal; lia.
Qed.

(** The location of the end of the document: one line more than the
    document has line ends, and one column more than it has bytes behind
    the last of them; but column 0 for a document that ends in a carriage
    return when the byte behind it in memory is a line feed. *)
Lemma getLocationLineAndColumn_end :
  Z.of_nat (List.length doc) < 2 ^ 31 - 1 ->
  getLocationLineAndColumn H doc end_
  = {| line_ := line_ends doc + 1;
       column_ := if ends_in_CR doc && (past_the_end H doc =? c_LF) then 0
                  else bytes_behind_line_end 0 doc + 1 |}.
Proof.
  intros Hlen. unfold getLocationLineAndColumn.
  pose proof (locate_loop_end (List.length doc) doc 0 0 0 (Nat.le_refl _))
    as E.
  cbn [Z.add Z.sub Z.opp] in E. unfold end_. rewrite E.
  pose proof (bytes_behind_line_end_bounds doc 0 ltac:(lia)) as Hb.
  destruct (ends_in_CR doc && (past_the_end H doc =? c_LF)); f_equal.
  - replace (Z.of_nat (List.length doc) - (Z.of_nat (List.length doc) + 1))
      with (-1) by lia.
    reflexivity.
  - replace (Z.of_nat (List.length doc)
             - (Z.of_nat (List.length doc) - bytes_behind_line_end 0 doc))
      with (bytes_behind_line_end 0 doc) by lia.
    rewrite to_int_small by lia.
    unfold to_size_t. apply Z.mod_small. lia.
Qed.

(** X4.  [readToken] always returns true and yields a token that lies
    between the old and the new cursor: the cursor never moves backwards or
    out of the document, every token but EndOfStream takes at least one
    byte (which is what ends the loops over tokens), a String token holds
    at least its two quotes, and the journal and the stack are left
    alone. *)
Theorem readToken_progress (r r' : OurReader) (ok : bool) (token : Token) :
  0 <= current_ r <= end_ ->
  readToken features_ doc r = (ok, token, r') ->
  ok = true
  /\ current_ r <= offsetStart_ token <= offsetEnd_ token
  /\ offsetEnd_ token = current_ r'
  /\ current_ r' <= end_
  /\ (type_ token <> tokenEndOfStream -> current_ r < current_ r')
  /\ (type_ token = tokenString -> offsetStart_ token + 2 <= offsetEnd_ token)
  /\ errors_ r' = errors_ r
  /\ nodes_ r' = nodes_ r.
Proof.
  intros Hb E.
  pose proof (readToken_advances H features_ doc r Hb) as A.
  pose proof (readToken_string_token H features_ doc r r' ok token E) as S.
  rewrite E in A. destruct A as (Hok & (Hc & He & Hn & _) & Hp & Ho & Hend).
  repeat split; try assumption; lia.
Qed.

(** X5.  [match] succeeds exactly when the pattern is what the document
    holds at the cursor, and then moves the cursor behind it; when it
    fails, also for a pattern longer than what is left of the document,
    the reader is as it was. *)
Theorem match_prefix (pattern : list Z) (r : OurReader) :
  0 <= current_ r <= end_ ->
  (match_ doc pattern r
   = (true, set_current r (current_ r + Z.of_nat (List.length pattern)))
   /\ exists rest, suffix (current_ r) = pattern ++ rest)
  \/ (match_ doc pattern r = (false, r)
      /\ forall rest, suffix (current_ r) <> pattern ++ rest).
Proof.
  intros Hb. unfold match_.
  pose proof (suffix_length doc (current_ r) Hb) as Hl.
  destruct (Z.ltb_spec (end_ - current_ r) (Z.of_nat (List.length pattern)))
    as [Hlt|Hge].
  - right. split; [reflexivity|]. intros rest Hs. rewrite Hs, length_app in Hl.
    lia.
  - assert (Es : slice (current_ r)
                       (current_ r + Z.of_nat (List.length pattern))
                 = firstn (List.length pattern) (suffix (current_ r))).
    { unfold slice. f_equal. lia. }
    rewrite Es.
    destruct (bytes_eqb (firstn (List.length pattern) (suffix (current_ r)))
                        pattern) eqn:Eb.
    + left. split; [reflexivity|]. apply bytes_eqb_eq in Eb.
      exists (skipn (List.length pattern) (suffix (current_ r))).
      rewrite <- Eb at 1. symmetry. apply firstn_skipn.
    + right. split; [reflexivity|]. intros rest Hs.
      rewrite Hs, firstn_app, Nat.sub_diag, firstn_all in Eb.
      cbn [firstn] in Eb. rewrite app_nil_r, bytes_eqb_refl in Eb.
      discriminate.
Qed.

(** X6.  [skipSpaces] moves the cursor over the spaces, tabs, carriage
    returns and line feeds at the cursor and over nothing else: it stops at
    the first other byte or at the end of the document. *)
Theorem skipSpaces_stops_at_solid (r : OurReader) :
  0 <= current_ r <= end_ ->
  exists ws rest,
    suffix (current_ r) = ws ++ rest
    /\ is_ws ws = true /\ solid rest
    /\ skipSpaces doc r
       = set_current r (current_ r + Z.of_nat (List.length ws))
    /\ suffix (current_ r + Z.of_nat (List.length ws)) = rest.
Proof.
  intros Hb.
  destruct (white_prefix (suffix (current_ r))) as (ws & rest & E & Hws & Hs).
  exists ws, rest. split; [exact E|]. split; [exact Hws|].
  split; [exact Hs|]. split.
  - unfold skipSpaces. rewrite E, skipSpaces_loop_ws by assumption.
    reflexivity.
  - apply (suffix_app doc (current_ r) ws rest); [lia|exact E].
Qed.

Lemma normalizeEOL_facts (l : list Z) :
  ~ In c_CR (normalizeEOL l)
  /\ (List.length (normalizeEOL l) <= List.length l)%nat
  /\ (~ In c_CR l -> normalizeEOL l = l).
Proof.
  induction l as [l IH] using list_length_ind.
  destruct l as [|c l']; [cbn; repeat split; auto|].
  cbn [normalizeEOL].
  destruct (Z.eqb_spec c c_CR) as [->|Hc].
  - destruct l' as [|c' l''].
    + cbn. repeat split; [intros [Habs|[]]; discriminate|lia|].
      intros Hn. exfalso. apply Hn. left. reflexivity.
    + destruct (c' =? c_LF).
      * destruct (IH l'' ltac:(cbn; lia)) as (I1 & I2 & _).
        repeat split.
        -- intros [Habs|Hin]; [discriminate|tauto].
        -- cbn [List.length] in *. lia.
        -- intros Hn. exfalso. apply Hn. left. reflexivity.
      * destruct (IH (c' :: l'') ltac:(cbn; lia)) as (I1 & I2 & _).
        repeat split.
        -- intros [Habs|Hin]; [discriminate|tauto].
        -- cbn [List.length] in *. lia.
        -- intros Hn. exfalso. apply Hn. left. reflexivity.
  - destruct (IH l' ltac:(cbn; lia)) as (I1 & I2 & I3).
    repeat split.
    + intros [Habs|Hin]; [congruence|tauto].
    + cbn [List.length]. lia.
    + intros Hn. f_equal. apply I3. intros Hin. apply Hn. right. exact Hin.
Qed.

Lemma normalizeEOL_cons (c : Z) (l : list Z) :
  c <> c_CR -> normalizeEOL (c :: l) = c :: normalizeEOL l.
Proof.
  intros Hc. apply Z.eqb_neq in Hc. cbn [normalizeEOL]. rewrite Hc.
  reflexivity.
Qed.

Lemma normalizeEOL_CR_LF (l : list Z) :
  normalizeEOL (c_CR :: c_LF :: l) = c_LF :: normalizeEOL l.
Proof. reflexivity. Qed.

Lemma normalizeEOL_CR (l : list Z) :
  (forall t, l <> c_LF :: t) ->
  normalizeEOL (c_CR :: l) = c_LF :: normalizeEOL l.
Proof.
  intros Hl. destruct l as [|c' t]; [reflexivity|].
  assert (Hc : c' <> c_LF) by (intros ->; exact (Hl t eq_refl)).
  apply Z.eqb_neq in Hc.
  change (normalizeEOL (c_CR :: c' :: t))
    with (if c' =? c_LF then c_LF :: normalizeEOL t
          else c_LF :: normalizeEOL (c' :: t)).
  rewrite Hc. reflexivity.
Qed.

Lemma normalizeEOL_at_CR (a l : list Z) :
  normalizeEOL (a ++ c_CR :: l) = normalizeEOL a ++ normalizeEOL (c_CR :: l).
Proof.
  induction a as [a IH] using list_length_ind.
  destruct a as [|c a']; [reflexivity|].
  destruct (Z.eq_dec c c_CR) as [->|Hc].
  - destruct a' as [|c' a''].
    + cbn [app]. rewrite (normalizeEOL_CR (c_CR :: l)) by discriminate.
      reflexivity.
    + destruct (Z.eq_dec c' c_LF) as [->|Hc'].
      * cbn [app]. rewrite !normalizeEOL_CR_LF, (IH a'') by (cbn; lia).
        reflexivity.
      * change ((c_CR :: c' :: a'') ++ c_CR :: l)
          with (c_CR :: ((c' :: a'') ++ c_CR :: l)).
        rewrite (normalizeEOL_CR ((c' :: a'') ++ c_CR :: l)),
          (normalizeEOL_CR (c' :: a'')), (IH (c' :: a'')).
        -- reflexivity.
        -- cbn; lia.
        -- intros t E. inversion E. contradiction.
        -- intros t E. inversion E. contradiction.
  - cbn [app]. rewrite !normalizeEOL_cons, (IH a') by (assumption || cbn; lia).
    reflexivity.
Qed.

(** X7.  [normalizeEOL], which comments go through before they are stored,
    turns every CR LF pair and every other CR into one LF and copies the
    other bytes: the text before a carriage return and the text behind the
    line end it starts are normalized by themselves.  So it leaves no
    carriage return, never makes a text longer, leaves a text without
    carriage returns as it is, and changes nothing when applied a second
    time. *)
Theorem normalizeEOL_no_carriage_return (l : list Z) :
  ~ In c_CR (normalizeEOL l)
  /\ (List.length (normalizeEOL l) <= List.length l)%nat
  /\ (~ In c_CR l -> normalizeEOL l = l)
  /\ normalizeEOL (normalizeEOL l) = normalizeEOL l
  /\ (forall a b : list Z,
         l = a ++ c_CR :: c_LF :: b ->
         normalizeEOL l = normalizeEOL a ++ c_LF :: normalizeEOL b)
  /\ (forall a b : list Z,
         l = a ++ c_CR :: b -> (forall t, b <> c_LF :: t) ->
         normalizeEOL l = normalizeEOL a ++ c_LF :: normalizeEOL b).
Proof.
  destruct (normalizeEOL_facts l) as (I1 & I2 & I3).
  split; [exact I1|]. split; [exact I2|]. split; [exact I3|].
  split; [apply (normalizeEOL_facts (normalizeEOL l)); exact I1|].
  split.
  - intros a b ->. rewrite normalizeEOL_at_CR. reflexivity.
  - intros a b -> Hb. rewrite normalizeEOL_at_CR, (normalizeEOL_CR b Hb).
    reflexivity.
Qed.

Lemma readCStyleComment_loop_cons (c c' : Z) (t : list Z) (cur : Z) :
  readCStyleComment_loop (c :: c' :: t) cur
  = if (c =? c_STAR) && (c' =? c_SLASH) then cur + 1
    else readCStyleComment_loop (c' :: t) (cur + 1).
Proof. reflexivity. Qed.

Lemma readCStyleComment_loop_found (body rest : list Z) :
  forall cur : Z,
    no_comment_end (body ++ [c_STAR]) ->
    readCStyleComment_loop (body ++ c_STAR :: c_SLASH :: rest) cur
    = cur + Z.of_nat (List.length body) + 1.
Proof.
  induction body as [|c body IH]; intros cur Hn.
  - cbn. lia.
  - cbn [app].
    destruct (body ++ c_STAR :: c_SLASH :: rest) as [|c' t] eqn:E.
    { destruct body; discriminate. }
    rewrite readCStyleComment_loop_cons.
    destruct ((c =? c_STAR) && (c' =? c_SLASH)) eqn:Ec.
    + exfalso. apply andb_prop in Ec as [E1 E2].
      apply Z.eqb_eq in E1, E2. subst c c'.
      destruct body as [|b body']; cbn [app] in E.
      * inversion E.
      * inversion E; subst b. apply (Hn [] (body' ++ [c_STAR])). reflexivity.
    + rewrite IH.
      * cbn [List.length]. lia.
      * intros b1 r1 Hb. apply (Hn (c :: b1) r1). cbn [app]. now rewrite Hb.
Qed.

Lemma readCStyleComment_loop_open (l : list Z) :
  forall cur : Z,
    no_comment_end l ->
    readCStyleComment_loop l cur = cur + Z.of_nat (pred (List.length l)).
Proof.
  induction l as [|c l IH]; intros cur Hn.
  - cbn. lia.
  - destruct l as [|c' t].
    + cbn. lia.
    + rewrite readCStyleComment_loop_cons.
      destruct ((c =? c_STAR) && (c' =? c_SLASH)) eqn:Ec.
      * exfalso. apply andb_prop in Ec as [E1 E2].
        apply Z.eqb_eq in E1, E2. subst c c'. apply (Hn [] t). reflexivity.
      * rewrite IH.
        -- cbn [List.length pred]. lia.
        -- intros b1 r1 Hb. apply (Hn (c :: b1) r1). cbn [app].
           now rewrite Hb.
Qed.

Lemma readCStyleComment_closed (r : OurReader) (body rest : list Z) :
  0 <= current_ r <= end_ ->
  suffix (current_ r) = body ++ c_STAR :: c_SLASH :: rest ->
  no_comment_end (body ++ [c_STAR]) ->
  readCStyleComment doc r
  = (true, set_current r (current_ r + Z.of_nat (List.length body) + 2)).
Proof.
  intros Hb Hs Hn. unfold readCStyleComment.
  rewrite Hs, readCStyleComment_loop_found by exact Hn.
  assert (P : positioned doc
                (set_current r
                   (current_ r + Z.of_nat (List.length body) + 1))
                (c_SLASH :: rest)).
  { apply (positioned_shift H doc r _ (body ++ [c_STAR])).
    - split; [exact Hb|]. rewrite <- app_assoc. exact Hs.
    - cbn [set_current current_]. rewrite length_app. cbn [List.length].
      lia. }
  rewrite (getNextChar_cons H doc _ _ _ P).
  unfold set_current. cbn. do 2 f_equal. lia.
Qed.

Lemma readCppStyleComment_loop_exact (body eol rest : list Z) :
  forall cur : Z,
    no_eol body ->
    eol = [c_LF] \/ eol = [c_CR; c_LF]
    \/ (eol = [c_CR] /\ forall t, rest <> c_LF :: t)
    \/ (eol = [] /\ rest = []) ->
    readCppStyleComment_loop (body ++ eol ++ rest) cur
    = cur + Z.of_nat (List.length body) + Z.of_nat (List.length eol).
Proof.
  induction body as [|c body IH]; intros cur Hbody Heol.
  - cbn [app List.length Z.of_nat]. rewrite Z.add_0_r.
    destruct Heol as [->|[->|[[-> Hrest]|[-> ->]]]]; cbn.
    + lia.
    + lia.
    + destruct rest as [|c' t]; [lia|].
      destruct (Z.eqb_spec c' c_LF) as [->|_]; [|lia].
      exfalso. exact (Hrest t eq_refl).
    + lia.
  - inversion Hbody as [|? ? [Hlf Hcr] Hbody']; subst.
    cbn [app readCppStyleComment_loop].
    apply Z.eqb_neq in Hlf, Hcr. rewrite Hlf, Hcr.
    rewrite (IH (cur + 1) Hbody' Heol). cbn [List.length]. lia.
Qed.

(** X14.  [readCStyleComment], entered behind the opening of a comment,
    moves the cursor behind the first [*/] and accepts the comment.  When
    there is no [*/] it runs to the end of the document, and still accepts
    the comment when the last byte of the document is a slash: the text
    [/*/] at the end of a document, or any unterminated comment that ends
    in a slash, is read as a whole comment. *)
Theorem readCStyleComment_end (r : OurReader) :
  0 <= current_ r <= end_ ->
  (forall body rest : list Z,
      suffix (current_ r) = body ++ c_STAR :: c_SLASH :: rest ->
      no_comment_end (body ++ [c_STAR]) ->
      readCStyleComment doc r
      = (true,
         set_current r (current_ r + Z.of_nat (List.length body) + 2)))
  /\ (no_comment_end (suffix (current_ r)) ->
      readCStyleComment doc r
      = (last (suffix (current_ r)) c_NUL =? c_SLASH, set_current r end_)).
Proof.
  intros Hb. split.
  - intros body rest Hs Hn.
    exact (readCStyleComment_closed r body rest Hb Hs Hn).
  - intros Hn. unfold readCStyleComment.
    rewrite readCStyleComment_loop_open by exact Hn.
    pose proof (suffix_length doc (current_ r) Hb) as Hl.
    destruct (suffix (current_ r)) as [|c l] eqn:Hs
      using rev_ind.
    + cbn [List.length pred Z.of_nat] in *. unfold getNextChar.
      cbn [set_current current_].
      replace (current_ r + 0 =? end_) with true
        by (symmetry; apply Z.eqb_eq; lia).
      cbn [last]. unfold set_current. cbn. do 2 f_equal. lia.
    + clear IHl. rewrite length_app in *. cbn [List.length] in *.
      assert (P : positioned doc
                    (set_current r (current_ r + Z.of_nat (List.length l)))
                    [c]).
      { apply (positioned_shift H doc r _ l).
        - split; [exact Hb|exact Hs].
        - reflexivity. }
      replace (pred (List.length l + 1)) with (List.length l) by lia.
      rewrite (getNextChar_cons H doc _ _ _ P), last_last.
      unfold set_current. cbn. do 2 f_equal. lia.
Qed.

Lemma readCppStyleComment_loop_line (l : list Z) :
  forall cur : Z,
  exists body eol rest : list Z,
    l = body ++ eol ++ rest
    /\ no_eol body
    /\ (eol = [c_LF] \/ eol = [c_CR; c_LF]
        \/ (eol = [c_CR] /\ forall t, rest <> c_LF :: t)
        \/ (eol = [] /\ rest = []))
    /\ readCppStyleComment_loop l cur
       = cur + Z.of_nat (List.length body) + Z.of_nat (List.length eol).
Proof.
  induction l as [|c l IH]; intros cur.
  - exists [], [], []. repeat split; [constructor|tauto|cbn; lia].
  - cbn [readCppStyleComment_loop].
    destruct (Z.eqb_spec c c_LF) as [->|Hlf].
    { exists [], [c_LF], l. repeat split; [constructor|tauto|cbn; lia]. }
    destruct (Z.eqb_spec c c_CR) as [->|Hcr].
    { destruct l as [|c' t].
      - exists [], [c_CR], []. repeat split; [constructor| |cbn; lia].
        right. right. left. split; [reflexivity|]. intros t. discriminate.
      - destruct (Z.eqb_spec c' c_LF) as [->|Hlf'].
        + exists [], [c_CR; c_LF], t.
          repeat split; [constructor|tauto|cbn; lia].
        + exists [], [c_CR], (c' :: t). repeat split; [constructor| |cbn; lia].
          right. right. left. split; [reflexivity|].
          intros t' E. inversion E. contradiction. }
    destruct (IH (cur + 1)) as (body & eol & rest & E & Hbody & Heol & Eloop).
    exists (c :: body), eol, rest. repeat split.
    + cbn [app]. now rewrite E.
    + constructor; [split; assumption|exact Hbody].
    + exact Heol.
    + rewrite Eloop. cbn [List.length]. lia.
Qed.

(** X15.  [readCppStyleComment] always accepts, and moves the cursor over
    the rest of the line and its end: one line feed, one carriage return,
    or a carriage return and a line feed together; without an end of line
    it runs to the end of the document.  It reads no byte behind the end
    of the line. *)
Theorem readCppStyleComment_line (r : OurReader) :
  exists body eol rest : list Z,
    suffix (current_ r) = body ++ eol ++ rest
    /\ no_eol body
    /\ (eol = [c_LF] \/ eol = [c_CR; c_LF]
        \/ (eol = [c_CR] /\ forall t, rest <> c_LF :: t)
        \/ (eol = [] /\ rest = []))
    /\ readCppStyleComment doc r
       = (true,
          set_current r (current_ r + Z.of_nat (List.length body)
                         + Z.of_nat (List.length eol))).
Proof.
  destruct (readCppStyleComment_loop_line (suffix (current_ r)) (current_ r))
    as (body & eol & rest & E & Hbody & Heol & Eloop).
  exists body, eol, rest. repeat split; try assumption.
  unfold readCppStyleComment. rewrite Eloop. reflexivity.
Qed.

End ScannerFacts.

(** On a document that is empty or holds only spaces, tabs, carriage
    returns and line feeds, [parse] with the default features returns false,
    and the journal holds exactly one entry, with the message of the missing
    value.  Its location is the end of the document, one line more than the
    document has line ends and one column more than it has bytes behind the
    last of them, unless the document ends in a carriage return and the
    byte behind it in memory is a line feed: then the column is 0. *)
Theorem parse_blank_document (H : Host) (doc : list Z) (root : Value H)
        (collectComments : bool) (fuel : nat) :
  forallb is_space doc = true ->
  (2 <= fuel)%nat ->
  Z.of_nat (List.length doc) < 2 ^ 31 - 1 ->
  exists r,
    parse defaultFeatures doc fuel root collectComments = Ok (false, r)
    /\ errors_ r
       = [ {| token_ :=
                {| line_ := line_ends doc + 1;
                   column_ :=
                     if ends_in_CR doc && (past_the_end H doc =? c_LF) then 0
                     else bytes_behind_line_end 0 doc + 1 |};
              message_ := "Syntax error: value, object or array expected.";
              extra_ := noLocation |} ].
Proof.
  intros Hd Hfuel Hlen.
  destruct (parse_blank_document_entry H doc root collectComments fuel
              Hd Hfuel) as (r & E & J).
  exists r. split; [exact E|].
  rewrite J, (getLocationLineAndColumn_end H doc Hlen). reflexivity.
Qed.

(** X8.  For an offset behind which the document holds no carriage return,
    [getLocationLineAndColumn] counts from one: the line is one more than
    the number of line feeds before the offset, and the column one more
    than the number of bytes since the last of them, so both are at least
    1. *)
Theorem getLocationLineAndColumn_counts_from_one (H : Host)
        (pre post : list Z) :
  ~ In c_CR pre ->
  Z.of_nat (List.length pre) < 2 ^ 31 - 1 ->
  getLocationLineAndColumn H (pre ++ post) (Z.of_nat (List.length pre))
  = {| line_ := line_breaks pre + 1;
       column_ := bytes_in_last_line 0 pre + 1 |}
  /\ 1 <= line_breaks pre + 1
  /\ 1 <= bytes_in_last_line 0 pre + 1 <= Z.of_nat (List.length pre) + 1.
Proof.
  intros Hcr Hlen.
  pose proof (bytes_in_last_line_bounds pre 0 ltac:(lia)) as Hb.
  split; [|split; [unfold line_breaks; lia|lia]].
  unfold getLocationLineAndColumn.
  pose proof (locate_loop_lines H (pre ++ post) pre post 0 0 0 Hcr) as E.
  cbn [Z.add Z.sub Z.opp] in E. rewrite E.
  f_equal.
  replace (Z.of_nat (List.length pre)
           - (Z.of_nat (List.length pre) - bytes_in_last_line 0 pre))
    with (bytes_in_last_line 0 pre) by lia.
  rewrite to_int_small by lia.
  unfold to_size_t. apply Z.mod_small. lia.
Qed.

(** * Reports *)

Lemma string_append_assoc (a b c : string) :
  ((a ++ b) ++ c = a ++ (b ++ c))%string.
Proof. induction a as [|x a IH]; cbn; [reflexivity|now rewrite IH]. Qed.

Lemma string_append_empty_r (a : string) : (a ++ "" = a)%string.
Proof. induction a as [|x a IH]; cbn; [reflexivity|now rewrite IH]. Qed.

Lemma string_append_eq_empty (a b : string) :
  (a ++ b = "")%string -> a = ""%string /\ b = ""%string.
Proof. destruct a; cbn; [tauto|discriminate]. Qed.

Lemma locate_loop_line (H : Host) (doc rest : list Z) :
  forall (cur lls line e : Z),
    line <= snd (locate_loop H doc rest cur lls line e).
Proof.
  induction rest as [rest IH] using list_length_ind.
  intros cur lls line e. destruct rest as [|c rest']; cbn [locate_loop snd].
  { lia. }
  destruct (cur <? e); cbn [snd]; [|lia].
  destruct (c =? c_CR).
  - destruct rest' as [|c' rest''].
    + destruct (past_the_end H doc =? c_LF); cbn [snd]; lia.
    + destruct (c' =? c_LF).
      * specialize (IH rest'' ltac:(cbn; lia) (cur + 2) (cur + 2) (line + 1) e).
        lia.
      * specialize (IH (c' :: rest'') ltac:(cbn; lia) (cur + 1) (cur + 1)
                       (line + 1) e).
        lia.
  - destruct (c =? c_LF).
    + specialize (IH rest' ltac:(cbn; lia) (cur + 1) (cur + 1) (line + 1) e).
      lia.
    + specialize (IH rest' ltac:(cbn; lia) (cur + 1) lls line e). lia.
Qed.

Lemma getLocationLineAndColumn_line (H : Host) (doc : list Z) (offset : Z) :
  1 <= line_ (getLocationLineAndColumn H doc offset).
Proof.
  unfold getLocationLineAndColumn.
  pose proof (locate_loop_line H doc doc 0 0 0 offset) as Hl.
  destruct (locate_loop H doc doc 0 0 0 offset) as [lls line].
  cbn [snd line_] in *. lia.
Qed.

Section ReportFacts.

Variable H : Host.
Variable snprintf_d : Z -> string.

Local Abbreviation report := (getFormattedErrorMessages snprintf_d).
Local Abbreviation formatError := (formatError snprintf_d).

Lemma fold_formatError (errors : list ErrorInfo) :
  forall a : string,
    fold_left (fun m e => (m ++ formatError e)%string) errors a
    = (a ++ fold_left (fun m e => (m ++ formatError e)%string) errors "")%string.
Proof.
  induction errors as [|e errors IH]; intros a; cbn [fold_left].
  - now rewrite string_append_empty_r.
  - rewrite IH. rewrite (IH (String.append "" (formatError e))).
    cbn [String.append]. now rewrite string_append_assoc.
Qed.

Lemma report_empty_iff (r : OurReader H) :
  report r = ""%string <-> errors_ r = [].
Proof.
  unfold getFormattedErrorMessages.
  destruct (errors_ r) as [|e errors]; cbn [fold_left].
  - tauto.
  - split; [|discriminate]. rewrite fold_formatError.
    intros E. apply string_append_eq_empty in E as [E _].
    cbn in E. discriminate.
Qed.

(** X9.  The text of [getFormattedErrorMessages] is made of one part per
    entry of the journal, in the order of the entries, so the text for a
    journal is the text for its first entries followed by the text for the
    rest; it is empty exactly when the journal is empty. *)
Theorem getFormattedErrorMessages_per_entry (r : OurReader H)
        (errors1 errors2 : list ErrorInfo) :
  report (set_errors r (errors1 ++ errors2))
  = (report (set_errors r errors1) ++ report (set_errors r errors2))%string
  /\ (report r = ""%string <-> errors_ r = []).
Proof.
  split; [|apply report_empty_iff].
  unfold getFormattedErrorMessages. cbn [set_errors errors_].
  rewrite fold_left_app. apply fold_formatError.
Qed.

(** X10.  [OurCharReader::parse] hands back an empty error text exactly when
    it returns true: the text names the errors of a failed parse and
    nothing after a success. *)
Theorem OurCharReader_parse_errs (features : Features)
        (collectComments : bool) (doc : list Z) (fuel : nat) (root : Value H)
        (ok : bool) (r : OurReader H) (errs : string) :
  (fuel_for doc <= fuel)%nat ->
  OurCharReader_parse snprintf_d features collectComments doc fuel root
  = Ok (ok, r, errs) ->
  (ok = true <-> errs = ""%string)
  /\ parse features doc fuel root collectComments = Ok (ok, r).
Proof.
  intros Hfuel E. unfold OurCharReader_parse in E.
  pose proof (parse_settled H features doc fuel root collectComments Hfuel)
    as Hs.
  destruct (parse features doc fuel root collectComments) as [[ok' r']|m|];
    cbn [bind] in E; try discriminate.
  inversion E; subst. split; [|reflexivity].
  destruct Hs as (_ & _ & Hok & _). rewrite Hok.
  symmetry. apply report_empty_iff.
Qed.

Lemma report_push (r : OurReader H) (info : ErrorInfo) :
  report (set_errors r (errors_ r ++ [info]))
  = (report r ++ formatError info)%string.
Proof.
  unfold getFormattedErrorMessages. cbn [set_errors errors_].
  rewrite fold_left_app. reflexivity.
Qed.


End ReportFacts.

(** * The tree of a well-formed document *)

Section SlotFacts.

Variable H : Host.

Lemma members_modify_compose (k : list Z) (f g : Value H -> Value H)
      (m : list (list Z * Value H)) :
  members_modify H k f (members_modify H k g m)
  = members_modify H k (fun x => f (g x)) m.
Proof.
  induction m as [|[k' w] m IH]; cbn [members_modify]; [reflexivity|].
  destruct (bytes_eqb k k') eqn:E; cbn [members_modify]; rewrite E.
  - reflexivity.
  - now rewrite IH.
Qed.

Lemma members_modify_ext (k : list Z) (f g : Value H -> Value H)
      (m : list (list Z * Value H)) :
  (forall w, members_find H k m = Some w -> f w = g w) ->
  members_modify H k f m = members_modify H k g m.
Proof.
  induction m as [|[k' w] m IH]; cbn [members_modify members_find];
    [reflexivity|].
  destruct (bytes_eqb k k'); intros Hfg.
  - now rewrite (Hfg w eq_refl).
  - now rewrite IH.
Qed.

Lemma elems_modify_compose (i : nat) (f g : Value H -> Value H)
      (l : list (Value H)) :
  elems_modify H i f (elems_modify H i g l)
  = elems_modify H i (fun x => f (g x)) l.
Proof.
  revert i. induction l as [|w l IH]; intros [|i]; cbn [elems_modify];
    try reflexivity.
  now rewrite IH.
Qed.

Lemma elems_modify_ext (i : nat) (f g : Value H -> Value H)
      (l : list (Value H)) :
  (forall w, nth_error l i = Some w -> f w = g w) ->
  elems_modify H i f l = elems_modify H i g l.
Proof.
  revert i. induction l as [|w l IH]; intros [|i]; cbn [elems_modify nth_error];
    intros Hfg; try reflexivity.
  - now rewrite (Hfg w eq_refl).
  - now rewrite (IH i Hfg).
Qed.

Lemma modify_at_ext (p : Path) (f g : Value H -> Value H) :
  forall v : Value H,
    (forall slot, get_at p v = Some slot -> f slot = g slot) ->
    modify_at p f v = modify_at p g v.
Proof.
  induction p as [|[k|i] p IH]; intros v Hfg; cbn [modify_at get_at] in *.
  - apply Hfg. reflexivity.
  - destruct (payload v) as [ | | | | | | l | m] eqn:E; try reflexivity.
    f_equal. f_equal. apply members_modify_ext. intros w Hw.
    apply IH. intros slot Hs. apply Hfg. rewrite Hw. exact Hs.
  - destruct (payload v) as [ | | | | | | l | m] eqn:E; try reflexivity.
    f_equal. f_equal. apply elems_modify_ext. intros w Hw.
    apply IH. intros slot Hs. apply Hfg. rewrite Hw. exact Hs.
Qed.

Lemma modify_at_compose (p : Path) (f g : Value H -> Value H) :
  forall v : Value H,
    modify_at p f (modify_at p g v) = modify_at p (fun x => f (g x)) v.
Proof.
  induction p as [|[k|i] p IH]; intros v; cbn [modify_at].
  - reflexivity.
  - destruct (payload v) as [ | | | | | | l | m] eqn:E; rewrite ?E;
      try reflexivity.
    cbn [swapPayload payload]. unfold swapPayload. cbn.
    f_equal. f_equal. rewrite members_modify_compose.
    apply members_modify_ext. intros w _. apply IH.
  - destruct (payload v) as [ | | | | | | l | m] eqn:E; rewrite ?E;
      try reflexivity.
    cbn [swapPayload payload]. unfold swapPayload. cbn.
    f_equal. f_equal. rewrite elems_modify_compose.
    apply elems_modify_ext. intros w _. apply IH.
Qed.

Lemma modify_at_snoc (p : Path) (s : Step) (f : Value H -> Value H) :
  forall v : Value H,
    modify_at (p ++ [s]) f v = modify_at p (modify_at [s] f) v.
Proof.
  induction p as [|[k|i] p IH]; intros v; cbn [app modify_at].
  - reflexivity.
  - destruct (payload v) as [ | | | | | | l | m]; try reflexivity.
    f_equal. f_equal. apply members_modify_ext. intros w _. apply IH.
  - destruct (payload v) as [ | | | | | | l | m]; try reflexivity.
    f_equal. f_equal. apply elems_modify_ext. intros w _. apply IH.
Qed.

Lemma get_at_snoc (p : Path) (s : Step) :
  forall v : Value H,
    get_at (p ++ [s]) v
    = match get_at p v with
      | Some slot => get_at [s] slot
      | None => None
      end.
Proof.
  induction p as [|[k|i] p IH]; intros v; cbn [app get_at].
  - destruct s; reflexivity.
  - destruct (payload v) as [ | | | | | | l | m]; try reflexivity.
    destruct (members_find H k m); [apply IH|reflexivity].
  - destruct (payload v) as [ | | | | | | l | m]; try reflexivity.
    destruct (nth_error l i); [apply IH|reflexivity].
Qed.

Lemma elems_modify_last (f : Value H -> Value H) (l : list (Value H))
      (x : Value H) :
  elems_modify H (List.length l) f (l ++ [x]) = l ++ [f x].
Proof. induction l as [|w l IH]; cbn; [reflexivity|now rewrite IH]. Qed.

Lemma nth_error_last (l : list (Value H)) (x : Value H) :
  nth_error (l ++ [x]) (List.length l) = Some x.
Proof. induction l as [|w l IH]; cbn; [reflexivity|exact IH]. Qed.

Lemma members_modify_last (k : list Z) (f : Value H -> Value H)
      (m : list (list Z * Value H)) (x : Value H) :
  members_find H k m = None ->
  members_modify H k f (m ++ [(k, x)]) = m ++ [(k, f x)]
  /\ members_find H k (m ++ [(k, x)]) = Some x.
Proof.
  induction m as [|[k' w] m IH]; cbn [app members_modify members_find].
  - rewrite bytes_eqb_refl. auto.
  - destruct (bytes_eqb k k'); [discriminate|].
    intros E. destruct (IH E) as [-> ->]. auto.
Qed.

Lemma members_find_names (k : list Z) (m : list (list Z * Value H)) :
  ~ In k (map fst m) -> members_find H k m = None.
Proof.
  induction m as [|[k' w] m IH]; cbn [map fst members_find In];
    [reflexivity|].
  intros Hn. destruct (bytes_eqb k k') eqn:E.
  - exfalso. apply Hn. left.
    clear -E. revert k' E.
    induction k as [|x k IHk]; intros [|y k']; cbn; try discriminate; auto.
    intros E. apply andb_prop in E as [E1 E2]. apply Z.eqb_eq in E1.
    rewrite (IHk k' E2). congruence.
  - apply IH. tauto.
Qed.

(** The slot of a new element, behind the elements read so far. *)
Lemma element_slot_fresh (p : Path) (root slot : Value H)
      (l : list (Value H)) (f : Value H -> Value H) :
  get_at p root = Some slot ->
  payload slot = arrayValue l ->
  get_at (p ++ [Index (List.length l)])
         (modify_at p (element_slot (List.length l)) root)
  = Some Value_null
  /\ modify_at (p ++ [Index (List.length l)]) f
               (modify_at p (element_slot (List.length l)) root)
     = modify_at p (swapPayload (arrayValue (l ++ [f Value_null]))) root.
Proof.
  intros Hg Hp.
  assert (Es : element_slot (List.length l) slot
               = swapPayload (arrayValue (l ++ [Value_null])) slot).
  { unfold element_slot. rewrite Hp, Nat.ltb_irrefl.
    replace (S (List.length l) - List.length l)%nat with 1%nat by lia.
    reflexivity. }
  split.
  - rewrite get_at_snoc, get_at_modify_at, Hg. cbn [option_map].
    rewrite Es. cbn [get_at swapPayload payload].
    rewrite nth_error_last. reflexivity.
  - rewrite modify_at_snoc, modify_at_compose.
    apply modify_at_ext. intros s Hs. rewrite Hg in Hs. inversion Hs; subst s.
    rewrite Es. cbn [modify_at swapPayload payload].
    rewrite elems_modify_last. reflexivity.
Qed.

(** The slot of a member of a new name, behind the members read so far. *)
Lemma member_slot_fresh (p : Path) (root slot : Value H)
      (m : list (list Z * Value H)) (k : list Z) (f : Value H -> Value H) :
  get_at p root = Some slot ->
  payload slot = objectValue m ->
  ~ In k (map fst m) ->
  isMember k slot = false
  /\ get_at (p ++ [Member k]) (modify_at p (member_slot k) root)
     = Some Value_null
  /\ modify_at (p ++ [Member k]) f (modify_at p (member_slot k) root)
     = modify_at p (swapPayload (objectValue (m ++ [(k, f Value_null)]))) root.
Proof.
  intros Hg Hp Hk. apply members_find_names in Hk.
  assert (Es : member_slot k slot
               = swapPayload (objectValue (m ++ [(k, Value_null)])) slot).
  { unfold member_slot. rewrite Hp, Hk. reflexivity. }
  destruct (members_modify_last k f m Value_null Hk) as [Em Ef].
  split; [|split].
  - unfold isMember. rewrite Hp, Hk. reflexivity.
  - rewrite get_at_snoc, get_at_modify_at, Hg. cbn [option_map].
    rewrite Es. cbn [get_at swapPayload payload]. rewrite Ef. reflexivity.
  - rewrite modify_at_snoc, modify_at_compose.
    apply modify_at_ext. intros s Hs. rewrite Hg in Hs. inversion Hs; subst s.
    rewrite Es. cbn [modify_at swapPayload payload].
    destruct (members_modify_last k (fun v => f v) m Value_null Hk)
      as [Em' _].
    rewrite Em'. reflexivity.
Qed.

Lemma members_find_none_names (k : list Z) (m : list (list Z * Value H)) :
  members_find H k m = None -> ~ In k (map fst m).
Proof.
  induction m as [|[k' w] m IH]; cbn [map fst members_find In]; [tauto|].
  destruct (bytes_eqb k k') eqn:E; [discriminate|].
  intros Hf [Heq|Hin]; [|exact (IH Hf Hin)].
  subst k'. rewrite bytes_eqb_refl in E. discriminate.
Qed.

(** The slot of a member whose name the object has. *)
Lemma member_slot_present (p : Path) (root slot old : Value H)
      (m : list (list Z * Value H)) (k : list Z) (f : Value H -> Value H) :
  get_at p root = Some slot ->
  payload slot = objectValue m ->
  members_find H k m = Some old ->
  get_at (p ++ [Member k]) (modify_at p (member_slot k) root) = Some old
  /\ modify_at (p ++ [Member k]) f (modify_at p (member_slot k) root)
     = modify_at p (swapPayload (objectValue (members_modify H k f m))) root.
Proof.
  intros Hg Hp Hk.
  assert (Es : member_slot k slot = slot).
  { unfold member_slot. rewrite Hp, Hk. reflexivity. }
  split.
  - rewrite get_at_snoc, get_at_modify_at, Hg. cbn [option_map].
    rewrite Es. cbn [get_at]. rewrite Hp, Hk. reflexivity.
  - rewrite modify_at_snoc, modify_at_compose.
    apply modify_at_ext. intros s Hs. rewrite Hg in Hs. inversion Hs; subst s.
    rewrite Es. cbn [modify_at]. rewrite Hp. reflexivity.
Qed.

End SlotFacts.

(** *** Dropped values *)

Section DroppedValues.

Variable H : Host.
Variable features_ : Features.
Variable doc : list Z.

Local Abbreviation end_ := (end_ doc).
Local Abbreviation suffix := (suffix doc).
Local Abbreviation at_ := (at_ doc).
Local Abbreviation OurReader := (OurReader H).

Lemma suffix_at (i : Z) :
  0 <= i < end_ -> suffix i = at_ i :: suffix (i + 1).
Proof.
  unfold suffix, at_, end_. intros Hi.
  replace (Z.to_nat (i + 1)) with (S (Z.to_nat i)) by lia.
  assert (Hn : (Z.to_nat i < List.length doc)%nat) by lia.
  revert Hn. generalize (Z.to_nat i). clear Hi.
  induction doc as [|x l IH]; intros [|n] Hn; cbn in *; try lia.
  - reflexivity.
  - apply IH. lia.
Qed.

(** A reader that does not collect comments changes in nothing but its
    cursor while tokens are read. *)
Lemma set_current_eta (r : OurReader) : r = set_current r (current_ r).
Proof. destruct r; reflexivity. Qed.

Lemma cursor_only_trans (r r1 r2 : OurReader) :
  r1 = set_current r (current_ r1) ->
  r2 = set_current r1 (current_ r2) ->
  r2 = set_current r (current_ r2).
Proof. intros E1 E2. rewrite E2, E1. reflexivity. Qed.

Ltac cursor_cases :=
  repeat first
    [ progress cbn [snd fst]
    | match goal with
      | |- context [if ?b then _ else _] => destruct b
      | |- context [match ?x with (_, _) => _ end] => destruct x
      end ];
  first [reflexivity | apply set_current_eta].

Lemma getNextChar_cursor (r : OurReader) :
  snd (getNextChar doc r)
  = set_current r (current_ (snd (getNextChar doc r))).
Proof. unfold getNextChar. cursor_cases. Qed.

Lemma readNumber_cursor (b : bool) (r : OurReader) :
  snd (readNumber doc b r)
  = set_current r (current_ (snd (readNumber doc b r))).
Proof. unfold readNumber. cursor_cases. Qed.

Lemma readString_cursor (r : OurReader) :
  snd (readString doc r) = set_current r (current_ (snd (readString doc r))).
Proof. unfold readString. cursor_cases. Qed.

Lemma readStringSingleQuote_cursor (r : OurReader) :
  snd (readStringSingleQuote doc r)
  = set_current r (current_ (snd (readStringSingleQuote doc r))).
Proof. unfold readStringSingleQuote. cursor_cases. Qed.

Lemma match_cursor (pattern : list Z) (r : OurReader) :
  snd (match_ doc pattern r)
  = set_current r (current_ (snd (match_ doc pattern r))).
Proof. unfold match_. cursor_cases. Qed.

Lemma readComment_cursor (r : OurReader) :
  collectComments_ r = false ->
  snd (readComment doc r)
  = set_current r (current_ (snd (readComment doc r))).
Proof.
  intros Hcc. unfold readComment.
  pose proof (getNextChar_cursor r) as C1.
  destruct (getNextChar doc r) as [c r1]. cbn [snd] in C1.
  assert (C2 : snd (if c =? c_STAR then readCStyleComment doc r1
                    else if c =? c_SLASH then readCppStyleComment doc r1
                         else (false, r1))
               = set_current r1
                   (current_
                      (snd (if c =? c_STAR then readCStyleComment doc r1
                            else if c =? c_SLASH
                                 then readCppStyleComment doc r1
                                 else (false, r1))))).
  { destruct (c =? c_STAR).
    - unfold readCStyleComment.
      pose proof (getNextChar_cursor
                    (set_current r1
                       (readCStyleComment_loop (suffix (current_ r1))
                                               (current_ r1)))) as G.
      destruct (getNextChar doc _) as [c' r2]. cbn [snd] in *.
      rewrite G. reflexivity.
    - destruct (c =? c_SLASH); cbn [snd readCppStyleComment];
        [reflexivity | apply set_current_eta]. }
  destruct (if c =? c_STAR then _ else _) as [successful r2]. cbn [snd] in C2.
  pose proof (cursor_only_trans r r1 r2 C1 C2) as C3.
  assert (Hcc2 : collectComments_ r2 = false) by (rewrite C3; exact Hcc).
  destruct successful; cbn [negb snd]; [|exact C3].
  rewrite Hcc2. cbn [snd]. exact C3.
Qed.

Lemma readToken_cursor (r : OurReader) :
  collectComments_ r = false ->
  snd (readToken features_ doc r)
  = set_current r (current_ (snd (readToken features_ doc r))).
Proof.
  intros Hcc. unfold readToken.
  assert (C1 : skipSpaces doc r
               = set_current r (current_ (skipSpaces doc r)))
    by reflexivity.
  assert (Hcc1 : collectComments_ (skipSpaces doc r) = false) by exact Hcc.
  revert C1 Hcc1. generalize (skipSpaces doc r). intros r1 C1 Hcc1.
  pose proof (getNextChar_cursor r1) as C2.
  destruct (getNextChar doc r1) as [c r2]. cbn [snd] in C2.
  pose proof (cursor_only_trans r r1 r2 C1 C2) as C3.
  assert (Hcc2 : collectComments_ r2 = false) by (rewrite C3; exact Hcc).
  repeat first
    [ match goal with
      | |- context [if ?b then _ else _] => destruct b
      end
    | match goal with
      | |- context [readString doc ?x] =>
          pose proof (readString_cursor x); destruct (readString doc x)
      | |- context [readStringSingleQuote doc ?x] =>
          pose proof (readStringSingleQuote_cursor x);
          destruct (readStringSingleQuote doc x)
      | |- context [readComment doc ?x] =>
          pose proof (readComment_cursor x Hcc2);
          destruct (readComment doc x)
      | |- context [readNumber doc ?b ?x] =>
          pose proof (readNumber_cursor b x); destruct (readNumber doc b x)
      | |- context [match_ doc ?p ?x] =>
          pose proof (match_cursor p x); destruct (match_ doc p x)
      end; cbn [snd] in * ];
    cbv beta iota zeta; cbn [snd]; eauto using cursor_only_trans.
Qed.

Lemma skipCommentTokens_cursor (fuel : nat) :
  forall (r r' : OurReader) (token : Token),
    collectComments_ r = false ->
    skipCommentTokens features_ doc fuel r = Ok (token, r') ->
    r' = set_current r (current_ r').
Proof.
  unfold skipCommentTokens. intros r r' token Hcc.
  destruct (allowComments_ features_).
  - revert r Hcc. induction fuel as [|fuel IH]; intros r Hcc E;
      cbn [skipCommentTokens_loop] in E; [discriminate|].
    pose proof (readToken_cursor r Hcc) as C.
    destruct (readToken features_ doc r) as [[ok tok] r1]. cbn [snd] in C.
    destruct (TokenType_eqb (type_ tok) tokenComment).
    + apply (cursor_only_trans r r1 r' C). apply IH; [|exact E].
      rewrite C. exact Hcc.
    + inversion E; subst. exact C.
  - pose proof (readToken_cursor r Hcc) as C.
    destruct (readToken features_ doc r) as [[ok tok] r1]. cbn [snd] in C.
    intros E. inversion E; subst. exact C.
Qed.

(** A separator and a closing bracket are tokens of one byte, the byte
    before the cursor. *)
Lemma readToken_delimiter_token (r r' : OurReader) (ok : bool)
      (token : Token) :
  0 <= current_ r <= end_ ->
  readToken features_ doc r = (ok, token, r') ->
  type_ token = tokenArraySeparator \/ type_ token = tokenObjectEnd
  \/ type_ token = tokenArrayEnd ->
  offsetStart_ token = current_ r' - 1
  /\ offsetEnd_ token = current_ r'
  /\ 0 <= current_ r' - 1 < end_
  /\ at_ (current_ r' - 1)
     = match type_ token with
       | tokenArraySeparator => c_COMMA
       | tokenObjectEnd => c_RBRACE
       | _ => c_RBRACKET
       end.
Proof.
  intros Hb E.
  assert (G : let token := snd (fst (readToken features_ doc r)) in
              let r' := snd (readToken features_ doc r) in
              type_ token = tokenArraySeparator \/ type_ token = tokenObjectEnd
              \/ type_ token = tokenArrayEnd ->
              offsetStart_ token = current_ r' - 1
              /\ offsetEnd_ token = current_ r'
              /\ 0 <= current_ r' - 1 < end_
              /\ at_ (current_ r' - 1)
                 = match type_ token with
                   | tokenArraySeparator => c_COMMA
                   | tokenObjectEnd => c_RBRACE
                   | _ => c_RBRACKET
                   end);
    [|rewrite E in G; exact G].
  clear E. cbv zeta.
  unfold readToken, getNextChar, readString, readStringSingleQuote.
  pose proof (skipSpaces_advances H doc r Hb) as (A1 & _).
  set (r1 := skipSpaces doc r) in *.
  destruct (Z.eqb_spec (current_ r1) end_) as [Hend|Hend].
  - cbn. intros [K|[K|K]]; discriminate.
  - set (c := at_ (current_ r1)). cbv beta iota zeta.
    repeat first
      [ match goal with
        | |- context [if ?b then _ else _] => destruct b eqn:?
        end
      | match goal with
        | |- context [readString_loop ?q ?l ?a ?b] =>
            destruct (readString_loop q l a b) as [? ?] eqn:?
        end
      | match goal with
        | |- context [readComment doc ?x] =>
            destruct (readComment doc x) as [? ?] eqn:?
        | |- context [readNumber doc ?b ?x] =>
            destruct (readNumber doc b x) as [? ?] eqn:?
        | |- context [match_ doc ?p ?x] =>
            destruct (match_ doc p x) as [? ?] eqn:?
        end ];
      cbn [fst snd type_ offsetStart_ offsetEnd_ set_current current_];
      (intros [K|[K|K]]; try discriminate);
      replace (current_ r1 + 1 - 1) with (current_ r1) by lia;
      (split; [reflexivity|]); (split; [reflexivity|]); (split; [lia|]);
      match goal with
      | Hq : (c =? ?d) = true |- _ = ?d => apply Z.eqb_eq; exact Hq
      end.
Qed.

Lemma skipCommentTokens_loop_delimiter_token (fuel : nat) :
  forall (r r' : OurReader) (token : Token),
    0 <= current_ r <= end_ ->
    skipCommentTokens_loop features_ doc fuel r = Ok (token, r') ->
    exists (r0 : OurReader) (ok : bool),
      0 <= current_ r0 <= end_
      /\ readToken features_ doc r0 = (ok, token, r').
Proof.
  induction fuel as [|fuel IH]; intros r r' token Hb E; [discriminate|].
  cbn [skipCommentTokens_loop] in E.
  pose proof (readToken_advances H features_ doc r Hb) as A.
  destruct (readToken features_ doc r) as [[ok tok] r1] eqn:Et.
  destruct A as (_ & (Ac & _) & _).
  destruct (TokenType_eqb (type_ tok) tokenComment).
  - apply (IH r1 r' token); [lia|exact E].
  - inversion E; subst. exists r, ok. split; [exact Hb|exact Et].
Qed.

Lemma skipCommentTokens_delimiter_token (fuel : nat) (r r' : OurReader)
      (token : Token) :
  0 <= current_ r <= end_ ->
  skipCommentTokens features_ doc fuel r = Ok (token, r') ->
  type_ token = tokenArraySeparator \/ type_ token = tokenObjectEnd
  \/ type_ token = tokenArrayEnd ->
  offsetStart_ token = current_ r' - 1
  /\ offsetEnd_ token = current_ r'
  /\ 0 <= current_ r' - 1 < end_
  /\ at_ (current_ r' - 1)
     = match type_ token with
       | tokenArraySeparator => c_COMMA
       | tokenObjectEnd => c_RBRACE
       | _ => c_RBRACKET
       end.
Proof.
  intros Hb E. unfold skipCommentTokens in E.
  destruct (allowComments_ features_).
  - destruct (skipCommentTokens_loop_delimiter_token fuel r r' token Hb E)
      as (r0 & ok & Hb0 & Et).
    exact (readToken_delimiter_token r0 r' ok token Hb0 Et).
  - destruct (readToken features_ doc r) as [[ok tok] r1] eqn:Et.
    inversion E; subst.
    exact (readToken_delimiter_token r r' ok token Hb Et).
Qed.

(** With the cursor on it, the separator or the bracket is read as the
    same token again. *)
Lemma readToken_delimiter_again (r : OurReader) (token : Token) (c1 : Z) :
  current_ r = c1 - 1 ->
  offsetStart_ token = c1 - 1 ->
  offsetEnd_ token = c1 ->
  0 <= c1 - 1 < end_ ->
  at_ (c1 - 1)
  = match type_ token with
    | tokenArraySeparator => c_COMMA
    | tokenObjectEnd => c_RBRACE
    | _ => c_RBRACKET
    end ->
  type_ token = tokenArraySeparator \/ type_ token = tokenObjectEnd
  \/ type_ token = tokenArrayEnd ->
  readToken features_ doc r = (true, token, set_current r c1).
Proof.
  intros Ec Es Ee Hb Hat Hk.
  assert (P : positioned doc r (at_ (c1 - 1) :: suffix c1)).
  { split; [lia|]. rewrite Ec, suffix_at by lia.
    f_equal. f_equal. lia. }
  rewrite Hat in P. destruct token as [ty s e].
  cbn [type_ offsetStart_ offsetEnd_] in *. subst s e.
  replace c1 with (current_ r + 1) by lia.
  replace (current_ r + 1 - 1) with (current_ r) by lia.
  destruct Hk as [->|[->| ->]].
  - exact (readToken_ArraySeparator H features_ doc r _ P).
  - exact (readToken_ObjectEnd H features_ doc r _ P).
  - exact (readToken_ArrayEnd H features_ doc r _ P).
Qed.

Lemma OurReader_eta (r : OurReader) :
  r = {| root_ := root_ r; nodes_ := nodes_ r; errors_ := errors_ r;
         current_ := current_ r; lastValueEnd_ := lastValueEnd_ r;
         lastValue_ := lastValue_ r; commentsBefore_ := commentsBefore_ r;
         collectComments_ := collectComments_ r |}.
Proof. destruct r; reflexivity. Qed.

(** The reader that [readValue] leaves for a dropped value, field by
    field, from the reader [r1] that has read the delimiter. *)
Lemma readValue_dropped_null_exact (fuel : nat) (r r1 : OurReader)
      (token : Token) :
  allowDroppedNullPlaceholders_ features_ = true ->
  to_int (Z.of_nat (List.length (nodes_ r))) <= stackLimit_ features_ ->
  skipCommentTokens features_ doc fuel r = Ok (token, r1) ->
  type_ token = tokenArraySeparator \/ type_ token = tokenObjectEnd
  \/ type_ token = tokenArrayEnd ->
  readValue features_ doc (S fuel) r
  = Ok (true,
        {| root_ :=
             modify_at (top r1)
               (fun slot =>
                  mkValue nullValue
                    (current_ r1 - 2) (current_ r1 - 1)
                    (if collectComments_ r1
                        && negb (is_nil (commentsBefore_ r1))
                     then Some (commentsBefore_ r1)
                     else comment_before slot)
                    (comment_after_on_same_line slot) (comment_after slot))
               (root_ r1);
           nodes_ := nodes_ r1;
           errors_ := errors_ r1;
           current_ := current_ r1 - 1;
           lastValueEnd_ :=
             if collectComments_ r1 then Some (current_ r1 - 1)
             else lastValueEnd_ r1;
           lastValue_ :=
             if collectComments_ r1 then Some (top r1) else lastValue_ r1;
           commentsBefore_ :=
             if collectComments_ r1 then [] else commentsBefore_ r1;
           collectComments_ := collectComments_ r1 |}).
Proof.
  intros Hflag Hdepth Etok Hkind.
  cbn [readValue]. unfold readValue_body.
  replace (to_int (Z.of_nat (List.length (nodes_ r))) >? stackLimit_ features_)
    with false by (symmetry; rewrite Z.gtb_ltb; apply Z.ltb_ge; lia).
  rewrite Etok. cbn [bind]. cbv beta zeta.
  assert (G : forall x y : OurReader, x = y -> Ok (true, x) = Ok (true, y))
    by (intros x y ->; reflexivity).
  destruct Hkind as [K|[K|K]]; rewrite K, Hflag; apply G; clear G.
  all: destruct r1 as [root nodes errs cur lve lv cbs cc];
    cbn [root_ nodes_ errors_ current_ lastValueEnd_ lastValue_
         commentsBefore_ collectComments_];
    destruct cc; [destruct cbs as [|b cbs]|];
    cbn [andb negb is_nil];
    match goal with
    | |- ?x = _ => rewrite (OurReader_eta x)
    end;
    cbn [onCurrentValue set_lastValue set_commentsBefore set_current
         set_root root_ nodes_ errors_ current_ lastValueEnd_ lastValue_
         commentsBefore_ collectComments_];
    rewrite ?modify_at_compose; f_equal; try (f_equal; lia);
    apply modify_at_ext; intros slot _;
    unfold setOffsetLimit, setOffsetStart, swapPayload, setComment;
    cbn [payload offsetStart offsetLimit comment_before
         comment_after_on_same_line comment_after];
    f_equal; lia.
Qed.

End DroppedValues.

(** C6.  With allowDroppedNullPlaceholders enabled, when the token read for
    a value (comments skipped) is an ArraySeparator, an ObjectEnd or an
    ArrayEnd, [readValue] succeeds with the cursor moved back by exactly one
    byte from where the token left it, and the slot on top of the stack, the
    one the value was to be read into, holds null with
    offset_start = current - begin - 1 and offset_limit = current - begin,
    for the cursor so rewound; the slot keeps its comments and gets the
    comment collected before the token.  The rest of the tree, the stack
    and the journal are as they were (for a reader that collects no
    comments the reader has changed in that slot and in the cursor only),
    and parsing goes on from the delimiter: the next [readToken] yields the
    same token again, for the loop of the array or the object around the
    value.  So "[1, 2, , 3]" is parsed, with no error, into the array of 1,
    2, null and 3. *)
Theorem readValue_dropped_null_placeholder :
  (forall (H : Host) (features_ : Features) (doc : list Z) (fuel : nat)
          (r r1 : OurReader H) (token : Token) (v0 : Value H),
      allowDroppedNullPlaceholders_ features_ = true ->
      to_int (Z.of_nat (List.length (nodes_ r))) <= stackLimit_ features_ ->
      skipCommentTokens features_ doc fuel r = Ok (token, r1) ->
      type_ token = tokenArraySeparator \/ type_ token = tokenObjectEnd
      \/ type_ token = tokenArrayEnd ->
      get_at (top r1) (root_ r1) = Some v0 ->
      exists (r' : OurReader H) (v : Value H),
        readValue features_ doc (S fuel) r = Ok (true, r')
        /\ current_ r' = current_ r1 - 1
        /\ get_at (top r') (root_ r') = Some v
        /\ payload v = nullValue
        /\ offsetStart v = current_ r' - 1
        /\ offsetLimit v = current_ r'
        /\ comment_before v
           = (if collectComments_ r && negb (is_nil (commentsBefore_ r1))
              then Some (commentsBefore_ r1) else comment_before v0)
        /\ comment_after_on_same_line v = comment_after_on_same_line v0
        /\ comment_after v = comment_after v0
        /\ root_ r' = modify_at (top r) (fun _ => v) (root_ r1)
        /\ nodes_ r' = nodes_ r
        /\ errors_ r' = errors_ r
        /\ collectComments_ r' = collectComments_ r
        /\ commentsBefore_ r'
           = (if collectComments_ r then [] else commentsBefore_ r1)
        /\ lastValueEnd_ r'
           = (if collectComments_ r then Some (current_ r')
              else lastValueEnd_ r1)
        /\ lastValue_ r'
           = (if collectComments_ r then Some (top r) else lastValue_ r1)
        /\ (0 <= current_ r <= end_ doc ->
            readToken features_ doc r'
            = (true, token, set_current r' (current_ r1)))
        /\ (collectComments_ r = false ->
            root_ r' = modify_at (top r) (fun _ => v) (root_ r)
            /\ commentsBefore_ r' = commentsBefore_ r
            /\ lastValueEnd_ r' = lastValueEnd_ r
            /\ lastValue_ r' = lastValue_ r))
  /\ outcome (parse_bytes plainHost droppedNullFeatures (bytes "[1, 2, , 3]"))
     = Ok (true,
           leaf (arrayValue [ leaf (intValue 1) 1 2; leaf (intValue 2) 4 5;
                              leaf nullValue 6 7; leaf (intValue 3) 9 10 ])
                0 11,
           []).
Proof.
  split; [|vm_compute; reflexivity].
  intros H features_ doc fuel r r1 token v0 Hflag Hdepth Etok Hkind Hv0.
  pose proof (skipCommentTokens_frame H features_ doc fuel r r1 token Etok)
    as (Fe & Fn & Fc & _).
  assert (Ft : top r1 = top r) by (unfold top; now rewrite Fn).
  pose proof (skipCommentTokens_cursor H features_ doc fuel r r1 token) as C.
  rewrite (readValue_dropped_null_exact H features_ doc fuel r r1 token
             Hflag Hdepth Etok Hkind).
  rewrite <- Fc in C |- *. rewrite <- Ft, <- Fn, <- Fe.
  eexists. eexists. split; [reflexivity|].
  cbn [root_ nodes_ errors_ current_ lastValueEnd_ lastValue_
       commentsBefore_ collectComments_].
  change (top {| root_ := ?a; nodes_ := nodes_ r1; errors_ := ?b;
                 current_ := ?c; lastValueEnd_ := ?d; lastValue_ := ?e;
                 commentsBefore_ := ?f; collectComments_ := ?g |})
    with (top r1).
  split; [reflexivity|].
  split.
  { rewrite get_at_modify_at, Hv0. cbn [option_map]. reflexivity. }
  cbn [payload offsetStart offsetLimit comment_before
       comment_after_on_same_line comment_after].
  repeat (split; [first [reflexivity | lia]|]).
  assert (Hroot : modify_at (top r1)
                    (fun slot : Value H =>
                       mkValue nullValue (current_ r1 - 2) (current_ r1 - 1)
                         (if collectComments_ r1
                             && negb (is_nil (commentsBefore_ r1))
                          then Some (commentsBefore_ r1)
                          else comment_before slot)
                         (comment_after_on_same_line slot)
                         (comment_after slot))
                    (root_ r1)
                  = modify_at (top r1)
                      (fun _ : Value H =>
                         mkValue nullValue (current_ r1 - 2) (current_ r1 - 1)
                           (if collectComments_ r1
                               && negb (is_nil (commentsBefore_ r1))
                            then Some (commentsBefore_ r1)
                            else comment_before v0)
                           (comment_after_on_same_line v0)
                           (comment_after v0))
                      (root_ r1)).
  { apply modify_at_ext. intros slot Hs. rewrite Hv0 in Hs.
    inversion Hs; subst slot. reflexivity. }
  split; [exact Hroot|].
  repeat (split; [reflexivity|]).
  split.
  - intros Hb.
    destruct (skipCommentTokens_delimiter_token H features_ doc fuel r r1 token
                Hb Etok Hkind) as (Es & Ee & Hb1 & Hat).
    apply readToken_delimiter_again; try assumption. reflexivity.
  - intros Hcc. specialize (C Hcc Etok). rewrite Hcc in Hroot |- *.
    assert (Er : root_ r1 = root_ r) by (rewrite C; reflexivity).
    assert (Eb : commentsBefore_ r1 = commentsBefore_ r)
      by (rewrite C; reflexivity).
    assert (El : lastValueEnd_ r1 = lastValueEnd_ r)
      by (rewrite C; reflexivity).
    assert (Ev : lastValue_ r1 = lastValue_ r) by (rewrite C; reflexivity).
    rewrite <- Er, <- Eb, <- El, <- Ev.
    split; [exact Hroot|]. repeat split.
Qed.

(** *** Numbers *)

(** What [decodeNumber] makes of a token depends on the bytes of the token
    only. *)
Lemma decodeNumber_to_local (H : Host) (doc1 doc2 : list Z)
      (token1 token2 : Token) (r1 r2 : OurReader H) (c : Z)
      (literal : list Z) :
  0 <= offsetStart_ token1 -> 0 <= offsetStart_ token2 ->
  slice doc1 (offsetStart_ token1) (offsetEnd_ token1) = c :: literal ->
  slice doc2 (offsetStart_ token2) (offsetEnd_ token2) = c :: literal ->
  offsetEnd_ token1 - offsetStart_ token1
  = offsetEnd_ token2 - offsetStart_ token2 ->
  fst (decodeNumber_to doc1 token1 r1) = fst (decodeNumber_to doc2 token2 r2).
Proof.
  intros H1 H2 S1 S2 Hlen.
  destruct (slice_cons doc1 _ _ _ _ H1 S1) as (A1 & _ & T1).
  destruct (slice_cons doc2 _ _ _ _ H2 S2) as (A2 & _ & T2).
  unfold decodeNumber_to. rewrite A1, A2.
  destruct (c =? c_MINUS).
  - rewrite T1, T2.
    destruct (decodeNumber_loop literal _ _ 0) as [value|]; [reflexivity|].
    unfold decodeDouble_to, addError. rewrite S1, S2, Hlen.
    destruct (_ <? 0); [reflexivity|].
    destruct (_ <=? 32).
    + destruct (sscanf_lf H (fixNumericLocaleInput H (c :: literal)));
        reflexivity.
    + destruct (sscanf_lf H (c :: literal)); reflexivity.
  - rewrite S1, S2.
    destruct (decodeNumber_loop (c :: literal) _ _ 0) as [value|].
    + destruct (value <=? to_LargestUInt (maxInt H)); reflexivity.
    + unfold decodeDouble_to, addError. rewrite S1, S2, Hlen.
      destruct (_ <? 0); [reflexivity|].
      destruct (_ <=? 32).
      * destruct (sscanf_lf H (fixNumericLocaleInput H (c :: literal)));
          reflexivity.
      * destruct (sscanf_lf H (c :: literal)); reflexivity.
Qed.

Section TreeFacts.

Variable H : Host.
Variable features_ : Features.
Variable doc : list Z.

Local Abbreviation end_ := (end_ doc).
Local Abbreviation suffix := (suffix doc).
Local Abbreviation slice := (slice doc).
Local Abbreviation at_ := (at_ doc).
Local Abbreviation OurReader := (OurReader H).
Local Abbreviation positioned := (positioned doc).
Local Abbreviation limit := (stackLimit_ features_).

Hypothesis host_scans : scans_numbers H.
Hypothesis doc_small : Z.of_nat (List.length doc) < 2 ^ 30.

Lemma decodeNumber_to_tree (r : OurReader) (n : jnumber) (l : list Z) (s : Z)
      (ty : TokenType) :
  jnumber_ok n = true -> 0 <= s -> suffix s = print_number n ++ l ->
  exists v,
    decodeNumber_to doc
      {| type_ := ty; offsetStart_ := s;
         offsetEnd_ := s + Z.of_nat (List.length (print_number n)) |} r
    = (true, v, r)
    /\ payload v = number_payload (print_number n).
Proof.
  intros Hok Hs Hsuf.
  destruct (decodeNumber_to_ok H doc host_scans r n l s ty Hok Hs Hsuf)
    as (v & E).
  exists v. split; [exact E|].
  destruct (print_first (JNumber n) Hok) as (c & t & Ep & _).
  cbn [print] in Ep.
  pose proof (slice_of_suffix doc s _ _ Hs Hsuf) as S1.
  unfold number_payload.
  set (tokenL := {| type_ := tokenNumber; offsetStart_ := 0;
                    offsetEnd_ := Z.of_nat (List.length (print_number n)) |}).
  pose proof (decodeNumber_to_local
                H doc (print_number n)
                {| type_ := ty; offsetStart_ := s;
                   offsetEnd_ := s + Z.of_nat (List.length (print_number n)) |}
                tokenL r (reader_at Value_null false 0) c t) as L.
  cbn [offsetStart_ offsetEnd_ tokenL] in L.
  rewrite <- Ep in L. rewrite E in L. cbn [fst] in L.
  specialize (L Hs ltac:(lia) S1).
  destruct (decodeNumber_to (print_number n) tokenL
                            (reader_at Value_null false 0))
    as [[ok' v'] r'].
  cbn [fst] in L.
  assert (L' : (true, v) = (ok', v')).
  { apply L; [|lia].
    pose proof (slice_of_suffix (print_number n) 0 (print_number n) []
                                ltac:(lia)) as S2.
    cbn [Z.add] in S2. apply S2. cbn. now rewrite app_nil_r. }
  inversion L'. reflexivity.
Qed.

(** *** One value *)

Lemma install_root (p : PayloadF H (Value H)) (token : Token) (r : OurReader) :
  root_ (install p token r)
  = modify_at (top r)
      (put (leaf p (offsetStart_ token) (offsetEnd_ token))) (root_ r).
Proof.
  unfold install, onCurrentValue. cbn [set_root root_ top nodes_].
  rewrite !modify_at_compose. reflexivity.
Qed.

Lemma yields_finish (r1 r3 : OurReader) (pos : Z) (root' : Value H) :
  yields r1 r3 pos root' ->
  yields r1
    (if collectComments_ r3
     then set_lastValue r3 (Some (current_ r3)) (Some (top r3))
     else r3)
    pos root'.
Proof. intros Y. destruct (collectComments_ r3); exact Y. Qed.

Lemma yields_trans (r1 r2 r3 : OurReader) (p2 p3 : Z) (v2 v3 : Value H) :
  yields r1 r2 p2 v2 -> yields r2 r3 p3 v3 -> yields r1 r3 p3 v3.
Proof.
  intros (? & ? & ? & ? & ? & ?) (? & ? & ? & ? & ? & ?).
  repeat split; congruence.
Qed.

Ltac enter_exact Hg Etok Hcb Ety :=
  cbn [readValue]; unfold readValue_body;
  match goal with
  | |- context [to_int ?n >? ?l] =>
      replace (to_int n >? l) with false
        by (symmetry; rewrite Z.gtb_ltb; apply Z.ltb_ge;
            rewrite to_int_small; [exact (proj1 Hg)|lia])
  end;
  rewrite Etok; cbn [bind]; cbv zeta;
  rewrite Hcb; cbn [is_nil negb]; rewrite andb_false_r;
  rewrite Ety.

Lemma readValue_exact_plain (fuel : nat) (r r1 : OurReader) (token : Token)
      (p : PayloadF H (Value H)) :
  Z.of_nat (List.length (nodes_ r)) <= limit
  /\ Z.of_nat (List.length (nodes_ r)) < 2 ^ 31 ->
  skipCommentTokens features_ doc fuel r = Ok (token, r1) ->
  commentsBefore_ r1 = [] ->
  (type_ token = tokenTrue /\ p = booleanValue true)
  \/ (type_ token = tokenFalse /\ p = booleanValue false)
  \/ (type_ token = tokenNull /\ p = nullValue) ->
  exists r',
    readValue features_ doc (S fuel) r = Ok (true, r')
    /\ yields r1 r' (current_ r1) (root_ (install p token r1)).
Proof.
  intros Hg Etok Hcb [[Ety ->]|[[Ety ->]|[Ety ->]]];
    enter_exact Hg Etok Hcb Ety;
    (eexists; split; [reflexivity|]);
    apply yields_finish; repeat split.
Qed.

Lemma readValue_exact_number (fuel : nat) (r r1 : OurReader) (token : Token)
      (v : Value H) :
  Z.of_nat (List.length (nodes_ r)) <= limit
  /\ Z.of_nat (List.length (nodes_ r)) < 2 ^ 31 ->
  skipCommentTokens features_ doc fuel r = Ok (token, r1) ->
  commentsBefore_ r1 = [] ->
  type_ token = tokenNumber ->
  decodeNumber_to doc token r1 = (true, v, r1) ->
  exists r',
    readValue features_ doc (S fuel) r = Ok (true, r')
    /\ yields r1 r' (current_ r1) (root_ (install (payload v) token r1)).
Proof.
  intros Hg Etok Hcb Ety Ed. enter_exact Hg Etok Hcb Ety.
  unfold decodeNumber. rewrite Ed. cbn [negb].
  eexists. split; [reflexivity|]. apply yields_finish. repeat split.
Qed.

Lemma readValue_exact_string (fuel : nat) (r r1 : OurReader) (token : Token)
      (s : list Z) :
  Z.of_nat (List.length (nodes_ r)) <= limit
  /\ Z.of_nat (List.length (nodes_ r)) < 2 ^ 31 ->
  skipCommentTokens features_ doc fuel r = Ok (token, r1) ->
  commentsBefore_ r1 = [] ->
  type_ token = tokenString ->
  decodeString_to doc token r1 = Ok (true, s, r1) ->
  exists r',
    readValue features_ doc (S fuel) r = Ok (true, r')
    /\ yields r1 r' (current_ r1) (root_ (install (stringValue s) token r1)).
Proof.
  intros Hg Etok Hcb Ety Ed. enter_exact Hg Etok Hcb Ety.
  unfold decodeString. rewrite Ed. cbn [bind negb].
  eexists. split; [reflexivity|]. apply yields_finish. repeat split.
Qed.

Lemma readValue_exact_array (fuel : nat) (r r1 r3 : OurReader)
      (token : Token) :
  Z.of_nat (List.length (nodes_ r)) <= limit
  /\ Z.of_nat (List.length (nodes_ r)) < 2 ^ 31 ->
  skipCommentTokens features_ doc fuel r = Ok (token, r1) ->
  commentsBefore_ r1 = [] ->
  type_ token = tokenArrayBegin ->
  readArray features_ doc (readValue features_ doc fuel) fuel token r1
  = Ok (true, r3) ->
  exists r',
    readValue features_ doc (S fuel) r = Ok (true, r')
    /\ yields r3 r' (current_ r3)
              (modify_at (top r3) (setOffsetLimit (current_ r3)) (root_ r3)).
Proof.
  intros Hg Etok Hcb Ety Ed. enter_exact Hg Etok Hcb Ety.
  rewrite Ed. cbn [bind].
  eexists. split; [reflexivity|]. apply yields_finish. repeat split.
Qed.

Lemma readValue_exact_object (fuel : nat) (r r1 r3 : OurReader)
      (token : Token) :
  Z.of_nat (List.length (nodes_ r)) <= limit
  /\ Z.of_nat (List.length (nodes_ r)) < 2 ^ 31 ->
  skipCommentTokens features_ doc fuel r = Ok (token, r1) ->
  commentsBefore_ r1 = [] ->
  type_ token = tokenObjectBegin ->
  readObject features_ doc (readValue features_ doc fuel) fuel token r1
  = Ok (true, r3) ->
  exists r',
    readValue features_ doc (S fuel) r = Ok (true, r')
    /\ yields r3 r' (current_ r3)
              (modify_at (top r3) (setOffsetLimit (current_ r3)) (root_ r3)).
Proof.
  intros Hg Etok Hcb Ety Ed. enter_exact Hg Etok Hcb Ety.
  rewrite Ed. cbn [bind].
  eexists. split; [reflexivity|]. apply yields_finish. repeat split.
Qed.

(** *** One round of the loops *)

Lemma readArray_loop_round (fuel_rec fuel idx : nat) (r r2 : OurReader)
      (v : json) (wsA ws2 : list Z) (c : Z) (rest : list Z)
      (root2 : Value H) :
  is_ws ws2 = true ->
  c = c_COMMA \/ c = c_RBRACKET ->
  positioned r (wsA ++ print v ++ ws2 ++ c :: rest) ->
  readValue features_ doc fuel_rec
            (push (top r ++ [Index idx]) (onCurrentValue (element_slot idx) r))
  = Ok (true, r2) ->
  yields (push (top r ++ [Index idx]) (onCurrentValue (element_slot idx) r))
         r2
         (current_ r + Z.of_nat (List.length wsA)
          + Z.of_nat (List.length (print v)))
         root2 ->
  exists r3,
    yields r r3
           (current_ r + Z.of_nat (List.length wsA)
            + Z.of_nat (List.length (print v))
            + Z.of_nat (List.length ws2) + 1)
           root2
    /\ readArray_loop features_ doc (readValue features_ doc fuel_rec)
                      (S fuel) idx r
       = if c =? c_RBRACKET then Ok (true, r3)
         else readArray_loop features_ doc (readValue features_ doc fuel_rec)
                             fuel (S idx) r3.
Proof.
  intros Hws2 Hc P E (Yc & Yr & Ye & Yn & Ycb & Ycc).
  assert (P2 : positioned (pop r2) (ws2 ++ c :: rest)).
  { rewrite app_assoc in P.
    apply (positioned_shift H doc r (pop r2) _ _ P).
    cbn [pop set_nodes current_]. rewrite Yc, length_app. lia. }
  assert (Hty : exists ty,
             (c = c_COMMA /\ ty = tokenArraySeparator)
             \/ (c = c_RBRACKET /\ ty = tokenArrayEnd)).
  { destruct Hc as [->| ->]; eexists; [left|right]; split; reflexivity. }
  destruct Hty as (ty & Hty).
  destruct (readToken_punct H features_ doc (pop r2) ws2 rest c ty Hws2 P2)
    as (tok & Et & Ety).
  { destruct Hty as [Hh|Hh]; tauto. }
  eexists. split; cycle 1.
  - cbn [readArray_loop].
    change (readValue features_ doc fuel_rec
              (push (top (onCurrentValue (element_slot idx) r) ++ [Index idx])
                    (onCurrentValue (element_slot idx) r)))
      with (readValue features_ doc fuel_rec
              (push (top r ++ [Index idx])
                    (onCurrentValue (element_slot idx) r))).
    rewrite E. cbn [bind negb]. rewrite Et.
    rewrite skipComments_while_token
      by (rewrite Ety; destruct Hty as [[_ ->]|[_ ->]]; discriminate).
    cbn [bind]. rewrite Ety.
    destruct Hty as [[-> ->]|[-> ->]]; reflexivity.
  - repeat split;
      cbn [pop set_nodes set_current current_ root_ errors_ nodes_
               commentsBefore_ collectComments_].
    + rewrite Yc. reflexivity.
    + exact Yr.
    + exact Ye.
    + rewrite Yn. reflexivity.
    + exact Ycb.
    + exact Ycc.
Qed.

Lemma readObject_loop_round (fuel_rec fuel : nat) (name : list Z)
      (r r2 : OurReader) (k : list jchar) (v : json)
      (ws1 ws2 ws3 ws4 : list Z) (c : Z) (rest : list Z) (root2 : Value H) :
  is_ws ws1 = true -> forallb jchar_ok k = true -> is_ws ws2 = true ->
  is_ws ws4 = true ->
  c = c_COMMA \/ c = c_RBRACE ->
  positioned r (ws1 ++ print_string k ++ ws2 ++ c_COLON
                    :: ws3 ++ print v ++ ws4 ++ c :: rest) ->
  rejectDupKeys_ features_ = false
  \/ currentValue_isMember (decode_chars k) r = false ->
  readValue features_ doc fuel_rec
            (push (top r ++ [Member (decode_chars k)])
                  (onCurrentValue
                     (member_slot (decode_chars k))
                     (set_current r
                        (current_ r + Z.of_nat (List.length ws1)
                         + Z.of_nat (List.length (print_string k))
                         + Z.of_nat (List.length ws2) + 1))))
  = Ok (true, r2) ->
  yields (push (top r ++ [Member (decode_chars k)])
               (onCurrentValue
                  (member_slot (decode_chars k))
                  (set_current r
                     (current_ r + Z.of_nat (List.length ws1)
                      + Z.of_nat (List.length (print_string k))
                      + Z.of_nat (List.length ws2) + 1))))
         r2
         (current_ r + Z.of_nat (List.length ws1)
          + Z.of_nat (List.length (print_string k))
          + Z.of_nat (List.length ws2) + 1
          + Z.of_nat (List.length ws3) + Z.of_nat (List.length (print v)))
         root2 ->
  exists r3,
    yields r r3
           (current_ r + Z.of_nat (List.length ws1)
            + Z.of_nat (List.length (print_string k))
            + Z.of_nat (List.length ws2) + 1
            + Z.of_nat (List.length ws3) + Z.of_nat (List.length (print v))
            + Z.of_nat (List.length ws4) + 1)
           root2
    /\ readObject_loop features_ doc (readValue features_ doc fuel_rec)
                       (S fuel) name r
       = if c =? c_RBRACE then Ok (true, r3)
         else readObject_loop features_ doc
                (readValue features_ doc fuel_rec) fuel (decode_chars k) r3.
Proof.
  intros Hws1 Hk Hws2 Hws4 Hc P Hmem E (Yc & Yr & Ye & Yn & Ycb & Ycc).
  pose proof (positioned_bounds H doc r _ P) as [Hcur Hend].
  assert (Hlen : Z.of_nat (List.length (print_chars k)) < 2 ^ 30).
  { unfold print_string in Hend. unfold end_ in Hend.
    repeat first [rewrite length_app in Hend
                 |progress (cbn [List.length] in Hend)].
    lia. }
  (* the name *)
  assert (S1 : solid (print_string k ++ ws2 ++ c_COLON
                        :: ws3 ++ print v ++ ws4 ++ c :: rest))
    by reflexivity.
  pose proof (readToken_ws H features_ doc r ws1 _ Hws1 S1 P) as E1.
  pose proof (positioned_app H doc r ws1 _ P) as P1.
  rewrite (readToken_String H features_ doc _ k _ Hk P1) in E1.
  cbn [set_current current_] in E1.
  set (s := current_ r + Z.of_nat (List.length ws1)) in *.
  set (tokS := {| type_ := tokenString; offsetStart_ := s;
                  offsetEnd_ := s + Z.of_nat (List.length (print_string k)) |})
    in *.
  set (rS := set_current (set_current r s)
                         (s + Z.of_nat (List.length (print_string k)))) in *.
  assert (D : decodeString_to doc tokS rS = Ok (true, decode_chars k, rS)).
  { apply (decodeString_to_chars H doc rS k
             (ws2 ++ c_COLON :: ws3 ++ print v ++ ws4 ++ c :: rest) s
             tokenString Hk); [subst s; lia|].
    destruct P1 as [_ P1]. exact P1. }
  (* the colon *)
  assert (P2 : positioned rS (ws2 ++ c_COLON
                                  :: ws3 ++ print v ++ ws4 ++ c :: rest)).
  { apply (positioned_shift H doc _ rS _ _ P1). reflexivity. }
  destruct (readToken_punct H features_ doc rS ws2 _ c_COLON
                            tokenMemberSeparator Hws2 P2)
    as (tokC & E2 & Ety2); [tauto|].
  set (rC := set_current rS (current_ rS + Z.of_nat (List.length ws2) + 1))
    in *.
  assert (Hshort : (Z.of_nat (List.length (decode_chars k)) >=? 2 ^ 30)
                   = false).
  { pose proof (decode_chars_length k).
    rewrite Z.geb_leb. apply Z.leb_gt. lia. }
  assert (P3 : positioned (pop r2) (ws4 ++ c :: rest)).
  { apply (positioned_shift H doc rC (pop r2) (ws3 ++ print v) _).
    - rewrite <- app_assoc.
      apply (positioned_shift H doc rS rC (ws2 ++ [c_COLON]) _).
      + rewrite <- app_assoc. exact P2.
      + subst rC. cbn [set_current current_]. rewrite length_app.
        cbn [List.length]. lia.
    - cbn [pop set_nodes current_]. rewrite Yc, length_app.
      subst rC rS s. cbn [set_current current_]. lia. }
  assert (Hty : exists ty,
             (c = c_COMMA /\ ty = tokenArraySeparator)
             \/ (c = c_RBRACE /\ ty = tokenObjectEnd)).
  { destruct Hc as [->| ->]; eexists; [left|right]; split; reflexivity. }
  destruct Hty as (ty & Hty).
  destruct (readToken_punct H features_ doc (pop r2) ws4 rest c ty Hws4 P3)
    as (tok & Et & Ety).
  { destruct Hty as [Hh|Hh]; tauto. }
  eexists. split; cycle 1.
  - cbn [readObject_loop]. rewrite E1. cbn [negb].
    rewrite skipComments_while_token by discriminate.
    cbn [bind negb type_ tokS TokenType_eqb andb].
    rewrite D. cbn [bind]. rewrite E2. rewrite Ety2.
    cbn [negb TokenType_eqb orb]. rewrite Hshort.
    change (currentValue_isMember (decode_chars k) rC)
      with (currentValue_isMember (decode_chars k) r).
    replace (rejectDupKeys_ features_
             && currentValue_isMember (decode_chars k) r) with false
      by (destruct Hmem as [-> | ->]; [reflexivity|now rewrite andb_false_r]).
    change (readValue features_ doc fuel_rec
              (push (top (onCurrentValue (member_slot (decode_chars k)) rC)
                         ++ [Member (decode_chars k)])
                    (onCurrentValue (member_slot (decode_chars k)) rC)))
      with (readValue features_ doc fuel_rec
              (push (top r ++ [Member (decode_chars k)])
                    (onCurrentValue
                       (member_slot (decode_chars k))
                       (set_current r
                          (s + Z.of_nat (List.length (print_string k))
                           + Z.of_nat (List.length ws2) + 1))))).
    rewrite E. cbn [bind negb].
    rewrite Et.
    rewrite skipComments_while_token
      by (rewrite Ety; destruct Hty as [[_ ->]|[_ ->]]; discriminate).
    cbn [bind]. rewrite Ety.
    destruct Hty as [[-> ->]|[-> ->]]; reflexivity.
  - repeat split;
      cbn [pop set_nodes set_current current_ root_ errors_ nodes_
               commentsBefore_ collectComments_].
    + rewrite Yc. reflexivity.
    + exact Yr.
    + exact Ye.
    + rewrite Yn. reflexivity.
    + exact Ycb.
    + exact Ycc.
Qed.

(** *** Entering an array and an object *)

Lemma onCurrentValue_twice (f g : Value H -> Value H) (r : OurReader) :
  root_ (onCurrentValue f (onCurrentValue g r))
  = modify_at (top r) (fun x => f (g x)) (root_ r).
Proof.
  unfold onCurrentValue. cbn [set_root root_ top nodes_].
  apply modify_at_compose.
Qed.

Lemma readArray_exact_empty (fuel : nat)
      (rec : OurReader -> result (bool * OurReader)) (token : Token)
      (r : OurReader) (ws rest : list Z) :
  is_ws ws = true ->
  positioned r (ws ++ c_RBRACKET :: rest) ->
  exists r',
    readArray features_ doc rec fuel token r = Ok (true, r')
    /\ yields r r' (current_ r + Z.of_nat (List.length ws) + 1)
              (modify_at (top r)
                 (fun x => setOffsetStart (offsetStart_ token)
                             (swapPayload (arrayValue []) x))
                 (root_ r)).
Proof.
  intros Hws P. unfold readArray.
  set (r0 := onCurrentValue (setOffsetStart (offsetStart_ token))
               (onCurrentValue (swapPayload (arrayValue [])) r)).
  assert (P0 : positioned r0 (ws ++ c_RBRACKET :: rest))
    by (refine (positioned_frame H doc r r0 _ _ P); reflexivity).
  rewrite (skipSpaces_ws H doc r0 ws (c_RBRACKET :: rest) Hws
                         ltac:(reflexivity) P0).
  pose proof (positioned_app H doc r0 ws _ P0) as P1.
  destruct (positioned_cons H doc _ _ _ P1) as (Hat & Hlt & _).
  rewrite Hat.
  replace (current_ (set_current r0 (current_ r0 + Z.of_nat (List.length ws)))
           =? end_) with false by (symmetry; apply Z.eqb_neq; lia).
  cbn [negb andb]. rewrite Z.eqb_refl.
  rewrite (readToken_ArrayEnd H features_ doc _ rest P1).
  eexists. split; [reflexivity|]. repeat split.
  cbn [set_current root_]. subst r0. apply onCurrentValue_twice.
Qed.

Lemma readArray_exact_elements (fuel : nat)
      (rec : OurReader -> result (bool * OurReader)) (token : Token)
      (r : OurReader) (es : elements) (rest : list Z) :
  elements_ok es = true ->
  positioned r (print_elements es ++ c_RBRACKET :: rest) ->
  exists r0,
    yields r r0 (current_ r + Z.of_nat (List.length (elements_head es)))
           (modify_at (top r)
              (fun x => setOffsetStart (offsetStart_ token)
                          (swapPayload (arrayValue []) x))
              (root_ r))
    /\ readArray features_ doc rec fuel token r
       = readArray_loop features_ doc rec fuel 0 r0.
Proof.
  intros Hok P. unfold readArray.
  set (r0 := onCurrentValue (setOffsetStart (offsetStart_ token))
               (onCurrentValue (swapPayload (arrayValue [])) r)).
  rewrite print_elements_split, <- app_assoc in P.
  assert (P0 : positioned r0 (elements_head es ++ elements_body es
                                ++ c_RBRACKET :: rest))
    by (refine (positioned_frame H doc r r0 _ _ P); reflexivity).
  assert (Hh : is_ws (elements_head es) = true
               /\ exists v l, json_ok v = true
                              /\ elements_body es = print v ++ l).
  { destruct es as [ws1 v ws2|ws1 v ws2 es']; cbn [elements_ok] in Hok;
      repeat (apply andb_prop in Hok as [Hok ?]);
      (split; [assumption|]); exists v; eexists; split;
      try reflexivity; assumption. }
  destruct Hh as (Hws & v & l & Hv & Eb).
  destruct (print_first v Hv) as (c & t & Ev & Hc & Hne).
  rewrite Eb, Ev in P0. cbn [app] in P0.
  rewrite (skipSpaces_ws H doc r0 (elements_head es)
             (c :: (t ++ l) ++ c_RBRACKET :: rest) Hws Hc P0).
  pose proof (positioned_app H doc r0 _ _ P0) as P1.
  destruct (positioned_cons H doc _ _ _ P1) as (Hat & Hlt & _).
  rewrite Hat.
  replace (c =? c_RBRACKET) with false by (symmetry; apply Z.eqb_neq; exact Hne).
  rewrite andb_false_r.
  eexists. split; [|reflexivity]. repeat split.
  cbn [set_current root_]. subst r0. apply onCurrentValue_twice.
Qed.

Lemma readObject_exact (fuel : nat)
      (rec : OurReader -> result (bool * OurReader)) (token : Token)
      (r : OurReader) :
  exists r0,
    yields r r0 (current_ r)
           (modify_at (top r)
              (fun x => setOffsetStart (offsetStart_ token)
                          (swapPayload (objectValue []) x))
              (root_ r))
    /\ readObject features_ doc rec fuel token r
       = readObject_loop features_ doc rec fuel [] r0.
Proof.
  eexists. split; [|reflexivity]. repeat split. apply onCurrentValue_twice.
Qed.

Lemma readObject_loop_exact_empty (fuel : nat)
      (rec : OurReader -> result (bool * OurReader))
      (r : OurReader) (ws rest : list Z) :
  is_ws ws = true ->
  positioned r (ws ++ c_RBRACE :: rest) ->
  exists r',
    readObject_loop features_ doc rec (S fuel) [] r = Ok (true, r')
    /\ yields r r' (current_ r + Z.of_nat (List.length ws) + 1) (root_ r).
Proof.
  intros Hws P.
  destruct (readToken_punct H features_ doc r ws rest c_RBRACE tokenObjectEnd
                            Hws P)
    as (tok & Et & Ety); [tauto|].
  cbn [readObject_loop]. rewrite Et. cbn [negb].
  rewrite skipComments_while_token by (rewrite Ety; discriminate).
  cbn [bind negb]. rewrite Ety. cbn [TokenType_eqb is_nil andb].
  eexists. split; [reflexivity|]. repeat split.
Qed.

(** *** The tree of a value *)

Lemma readToken_punct_exact (r : OurReader) (ws l : list Z) (c : Z)
      (ty : TokenType) :
  is_ws ws = true ->
  positioned r (ws ++ c :: l) ->
  (c = c_LBRACKET /\ ty = tokenArrayBegin)
  \/ (c = c_LBRACE /\ ty = tokenObjectBegin) ->
  readToken features_ doc r
  = (true,
     {| type_ := ty;
        offsetStart_ := current_ r + Z.of_nat (List.length ws);
        offsetEnd_ := current_ r + Z.of_nat (List.length ws) + 1 |},
     set_current r (current_ r + Z.of_nat (List.length ws) + 1)).
Proof.
  intros Hws P Hc.
  assert (S0 : solid (c :: l))
    by (destruct Hc as [[-> _]|[-> _]]; reflexivity).
  rewrite (readToken_ws H features_ doc r ws (c :: l) Hws S0 P).
  apply (positioned_app H doc) in P.
  destruct Hc as [[-> ->]|[-> ->]].
  - rewrite (readToken_ArrayBegin H features_ doc _ l P). reflexivity.
  - rewrite (readToken_ObjectBegin H features_ doc _ l P). reflexivity.
Qed.

Lemma yields_from (r r1 r' : OurReader) (pos : Z) (root' : Value H) :
  root_ r1 = root_ r -> errors_ r1 = errors_ r -> nodes_ r1 = nodes_ r ->
  commentsBefore_ r1 = commentsBefore_ r ->
  collectComments_ r1 = collectComments_ r ->
  yields r1 r' pos root' -> yields r r' pos root'.
Proof.
  intros ? ? ? ? ? (? & ? & ? & ? & ? & ?). repeat split; congruence.
Qed.

Lemma room_depth (r : OurReader) (d : nat) :
  (1 <= d)%nat -> room limit r d = true ->
  Z.of_nat (List.length (nodes_ r)) <= limit.
Proof. unfold room. intros Hd E. apply Z.leb_le in E. lia. Qed.

Ltac lens_in Hl :=
  repeat first [rewrite length_app in Hl
               |progress (cbn [List.length] in Hl)].

Ltac lens :=
  repeat first [rewrite length_app|progress (cbn [List.length])].

Lemma yields_as (r r' : OurReader) (pos pos' : Z) (root root' : Value H) :
  pos = pos' -> root = root' -> yields r r' pos root -> yields r r' pos' root'.
Proof. intros <- <-. auto. Qed.

Lemma yields_top (r r' : OurReader) (pos : Z) (root' : Value H) :
  yields r r' pos root' -> top r' = top r.
Proof. intros (_ & _ & _ & Yn & _). unfold top. now rewrite Yn. Qed.

Lemma yields_slot (r r' : OurReader) (pos : Z) (f : Value H -> Value H)
      (slot : Value H) :
  yields r r' pos (modify_at (top r) f (root_ r)) ->
  get_at (top r) (root_ r) = Some slot ->
  get_at (top r') (root_ r') = Some (f slot).
Proof.
  intros Y Hs. rewrite (yields_top _ _ _ _ Y).
  destruct Y as (_ & -> & _). rewrite get_at_modify_at, Hs. reflexivity.
Qed.

(** The slot of a container between its opening and the end of its loop. *)
Lemma yields_fill (r r0 r3 : OurReader) (s pos0 e : Z)
      (p0 p : PayloadF H (Value H)) :
  yields r r0 pos0
         (modify_at (top r)
            (fun x => setOffsetStart s (swapPayload p0 x)) (root_ r)) ->
  yields r0 r3 e (modify_at (top r0) (swapPayload p) (root_ r0)) ->
  yields r r3 e
         (modify_at (top r)
            (fun x => setOffsetStart s (swapPayload p x)) (root_ r)).
Proof.
  intros Y0 Y3. pose proof (yields_top _ _ _ _ Y0) as T0.
  pose proof (yields_trans _ _ _ _ _ _ _ Y0 Y3) as Y.
  refine (yields_as _ _ _ _ _ _ eq_refl _ Y).
  destruct Y0 as (_ & -> & _). rewrite T0, modify_at_compose.
  apply modify_at_ext. intros x _. reflexivity.
Qed.

(** The slot of a container once [readValue] has set its limit. *)
Lemma yields_close (r r3 r' : OurReader) (s e : Z) (p : PayloadF H (Value H)) :
  yields r r3 e
         (modify_at (top r)
            (fun x => setOffsetStart s (swapPayload p x)) (root_ r)) ->
  yields r3 r' (current_ r3)
         (modify_at (top r3) (setOffsetLimit (current_ r3)) (root_ r3)) ->
  yields r r' e (modify_at (top r) (put (leaf p s e)) (root_ r)).
Proof.
  intros Y3 Y'. pose proof (yields_top _ _ _ _ Y3) as T3.
  pose proof (yields_trans _ _ _ _ _ _ _ Y3 Y') as Y.
  destruct Y3 as (Y3c & Y3r & _).
  refine (yields_as _ _ _ _ _ _ Y3c _ Y).
  rewrite Y3r, T3, Y3c, modify_at_compose.
  apply modify_at_ext. intros x _. reflexivity.
Qed.

Lemma put_tree_null (pos : Z) (v : json) :
  put (tree pos v) (@Value_null H) = tree pos v.
Proof. destruct v; reflexivity. Qed.

(** The slot of a member, whether the object has its name or not. *)
Lemma member_slot_tree (p : Path) (root slot : Value H)
      (m : list (list Z * Value H)) (k : list Z) (pos : Z) (v : json) :
  get_at p root = Some slot ->
  payload slot = objectValue m ->
  (exists old,
      get_at (p ++ [Member k]) (modify_at p (member_slot k) root) = Some old)
  /\ modify_at (p ++ [Member k]) (put (tree pos v))
               (modify_at p (member_slot k) root)
     = modify_at p (swapPayload (objectValue (upsert k (tree pos v) m))) root.
Proof.
  intros Hg Hp. unfold upsert.
  destruct (members_find H k m) as [old|] eqn:Hk.
  - destruct (member_slot_present H p root slot old m k (put (tree pos v))
                                  Hg Hp Hk) as [Hget Hmod].
    split; [exists old; exact Hget|exact Hmod].
  - destruct (member_slot_fresh H p root slot m k (put (tree pos v)) Hg Hp
                                (members_find_none_names H k m Hk))
      as (_ & Hget & Hmod).
    split; [exists Value_null; exact Hget|].
    rewrite Hmod, put_tree_null. reflexivity.
Qed.

Ltac tree_prelude :=
  intros Hok Hnd fuel r ws rest slot Hws Hfol P Hfuel Hsize Hroom Hcb Hslot;
  pose proof (positioned_bounds H doc r _ P) as [Hcur Hend];
  assert (Hg : Z.of_nat (List.length (nodes_ r)) <= limit
               /\ Z.of_nat (List.length (nodes_ r)) < 2 ^ 31)
    by (split;
        [eapply room_depth; [|exact Hroom]; apply depth_pos|lia]).

Lemma readValue_tree_mutual :
  (forall v : json,
      json_ok v = true ->
      rejectDupKeys_ features_ = false \/ names_distinct v ->
      forall (fuel : nat) (r : OurReader) (ws rest : list Z) (slot : Value H),
        is_ws ws = true -> follower rest ->
        positioned r (ws ++ print v ++ rest) ->
        (List.length (ws ++ print v ++ rest) < fuel)%nat ->
        Z.of_nat (List.length (nodes_ r))
        + Z.of_nat (List.length (ws ++ print v ++ rest)) < 2 ^ 31 ->
        room limit r (depth v) = true ->
        commentsBefore_ r = [] ->
        get_at (top r) (root_ r) = Some slot ->
        exists r',
          readValue features_ doc fuel r = Ok (true, r')
          /\ yields r r'
                    (current_ r + Z.of_nat (List.length ws)
                     + Z.of_nat (List.length (print v)))
                    (modify_at (top r)
                       (put (tree (current_ r + Z.of_nat (List.length ws)) v))
                       (root_ r)))
  /\ (forall es : elements,
         elements_ok es = true ->
         rejectDupKeys_ features_ = false \/ names_distinct_elements es ->
         forall (fuel_rec fuel : nat) (r : OurReader) (wsA rest : list Z)
                (slot : Value H) (l : list (Value H)),
           is_ws wsA = true ->
           positioned r (wsA ++ elements_body es ++ c_RBRACKET :: rest) ->
           (List.length (wsA ++ elements_body es ++ c_RBRACKET :: rest)
            < fuel_rec)%nat ->
           (List.length (wsA ++ elements_body es ++ c_RBRACKET :: rest)
            < fuel)%nat ->
           Z.of_nat (List.length (nodes_ r)) + 1
           + Z.of_nat (List.length
                         (wsA ++ elements_body es ++ c_RBRACKET :: rest))
           < 2 ^ 31 ->
           room limit r (S (depth_elements es)) = true ->
           commentsBefore_ r = [] ->
           get_at (top r) (root_ r) = Some slot ->
           payload slot = arrayValue l ->
           exists r',
             readArray_loop features_ doc (readValue features_ doc fuel_rec)
                            fuel (List.length l) r = Ok (true, r')
             /\ yields r r'
                       (current_ r + Z.of_nat (List.length wsA)
                        + Z.of_nat (List.length (elements_body es)) + 1)
                       (modify_at (top r)
                          (swapPayload
                             (arrayValue
                                (l ++ trees_elements
                                        (current_ r
                                         + Z.of_nat (List.length wsA)) es)))
                          (root_ r)))
  /\ (forall ms : members,
         members_ok ms = true ->
         forall (fuel_rec fuel : nat) (name : list Z) (r : OurReader)
                (rest : list Z) (slot : Value H)
                (m : list (list Z * Value H)),
           rejectDupKeys_ features_ = false
           \/ (names_distinct_members ms /\ NoDup (member_names ms)
               /\ forall k, In k (member_names ms) -> ~ In k (map fst m)) ->
           positioned r (print_members ms ++ c_RBRACE :: rest) ->
           (List.length (print_members ms ++ c_RBRACE :: rest)
            < fuel_rec)%nat ->
           (List.length (print_members ms ++ c_RBRACE :: rest) < fuel)%nat ->
           Z.of_nat (List.length (nodes_ r)) + 1
           + Z.of_nat (List.length (print_members ms ++ c_RBRACE :: rest))
           < 2 ^ 31 ->
           room limit r (S (depth_members ms)) = true ->
           commentsBefore_ r = [] ->
           get_at (top r) (root_ r) = Some slot ->
           payload slot = objectValue m ->
           exists r',
             readObject_loop features_ doc (readValue features_ doc fuel_rec)
                             fuel name r = Ok (true, r')
             /\ yields r r'
                       (current_ r
                        + Z.of_nat (List.length (print_members ms)) + 1)
                       (modify_at (top r)
                          (swapPayload
                             (objectValue (trees_members m (current_ r) ms)))
                          (root_ r))).
Proof.
  apply json_mutind.
  - (* null *)
    tree_prelude. cbn [print depth] in *.
    destruct fuel as [|[|f]]; [simpl in Hfuel; lia| |].
    { rewrite !length_app in Hfuel. simpl in Hfuel. lia. }
    pose proof (readToken_ws H features_ doc r ws _ Hws
                  (eq_refl : solid (bytes "null" ++ rest)) P) as E.
    rewrite (readToken_null H features_ doc _ rest
               (positioned_app H doc r ws _ P)) in E.
    pose proof (skipCommentTokens_token H features_ doc f _ _ _ _ E
                  ltac:(discriminate)) as Etok.
    destruct (readValue_exact_plain _ _ _ _ nullValue Hg Etok Hcb)
      as (r' & E' & Y'); [cbn; tauto|].
    exists r'. split; [exact E'|].
    rewrite install_root in Y'.
    refine (yields_from r _ r' _ _ eq_refl eq_refl eq_refl eq_refl eq_refl Y').
  - (* true *)
    tree_prelude. cbn [print depth] in *.
    destruct fuel as [|[|f]]; [simpl in Hfuel; lia| |].
    { rewrite !length_app in Hfuel. simpl in Hfuel. lia. }
    pose proof (readToken_ws H features_ doc r ws _ Hws
                  (eq_refl : solid (bytes "true" ++ rest)) P) as E.
    rewrite (readToken_true H features_ doc _ rest
               (positioned_app H doc r ws _ P)) in E.
    pose proof (skipCommentTokens_token H features_ doc f _ _ _ _ E
                  ltac:(discriminate)) as Etok.
    destruct (readValue_exact_plain _ _ _ _ (booleanValue true) Hg Etok Hcb)
      as (r' & E' & Y'); [cbn; tauto|].
    exists r'. split; [exact E'|].
    rewrite install_root in Y'.
    refine (yields_from r _ r' _ _ eq_refl eq_refl eq_refl eq_refl eq_refl Y').
  - (* false *)
    tree_prelude. cbn [print depth] in *.
    destruct fuel as [|[|f]]; [simpl in Hfuel; lia| |].
    { rewrite !length_app in Hfuel. simpl in Hfuel. lia. }
    pose proof (readToken_ws H features_ doc r ws _ Hws
                  (eq_refl : solid (bytes "false" ++ rest)) P) as E.
    rewrite (readToken_false H features_ doc _ rest
               (positioned_app H doc r ws _ P)) in E.
    pose proof (skipCommentTokens_token H features_ doc f _ _ _ _ E
                  ltac:(discriminate)) as Etok.
    destruct (readValue_exact_plain _ _ _ _ (booleanValue false) Hg Etok Hcb)
      as (r' & E' & Y'); [cbn; tauto|].
    exists r'. split; [exact E'|].
    rewrite install_root in Y'.
    refine (yields_from r _ r' _ _ eq_refl eq_refl eq_refl eq_refl eq_refl Y').
  - (* a number *)
    intros n. tree_prelude.
    pose proof (print_nonempty (JNumber n) Hok) as Hne.
    cbn [print depth json_ok] in *.
    destruct fuel as [|[|f]]; [simpl in Hfuel; lia| |].
    { rewrite !length_app in Hfuel. simpl in Hfuel. lia. }
    pose proof (readToken_ws H features_ doc r ws _ Hws
                  (solid_print (JNumber n) rest Hok) P) as E.
    cbn [print] in E.
    pose proof (positioned_app H doc r ws _ P) as P1.
    rewrite (readToken_Number H features_ doc _ n rest Hok Hfol P1) in E.
    pose proof (skipCommentTokens_token H features_ doc f _ _ _ _ E
                  ltac:(discriminate)) as Etok.
    cbn [set_current current_] in Etok.
    destruct (decodeNumber_to_tree
                (set_current
                   (set_current r (current_ r + Z.of_nat (List.length ws)))
                   (current_ r + Z.of_nat (List.length ws)
                    + Z.of_nat (List.length (print_number n))))
                n rest (current_ r + Z.of_nat (List.length ws)) tokenNumber
                Hok ltac:(lia) (proj2 P1))
      as (w & Ed & Ep).
    destruct (readValue_exact_number _ _ _ _ w Hg Etok Hcb eq_refl Ed)
      as (r' & E' & Y').
    exists r'. split; [exact E'|].
    rewrite install_root, Ep in Y'.
    refine (yields_from r _ r' _ _ eq_refl eq_refl eq_refl eq_refl eq_refl Y').
  - (* a string *)
    intros s. tree_prelude. cbn [print depth json_ok] in *.
    destruct fuel as [|[|f]]; [simpl in Hfuel; lia| |].
    { rewrite !length_app in Hfuel. simpl in Hfuel. lia. }
    pose proof (readToken_ws H features_ doc r ws _ Hws
                  (eq_refl : solid (print_string s ++ rest)) P) as E.
    pose proof (positioned_app H doc r ws _ P) as P1.
    rewrite (readToken_String H features_ doc _ s rest Hok P1) in E.
    pose proof (skipCommentTokens_token H features_ doc f _ _ _ _ E
                  ltac:(discriminate)) as Etok.
    cbn [set_current current_] in Etok.
    pose proof (decodeString_to_chars H doc
                  (set_current
                     (set_current r (current_ r + Z.of_nat (List.length ws)))
                     (current_ r + Z.of_nat (List.length ws)
                      + Z.of_nat (List.length (print_string s))))
                  s rest (current_ r + Z.of_nat (List.length ws)) tokenString
                  Hok ltac:(lia) (proj2 P1)) as Ed.
    destruct (readValue_exact_string _ _ _ _ _ Hg Etok Hcb eq_refl Ed)
      as (r' & E' & Y').
    exists r'. split; [exact E'|].
    rewrite install_root in Y'.
    refine (yields_from r _ r' _ _ eq_refl eq_refl eq_refl eq_refl eq_refl Y').
  - (* an empty array *)
    intros ws0. tree_prelude. cbn [print depth json_ok] in *.
    destruct fuel as [|[|f]]; [simpl in Hfuel; lia| |].
    { rewrite !length_app in Hfuel. simpl in Hfuel. lia. }
    assert (Et : (c_LBRACKET :: ws0 ++ [c_RBRACKET]) ++ rest
                 = c_LBRACKET :: ws0 ++ c_RBRACKET :: rest)
      by (cbn [app]; rewrite <- app_assoc; reflexivity).
    rewrite Et in P.
    pose proof (readToken_punct_exact r ws _ c_LBRACKET tokenArrayBegin Hws P
                  (or_introl (conj eq_refl eq_refl))) as E.
    pose proof (skipCommentTokens_token H features_ doc f _ _ _ _ E
                  ltac:(discriminate)) as Etok.
    set (tok := {| type_ := tokenArrayBegin;
                   offsetStart_ := current_ r + Z.of_nat (List.length ws);
                   offsetEnd_ := current_ r + Z.of_nat (List.length ws) + 1 |})
      in *.
    set (r1 := set_current r (current_ r + Z.of_nat (List.length ws) + 1))
      in *.
    assert (P1 : positioned r1 (ws0 ++ c_RBRACKET :: rest)).
    { apply (positioned_shift H doc r r1 (ws ++ [c_LBRACKET])).
      - rewrite <- app_assoc. exact P.
      - subst r1. cbn [set_current current_]. rewrite length_app.
        cbn [List.length]. lia. }
    destruct (readArray_exact_empty (S f) (readValue features_ doc (S f)) tok
                                    r1 ws0 rest Hok P1)
      as (r3 & E3 & Y3).
    destruct (readValue_exact_array (S f) r r1 r3 tok Hg Etok Hcb eq_refl E3)
      as (r' & E' & Y').
    exists r'. split; [exact E'|].
    pose proof (yields_close _ _ _ _ _ _ Y3 Y') as Y.
    apply (yields_from r r1 r' _ _ eq_refl eq_refl eq_refl eq_refl eq_refl).
    refine (yields_as _ _ _ _ _ _ _ _ Y).
    + subst r1. cbn [set_current current_ List.length]. lens. lia.
    + change (top r1) with (top r). change (root_ r1) with (root_ r).
      f_equal. f_equal. cbn [tree offsetStart_ tok]. f_equal.
      subst r1. cbn [set_current current_ print]. lens. lia.
  - (* an array *)
    intros es IH. tree_prelude. cbn [print depth json_ok names_distinct] in *.
    destruct fuel as [|[|f]]; [simpl in Hfuel; lia| |].
    { rewrite !length_app in Hfuel. simpl in Hfuel. lia. }
    assert (Et : (c_LBRACKET :: print_elements es ++ [c_RBRACKET]) ++ rest
                 = c_LBRACKET :: print_elements es ++ c_RBRACKET :: rest)
      by (cbn [app]; rewrite <- app_assoc; reflexivity).
    rewrite Et in P, Hfuel, Hsize.
    pose proof (readToken_punct_exact r ws _ c_LBRACKET tokenArrayBegin Hws P
                  (or_introl (conj eq_refl eq_refl))) as E.
    pose proof (skipCommentTokens_token H features_ doc f _ _ _ _ E
                  ltac:(discriminate)) as Etok.
    set (tok := {| type_ := tokenArrayBegin;
                   offsetStart_ := current_ r + Z.of_nat (List.length ws);
                   offsetEnd_ := current_ r + Z.of_nat (List.length ws) + 1 |})
      in *.
    set (r1 := set_current r (current_ r + Z.of_nat (List.length ws) + 1))
      in *.
    assert (P1 : positioned r1 (print_elements es ++ c_RBRACKET :: rest)).
    { apply (positioned_shift H doc r r1 (ws ++ [c_LBRACKET])).
      - rewrite <- app_assoc. exact P.
      - subst r1. cbn [set_current current_]. rewrite length_app.
        cbn [List.length]. lia. }
    destruct (readArray_exact_elements (S f) (readValue features_ doc (S f))
                                       tok r1 es rest Hok P1)
      as (r0 & Y0 & E0).
    pose proof Y0 as (Y0c & Y0r & Y0e & Y0n & Y0cb & Y0cc).
    assert (P0 : positioned r0 ([] ++ elements_body es ++ c_RBRACKET :: rest)).
    { apply (positioned_shift H doc r1 r0 (elements_head es)).
      - rewrite print_elements_split, <- app_assoc in P1. exact P1.
      - exact Y0c. }
    lens_in Hfuel; lens_in Hsize.
    rewrite print_elements_split in Hfuel, Hsize.
    lens_in Hfuel; lens_in Hsize.
    destruct (IH Hok Hnd (S f) (S f) r0 [] rest
                 (setOffsetStart (offsetStart_ tok)
                    (swapPayload (arrayValue []) slot)) [] eq_refl P0)
      as (r3 & E3 & Y3).
    { cbn [app]. lens. lia. }
    { cbn [app]. lens. lia. }
    { cbn [app]. lens. rewrite Y0n. cbn [r1 set_current nodes_]. lia. }
    { rewrite (room_same H features_ r r0 _ Y0n). exact Hroom. }
    { rewrite Y0cb. exact Hcb. }
    { apply (yields_slot r1 r0 _ _ slot Y0). exact Hslot. }
    { reflexivity. }
    cbn [List.length app] in E3, Y3. rewrite <- E0 in E3.
    destruct (readValue_exact_array (S f) r r1 r3 tok Hg Etok Hcb eq_refl E3)
      as (r' & E' & Y').
    exists r'. split; [exact E'|].
    pose proof (yields_close _ _ _ _ _ _ (yields_fill _ _ _ _ _ _ _ _ Y0 Y3) Y')
      as Y.
    apply (yields_from r r1 r' _ _ eq_refl eq_refl eq_refl eq_refl eq_refl).
    refine (yields_as _ _ _ _ _ _ _ _ Y).
    + rewrite Y0c. subst r1. cbn [set_current current_ List.length]. lens.
      rewrite print_elements_split. lens. lia.
    + change (top r1) with (top r). change (root_ r1) with (root_ r).
      f_equal. f_equal. cbn [tree offsetStart_ tok].
      rewrite Y0c. subst r1. cbn [set_current current_ print]. lens.
      rewrite print_elements_split. lens.
      f_equal; [|lia]. f_equal. f_equal. lia.
  - (* an empty object *)
    intros ws0. tree_prelude. cbn [print depth json_ok] in *.
    destruct fuel as [|[|f]]; [simpl in Hfuel; lia| |].
    { rewrite !length_app in Hfuel. simpl in Hfuel. lia. }
    assert (Et : (c_LBRACE :: ws0 ++ [c_RBRACE]) ++ rest
                 = c_LBRACE :: ws0 ++ c_RBRACE :: rest)
      by (cbn [app]; rewrite <- app_assoc; reflexivity).
    rewrite Et in P.
    pose proof (readToken_punct_exact r ws _ c_LBRACE tokenObjectBegin Hws P
                  (or_intror (conj eq_refl eq_refl))) as E.
    pose proof (skipCommentTokens_token H features_ doc f _ _ _ _ E
                  ltac:(discriminate)) as Etok.
    set (tok := {| type_ := tokenObjectBegin;
                   offsetStart_ := current_ r + Z.of_nat (List.length ws);
                   offsetEnd_ := current_ r + Z.of_nat (List.length ws) + 1 |})
      in *.
    set (r1 := set_current r (current_ r + Z.of_nat (List.length ws) + 1))
      in *.
    destruct (readObject_exact (S f) (readValue features_ doc (S f)) tok r1)
      as (r0 & Y0 & E0).
    pose proof Y0 as (Y0c & Y0r & Y0e & Y0n & Y0cb & Y0cc).
    assert (P0 : positioned r0 (ws0 ++ c_RBRACE :: rest)).
    { apply (positioned_shift H doc r r0 (ws ++ [c_LBRACE])).
      - rewrite <- app_assoc. exact P.
      - rewrite Y0c. subst r1. cbn [set_current current_].
        rewrite length_app. cbn [List.length]. lia. }
    destruct (readObject_loop_exact_empty f (readValue features_ doc (S f)) r0
                                          ws0 rest Hok P0)
      as (r3 & E3 & Y3).
    rewrite <- E0 in E3.
    destruct (readValue_exact_object (S f) r r1 r3 tok Hg Etok Hcb eq_refl E3)
      as (r' & E' & Y').
    exists r'. split; [exact E'|].
    pose proof (yields_trans _ _ _ _ _ _ _ Y0 Y3) as Y03.
    rewrite Y0r in Y03.
    pose proof (yields_close _ _ _ _ _ _ Y03 Y') as Y.
    apply (yields_from r r1 r' _ _ eq_refl eq_refl eq_refl eq_refl eq_refl).
    refine (yields_as _ _ _ _ _ _ _ _ Y).
    + rewrite Y0c. subst r1. cbn [set_current current_ List.length]. lens.
      lia.
    + change (top r1) with (top r). change (root_ r1) with (root_ r).
      f_equal. f_equal. cbn [tree offsetStart_ tok]. f_equal.
      rewrite Y0c. subst r1. cbn [set_current current_ print]. lens. lia.
  - (* an object *)
    intros ms IH. tree_prelude. cbn [print depth json_ok names_distinct] in *.
    destruct fuel as [|[|f]]; [simpl in Hfuel; lia| |].
    { rewrite !length_app in Hfuel. simpl in Hfuel. lia. }
    assert (Et : (c_LBRACE :: print_members ms ++ [c_RBRACE]) ++ rest
                 = c_LBRACE :: print_members ms ++ c_RBRACE :: rest)
      by (cbn [app]; rewrite <- app_assoc; reflexivity).
    rewrite Et in P, Hfuel, Hsize.
    pose proof (readToken_punct_exact r ws _ c_LBRACE tokenObjectBegin Hws P
                  (or_intror (conj eq_refl eq_refl))) as E.
    pose proof (skipCommentTokens_token H features_ doc f _ _ _ _ E
                  ltac:(discriminate)) as Etok.
    set (tok := {| type_ := tokenObjectBegin;
                   offsetStart_ := current_ r + Z.of_nat (List.length ws);
                   offsetEnd_ := current_ r + Z.of_nat (List.length ws) + 1 |})
      in *.
    set (r1 := set_current r (current_ r + Z.of_nat (List.length ws) + 1))
      in *.
    destruct (readObject_exact (S f) (readValue features_ doc (S f)) tok r1)
      as (r0 & Y0 & E0).
    pose proof Y0 as (Y0c & Y0r & Y0e & Y0n & Y0cb & Y0cc).
    assert (P0 : positioned r0 (print_members ms ++ c_RBRACE :: rest)).
    { apply (positioned_shift H doc r r0 (ws ++ [c_LBRACE])).
      - rewrite <- app_assoc. exact P.
      - rewrite Y0c. subst r1. cbn [set_current current_].
        rewrite length_app. cbn [List.length]. lia. }
    lens_in Hfuel; lens_in Hsize.
    destruct (IH Hok (S f) (S f) [] r0 rest
                 (setOffsetStart (offsetStart_ tok)
                    (swapPayload (objectValue []) slot)) [])
      as (r3 & E3 & Y3).
    { destruct Hnd as [Hrej|[Hdup Hnd]]; [left; exact Hrej|right].
      split; [exact Hnd|]. split; [exact Hdup|]. intros k _ []. }
    { exact P0. }
    { lens. lia. }
    { lens. lia. }
    { lens. rewrite Y0n. cbn [r1 set_current nodes_]. lia. }
    { rewrite (room_same H features_ r r0 _ Y0n). exact Hroom. }
    { rewrite Y0cb. exact Hcb. }
    { apply (yields_slot r1 r0 _ _ slot Y0). exact Hslot. }
    { reflexivity. }
    rewrite <- E0 in E3.
    destruct (readValue_exact_object (S f) r r1 r3 tok Hg Etok Hcb eq_refl E3)
      as (r' & E' & Y').
    exists r'. split; [exact E'|].
    pose proof (yields_close _ _ _ _ _ _ (yields_fill _ _ _ _ _ _ _ _ Y0 Y3) Y')
      as Y.
    apply (yields_from r r1 r' _ _ eq_refl eq_refl eq_refl eq_refl eq_refl).
    refine (yields_as _ _ _ _ _ _ _ _ Y).
    + rewrite Y0c. subst r1. cbn [set_current current_ List.length]. lens.
      lia.
    + change (top r1) with (top r). change (root_ r1) with (root_ r).
      f_equal. f_equal. cbn [tree offsetStart_ tok].
      rewrite Y0c. subst r1. cbn [set_current current_ print]. lens.
      f_equal. lia.
  - (* the last element *)
    intros ws1 v IHv ws2 Hok Hnd fuel_rec fuel r wsA rest slot l HwsA P Hfr
           Hfuel Hsize Hroom Hcb Hslot Hpay.
    cbn [elements_ok elements_body depth_elements names_distinct_elements
         tree trees_elements trees_members] in *.
    apply andb_prop in Hok as [Hok Hws2]. apply andb_prop in Hok as [Hws1 Hv].
    rewrite <- app_assoc in P, Hfr, Hfuel, Hsize.
    destruct fuel as [|f]; [simpl in Hfuel; lia|].
    destruct (element_slot_fresh H (top r) (root_ r) slot l
                (put (tree (current_ r + Z.of_nat (List.length wsA)) v))
                Hslot Hpay) as [Hfresh Hmod].
    set (r1 := push (top r ++ [Index (List.length l)])
                    (onCurrentValue (element_slot (List.length l)) r)).
    destruct (IHv Hv Hnd fuel_rec r1 wsA (ws2 ++ c_RBRACKET :: rest)
                  Value_null HwsA)
      as (r2 & E2 & Y2).
    { apply follower_ws_then; [exact Hws2|tauto]. }
    { refine (positioned_frame H doc r r1 _ _ P). reflexivity. }
    { exact Hfr. }
    { unfold r1. cbn [push set_nodes set_root onCurrentValue nodes_ List.length]. lia. }
    { rewrite (room_push H features_ doc r r1 _ _ eq_refl). exact Hroom. }
    { exact Hcb. }
    { exact Hfresh. }
    destruct (readArray_loop_round fuel_rec f (List.length l) r r2 v wsA ws2
                c_RBRACKET rest _ Hws2 (or_intror eq_refl) P E2 Y2)
      as (r3 & Y3 & E3).
    exists r3. split; [exact E3|].
    refine (yields_as _ _ _ _ _ _ _ _ Y3).
    + lens. lia.
    + etransitivity; [exact Hmod|]. rewrite put_tree_null. reflexivity.
  - (* an element and more *)
    intros ws1 v IHv ws2 es IHes Hok Hnd fuel_rec fuel r wsA rest slot l HwsA
           P Hfr Hfuel Hsize Hroom Hcb Hslot Hpay.
    cbn [elements_ok elements_body depth_elements names_distinct_elements
         tree trees_elements trees_members] in *.
    assert (Hndv : rejectDupKeys_ features_ = false \/ names_distinct v)
      by tauto.
    assert (Hndes : rejectDupKeys_ features_ = false
                    \/ names_distinct_elements es) by tauto.
    apply andb_prop in Hok as [Hok Hes]. apply andb_prop in Hok as [Hok Hws2].
    apply andb_prop in Hok as [Hws1 Hv].
    assert (Et : (print v ++ ws2 ++ c_COMMA :: print_elements es)
                   ++ c_RBRACKET :: rest
                 = print v ++ ws2 ++ c_COMMA
                     :: elements_head es ++ elements_body es
                     ++ c_RBRACKET :: rest).
    { rewrite print_elements_split, <- !app_assoc. cbn [app].
      rewrite <- !app_assoc. reflexivity. }
    rewrite Et in P, Hfr, Hfuel, Hsize.
    destruct fuel as [|f]; [simpl in Hfuel; lia|].
    rewrite (room_max H features_ doc) in Hroom.
    apply andb_prop in Hroom as [Hr1 Hr2].
    destruct (element_slot_fresh H (top r) (root_ r) slot l
                (put (tree (current_ r + Z.of_nat (List.length wsA)) v))
                Hslot Hpay) as [Hfresh Hmod].
    set (r1 := push (top r ++ [Index (List.length l)])
                    (onCurrentValue (element_slot (List.length l)) r)).
    destruct (IHv Hv Hndv fuel_rec r1 wsA
                  (ws2 ++ c_COMMA :: elements_head es ++ elements_body es
                       ++ c_RBRACKET :: rest)
                  Value_null HwsA)
      as (r2 & E2 & Y2).
    { apply follower_ws_then; [exact Hws2|tauto]. }
    { refine (positioned_frame H doc r r1 _ _ P). reflexivity. }
    { exact Hfr. }
    { unfold r1. cbn [push set_nodes set_root onCurrentValue nodes_ List.length]. lia. }
    { rewrite (room_push H features_ doc r r1 _ _ eq_refl). exact Hr1. }
    { exact Hcb. }
    { exact Hfresh. }
    destruct (readArray_loop_round fuel_rec f (List.length l) r r2 v wsA ws2
                c_COMMA _ _ Hws2 (or_introl eq_refl) P E2 Y2)
      as (r3 & Y3 & E3).
    change (c_COMMA =? c_RBRACKET) with false in E3. cbv iota in E3.
    set (t := tree (current_ r + Z.of_nat (List.length wsA)) v) in *.
    assert (Y3' : yields r r3
                    (current_ r + Z.of_nat (List.length wsA)
                     + Z.of_nat (List.length (print v))
                     + Z.of_nat (List.length ws2) + 1)
                    (modify_at (top r) (swapPayload (arrayValue (l ++ [t])))
                               (root_ r))).
    { refine (yields_as _ _ _ _ _ _ eq_refl _ Y3).
      etransitivity; [exact Hmod|]. subst t. rewrite put_tree_null.
      reflexivity. }
    pose proof Y3' as (Y3c & Y3r & Y3e & Y3n & Y3cb & Y3cc).
    assert (P3 : positioned r3 (elements_head es ++ elements_body es
                                  ++ c_RBRACKET :: rest)).
    { apply (positioned_shift H doc r r3
               (wsA ++ print v ++ ws2 ++ [c_COMMA])).
      - rewrite <- !app_assoc. exact P.
      - rewrite Y3c, !length_app. cbn [List.length]. lia. }
    lens_in Hfr; lens_in Hfuel; lens_in Hsize.
    destruct (IHes Hes Hndes fuel_rec f r3 (elements_head es) rest
                   (swapPayload (arrayValue (l ++ [t])) slot) (l ++ [t])
                   (elements_head_ws es Hes) P3)
      as (r' & E' & Y').
    { lens. lia. }
    { lens. lia. }
    { lens. rewrite Y3n. lia. }
    { rewrite (room_same H features_ r r3 _ Y3n). exact Hr2. }
    { rewrite Y3cb. exact Hcb. }
    { apply (yields_slot r r3 _ _ slot Y3'). exact Hslot. }
    { reflexivity. }
    rewrite length_app, Nat.add_1_r in E'.
    exists r'. split; [rewrite E3; exact E'|].
    pose proof (yields_top _ _ _ _ Y3') as T3.
    pose proof (yields_trans _ _ _ _ _ _ _ Y3' Y') as Y.
    refine (yields_as _ _ _ _ _ _ _ _ Y).
    + rewrite Y3c. lens. rewrite print_elements_split. lens. lia.
    + rewrite T3, Y3r, Y3c, modify_at_compose.
      apply modify_at_ext. intros x _. unfold swapPayload. cbn.
      rewrite <- app_assoc. reflexivity.
  - (* the last member *)
    intros ws1 k ws2 ws3 v IHv ws4 Hok fuel_rec fuel name r rest slot m Hdup
           P Hfr Hfuel Hsize Hroom Hcb Hslot Hpay.
    cbn [members_ok print_members depth_members names_distinct_members
         member_names tree trees_elements trees_members] in *.
    apply andb_prop in Hok as [Hok Hws4]. apply andb_prop in Hok as [Hok Hv].
    apply andb_prop in Hok as [Hok Hws3]. apply andb_prop in Hok as [Hok Hws2].
    apply andb_prop in Hok as [Hws1 Hk].
    assert (Et : (ws1 ++ print_string k ++ ws2 ++ c_COLON
                      :: ws3 ++ print v ++ ws4) ++ c_RBRACE :: rest
                 = ws1 ++ print_string k ++ ws2 ++ c_COLON
                     :: ws3 ++ print v ++ ws4 ++ c_RBRACE :: rest).
    { rewrite <- !app_assoc. cbn [app]. rewrite <- !app_assoc. reflexivity. }
    rewrite Et in P, Hfr, Hfuel, Hsize.
    lens_in Hfr; lens_in Hfuel; lens_in Hsize.
    destruct fuel as [|f]; [lia|].
    assert (Hndv : rejectDupKeys_ features_ = false \/ names_distinct v)
      by tauto.
    destruct (member_slot_tree (top r) (root_ r) slot m (decode_chars k)
                (current_ r + Z.of_nat (List.length ws1)
                 + Z.of_nat (List.length (print_string k))
                 + Z.of_nat (List.length ws2) + 1
                 + Z.of_nat (List.length ws3)) v Hslot Hpay)
      as ((old & Hfresh) & Hmod).
    assert (Hmem' : rejectDupKeys_ features_ = false
                    \/ currentValue_isMember (decode_chars k) r = false).
    { destruct Hdup as [Hrej|(_ & _ & Hnew)]; [left; exact Hrej|right].
      unfold currentValue_isMember. rewrite Hslot.
      unfold isMember. rewrite Hpay.
      rewrite (members_find_names H _ m (Hnew _ (or_introl eq_refl))).
      reflexivity. }
    set (r1 := push (top r ++ [Member (decode_chars k)])
                    (onCurrentValue
                       (member_slot (decode_chars k))
                       (set_current r
                          (current_ r + Z.of_nat (List.length ws1)
                           + Z.of_nat (List.length (print_string k))
                           + Z.of_nat (List.length ws2) + 1)))).
    destruct (IHv Hv Hndv fuel_rec r1 ws3 (ws4 ++ c_RBRACE :: rest)
                  old Hws3)
      as (r2 & E2 & Y2).
    { apply follower_ws_then; [exact Hws4|tauto]. }
    { apply (positioned_shift H doc r r1
               (ws1 ++ print_string k ++ ws2 ++ [c_COLON])).
      - rewrite <- !app_assoc. exact P.
      - unfold r1. cbn [push set_nodes set_root onCurrentValue set_current
                             current_]. lens. lia. }
    { lens. lia. }
    { unfold r1. cbn [push set_nodes set_root onCurrentValue set_current
                           nodes_ List.length]. lens. lia. }
    { rewrite (room_push H features_ doc r r1 _ _ eq_refl). exact Hroom. }
    { exact Hcb. }
    { exact Hfresh. }
    destruct (readObject_loop_round fuel_rec f name r r2 k v ws1 ws2 ws3 ws4
                c_RBRACE rest _ Hws1 Hk Hws2 Hws4 (or_intror eq_refl) P Hmem'
                E2 Y2)
      as (r3 & Y3 & E3).
    exists r3. split; [exact E3|].
    refine (yields_as _ _ _ _ _ _ _ _ Y3).
    + lens. lia.
    + exact Hmod.
  - (* a member and more *)
    intros ws1 k ws2 ws3 v IHv ws4 ms IHms Hok fuel_rec fuel name r rest slot
           m Hdup P Hfr Hfuel Hsize Hroom Hcb Hslot Hpay.
    cbn [members_ok print_members depth_members names_distinct_members
         member_names tree trees_elements trees_members] in *.
    apply andb_prop in Hok as [Hok Hms].
    apply andb_prop in Hok as [Hok Hws4]. apply andb_prop in Hok as [Hok Hv].
    apply andb_prop in Hok as [Hok Hws3]. apply andb_prop in Hok as [Hok Hws2].
    apply andb_prop in Hok as [Hws1 Hk].
    assert (Et : (ws1 ++ print_string k ++ ws2 ++ c_COLON
                      :: ws3 ++ print v ++ ws4
                      ++ c_COMMA :: print_members ms) ++ c_RBRACE :: rest
                 = ws1 ++ print_string k ++ ws2 ++ c_COLON
                     :: ws3 ++ print v ++ ws4
                     ++ c_COMMA :: print_members ms ++ c_RBRACE :: rest).
    { rewrite <- !app_assoc. cbn [app]. rewrite <- !app_assoc. cbn [app].
      reflexivity. }
    rewrite Et in P, Hfr, Hfuel, Hsize.
    lens_in Hfr; lens_in Hfuel; lens_in Hsize.
    destruct fuel as [|f]; [lia|].
    rewrite (room_max H features_ doc) in Hroom.
    apply andb_prop in Hroom as [Hr1 Hr2].
    assert (Hndv : rejectDupKeys_ features_ = false \/ names_distinct v)
      by tauto.
    destruct (member_slot_tree (top r) (root_ r) slot m (decode_chars k)
                (current_ r + Z.of_nat (List.length ws1)
                 + Z.of_nat (List.length (print_string k))
                 + Z.of_nat (List.length ws2) + 1
                 + Z.of_nat (List.length ws3)) v Hslot Hpay)
      as ((old & Hfresh) & Hmod).
    assert (Hmem' : rejectDupKeys_ features_ = false
                    \/ currentValue_isMember (decode_chars k) r = false).
    { destruct Hdup as [Hrej|(_ & _ & Hnew)]; [left; exact Hrej|right].
      unfold currentValue_isMember. rewrite Hslot.
      unfold isMember. rewrite Hpay.
      rewrite (members_find_names H _ m (Hnew _ (or_introl eq_refl))).
      reflexivity. }
    set (r1 := push (top r ++ [Member (decode_chars k)])
                    (onCurrentValue
                       (member_slot (decode_chars k))
                       (set_current r
                          (current_ r + Z.of_nat (List.length ws1)
                           + Z.of_nat (List.length (print_string k))
                           + Z.of_nat (List.length ws2) + 1)))).
    destruct (IHv Hv Hndv fuel_rec r1 ws3
                  (ws4 ++ c_COMMA :: print_members ms ++ c_RBRACE :: rest)
                  old Hws3)
      as (r2 & E2 & Y2).
    { apply follower_ws_then; [exact Hws4|tauto]. }
    { apply (positioned_shift H doc r r1
               (ws1 ++ print_string k ++ ws2 ++ [c_COLON])).
      - rewrite <- !app_assoc. exact P.
      - unfold r1. cbn [push set_nodes set_root onCurrentValue set_current
                             current_]. lens. lia. }
    { lens. lia. }
    { unfold r1. cbn [push set_nodes set_root onCurrentValue set_current
                           nodes_ List.length]. lens. lia. }
    { rewrite (room_push H features_ doc r r1 _ _ eq_refl). exact Hr1. }
    { exact Hcb. }
    { exact Hfresh. }
    destruct (readObject_loop_round fuel_rec f name r r2 k v ws1 ws2 ws3 ws4
                c_COMMA (print_members ms ++ c_RBRACE :: rest) _
                Hws1 Hk Hws2 Hws4 (or_introl eq_refl) P Hmem' E2 Y2)
      as (r3 & Y3 & E3).
    change (c_COMMA =? c_RBRACE) with false in E3. cbv iota in E3.
    set (t := tree (current_ r + Z.of_nat (List.length ws1)
                    + Z.of_nat (List.length (print_string k))
                    + Z.of_nat (List.length ws2) + 1
                    + Z.of_nat (List.length ws3)) v) in *.
    assert (Y3' : yields r r3
                    (current_ r + Z.of_nat (List.length ws1)
                     + Z.of_nat (List.length (print_string k))
                     + Z.of_nat (List.length ws2) + 1
                     + Z.of_nat (List.length ws3)
                     + Z.of_nat (List.length (print v))
                     + Z.of_nat (List.length ws4) + 1)
                    (modify_at (top r)
                       (swapPayload
                          (objectValue (upsert (decode_chars k) t m)))
                       (root_ r))).
    { refine (yields_as _ _ _ _ _ _ eq_refl _ Y3). exact Hmod. }
    pose proof Y3' as (Y3c & Y3r & Y3e & Y3n & Y3cb & Y3cc).
    assert (P3 : positioned r3 (print_members ms ++ c_RBRACE :: rest)).
    { apply (positioned_shift H doc r r3
               (ws1 ++ print_string k ++ ws2 ++ c_COLON
                    :: ws3 ++ print v ++ ws4 ++ [c_COMMA])).
      - rewrite <- !app_assoc. cbn [app]. rewrite <- !app_assoc. exact P.
      - rewrite Y3c. lens. lia. }
    destruct (IHms Hms fuel_rec f (decode_chars k) r3 rest
                   (swapPayload (objectValue (upsert (decode_chars k) t m))
                                slot)
                   (upsert (decode_chars k) t m))
      as (r' & E' & Y').
    { destruct Hdup as [Hrej|((_ & Hndms) & Hnodup & Hnew)];
        [left; exact Hrej|right].
      apply NoDup_cons_iff in Hnodup as [Hkms Hnodup].
      split; [exact Hndms|]. split; [exact Hnodup|].
      intros k2 Hin. unfold upsert.
      rewrite (members_find_names H _ m (Hnew _ (or_introl eq_refl))).
      rewrite map_app, in_app_iff. cbn [map fst In].
      intros [Hm|[Heq|[]]].
      - apply (Hnew k2 (or_intror Hin)). exact Hm.
      - apply Hkms. rewrite Heq. exact Hin. }
    { exact P3. }
    { lens. lia. }
    { lens. lia. }
    { rewrite Y3n. lens. lia. }
    { rewrite (room_same H features_ r r3 _ Y3n). exact Hr2. }
    { rewrite Y3cb. exact Hcb. }
    { apply (yields_slot r r3 _ _ slot Y3'). exact Hslot. }
    { reflexivity. }
    exists r'. split; [rewrite E3; exact E'|].
    pose proof (yields_top _ _ _ _ Y3') as T3.
    pose proof (yields_trans _ _ _ _ _ _ _ Y3' Y') as Y.
    refine (yields_as _ _ _ _ _ _ _ _ Y).
    + rewrite Y3c. lens. lia.
    + rewrite T3, Y3r, Y3c, modify_at_compose.
      apply modify_at_ext. intros x _. reflexivity.
Qed.

(** *** Beyond the depth limit *)

Lemma readValue_fatal_array (fuel : nat) (r r1 : OurReader) (token : Token)
      (message : string) :
  Z.of_nat (List.length (nodes_ r)) <= limit
  /\ Z.of_nat (List.length (nodes_ r)) < 2 ^ 31 ->
  skipCommentTokens features_ doc fuel r = Ok (token, r1) ->
  commentsBefore_ r1 = [] ->
  type_ token = tokenArrayBegin ->
  readArray features_ doc (readValue features_ doc fuel) fuel token r1
  = Fatal message ->
  readValue features_ doc (S fuel) r = Fatal message.
Proof.
  intros Hg Etok Hcb Ety Ed. enter_exact Hg Etok Hcb Ety.
  rewrite Ed. reflexivity.
Qed.

Lemma readValue_fatal_object (fuel : nat) (r r1 : OurReader) (token : Token)
      (message : string) :
  Z.of_nat (List.length (nodes_ r)) <= limit
  /\ Z.of_nat (List.length (nodes_ r)) < 2 ^ 31 ->
  skipCommentTokens features_ doc fuel r = Ok (token, r1) ->
  commentsBefore_ r1 = [] ->
  type_ token = tokenObjectBegin ->
  readObject features_ doc (readValue features_ doc fuel) fuel token r1
  = Fatal message ->
  readValue features_ doc (S fuel) r = Fatal message.
Proof.
  intros Hg Etok Hcb Ety Ed. enter_exact Hg Etok Hcb Ety.
  rewrite Ed. reflexivity.
Qed.

(** A fatal error in an element ends the loop of the array. *)
Lemma readArray_loop_fatal (fuel_rec fuel idx : nat) (r : OurReader)
      (message : string) :
  readValue features_ doc fuel_rec
            (push (top r ++ [Index idx]) (onCurrentValue (element_slot idx) r))
  = Fatal message ->
  readArray_loop features_ doc (readValue features_ doc fuel_rec)
                 (S fuel) idx r
  = Fatal message.
Proof.
  intros E. cbn [readArray_loop].
  change (readValue features_ doc fuel_rec
            (push (top (onCurrentValue (element_slot idx) r) ++ [Index idx])
                  (onCurrentValue (element_slot idx) r)))
    with (readValue features_ doc fuel_rec
            (push (top r ++ [Index idx])
                  (onCurrentValue (element_slot idx) r))).
  rewrite E. reflexivity.
Qed.

(** A fatal error in the value of a member ends the loop of the object: the
    name and the colon have been read, and the name has passed the test for
    duplicates. *)
Lemma readObject_loop_fatal (fuel_rec fuel : nat) (name : list Z)
      (r : OurReader) (k : list jchar) (ws1 ws2 tail : list Z)
      (message : string) :
  is_ws ws1 = true -> forallb jchar_ok k = true -> is_ws ws2 = true ->
  positioned r (ws1 ++ print_string k ++ ws2 ++ c_COLON :: tail) ->
  rejectDupKeys_ features_ = false
  \/ currentValue_isMember (decode_chars k) r = false ->
  readValue features_ doc fuel_rec
            (push (top r ++ [Member (decode_chars k)])
                  (onCurrentValue
                     (member_slot (decode_chars k))
                     (set_current r
                        (current_ r + Z.of_nat (List.length ws1)
                         + Z.of_nat (List.length (print_string k))
                         + Z.of_nat (List.length ws2) + 1))))
  = Fatal message ->
  readObject_loop features_ doc (readValue features_ doc fuel_rec)
                  (S fuel) name r
  = Fatal message.
Proof.
  intros Hws1 Hk Hws2 P Hmem E.
  pose proof (positioned_bounds H doc r _ P) as [Hcur Hend].
  assert (Hlen : Z.of_nat (List.length (print_chars k)) < 2 ^ 30).
  { unfold print_string in Hend. unfold end_ in Hend.
    repeat first [rewrite length_app in Hend
                 |progress (cbn [List.length] in Hend)].
    lia. }
  (* the name *)
  assert (S1 : solid (print_string k ++ ws2 ++ c_COLON :: tail))
    by reflexivity.
  pose proof (readToken_ws H features_ doc r ws1 _ Hws1 S1 P) as E1.
  pose proof (positioned_app H doc r ws1 _ P) as P1.
  rewrite (readToken_String H features_ doc _ k _ Hk P1) in E1.
  cbn [set_current current_] in E1.
  set (s := current_ r + Z.of_nat (List.length ws1)) in *.
  set (tokS := {| type_ := tokenString; offsetStart_ := s;
                  offsetEnd_ := s + Z.of_nat (List.length (print_string k)) |})
    in *.
  set (rS := set_current (set_current r s)
                         (s + Z.of_nat (List.length (print_string k)))) in *.
  assert (D : decodeString_to doc tokS rS = Ok (true, decode_chars k, rS)).
  { apply (decodeString_to_chars H doc rS k (ws2 ++ c_COLON :: tail) s
             tokenString Hk); [subst s; lia|].
    destruct P1 as [_ P1]. exact P1. }
  (* the colon *)
  assert (P2 : positioned rS (ws2 ++ c_COLON :: tail)).
  { apply (positioned_shift H doc _ rS _ _ P1). reflexivity. }
  destruct (readToken_punct H features_ doc rS ws2 _ c_COLON
                            tokenMemberSeparator Hws2 P2)
    as (tokC & E2 & Ety2); [tauto|].
  set (rC := set_current rS (current_ rS + Z.of_nat (List.length ws2) + 1))
    in *.
  assert (Hshort : (Z.of_nat (List.length (decode_chars k)) >=? 2 ^ 30)
                   = false).
  { pose proof (decode_chars_length k).
    rewrite Z.geb_leb. apply Z.leb_gt. lia. }
  cbn [readObject_loop]. rewrite E1. cbn [negb].
  rewrite skipComments_while_token by discriminate.
  cbn [bind negb type_ tokS TokenType_eqb andb].
  rewrite D. cbn [bind]. rewrite E2. rewrite Ety2.
  cbn [negb TokenType_eqb orb]. rewrite Hshort.
  change (currentValue_isMember (decode_chars k) rC)
    with (currentValue_isMember (decode_chars k) r).
  replace (rejectDupKeys_ features_
           && currentValue_isMember (decode_chars k) r) with false
    by (destruct Hmem as [-> | ->]; [reflexivity|now rewrite andb_false_r]).
  change (readValue features_ doc fuel_rec
            (push (top (onCurrentValue (member_slot (decode_chars k)) rC)
                       ++ [Member (decode_chars k)])
                  (onCurrentValue (member_slot (decode_chars k)) rC)))
    with (readValue features_ doc fuel_rec
            (push (top r ++ [Member (decode_chars k)])
                  (onCurrentValue
                     (member_slot (decode_chars k))
                     (set_current r
                        (s + Z.of_nat (List.length (print_string k))
                         + Z.of_nat (List.length ws2) + 1))))).
  rewrite E. reflexivity.
Qed.

Ltac fatal_guard Hfuel Hroom Hsize :=
  match goal with
  | |- readValue _ _ ?fuel ?r = _ =>
      destruct fuel as [|?f]; [simpl in Hfuel; lia|];
      apply (readValue_guard H features_ doc);
      rewrite to_int_small; [|lia];
      unfold room in Hroom; cbn [depth] in Hroom;
      apply Z.leb_gt in Hroom; lia
  end.

Ltac fatal_prelude :=
  intros Hok Hnd fuel r ws rest slot Hws Hfol P Hfuel Hsize Hroom Hcb Hslot;
  pose proof (positioned_bounds H doc r _ P) as [Hcur Hend].

(** A value too deep for the room that the stack leaves: the guard of
    [readValue] trips, at once or in the value within that reaches the
    limit, and the fatal error passes through the loops around it. *)
Lemma readValue_fatal_mutual :
  (forall v : json,
      json_ok v = true ->
      rejectDupKeys_ features_ = false \/ names_distinct v ->
      forall (fuel : nat) (r : OurReader) (ws rest : list Z) (slot : Value H),
        is_ws ws = true -> follower rest ->
        positioned r (ws ++ print v ++ rest) ->
        (List.length (ws ++ print v ++ rest) < fuel)%nat ->
        Z.of_nat (List.length (nodes_ r))
        + Z.of_nat (List.length (ws ++ print v ++ rest)) < 2 ^ 31 ->
        room limit r (depth v) = false ->
        commentsBefore_ r = [] ->
        get_at (top r) (root_ r) = Some slot ->
        readValue features_ doc fuel r
        = Fatal "Exceeded stackLimit in readValue().")
  /\ (forall es : elements,
         elements_ok es = true ->
         rejectDupKeys_ features_ = false \/ names_distinct_elements es ->
         forall (fuel_rec fuel : nat) (r : OurReader) (wsA rest : list Z)
                (slot : Value H) (l : list (Value H)),
           is_ws wsA = true ->
           positioned r (wsA ++ elements_body es ++ c_RBRACKET :: rest) ->
           (List.length (wsA ++ elements_body es ++ c_RBRACKET :: rest)
            < fuel_rec)%nat ->
           (List.length (wsA ++ elements_body es ++ c_RBRACKET :: rest)
            < fuel)%nat ->
           Z.of_nat (List.length (nodes_ r)) + 1
           + Z.of_nat (List.length
                         (wsA ++ elements_body es ++ c_RBRACKET :: rest))
           < 2 ^ 31 ->
           room limit r (S (depth_elements es)) = false ->
           commentsBefore_ r = [] ->
           get_at (top r) (root_ r) = Some slot ->
           payload slot = arrayValue l ->
           readArray_loop features_ doc (readValue features_ doc fuel_rec)
                          fuel (List.length l) r
           = Fatal "Exceeded stackLimit in readValue().")
  /\ (forall ms : members,
         members_ok ms = true ->
         forall (fuel_rec fuel : nat) (name : list Z) (r : OurReader)
                (rest : list Z) (slot : Value H)
                (m : list (list Z * Value H)),
           rejectDupKeys_ features_ = false
           \/ (names_distinct_members ms /\ NoDup (member_names ms)
               /\ forall k, In k (member_names ms) -> ~ In k (map fst m)) ->
           positioned r (print_members ms ++ c_RBRACE :: rest) ->
           (List.length (print_members ms ++ c_RBRACE :: rest)
            < fuel_rec)%nat ->
           (List.length (print_members ms ++ c_RBRACE :: rest) < fuel)%nat ->
           Z.of_nat (List.length (nodes_ r)) + 1
           + Z.of_nat (List.length (print_members ms ++ c_RBRACE :: rest))
           < 2 ^ 31 ->
           room limit r (S (depth_members ms)) = false ->
           commentsBefore_ r = [] ->
           get_at (top r) (root_ r) = Some slot ->
           payload slot = objectValue m ->
           readObject_loop features_ doc (readValue features_ doc fuel_rec)
                           fuel name r
           = Fatal "Exceeded stackLimit in readValue().").
Proof.
  destruct readValue_tree_mutual as [Tvalue _].
  apply json_mutind.
  - (* null *) fatal_prelude. fatal_guard Hfuel Hroom Hsize.
  - (* true *) fatal_prelude. fatal_guard Hfuel Hroom Hsize.
  - (* false *) fatal_prelude. fatal_guard Hfuel Hroom Hsize.
  - (* a number *) intros n. fatal_prelude. fatal_guard Hfuel Hroom Hsize.
  - (* a string *) intros s. fatal_prelude. fatal_guard Hfuel Hroom Hsize.
  - (* an empty array *)
    intros ws0. fatal_prelude. fatal_guard Hfuel Hroom Hsize.
  - (* an array *)
    intros es IH. fatal_prelude. cbn [print depth json_ok names_distinct] in *.
    destruct (Z_le_gt_dec (Z.of_nat (List.length (nodes_ r))) limit)
      as [Hg0|Hg0].
    2:{ destruct fuel as [|f]; [simpl in Hfuel; lia|].
        apply (readValue_guard H features_ doc).
        rewrite to_int_small; lia. }
    assert (Hg : Z.of_nat (List.length (nodes_ r)) <= limit
                 /\ Z.of_nat (List.length (nodes_ r)) < 2 ^ 31)
      by (split; lia).
    destruct fuel as [|[|f]]; [simpl in Hfuel; lia| |].
    { rewrite !length_app in Hfuel. simpl in Hfuel. lia. }
    assert (Et : (c_LBRACKET :: print_elements es ++ [c_RBRACKET]) ++ rest
                 = c_LBRACKET :: print_elements es ++ c_RBRACKET :: rest)
      by (cbn [app]; rewrite <- app_assoc; reflexivity).
    rewrite Et in P, Hfuel, Hsize.
    pose proof (readToken_punct_exact r ws _ c_LBRACKET tokenArrayBegin Hws P
                  (or_introl (conj eq_refl eq_refl))) as E.
    pose proof (skipCommentTokens_token H features_ doc f _ _ _ _ E
                  ltac:(discriminate)) as Etok.
    set (tok := {| type_ := tokenArrayBegin;
                   offsetStart_ := current_ r + Z.of_nat (List.length ws);
                   offsetEnd_ := current_ r + Z.of_nat (List.length ws) + 1 |})
      in *.
    set (r1 := set_current r (current_ r + Z.of_nat (List.length ws) + 1))
      in *.
    assert (P1 : positioned r1 (print_elements es ++ c_RBRACKET :: rest)).
    { apply (positioned_shift H doc r r1 (ws ++ [c_LBRACKET])).
      - rewrite <- app_assoc. exact P.
      - subst r1. cbn [set_current current_]. rewrite length_app.
        cbn [List.length]. lia. }
    destruct (readArray_exact_elements (S f) (readValue features_ doc (S f))
                                       tok r1 es rest Hok P1)
      as (r0 & Y0 & E0).
    pose proof Y0 as (Y0c & Y0r & Y0e & Y0n & Y0cb & Y0cc).
    assert (P0 : positioned r0 ([] ++ elements_body es ++ c_RBRACKET :: rest)).
    { apply (positioned_shift H doc r1 r0 (elements_head es)).
      - rewrite print_elements_split, <- app_assoc in P1. exact P1.
      - exact Y0c. }
    lens_in Hfuel; lens_in Hsize.
    rewrite print_elements_split in Hfuel, Hsize.
    lens_in Hfuel; lens_in Hsize.
    pose proof (IH Hok Hnd (S f) (S f) r0 [] rest
                   (setOffsetStart (offsetStart_ tok)
                      (swapPayload (arrayValue []) slot)) [] eq_refl P0)
      as E3.
    cbn [List.length app] in E3. rewrite <- E0 in E3.
    apply (readValue_fatal_array (S f) r r1 tok _ Hg Etok Hcb eq_refl).
    apply E3.
    + lens. lia.
    + lens. lia.
    + lens. rewrite Y0n. cbn [r1 set_current nodes_]. lia.
    + rewrite (room_same H features_ r r0 _ Y0n). exact Hroom.
    + rewrite Y0cb. exact Hcb.
    + apply (yields_slot r1 r0 _ _ slot Y0). exact Hslot.
    + reflexivity.
  - (* an empty object *)
    intros ws0. fatal_prelude. fatal_guard Hfuel Hroom Hsize.
  - (* an object *)
    intros ms IH. fatal_prelude. cbn [print depth json_ok names_distinct] in *.
    destruct (Z_le_gt_dec (Z.of_nat (List.length (nodes_ r))) limit)
      as [Hg0|Hg0].
    2:{ destruct fuel as [|f]; [simpl in Hfuel; lia|].
        apply (readValue_guard H features_ doc).
        rewrite to_int_small; lia. }
    assert (Hg : Z.of_nat (List.length (nodes_ r)) <= limit
                 /\ Z.of_nat (List.length (nodes_ r)) < 2 ^ 31)
      by (split; lia).
    destruct fuel as [|[|f]]; [simpl in Hfuel; lia| |].
    { rewrite !length_app in Hfuel. simpl in Hfuel. lia. }
    assert (Et : (c_LBRACE :: print_members ms ++ [c_RBRACE]) ++ rest
                 = c_LBRACE :: print_members ms ++ c_RBRACE :: rest)
      by (cbn [app]; rewrite <- app_assoc; reflexivity).
    rewrite Et in P, Hfuel, Hsize.
    pose proof (readToken_punct_exact r ws _ c_LBRACE tokenObjectBegin Hws P
                  (or_intror (conj eq_refl eq_refl))) as E.
    pose proof (skipCommentTokens_token H features_ doc f _ _ _ _ E
                  ltac:(discriminate)) as Etok.
    set (tok := {| type_ := tokenObjectBegin;
                   offsetStart_ := current_ r + Z.of_nat (List.length ws);
                   offsetEnd_ := current_ r + Z.of_nat (List.length ws) + 1 |})
      in *.
    set (r1 := set_current r (current_ r + Z.of_nat (List.length ws) + 1))
      in *.
    destruct (readObject_exact (S f) (readValue features_ doc (S f)) tok r1)
      as (r0 & Y0 & E0).
    pose proof Y0 as (Y0c & Y0r & Y0e & Y0n & Y0cb & Y0cc).
    assert (P0 : positioned r0 (print_members ms ++ c_RBRACE :: rest)).
    { apply (positioned_shift H doc r r0 (ws ++ [c_LBRACE])).
      - rewrite <- app_assoc. exact P.
      - rewrite Y0c. subst r1. cbn [set_current current_].
        rewrite length_app. cbn [List.length]. lia. }
    lens_in Hfuel; lens_in Hsize.
    pose proof (IH Hok (S f) (S f) [] r0 rest
                   (setOffsetStart (offsetStart_ tok)
                      (swapPayload (objectValue []) slot)) [])
      as E3.
    rewrite <- E0 in E3.
    apply (readValue_fatal_object (S f) r r1 tok _ Hg Etok Hcb eq_refl).
    apply E3.
    + destruct Hnd as [Hrej|[Hdup Hnd]]; [left; exact Hrej|right].
      split; [exact Hnd|]. split; [exact Hdup|]. intros k _ [].
    + exact P0.
    + lens. lia.
    + lens. lia.
    + lens. rewrite Y0n. cbn [r1 set_current nodes_]. lia.
    + rewrite (room_same H features_ r r0 _ Y0n). exact Hroom.
    + rewrite Y0cb. exact Hcb.
    + apply (yields_slot r1 r0 _ _ slot Y0). exact Hslot.
    + reflexivity.
  - (* the last element *)
    intros ws1 v IHv ws2 Hok Hnd fuel_rec fuel r wsA rest slot l HwsA P Hfr
           Hfuel Hsize Hroom Hcb Hslot Hpay.
    cbn [elements_ok elements_body depth_elements names_distinct_elements]
      in *.
    apply andb_prop in Hok as [Hok Hws2]. apply andb_prop in Hok as [Hws1 Hv].
    rewrite <- app_assoc in P, Hfr, Hfuel, Hsize.
    destruct fuel as [|f]; [simpl in Hfuel; lia|].
    destruct (element_slot_fresh H (top r) (root_ r) slot l (fun x => x)
                Hslot Hpay) as [Hfresh _].
    set (r1 := push (top r ++ [Index (List.length l)])
                    (onCurrentValue (element_slot (List.length l)) r)).
    apply readArray_loop_fatal.
    apply (IHv Hv Hnd fuel_rec r1 wsA (ws2 ++ c_RBRACKET :: rest)
               Value_null HwsA).
    + apply follower_ws_then; [exact Hws2|tauto].
    + refine (positioned_frame H doc r r1 _ _ P). reflexivity.
    + exact Hfr.
    + unfold r1.
      cbn [push set_nodes set_root onCurrentValue nodes_ List.length]. lia.
    + rewrite (room_push H features_ doc r r1 _ _ eq_refl). exact Hroom.
    + exact Hcb.
    + exact Hfresh.
  - (* an element and more *)
    intros ws1 v IHv ws2 es IHes Hok Hnd fuel_rec fuel r wsA rest slot l HwsA
           P Hfr Hfuel Hsize Hroom Hcb Hslot Hpay.
    cbn [elements_ok elements_body depth_elements names_distinct_elements]
      in *.
    assert (Hndv : rejectDupKeys_ features_ = false \/ names_distinct v)
      by tauto.
    assert (Hndes : rejectDupKeys_ features_ = false
                    \/ names_distinct_elements es) by tauto.
    apply andb_prop in Hok as [Hok Hes]. apply andb_prop in Hok as [Hok Hws2].
    apply andb_prop in Hok as [Hws1 Hv].
    assert (Et : (print v ++ ws2 ++ c_COMMA :: print_elements es)
                   ++ c_RBRACKET :: rest
                 = print v ++ ws2 ++ c_COMMA
                     :: elements_head es ++ elements_body es
                     ++ c_RBRACKET :: rest).
    { rewrite print_elements_split, <- !app_assoc. cbn [app].
      rewrite <- !app_assoc. reflexivity. }
    rewrite Et in P, Hfr, Hfuel, Hsize.
    destruct fuel as [|f]; [simpl in Hfuel; lia|].
    rewrite (room_max H features_ doc) in Hroom.
    destruct (element_slot_fresh H (top r) (root_ r) slot l
                (put (tree (current_ r + Z.of_nat (List.length wsA)) v))
                Hslot Hpay) as [Hfresh Hmod].
    set (r1 := push (top r ++ [Index (List.length l)])
                    (onCurrentValue (element_slot (List.length l)) r)).
    assert (Hfol1 : follower (ws2 ++ c_COMMA :: elements_head es
                                  ++ elements_body es ++ c_RBRACKET :: rest))
      by (apply follower_ws_then; [exact Hws2|tauto]).
    assert (P1 : positioned r1
                   (wsA ++ print v ++ ws2 ++ c_COMMA
                        :: elements_head es ++ elements_body es
                        ++ c_RBRACKET :: rest))
      by (refine (positioned_frame H doc r r1 _ _ P); reflexivity).
    assert (Hsize1 : Z.of_nat (List.length (nodes_ r1))
                     + Z.of_nat (List.length
                                   (wsA ++ print v ++ ws2 ++ c_COMMA
                                        :: elements_head es
                                        ++ elements_body es
                                        ++ c_RBRACKET :: rest)) < 2 ^ 31).
    { unfold r1.
      cbn [push set_nodes set_root onCurrentValue nodes_ List.length]. lia. }
    destruct (room limit r (S (depth v))) eqn:Hr1.
    2:{ apply readArray_loop_fatal.
        apply (IHv Hv Hndv fuel_rec r1 wsA _ Value_null HwsA Hfol1 P1 Hfr
                   Hsize1); [|exact Hcb|exact Hfresh].
        rewrite (room_push H features_ doc r r1 _ _ eq_refl). exact Hr1. }
    cbn [andb] in Hroom. rename Hroom into Hr2.
    destruct (Tvalue v Hv Hndv fuel_rec r1 wsA _ Value_null HwsA Hfol1 P1 Hfr
                     Hsize1)
      as (r2 & E2 & Y2); [|exact Hcb|exact Hfresh|].
    { rewrite (room_push H features_ doc r r1 _ _ eq_refl). exact Hr1. }
    destruct (readArray_loop_round fuel_rec f (List.length l) r r2 v wsA ws2
                c_COMMA _ _ Hws2 (or_introl eq_refl) P E2 Y2)
      as (r3 & Y3 & E3).
    change (c_COMMA =? c_RBRACKET) with false in E3. cbv iota in E3.
    set (t := tree (current_ r + Z.of_nat (List.length wsA)) v) in *.
    assert (Y3' : yields r r3
                    (current_ r + Z.of_nat (List.length wsA)
                     + Z.of_nat (List.length (print v))
                     + Z.of_nat (List.length ws2) + 1)
                    (modify_at (top r) (swapPayload (arrayValue (l ++ [t])))
                               (root_ r))).
    { refine (yields_as _ _ _ _ _ _ eq_refl _ Y3).
      etransitivity; [exact Hmod|]. subst t. rewrite put_tree_null.
      reflexivity. }
    pose proof Y3' as (Y3c & Y3r & Y3e & Y3n & Y3cb & Y3cc).
    assert (P3 : positioned r3 (elements_head es ++ elements_body es
                                  ++ c_RBRACKET :: rest)).
    { apply (positioned_shift H doc r r3
               (wsA ++ print v ++ ws2 ++ [c_COMMA])).
      - rewrite <- !app_assoc. exact P.
      - rewrite Y3c, !length_app. cbn [List.length]. lia. }
    lens_in Hfr; lens_in Hfuel; lens_in Hsize.
    pose proof (IHes Hes Hndes fuel_rec f r3 (elements_head es) rest
                     (swapPayload (arrayValue (l ++ [t])) slot) (l ++ [t])
                     (elements_head_ws es Hes) P3)
      as E'.
    rewrite E3.
    replace (S (List.length l)) with (List.length (l ++ [t]))
      by (rewrite length_app; cbn [List.length]; lia).
    apply E'.
    + lens. lia.
    + lens. lia.
    + lens. rewrite Y3n. lia.
    + rewrite (room_same H features_ r r3 _ Y3n). exact Hr2.
    + rewrite Y3cb. exact Hcb.
    + apply (yields_slot r r3 _ _ slot Y3'). exact Hslot.
    + reflexivity.
  - (* the last member *)
    intros ws1 k ws2 ws3 v IHv ws4 Hok fuel_rec fuel name r rest slot m Hdup
           P Hfr Hfuel Hsize Hroom Hcb Hslot Hpay.
    cbn [members_ok print_members depth_members names_distinct_members
         member_names] in *.
    apply andb_prop in Hok as [Hok Hws4]. apply andb_prop in Hok as [Hok Hv].
    apply andb_prop in Hok as [Hok Hws3]. apply andb_prop in Hok as [Hok Hws2].
    apply andb_prop in Hok as [Hws1 Hk].
    assert (Et : (ws1 ++ print_string k ++ ws2 ++ c_COLON
                      :: ws3 ++ print v ++ ws4) ++ c_RBRACE :: rest
                 = ws1 ++ print_string k ++ ws2 ++ c_COLON
                     :: ws3 ++ print v ++ ws4 ++ c_RBRACE :: rest).
    { rewrite <- !app_assoc. cbn [app]. rewrite <- !app_assoc. reflexivity. }
    rewrite Et in P, Hfr, Hfuel, Hsize.
    lens_in Hfr; lens_in Hfuel; lens_in Hsize.
    destruct fuel as [|f]; [lia|].
    assert (Hndv : rejectDupKeys_ features_ = false \/ names_distinct v)
      by tauto.
    destruct (member_slot_tree (top r) (root_ r) slot m (decode_chars k)
                (current_ r + Z.of_nat (List.length ws1)
                 + Z.of_nat (List.length (print_string k))
                 + Z.of_nat (List.length ws2) + 1
                 + Z.of_nat (List.length ws3)) v Hslot Hpay)
      as ((old & Hfresh) & Hmod).
    assert (Hmem' : rejectDupKeys_ features_ = false
                    \/ currentValue_isMember (decode_chars k) r = false).
    { destruct Hdup as [Hrej|(_ & _ & Hnew)]; [left; exact Hrej|right].
      unfold currentValue_isMember. rewrite Hslot.
      unfold isMember. rewrite Hpay.
      rewrite (members_find_names H _ m (Hnew _ (or_introl eq_refl))).
      reflexivity. }
    set (r1 := push (top r ++ [Member (decode_chars k)])
                    (onCurrentValue
                       (member_slot (decode_chars k))
                       (set_current r
                          (current_ r + Z.of_nat (List.length ws1)
                           + Z.of_nat (List.length (print_string k))
                           + Z.of_nat (List.length ws2) + 1)))).
    apply (readObject_loop_fatal fuel_rec f name r k ws1 ws2 _ _
                                 Hws1 Hk Hws2 P Hmem').
    apply (IHv Hv Hndv fuel_rec r1 ws3 (ws4 ++ c_RBRACE :: rest) old Hws3).
    + apply follower_ws_then; [exact Hws4|tauto].
    + apply (positioned_shift H doc r r1
               (ws1 ++ print_string k ++ ws2 ++ [c_COLON])).
      * rewrite <- !app_assoc. exact P.
      * unfold r1. cbn [push set_nodes set_root onCurrentValue set_current
                             current_]. lens. lia.
    + lens. lia.
    + unfold r1. cbn [push set_nodes set_root onCurrentValue set_current
                           nodes_ List.length]. lens. lia.
    + rewrite (room_push H features_ doc r r1 _ _ eq_refl). exact Hroom.
    + exact Hcb.
    + exact Hfresh.
  - (* a member and more *)
    intros ws1 k ws2 ws3 v IHv ws4 ms IHms Hok fuel_rec fuel name r rest slot
           m Hdup P Hfr Hfuel Hsize Hroom Hcb Hslot Hpay.
    cbn [members_ok print_members depth_members names_distinct_members
         member_names] in *.
    apply andb_prop in Hok as [Hok Hms].
    apply andb_prop in Hok as [Hok Hws4]. apply andb_prop in Hok as [Hok Hv].
    apply andb_prop in Hok as [Hok Hws3]. apply andb_prop in Hok as [Hok Hws2].
    apply andb_prop in Hok as [Hws1 Hk].
    assert (Et : (ws1 ++ print_string k ++ ws2 ++ c_COLON
                      :: ws3 ++ print v ++ ws4
                      ++ c_COMMA :: print_members ms) ++ c_RBRACE :: rest
                 = ws1 ++ print_string k ++ ws2 ++ c_COLON
                     :: ws3 ++ print v ++ ws4
                     ++ c_COMMA :: print_members ms ++ c_RBRACE :: rest).
    { rewrite <- !app_assoc. cbn [app]. rewrite <- !app_assoc. cbn [app].
      reflexivity. }
    rewrite Et in P, Hfr, Hfuel, Hsize.
    lens_in Hfr; lens_in Hfuel; lens_in Hsize.
    destruct fuel as [|f]; [lia|].
    rewrite (room_max H features_ doc) in Hroom.
    assert (Hndv : rejectDupKeys_ features_ = false \/ names_distinct v)
      by tauto.
    destruct (member_slot_tree (top r) (root_ r) slot m (decode_chars k)
                (current_ r + Z.of_nat (List.length ws1)
                 + Z.of_nat (List.length (print_string k))
                 + Z.of_nat (List.length ws2) + 1
                 + Z.of_nat (List.length ws3)) v Hslot Hpay)
      as ((old & Hfresh) & Hmod).
    assert (Hmem' : rejectDupKeys_ features_ = false
                    \/ currentValue_isMember (decode_chars k) r = false).
    { destruct Hdup as [Hrej|(_ & _ & Hnew)]; [left; exact Hrej|right].
      unfold currentValue_isMember. rewrite Hslot.
      unfold isMember. rewrite Hpay.
      rewrite (members_find_names H _ m (Hnew _ (or_introl eq_refl))).
      reflexivity. }
    set (r1 := push (top r ++ [Member (decode_chars k)])
                    (onCurrentValue
                       (member_slot (decode_chars k))
                       (set_current r
                          (current_ r + Z.of_nat (List.length ws1)
                           + Z.of_nat (List.length (print_string k))
                           + Z.of_nat (List.length ws2) + 1)))).
    assert (Hfol1 : follower (ws4 ++ c_COMMA :: print_members ms
                                  ++ c_RBRACE :: rest))
      by (apply follower_ws_then; [exact Hws4|tauto]).
    assert (P1 : positioned r1
                   (ws3 ++ print v ++ ws4 ++ c_COMMA :: print_members ms
                        ++ c_RBRACE :: rest)).
    { apply (positioned_shift H doc r r1
               (ws1 ++ print_string k ++ ws2 ++ [c_COLON])).
      - rewrite <- !app_assoc. exact P.
      - unfold r1. cbn [push set_nodes set_root onCurrentValue set_current
                             current_]. lens. lia. }
    assert (Hfr1 : (List.length (ws3 ++ print v ++ ws4 ++ c_COMMA
                                     :: print_members ms ++ c_RBRACE :: rest)
                    < fuel_rec)%nat) by (lens; lia).
    assert (Hsize1 : Z.of_nat (List.length (nodes_ r1))
                     + Z.of_nat (List.length
                                   (ws3 ++ print v ++ ws4 ++ c_COMMA
                                        :: print_members ms
                                        ++ c_RBRACE :: rest)) < 2 ^ 31).
    { unfold r1. cbn [push set_nodes set_root onCurrentValue set_current
                           nodes_ List.length]. lens. lia. }
    destruct (room limit r (S (depth v))) eqn:Hr1.
    2:{ apply (readObject_loop_fatal fuel_rec f name r k ws1 ws2 _ _
                                     Hws1 Hk Hws2 P Hmem').
        apply (IHv Hv Hndv fuel_rec r1 ws3 _ old Hws3 Hfol1 P1 Hfr1 Hsize1);
          [|exact Hcb|exact Hfresh].
        rewrite (room_push H features_ doc r r1 _ _ eq_refl). exact Hr1. }
    cbn [andb] in Hroom. rename Hroom into Hr2.
    destruct (Tvalue v Hv Hndv fuel_rec r1 ws3 _ old Hws3 Hfol1 P1 Hfr1
                     Hsize1)
      as (r2 & E2 & Y2); [|exact Hcb|exact Hfresh|].
    { rewrite (room_push H features_ doc r r1 _ _ eq_refl). exact Hr1. }
    destruct (readObject_loop_round fuel_rec f name r r2 k v ws1 ws2 ws3 ws4
                c_COMMA (print_members ms ++ c_RBRACE :: rest) _
                Hws1 Hk Hws2 Hws4 (or_introl eq_refl) P Hmem' E2 Y2)
      as (r3 & Y3 & E3).
    change (c_COMMA =? c_RBRACE) with false in E3. cbv iota in E3.
    set (t := tree (current_ r + Z.of_nat (List.length ws1)
                    + Z.of_nat (List.length (print_string k))
                    + Z.of_nat (List.length ws2) + 1
                    + Z.of_nat (List.length ws3)) v) in *.
    assert (Y3' : yields r r3
                    (current_ r + Z.of_nat (List.length ws1)
                     + Z.of_nat (List.length (print_string k))
                     + Z.of_nat (List.length ws2) + 1
                     + Z.of_nat (List.length ws3)
                     + Z.of_nat (List.length (print v))
                     + Z.of_nat (List.length ws4) + 1)
                    (modify_at (top r)
                       (swapPayload
                          (objectValue (upsert (decode_chars k) t m)))
                       (root_ r))).
    { refine (yields_as _ _ _ _ _ _ eq_refl _ Y3). exact Hmod. }
    pose proof Y3' as (Y3c & Y3r & Y3e & Y3n & Y3cb & Y3cc).
    assert (P3 : positioned r3 (print_members ms ++ c_RBRACE :: rest)).
    { apply (positioned_shift H doc r r3
               (ws1 ++ print_string k ++ ws2 ++ c_COLON
                    :: ws3 ++ print v ++ ws4 ++ [c_COMMA])).
      - rewrite <- !app_assoc. cbn [app]. rewrite <- !app_assoc. exact P.
      - rewrite Y3c. lens. lia. }
    rewrite E3.
    apply (IHms Hms fuel_rec f (decode_chars k) r3 rest
                (swapPayload (objectValue (upsert (decode_chars k) t m))
                             slot)
                (upsert (decode_chars k) t m)).
    + destruct Hdup as [Hrej|((_ & Hndms) & Hnodup & Hnew)];
        [left; exact Hrej|right].
      apply NoDup_cons_iff in Hnodup as [Hkms Hnodup].
      split; [exact Hndms|]. split; [exact Hnodup|].
      intros k2 Hin. unfold upsert.
      rewrite (members_find_names H _ m (Hnew _ (or_introl eq_refl))).
      rewrite map_app, in_app_iff. cbn [map fst In].
      intros [Hm|[Heq|[]]].
      * apply (Hnew k2 (or_intror Hin)). exact Hm.
      * apply Hkms. rewrite Heq. exact Hin.
    + exact P3.
    + lens. lia.
    + lens. lia.
    + rewrite Y3n. lens. lia.
    + rewrite (room_same H features_ r r3 _ Y3n). exact Hr2.
    + rewrite Y3cb. exact Hcb.
    + apply (yields_slot r r3 _ _ slot Y3'). exact Hslot.
    + reflexivity.
Qed.

(** *** NaN and the infinities *)

Ltac test_byte c k :=
  let b := eval vm_compute in (c =? k) in
  try change (c =? k) with b.

Ltac test_bytes c :=
  test_byte c c_LBRACE; test_byte c c_RBRACE; test_byte c c_LBRACKET;
  test_byte c c_RBRACKET; test_byte c c_DQUOTE; test_byte c c_SQUOTE;
  test_byte c c_SLASH; test_byte c c_MINUS; test_byte c c_t;
  test_byte c c_f; test_byte c c_n; test_byte c c_N; test_byte c c_I;
  let b := eval vm_compute in (is_digit c) in
  try change (is_digit c) with b.

Ltac special_token P c :=
  unfold readToken;
  match type of P with
  | positioned ?r (c :: ?l) =>
      rewrite (skipSpaces_solid H doc r (c :: l) ltac:(reflexivity) P);
      rewrite (getNextChar_cons H doc r c l P)
  end;
  test_bytes c; cbn [andb orb]; cbv iota.

Lemma readNumber_checkInf (r : OurReader) (l : list Z) :
  positioned r (c_I :: l) ->
  readNumber doc true r = (false, set_current r (current_ r + 1)).
Proof.
  intros P. destruct (positioned_cons H doc _ _ _ P) as (Hat & Hlt & _).
  unfold readNumber. rewrite Hat, Z.eqb_refl.
  replace (current_ r =? end_) with false by (symmetry; apply Z.eqb_neq; lia).
  reflexivity.
Qed.

Lemma readToken_NaN (r : OurReader) (l : list Z) :
  positioned r (bytes "NaN" ++ l) ->
  readToken features_ doc r
  = if allowSpecialFloats_ features_
    then (true,
          {| type_ := tokenNaN; offsetStart_ := current_ r;
             offsetEnd_ := current_ r + 3 |},
          set_current r (current_ r + 3))
    else (true,
          {| type_ := tokenError; offsetStart_ := current_ r;
             offsetEnd_ := current_ r + 1 |},
          set_current r (current_ r + 1)).
Proof.
  intros P. change (positioned r (c_N :: (bytes "aN" ++ l))) in P.
  special_token P c_N.
  destruct (positioned_cons H doc _ _ _ P) as (_ & _ & P1).
  destruct (allowSpecialFloats_ features_); [|reflexivity].
  rewrite (match_exact H doc (bytes "aN") l _ P1).
  cbn [current_ set_current List.length bytes].
  replace (current_ r + 1 + Z.of_nat 2) with (current_ r + 3) by lia.
  reflexivity.
Qed.

Lemma readToken_Infinity (r : OurReader) (l : list Z) :
  positioned r (bytes "Infinity" ++ l) ->
  readToken features_ doc r
  = if allowSpecialFloats_ features_
    then (true,
          {| type_ := tokenPosInf; offsetStart_ := current_ r;
             offsetEnd_ := current_ r + 8 |},
          set_current r (current_ r + 8))
    else (true,
          {| type_ := tokenError; offsetStart_ := current_ r;
             offsetEnd_ := current_ r + 1 |},
          set_current r (current_ r + 1)).
Proof.
  intros P. change (positioned r (c_I :: (bytes "nfinity" ++ l))) in P.
  special_token P c_I.
  destruct (positioned_cons H doc _ _ _ P) as (_ & _ & P1).
  destruct (allowSpecialFloats_ features_); [|reflexivity].
  rewrite (match_exact H doc (bytes "nfinity") l _ P1).
  cbn [current_ set_current List.length bytes].
  replace (current_ r + 1 + Z.of_nat 7) with (current_ r + 8) by lia.
  reflexivity.
Qed.

Lemma readToken_NegInfinity (r : OurReader) (l : list Z) :
  positioned r (bytes "-Infinity" ++ l) ->
  readToken features_ doc r
  = if allowSpecialFloats_ features_
    then (true,
          {| type_ := tokenNegInf; offsetStart_ := current_ r;
             offsetEnd_ := current_ r + 9 |},
          set_current r (current_ r + 9))
    else (true,
          {| type_ := tokenError; offsetStart_ := current_ r;
             offsetEnd_ := current_ r + 2 |},
          set_current r (current_ r + 2)).
Proof.
  intros P.
  change (positioned r (c_MINUS :: c_I :: (bytes "nfinity" ++ l))) in P.
  special_token P c_MINUS.
  destruct (positioned_cons H doc _ _ _ P) as (_ & _ & P1).
  rewrite (readNumber_checkInf _ _ P1).
  destruct (positioned_cons H doc _ _ _ P1) as (_ & _ & P2).
  cbn [current_ set_current] in *.
  destruct (allowSpecialFloats_ features_).
  - rewrite (match_exact H doc (bytes "nfinity") l _ P2).
    cbn [current_ set_current List.length bytes].
    replace (current_ r + 1 + 1 + Z.of_nat 7) with (current_ r + 9) by lia.
    reflexivity.
  - cbn [current_ set_current].
    replace (current_ r + 1 + 1) with (current_ r + 2) by lia.
    reflexivity.
Qed.

Lemma readValue_exact_special (fuel : nat) (r r1 : OurReader) (token : Token)
      (p : PayloadF H (Value H)) :
  Z.of_nat (List.length (nodes_ r)) <= limit
  /\ Z.of_nat (List.length (nodes_ r)) < 2 ^ 31 ->
  skipCommentTokens features_ doc fuel r = Ok (token, r1) ->
  commentsBefore_ r1 = [] ->
  (type_ token = tokenNaN /\ p = realValue (quiet_NaN H))
  \/ (type_ token = tokenPosInf /\ p = realValue (infinity H))
  \/ (type_ token = tokenNegInf /\ p = realValue (dneg H (infinity H))) ->
  exists r',
    readValue features_ doc (S fuel) r = Ok (true, r')
    /\ yields r1 r' (current_ r1) (root_ (install p token r1)).
Proof.
  intros Hg Etok Hcb [[Ety ->]|[[Ety ->]|[Ety ->]]];
    enter_exact Hg Etok Hcb Ety;
    (eexists; split; [reflexivity|]);
    apply yields_finish; repeat split.
Qed.

Lemma readValue_exact_error (fuel : nat) (r r1 : OurReader) (token : Token) :
  Z.of_nat (List.length (nodes_ r)) <= limit
  /\ Z.of_nat (List.length (nodes_ r)) < 2 ^ 31 ->
  skipCommentTokens features_ doc fuel r = Ok (token, r1) ->
  commentsBefore_ r1 = [] ->
  type_ token = tokenError ->
  exists r' info,
    readValue features_ doc (S fuel) r = Ok (false, r')
    /\ errors_ r' = errors_ r1 ++ [info]
    /\ message_ info = "Syntax error: value, object or array expected."%string
    /\ token_ info = getLocationLineAndColumn H doc (offsetStart_ token)
    /\ nodes_ r' = nodes_ r1
    /\ current_ r' = current_ r1.
Proof.
  intros Hg Etok Hcb Ety. enter_exact Hg Etok Hcb Ety.
  do 2 eexists. split; [reflexivity|]. repeat split.
Qed.

Lemma readValue_special_floats_here (fuel : nat) (r : OurReader)
      (ws lit rest : list Z) (p : PayloadF H (Value H)) :
  is_ws ws = true ->
  positioned r (ws ++ lit ++ rest) ->
  (lit = bytes "NaN" /\ p = realValue (quiet_NaN H))
  \/ (lit = bytes "Infinity" /\ p = realValue (infinity H))
  \/ (lit = bytes "-Infinity" /\ p = realValue (dneg H (infinity H))) ->
  Z.of_nat (List.length (nodes_ r)) <= limit ->
  Z.of_nat (List.length (nodes_ r)) < 2 ^ 31 ->
  commentsBefore_ r = [] ->
  (allowSpecialFloats_ features_ = true ->
   exists r',
     readValue features_ doc (S (S fuel)) r = Ok (true, r')
     /\ yields r r'
               (current_ r + Z.of_nat (List.length ws)
                + Z.of_nat (List.length lit))
               (modify_at (top r)
                  (put (leaf p (current_ r + Z.of_nat (List.length ws))
                             (current_ r + Z.of_nat (List.length ws)
                              + Z.of_nat (List.length lit))))
                  (root_ r)))
  /\ (allowSpecialFloats_ features_ = false ->
      exists r' info,
        readValue features_ doc (S (S fuel)) r = Ok (false, r')
        /\ errors_ r' = errors_ r ++ [info]
        /\ message_ info
           = "Syntax error: value, object or array expected."%string
        /\ token_ info
           = getLocationLineAndColumn
               H doc (current_ r + Z.of_nat (List.length ws))
        /\ nodes_ r' = nodes_ r).
Proof.
  intros Hws P Hlit Hlimit Hsmall Hcb.
  pose proof (positioned_bounds H doc r _ P) as [Hcur Hend].
  assert (Hg : Z.of_nat (List.length (nodes_ r)) <= limit
               /\ Z.of_nat (List.length (nodes_ r)) < 2 ^ 31)
    by (split; assumption).
  assert (Hsolid : solid (lit ++ rest))
    by (destruct Hlit as [[-> _]|[[-> _]|[-> _]]]; reflexivity).
  pose proof (readToken_ws H features_ doc r ws _ Hws Hsolid P) as E.
  pose proof (positioned_app H doc r ws _ P) as P1.
  destruct Hlit as [[-> ->]|[[-> ->]|[-> ->]]].
  - rewrite (readToken_NaN _ rest P1) in E.
    split; intros Ha; rewrite Ha in E;
      pose proof (skipCommentTokens_token H features_ doc fuel _ _ _ _ E
                    ltac:(discriminate)) as Etok.
    + destruct (readValue_exact_special _ _ _ _ (realValue (quiet_NaN H)) Hg
                  Etok Hcb) as (r' & E' & Y'); [cbn; tauto|].
      exists r'. split; [exact E'|]. rewrite install_root in Y'.
      refine (yields_from r _ r' _ _ eq_refl eq_refl eq_refl eq_refl eq_refl
                          Y').
    + destruct (readValue_exact_error _ _ _ _ Hg Etok Hcb eq_refl)
        as (r' & info & E' & He & Hm & Ht & Hn & _).
      exists r', info. repeat split; assumption.
  - rewrite (readToken_Infinity _ rest P1) in E.
    split; intros Ha; rewrite Ha in E;
      pose proof (skipCommentTokens_token H features_ doc fuel _ _ _ _ E
                    ltac:(discriminate)) as Etok.
    + destruct (readValue_exact_special _ _ _ _ (realValue (infinity H)) Hg
                  Etok Hcb) as (r' & E' & Y'); [cbn; tauto|].
      exists r'. split; [exact E'|]. rewrite install_root in Y'.
      refine (yields_from r _ r' _ _ eq_refl eq_refl eq_refl eq_refl eq_refl
                          Y').
    + destruct (readValue_exact_error _ _ _ _ Hg Etok Hcb eq_refl)
        as (r' & info & E' & He & Hm & Ht & Hn & _).
      exists r', info. repeat split; assumption.
  - rewrite (readToken_NegInfinity _ rest P1) in E.
    split; intros Ha; rewrite Ha in E;
      pose proof (skipCommentTokens_token H features_ doc fuel _ _ _ _ E
                    ltac:(discriminate)) as Etok.
    + destruct (readValue_exact_special _ _ _ _
                  (realValue (dneg H (infinity H))) Hg Etok Hcb)
        as (r' & E' & Y'); [cbn; tauto|].
      exists r'. split; [exact E'|]. rewrite install_root in Y'.
      refine (yields_from r _ r' _ _ eq_refl eq_refl eq_refl eq_refl eq_refl
                          Y').
    + destruct (readValue_exact_error _ _ _ _ Hg Etok Hcb eq_refl)
        as (r' & info & E' & He & Hm & Ht & Hn & _).
      exists r', info. repeat split; assumption.
Qed.

(** *** A name for the second time *)

Lemma readObject_loop_duplicate (fuel : nat)
      (rec : OurReader -> result (bool * OurReader)) (name : list Z)
      (r : OurReader) (k : list jchar) (ws1 ws2 rest : list Z)
      (slot : Value H) (m : list (list Z * Value H)) :
  rejectDupKeys_ features_ = true ->
  is_ws ws1 = true -> forallb jchar_ok k = true -> is_ws ws2 = true ->
  positioned r (ws1 ++ print_string k ++ ws2 ++ c_COLON :: rest) ->
  get_at (top r) (root_ r) = Some slot ->
  payload slot = objectValue m ->
  In (decode_chars k) (map fst m) ->
  (List.length rest < fuel)%nat ->
  exists r',
    readObject_loop features_ doc rec (S fuel) name r = Ok (false, r')
    /\ errors_ r'
       = errors_ r
         ++ [{| token_ := getLocationLineAndColumn
                            H doc (current_ r + Z.of_nat (List.length ws1));
                message_ := "Duplicate key: '"
                            ++ string_of_bytes (decode_chars k) ++ "'";
                extra_ := noLocation |}]
    /\ nodes_ r' = nodes_ r
    /\ current_ r + Z.of_nat (List.length ws1)
       + Z.of_nat (List.length (print_string k))
       + Z.of_nat (List.length ws2) + 1 <= current_ r' <= end_.
Proof.
  intros Hrej Hws1 Hk Hws2 P Hslot Hpay Hin Hfuel.
  pose proof (positioned_bounds H doc r _ P) as [Hcur Hend].
  assert (Hlen : Z.of_nat (List.length (print_chars k)) < 2 ^ 30).
  { unfold print_string in Hend. unfold end_ in Hend.
    repeat first [rewrite length_app in Hend
                 |progress (cbn [List.length] in Hend)].
    lia. }
  assert (S1 : solid (print_string k ++ ws2 ++ c_COLON :: rest))
    by reflexivity.
  pose proof (readToken_ws H features_ doc r ws1 _ Hws1 S1 P) as E1.
  pose proof (positioned_app H doc r ws1 _ P) as P1.
  rewrite (readToken_String H features_ doc _ k _ Hk P1) in E1.
  cbn [set_current current_] in E1.
  set (s := current_ r + Z.of_nat (List.length ws1)) in *.
  set (tokS := {| type_ := tokenString; offsetStart_ := s;
                  offsetEnd_ := s + Z.of_nat (List.length (print_string k)) |})
    in *.
  set (rS := set_current (set_current r s)
                         (s + Z.of_nat (List.length (print_string k)))) in *.
  assert (D : decodeString_to doc tokS rS = Ok (true, decode_chars k, rS)).
  { apply (decodeString_to_chars H doc rS k (ws2 ++ c_COLON :: rest) s
             tokenString Hk); [subst s; lia|].
    destruct P1 as [_ P1]. exact P1. }
  assert (P2 : positioned rS (ws2 ++ c_COLON :: rest)).
  { apply (positioned_shift H doc _ rS _ _ P1). reflexivity. }
  destruct (readToken_punct H features_ doc rS ws2 _ c_COLON
                            tokenMemberSeparator Hws2 P2)
    as (tokC & E2 & Ety2); [tauto|].
  set (rC := set_current rS (current_ rS + Z.of_nat (List.length ws2) + 1))
    in *.
  assert (Hshort : (Z.of_nat (List.length (decode_chars k)) >=? 2 ^ 30)
                   = false).
  { pose proof (decode_chars_length k).
    rewrite Z.geb_leb. apply Z.leb_gt. lia. }
  assert (Hmem : currentValue_isMember (decode_chars k) rC = true).
  { change (currentValue_isMember (decode_chars k) rC)
      with (currentValue_isMember (decode_chars k) r).
    unfold currentValue_isMember. rewrite Hslot. unfold isMember.
    rewrite Hpay.
    destruct (members_find H (decode_chars k) m) eqn:Ef; [reflexivity|].
    exfalso. exact (members_find_none_names H _ m Ef Hin). }
  assert (PC : positioned rC rest).
  { apply (positioned_shift H doc rS rC (ws2 ++ [c_COLON])).
    - rewrite <- app_assoc. exact P2.
    - subst rC. cbn [set_current current_]. rewrite length_app.
      cbn [List.length]. lia. }
  pose proof (positioned_bounds H doc rC _ PC) as [HcurC HendC].
  destruct (recoverFromError_run
              H features_ doc fuel tokenObjectEnd
              (snd (addError doc
                      ("Duplicate key: '"
                       ++ string_of_bytes (decode_chars k) ++ "'")
                      tokS None rC)))
    as (r' & Er & (Hc & He & Hn & _)).
  { unfold addError. cbn [snd set_errors current_]. lia. }
  { unfold bytes_left, addError. cbn [snd set_errors current_].
    lia. }
  exists r'. split; [|split; [|split]].
  - cbn [readObject_loop]. rewrite E1. cbn [negb].
    rewrite skipComments_while_token by discriminate.
    cbn [bind negb type_ tokS TokenType_eqb andb].
    rewrite D. cbn [bind]. rewrite E2. rewrite Ety2.
    cbn [negb TokenType_eqb orb]. rewrite Hshort, Hrej, Hmem.
    cbn [andb]. exact Er.
  - rewrite He. reflexivity.
  - rewrite Hn. reflexivity.
  - unfold addError in Hc. cbn [snd set_errors current_] in Hc.
    subst rC rS s. cbn [set_current current_] in Hc. lia.
Qed.

(** *** A comment that is not allowed *)

Lemma readToken_slash (r : OurReader) (rest : list Z) :
  positioned r (c_SLASH :: rest) ->
  exists (ok : bool) (r' : OurReader),
    readToken features_ doc r
    = (true,
       {| type_ := if ok then tokenComment else tokenError;
          offsetStart_ := current_ r; offsetEnd_ := current_ r' |},
       r')
    /\ same_frame r r'.
Proof.
  intros P. unfold readToken.
  rewrite (skipSpaces_solid H doc r (c_SLASH :: rest) ltac:(reflexivity) P).
  rewrite (getNextChar_cons H doc r c_SLASH rest P).
  test_bytes c_SLASH. cbn [andb orb]. cbv iota.
  pose proof (readComment_frame H doc (set_current r (current_ r + 1))) as F.
  destruct (readComment doc (set_current r (current_ r + 1))) as [ok r'].
  cbn [snd] in F. exists ok, r'. split; [reflexivity|].
  refine (same_frame_trans H _ _ _ _ F). apply same_frame_set_current.
Qed.

Lemma readValue_comment_here (fuel : nat) (r : OurReader)
      (ws rest : list Z) :
  allowComments_ features_ = false ->
  collectComments_ r = false ->
  is_ws ws = true ->
  positioned r (ws ++ c_SLASH :: rest) ->
  Z.of_nat (List.length (nodes_ r)) <= limit ->
  Z.of_nat (List.length (nodes_ r)) < 2 ^ 31 ->
  exists r' info,
    readValue features_ doc (S fuel) r = Ok (false, r')
    /\ errors_ r' = errors_ r ++ [info]
    /\ message_ info
       = "Syntax error: value, object or array expected."%string
    /\ token_ info
       = getLocationLineAndColumn H doc (current_ r + Z.of_nat (List.length ws))
    /\ nodes_ r' = nodes_ r.
Proof.
  intros Hallow Hcc Hws P Hlimit Hsmall.
  pose proof (readToken_ws H features_ doc r ws (c_SLASH :: rest) Hws
                ltac:(reflexivity) P) as E.
  destruct (readToken_slash _ rest (positioned_app H doc r ws _ P))
    as (ok & r1 & E1 & (Fe & Fn & Fc & _)).
  rewrite E1 in E. cbn [set_current current_ errors_ nodes_ collectComments_]
    in E, Fe, Fn, Fc.
  cbn [readValue]. unfold readValue_body.
  replace (to_int (Z.of_nat (List.length (nodes_ r))) >? limit) with false
    by (symmetry; rewrite Z.gtb_ltb; apply Z.ltb_ge;
        rewrite to_int_small; [exact Hlimit|lia]).
  unfold skipCommentTokens. rewrite Hallow, E. cbn [bind]. cbv zeta.
  rewrite Fc, Hcc. cbn [andb type_].
  destruct ok; (do 2 eexists; split; [reflexivity|]);
    cbn [addError snd set_errors errors_ nodes_ onCurrentValue set_root
                  message_ token_ offsetStart_];
    rewrite Fe, Fn; repeat split.
Qed.

(** *** A comment that is allowed *)

Lemma readToken_comment (r : OurReader) (l : list Z) (c : Z) (pos : Z) :
  collectComments_ r = false ->
  positioned r (c_SLASH :: c :: l) ->
  (if c =? c_STAR
   then readCStyleComment doc (set_current r (current_ r + 2))
   else if c =? c_SLASH
        then readCppStyleComment doc (set_current r (current_ r + 2))
        else (false, set_current r (current_ r + 2)))
  = (true, set_current r pos) ->
  readToken features_ doc r
  = (true,
     {| type_ := tokenComment; offsetStart_ := current_ r;
        offsetEnd_ := pos |},
     set_current r pos).
Proof.
  intros Hcc P Ec. unfold readToken.
  rewrite (skipSpaces_solid H doc r (c_SLASH :: c :: l) ltac:(reflexivity) P).
  rewrite (getNextChar_cons H doc r c_SLASH (c :: l) P).
  test_bytes c_SLASH. cbn [andb orb]. cbv iota.
  destruct (positioned_cons H doc _ _ _ P) as (_ & _ & P1).
  unfold readComment.
  rewrite (getNextChar_cons H doc _ c l P1).
  cbn [set_current current_].
  replace (current_ r + 1 + 1) with (current_ r + 2) by lia.
  change (set_current (set_current r (current_ r + 1)) (current_ r + 2))
    with (set_current r (current_ r + 2)).
  rewrite Ec. cbn [negb collectComments_ set_current]. rewrite Hcc.
  reflexivity.
Qed.

Lemma skipCommentTokens_comment (fuel : nat) (r : OurReader)
      (ws l : list Z) (c : Z) (pos : Z) :
  allowComments_ features_ = true ->
  collectComments_ r = false ->
  is_ws ws = true ->
  positioned r (ws ++ c_SLASH :: c :: l) ->
  (if c =? c_STAR
   then readCStyleComment
          doc (set_current r (current_ r + Z.of_nat (List.length ws) + 2))
   else if c =? c_SLASH
        then readCppStyleComment
               doc (set_current r (current_ r + Z.of_nat (List.length ws) + 2))
        else (false,
              set_current r (current_ r + Z.of_nat (List.length ws) + 2)))
  = (true, set_current r pos) ->
  skipCommentTokens features_ doc (S fuel) r
  = skipCommentTokens features_ doc fuel (set_current r pos).
Proof.
  intros Hallow Hcc Hws P Ec.
  pose proof (readToken_ws H features_ doc r ws (c_SLASH :: c :: l) Hws
                ltac:(reflexivity) P) as E.
  rewrite (readToken_comment
             (set_current r (current_ r + Z.of_nat (List.length ws))) l c pos
             Hcc (positioned_app H doc r ws _ P) Ec)
    in E.
  unfold skipCommentTokens. rewrite Hallow.
  cbn [skipCommentTokens_loop]. rewrite E. reflexivity.
Qed.

Lemma skipCommentTokens_comments_here (fuel : nat) (r : OurReader)
      (ws body rest : list Z) :
  allowComments_ features_ = true ->
  collectComments_ r = false ->
  is_ws ws = true ->
  (forall eol : list Z,
      positioned r (ws ++ c_SLASH :: c_SLASH :: body ++ eol ++ rest) ->
      no_eol body ->
      eol = [c_LF] \/ eol = [c_CR; c_LF]
      \/ (eol = [c_CR] /\ forall t, rest <> c_LF :: t)
      \/ (eol = [] /\ rest = []) ->
      skipCommentTokens features_ doc (S fuel) r
      = skipCommentTokens
          features_ doc fuel
          (set_current r (current_ r + Z.of_nat (List.length ws) + 2
                          + Z.of_nat (List.length body)
                          + Z.of_nat (List.length eol))))
  /\ (positioned r (ws ++ c_SLASH :: c_STAR
                       :: body ++ c_STAR :: c_SLASH :: rest) ->
      no_comment_end (body ++ [c_STAR]) ->
      skipCommentTokens features_ doc (S fuel) r
      = skipCommentTokens
          features_ doc fuel
          (set_current r (current_ r + Z.of_nat (List.length ws) + 2
                          + Z.of_nat (List.length body) + 2))).
Proof.
  intros Hallow Hcc Hws. split.
  - intros eol P Hbody Heol.
    apply (skipCommentTokens_comment fuel r ws (body ++ eol ++ rest) c_SLASH _
             Hallow Hcc Hws P).
    test_byte c_SLASH c_STAR. test_byte c_SLASH c_SLASH. cbv iota.
    assert (P2 : positioned
                   (set_current r
                      (current_ r + Z.of_nat (List.length ws) + 2))
                   (body ++ eol ++ rest)).
    { apply (positioned_shift H doc r _ (ws ++ [c_SLASH; c_SLASH])).
      - rewrite <- app_assoc. exact P.
      - cbn [set_current current_]. rewrite length_app. cbn [List.length].
        lia. }
    unfold readCppStyleComment. destruct P2 as [_ ->].
    rewrite (readCppStyleComment_loop_exact body eol rest _ Hbody Heol).
    reflexivity.
  - intros P Hn.
    apply (skipCommentTokens_comment
             fuel r ws (body ++ c_STAR :: c_SLASH :: rest) c_STAR _
             Hallow Hcc Hws P).
    test_byte c_STAR c_STAR. cbv iota.
    assert (P2 : positioned
                   (set_current r
                      (current_ r + Z.of_nat (List.length ws) + 2))
                   (body ++ c_STAR :: c_SLASH :: rest)).
    { apply (positioned_shift H doc r _ (ws ++ [c_SLASH; c_STAR])).
      - rewrite <- app_assoc. exact P.
      - cbn [set_current current_]. rewrite length_app. cbn [List.length].
        lia. }
    rewrite (readCStyleComment_closed H doc _ body rest (proj1 P2) (proj2 P2)
                                      Hn).
    reflexivity.
Qed.

(** *** The document *)

Lemma readToken_trailing_exact (r : OurReader) (ws : list Z) :
  is_ws ws = true -> positioned r ws ->
  exists token r',
    readToken features_ doc r = (true, token, r')
    /\ type_ token = tokenEndOfStream
    /\ yields r r' (current_ r') (root_ r).
Proof.
  intros Hws P.
  pose proof (positioned_bounds H doc r _ P) as [Hcur Hend].
  assert (P' : positioned r (ws ++ [])) by (rewrite app_nil_r; exact P).
  pose proof (skipSpaces_ws H doc r ws [] Hws I P') as Es.
  pose proof (readToken_at_end H features_ doc r) as E.
  rewrite Es in E. cbn [set_current current_] in E.
  specialize (E Hend). rewrite E.
  do 2 eexists. split; [reflexivity|]. repeat split.
Qed.

Lemma tree_container (pos : Z) (v : json) (slot : Value H) :
  is_container v = true ->
  negb (isArray (put (tree pos v) slot))
  && negb (isObject (put (tree pos v) slot)) = false.
Proof. destruct v; cbn; intros E; reflexivity || discriminate. Qed.

(** A NUL byte reads as the end of the stream. *)
Lemma readToken_trailing_nul (r : OurReader) (ws garbage : list Z) :
  is_ws ws = true -> positioned r (ws ++ c_NUL :: garbage) ->
  exists token r',
    readToken features_ doc r = (true, token, r')
    /\ type_ token = tokenEndOfStream
    /\ yields r r' (current_ r') (root_ r).
Proof.
  intros Hws P.
  rewrite (readToken_ws H features_ doc r ws (c_NUL :: garbage) Hws
                        ltac:(reflexivity) P).
  apply (positioned_app H doc) in P.
  unfold readToken.
  rewrite (skipSpaces_solid H doc _ (c_NUL :: garbage) ltac:(reflexivity) P).
  rewrite (getNextChar_cons H doc _ c_NUL garbage P).
  do 2 eexists. split; [reflexivity|]. repeat split.
Qed.

Lemma follower_ws_nul (ws garbage : list Z) :
  is_ws ws = true -> follower (ws ++ c_NUL :: garbage).
Proof.
  intros Hws. destruct ws as [|w ws].
  - cbn. repeat split; try reflexivity; discriminate.
  - apply (follower_ws (w :: ws)) in Hws. exact Hws.
Qed.

Lemma parse_tree_tail (ws1 : list Z) (v : json) (tail : list Z) (fuel : nat)
      (root : Value H) (collectComments : bool) :
  doc = ws1 ++ print v ++ tail ->
  is_ws ws1 = true -> json_ok v = true ->
  rejectDupKeys_ features_ = false \/ names_distinct v ->
  follower tail ->
  (forall r1 : OurReader,
      positioned r1 tail ->
      exists token r',
        readToken features_ doc r1 = (true, token, r')
        /\ type_ token = tokenEndOfStream
        /\ yields r1 r' (current_ r') (root_ r1)) ->
  (strictRoot_ features_ = true -> is_container v = true) ->
  Z.of_nat (depth v) <= limit ->
  (List.length doc < fuel)%nat ->
  exists r',
    parse features_ doc fuel root collectComments = Ok (true, r')
    /\ errors_ r' = []
    /\ root_ r' = put (tree (Z.of_nat (List.length ws1)) v) root.
Proof.
  intros Edoc Hws1 Hv Hnd Hfol Htail Hroot Hd Hfuel.
  unfold parse.
  set (r0 := {| root_ := root; nodes_ := [[]]; errors_ := [];
                current_ := 0; lastValueEnd_ := None; lastValue_ := None;
                commentsBefore_ := [];
                collectComments_ :=
                  if negb (allowComments_ features_) then false
                  else collectComments |}).
  assert (P0 : positioned r0 (ws1 ++ print v ++ tail)).
  { split.
    - cbn [current_ r0]. unfold end_. lia.
    - cbn [current_ r0]. unfold suffix. cbn [Z.to_nat skipn]. exact Edoc. }
  destruct readValue_tree_mutual as [Hvalue _].
  destruct (Hvalue v Hv Hnd fuel r0 ws1 tail root Hws1 Hfol P0)
    as (r1 & E1 & Y1).
  { rewrite <- Edoc. exact Hfuel. }
  { rewrite <- Edoc. cbn [nodes_ r0 List.length]. lia. }
  { unfold room. cbn [nodes_ r0 List.length]. apply Z.leb_le. lia. }
  { reflexivity. }
  { reflexivity. }
  pose proof Y1 as (Y1c & Y1r & Y1e & Y1n & Y1cb & Y1cc).
  rewrite E1. cbn [bind].
  assert (P1 : positioned r1 tail).
  { apply (positioned_shift H doc r0 r1 (ws1 ++ print v)).
    - rewrite <- app_assoc. exact P0.
    - rewrite Y1c, length_app. cbn [current_ r0]. lia. }
  destruct (Htail r1 P1) as (tok & r2 & E2 & Ety & Y2).
  pose proof (yields_trans _ _ _ _ _ _ _ Y1 Y2) as (_ & Yr & Ye & _ & Ycb & _).
  destruct fuel as [|f]; [lia|].
  rewrite (skipCommentTokens_token H features_ doc f r1 r2 true tok E2)
    by (rewrite Ety; discriminate).
  cbn [bind]. rewrite Ety.
  cbn [TokenType_eqb negb]. rewrite !andb_false_r.
  rewrite Ycb. cbn [commentsBefore_ r0 is_nil negb]. rewrite andb_false_r.
  rewrite Yr, Y1r. cbn [top nodes_ r0 root_ modify_at current_ Z.add].
  destruct (strictRoot_ features_) eqn:Hs.
  - rewrite (tree_container _ v root (Hroot eq_refl)).
    eexists. split; [reflexivity|]. split; [exact Ye|].
    rewrite Yr, Y1r. reflexivity.
  - eexists. split; [reflexivity|]. split; [exact Ye|].
    rewrite Yr, Y1r. reflexivity.
Qed.

(** A number is no array and no object. *)
Lemma tree_scalar (pos : Z) (v : json) (slot : Value H) :
  is_container v = false ->
  negb (isArray (put (tree pos v) slot))
  && negb (isObject (put (tree pos v) slot)) = true.
Proof.
  destruct v; intros E; try discriminate E; try reflexivity.
  assert (G : forall (d : list Z) (token : Token) (r : OurReader),
             match payload (snd (fst (decodeNumber_to d token r))) with
             | arrayValue _ | objectValue _ => False
             | _ => True
             end).
  { intros d token r. unfold decodeNumber_to, decodeDouble_to, addError.
    repeat match goal with
           | |- context [if ?b then _ else _] => destruct b
           | |- context [match ?x with Some _ => _ | None => _ end] =>
               destruct x
           end; exact I. }
  unfold tree, put, leaf, isArray, isObject. cbn [payload].
  unfold number_payload.
  match goal with
  | |- context [decodeNumber_to ?d ?t ?r] =>
      specialize (G d t r); destruct (decodeNumber_to d t r) as [[ok w] r']
  end.
  cbn [fst snd] in G. destruct (payload w); reflexivity || contradiction.
Qed.

(** A document too deep for the limit: the fatal error of the guard is the
    result of [parse]. *)
Lemma parse_fatal_tail (ws1 : list Z) (v : json) (tail : list Z) (fuel : nat)
      (root : Value H) (collectComments : bool) :
  doc = ws1 ++ print v ++ tail ->
  is_ws ws1 = true -> json_ok v = true ->
  rejectDupKeys_ features_ = false \/ names_distinct v ->
  follower tail ->
  limit < Z.of_nat (depth v) ->
  (List.length doc < fuel)%nat ->
  parse features_ doc fuel root collectComments
  = Fatal "Exceeded stackLimit in readValue().".
Proof.
  intros Edoc Hws1 Hv Hnd Hfol Hd Hfuel.
  unfold parse.
  set (r0 := {| root_ := root; nodes_ := [[]]; errors_ := [];
                current_ := 0; lastValueEnd_ := None; lastValue_ := None;
                commentsBefore_ := [];
                collectComments_ :=
                  if negb (allowComments_ features_) then false
                  else collectComments |}).
  assert (P0 : positioned r0 (ws1 ++ print v ++ tail)).
  { split.
    - cbn [current_ r0]. unfold end_. lia.
    - cbn [current_ r0]. unfold suffix. cbn [Z.to_nat skipn]. exact Edoc. }
  destruct readValue_fatal_mutual as [Fvalue _].
  rewrite (Fvalue v Hv Hnd fuel r0 ws1 tail root Hws1 Hfol P0);
    [reflexivity| | | | |].
  - rewrite <- Edoc. exact Hfuel.
  - rewrite <- Edoc. cbn [nodes_ r0 List.length]. lia.
  - unfold room. cbn [nodes_ r0 List.length]. apply Z.leb_gt. lia.
  - reflexivity.
  - reflexivity.
Qed.

(** A document within the limit whose value is no array and no object, read
    with [strictRoot_]: the value is read, and then refused. *)
Lemma parse_strict_scalar_tail (ws1 : list Z) (v : json) (tail : list Z)
      (fuel : nat) (root : Value H) (collectComments : bool) :
  doc = ws1 ++ print v ++ tail ->
  is_ws ws1 = true -> json_ok v = true ->
  rejectDupKeys_ features_ = false \/ names_distinct v ->
  follower tail ->
  (forall r1 : OurReader,
      positioned r1 tail ->
      exists token r',
        readToken features_ doc r1 = (true, token, r')
        /\ type_ token = tokenEndOfStream
        /\ yields r1 r' (current_ r') (root_ r1)) ->
  strictRoot_ features_ = true -> is_container v = false ->
  Z.of_nat (depth v) <= limit ->
  (List.length doc < fuel)%nat ->
  exists r',
    parse features_ doc fuel root collectComments = Ok (false, r')
    /\ errors_ r' = [strictRootError H doc]
    /\ root_ r' = put (tree (Z.of_nat (List.length ws1)) v) root.
Proof.
  intros Edoc Hws1 Hv Hnd Hfol Htail Hstrict Hscalar Hd Hfuel.
  unfold parse.
  set (r0 := {| root_ := root; nodes_ := [[]]; errors_ := [];
                current_ := 0; lastValueEnd_ := None; lastValue_ := None;
                commentsBefore_ := [];
                collectComments_ :=
                  if negb (allowComments_ features_) then false
                  else collectComments |}).
  assert (P0 : positioned r0 (ws1 ++ print v ++ tail)).
  { split.
    - cbn [current_ r0]. unfold end_. lia.
    - cbn [current_ r0]. unfold suffix. cbn [Z.to_nat skipn]. exact Edoc. }
  destruct readValue_tree_mutual as [Hvalue _].
  destruct (Hvalue v Hv Hnd fuel r0 ws1 tail root Hws1 Hfol P0)
    as (r1 & E1 & Y1).
  { rewrite <- Edoc. exact Hfuel. }
  { rewrite <- Edoc. cbn [nodes_ r0 List.length]. lia. }
  { unfold room. cbn [nodes_ r0 List.length]. apply Z.leb_le. lia. }
  { reflexivity. }
  { reflexivity. }
  pose proof Y1 as (Y1c & Y1r & Y1e & Y1n & Y1cb & Y1cc).
  rewrite E1. cbn [bind].
  assert (P1 : positioned r1 tail).
  { apply (positioned_shift H doc r0 r1 (ws1 ++ print v)).
    - rewrite <- app_assoc. exact P0.
    - rewrite Y1c, length_app. cbn [current_ r0]. lia. }
  destruct (Htail r1 P1) as (tok & r2 & E2 & Ety & Y2).
  pose proof (yields_trans _ _ _ _ _ _ _ Y1 Y2) as (_ & Yr & Ye & _ & Ycb & _).
  destruct fuel as [|f]; [lia|].
  rewrite (skipCommentTokens_token H features_ doc f r1 r2 true tok E2)
    by (rewrite Ety; discriminate).
  cbn [bind]. rewrite Ety.
  cbn [TokenType_eqb negb]. rewrite !andb_false_r.
  rewrite Ycb. cbn [commentsBefore_ r0 is_nil negb]. rewrite andb_false_r.
  rewrite Yr, Y1r. cbn [top nodes_ r0 root_ modify_at current_ Z.add].
  rewrite Hstrict, (tree_scalar _ v root Hscalar). cbn [andb].
  unfold addError. eexists. split; [reflexivity|].
  cbn [errors_ set_errors root_ offsetStart_]. rewrite Ye, Yr, Y1r.
  split; reflexivity.
Qed.

End TreeFacts.


(** X17.  [allowSpecialFloats_] decides over NaN, Infinity and -Infinity.
    With it, [readValue] reads each of the three words, whatever follows it,
    as a real number: the quiet NaN, the infinity, and the negated infinity
    of the host, with the offsets of the word.  Without it the word is no
    token: [readValue] fails and adds the one error "Syntax error: value,
    object or array expected.", located at the first byte of the word, and
    leaves the stack as it was. *)
Theorem readValue_special_floats (H : Host) (features_ : Features)
        (doc : list Z) (fuel : nat) (r : OurReader H) (ws lit rest : list Z)
        (p : PayloadF H (Value H)) :
  is_ws ws = true ->
  positioned doc r (ws ++ lit ++ rest) ->
  (lit = bytes "NaN" /\ p = realValue (quiet_NaN H))
  \/ (lit = bytes "Infinity" /\ p = realValue (infinity H))
  \/ (lit = bytes "-Infinity" /\ p = realValue (dneg H (infinity H))) ->
  Z.of_nat (List.length (nodes_ r)) <= stackLimit_ features_ ->
  Z.of_nat (List.length (nodes_ r)) < 2 ^ 31 ->
  commentsBefore_ r = [] ->
  (allowSpecialFloats_ features_ = true ->
   exists r',
     readValue features_ doc (S (S fuel)) r = Ok (true, r')
     /\ yields r r'
               (current_ r + Z.of_nat (List.length ws)
                + Z.of_nat (List.length lit))
               (modify_at (top r)
                  (put (leaf p (current_ r + Z.of_nat (List.length ws))
                             (current_ r + Z.of_nat (List.length ws)
                              + Z.of_nat (List.length lit))))
                  (root_ r)))
  /\ (allowSpecialFloats_ features_ = false ->
      exists r' info,
        readValue features_ doc (S (S fuel)) r = Ok (false, r')
        /\ errors_ r' = errors_ r ++ [info]
        /\ message_ info
           = "Syntax error: value, object or array expected."%string
        /\ token_ info
           = getLocationLineAndColumn
               H doc (current_ r + Z.of_nat (List.length ws))
        /\ nodes_ r' = nodes_ r).
Proof. apply readValue_special_floats_here. Qed.

(** X18.  With [rejectDupKeys_], a name the object has already is an
    error: at the colon behind the repeated name [readObject] gives up the
    member before its value is read, records the one error "Duplicate key:
    'name'", located at the first quote of the repeated name, skips to the
    end of the object or of the document, and returns false with the stack
    as it was.  ([parse_tree] has the other case: without [rejectDupKeys_]
    the later value takes the place of the earlier one.) *)
Theorem readObject_duplicate_name (H : Host) (features_ : Features)
        (doc : list Z) (fuel : nat)
        (rec : OurReader H -> result (bool * OurReader H)) (name : list Z)
        (r : OurReader H) (k : list jchar) (ws1 ws2 rest : list Z)
        (slot : Value H) (m : list (list Z * Value H)) :
  Z.of_nat (List.length doc) < 2 ^ 30 ->
  rejectDupKeys_ features_ = true ->
  is_ws ws1 = true -> forallb jchar_ok k = true -> is_ws ws2 = true ->
  positioned doc r (ws1 ++ print_string k ++ ws2 ++ c_COLON :: rest) ->
  get_at (top r) (root_ r) = Some slot ->
  payload slot = objectValue m ->
  In (decode_chars k) (map fst m) ->
  (List.length rest < fuel)%nat ->
  exists r',
    readObject_loop features_ doc rec (S fuel) name r = Ok (false, r')
    /\ errors_ r'
       = errors_ r
         ++ [{| token_ := getLocationLineAndColumn
                            H doc (current_ r + Z.of_nat (List.length ws1));
                message_ := "Duplicate key: '"
                            ++ string_of_bytes (decode_chars k) ++ "'";
                extra_ := noLocation |}]
    /\ nodes_ r' = nodes_ r
    /\ current_ r + Z.of_nat (List.length ws1)
       + Z.of_nat (List.length (print_string k))
       + Z.of_nat (List.length ws2) + 1 <= current_ r' <= end_ doc.
Proof. intros Hsmall. apply readObject_loop_duplicate. exact Hsmall. Qed.

(** X19.  Without [allowComments_] a comment is no white space: where
    [readValue] expects a value and finds a slash, be it the start of a
    well-formed comment or not, it fails and adds the one error "Syntax
    error: value, object or array expected.", located at the slash, and
    leaves the stack as it was.  ([parse] switches the collecting of
    comments off when they are not allowed.) *)
Theorem readValue_comment_not_allowed (H : Host) (features_ : Features)
        (doc : list Z) (fuel : nat) (r : OurReader H) (ws rest : list Z) :
  allowComments_ features_ = false ->
  collectComments_ r = false ->
  is_ws ws = true ->
  positioned doc r (ws ++ c_SLASH :: rest) ->
  Z.of_nat (List.length (nodes_ r)) <= stackLimit_ features_ ->
  Z.of_nat (List.length (nodes_ r)) < 2 ^ 31 ->
  exists r' info,
    readValue features_ doc (S fuel) r = Ok (false, r')
    /\ errors_ r' = errors_ r ++ [info]
    /\ message_ info
       = "Syntax error: value, object or array expected."%string
    /\ token_ info
       = getLocationLineAndColumn H doc (current_ r + Z.of_nat (List.length ws))
    /\ nodes_ r' = nodes_ r.
Proof. apply readValue_comment_here. Qed.

(** X20.  With [allowComments_], a comment before a token is skipped like
    white space: for a reader that does not collect comments,
    [skipCommentTokens] on white space and a comment is [skipCommentTokens]
    behind the comment.  A line comment reaches over the end of its line
    (one LF, one CR, CR LF, or the end of the document); a C-style comment
    reaches over its first [*/]. *)
Theorem skipCommentTokens_skips_comments (H : Host) (features_ : Features)
        (doc : list Z) (fuel : nat) (r : OurReader H)
        (ws body rest : list Z) :
  allowComments_ features_ = true ->
  collectComments_ r = false ->
  is_ws ws = true ->
  (forall eol : list Z,
      positioned doc r (ws ++ c_SLASH :: c_SLASH :: body ++ eol ++ rest) ->
      no_eol body ->
      eol = [c_LF] \/ eol = [c_CR; c_LF]
      \/ (eol = [c_CR] /\ forall t, rest <> c_LF :: t)
      \/ (eol = [] /\ rest = []) ->
      skipCommentTokens features_ doc (S fuel) r
      = skipCommentTokens
          features_ doc fuel
          (set_current r (current_ r + Z.of_nat (List.length ws) + 2
                          + Z.of_nat (List.length body)
                          + Z.of_nat (List.length eol))))
  /\ (positioned doc r (ws ++ c_SLASH :: c_STAR
                           :: body ++ c_STAR :: c_SLASH :: rest) ->
      no_comment_end (body ++ [c_STAR]) ->
      skipCommentTokens features_ doc (S fuel) r
      = skipCommentTokens
          features_ doc fuel
          (set_current r (current_ r + Z.of_nat (List.length ws) + 2
                          + Z.of_nat (List.length body) + 2))).
Proof. apply skipCommentTokens_comments_here. Qed.

(** X13.  Reading a well-formed document gives the tree it stands for.  For a
    value between white space, of a depth within [stackLimit_], which is an
    array or an object when [strictRoot_] asks for one, and whose objects
    have no name twice when [rejectDupKeys_] forbids it, [parse] succeeds
    with an empty journal, and the root it leaves has the payload of [tree]:
    the booleans, the null, the numbers as [decodeNumber] reads their
    literals, the strings with their escapes decoded, the elements in the
    order of the text, the members under their decoded names in the order of
    their first occurrence, each with the offsets of the first byte of its
    text and of the byte behind it.  Where a name comes again, the later
    value takes the place of the earlier one ([upsert]).  The comments the
    root had are kept.  No setting of the other features changes this. *)
Theorem parse_tree (H : Host) (features_ : Features)
        (ws1 : list Z) (v : json) (ws2 : list Z) (root : Value H)
        (collectComments : bool) (fuel : nat) :
  scans_numbers H ->
  is_ws ws1 = true -> json_ok v = true ->
  rejectDupKeys_ features_ = false \/ names_distinct v ->
  is_ws ws2 = true ->
  (strictRoot_ features_ = true -> is_container v = true) ->
  Z.of_nat (depth v) <= stackLimit_ features_ ->
  Z.of_nat (List.length (document ws1 v ws2)) < 2 ^ 30 ->
  (List.length (document ws1 v ws2) < fuel)%nat ->
  exists r',
    parse features_ (document ws1 v ws2) fuel root collectComments
    = Ok (true, r')
    /\ errors_ r' = []
    /\ root_ r' = put (tree (Z.of_nat (List.length ws1)) v) root.
Proof.
  intros Hscan Hws1 Hv Hnd Hws2 Hroot Hd Hsmall Hfuel.
  apply (parse_tree_tail H features_ (document ws1 v ws2) Hscan Hsmall
           ws1 v ws2 fuel root collectComments eq_refl Hws1 Hv Hnd
           (follower_ws ws2 Hws2)); try assumption.
  intros r1 P1. exact (readToken_trailing_exact H features_ _ r1 ws2 Hws2 P1).
Qed.

(** X16.  A NUL byte ends the document for the reader: [readToken] takes it
    for the end of the stream.  A well-formed value followed by white space,
    a NUL byte and any bytes at all parses as the value alone, with success
    and an empty journal, also when [failIfExtra_] asks that nothing but
    white space follow the value: what is behind the NUL byte is never
    read. *)
Theorem parse_stops_at_NUL (H : Host) (features_ : Features)
        (ws1 : list Z) (v : json) (ws2 garbage : list Z) (root : Value H)
        (collectComments : bool) (fuel : nat) :
  scans_numbers H ->
  is_ws ws1 = true -> json_ok v = true ->
  rejectDupKeys_ features_ = false \/ names_distinct v ->
  is_ws ws2 = true ->
  (strictRoot_ features_ = true -> is_container v = true) ->
  Z.of_nat (depth v) <= stackLimit_ features_ ->
  Z.of_nat (List.length (ws1 ++ print v ++ ws2 ++ c_NUL :: garbage)) < 2 ^ 30 ->
  (List.length (ws1 ++ print v ++ ws2 ++ c_NUL :: garbage) < fuel)%nat ->
  exists r',
    parse features_ (ws1 ++ print v ++ ws2 ++ c_NUL :: garbage) fuel root
          collectComments
    = Ok (true, r')
    /\ errors_ r' = []
    /\ root_ r' = put (tree (Z.of_nat (List.length ws1)) v) root.
Proof.
  intros Hscan Hws1 Hv Hnd Hws2 Hroot Hd Hsmall Hfuel.
  apply (parse_tree_tail H features_ _ Hscan Hsmall
           ws1 v (ws2 ++ c_NUL :: garbage) fuel root collectComments eq_refl
           Hws1 Hv Hnd (follower_ws_nul ws2 garbage Hws2)); try assumption.
  intros r1 P1.
  exact (readToken_trailing_nul H features_ _ r1 ws2 garbage Hws2 P1).
Qed.

(** * Evaluations *)

(** ** Numbers *)

Lemma decodeNumber_promotion_witness :
  decodeNumber_to (bytes "-9223372036854775808")
                  {| type_ := tokenNumber; offsetStart_ := 0; offsetEnd_ := 20 |}
                  (reader_at (H := plainHost) Value_null true 20)
  = (true, Value_of (intValue (-9223372036854775808)),
     reader_at Value_null true 20).
Proof.
  apply (decodeNumber_promotion plainHost (bytes "-9223372036854775808")
           {| type_ := tokenNumber; offsetStart_ := 0; offsetEnd_ := 20 |}
           (reader_at Value_null true 20) true (bytes "9223372036854775808")).
  - vm_compute. split; discriminate.
  - simpl. lia.
  - reflexivity.
  - reflexivity.
  - left. reflexivity.
Defined.

(** The literals of the spec, on a host whose [Value::maxInt] is 2^31 - 1. *)
Lemma parse_12345678901234567890 :
  outcome (parse_bytes plainHost defaultFeatures (bytes "12345678901234567890"))
  = Ok (true, leaf (uintValue 12345678901234567890) 0 20, []).
Proof. vm_compute. reflexivity. Qed.

Lemma parse_9223372036854775807 :
  outcome (parse_bytes plainHost defaultFeatures (bytes "9223372036854775807"))
  = Ok (true, leaf (uintValue 9223372036854775807) 0 19, []).
Proof. vm_compute. reflexivity. Qed.

Lemma parse_minus_9223372036854775808 :
  outcome (parse_bytes plainHost defaultFeatures (bytes "-9223372036854775808"))
  = Ok (true, leaf (intValue (-9223372036854775808)) 0 20, []).
Proof. vm_compute. reflexivity. Qed.

Lemma parse_18446744073709551616 :
  outcome (parse_bytes plainHost defaultFeatures (bytes "18446744073709551616"))
  = Ok (true,
        leaf (@realValue plainHost _ (bytes "18446744073709551616")) 0 20,
        []).
Proof. vm_compute. reflexivity. Qed.

(** On every host, whatever its [Value::maxInt] within the signed range, the
    literal 12345678901234567890 stays on the integer path: it does not
    exceed the greatest unsigned integer. *)
Lemma decodeNumber_12345678901234567890 (H : Host) (r : OurReader H) :
  0 <= maxInt H <= maxLargestInt ->
  decodeNumber_to (bytes "12345678901234567890")
                  {| type_ := tokenNumber; offsetStart_ := 0; offsetEnd_ := 20 |}
                  r
  = (true, Value_of (uintValue 12345678901234567890), r).
Proof.
  intros HmaxInt.
  rewrite (decodeNumber_to_spec H (bytes "12345678901234567890")
             {| type_ := tokenNumber; offsetStart_ := 0; offsetEnd_ := 20 |}
             r false (bytes "12345678901234567890") HmaxInt
             ltac:(simpl; lia) eq_refl eq_refl
             ltac:(right; discriminate)).
  change (digits_value (bytes "12345678901234567890"))
    with 12345678901234567890.
  cbv zeta. change (12345678901234567890 <=? maxLargestUInt) with true.
  cbv iota. unfold maxLargestInt in HmaxInt.
  destruct (Z.leb_spec 12345678901234567890 (maxInt H)); [lia|reflexivity].
Qed.

(** ** Strings *)

Lemma decodeString_unicode_escape_witness :
  decodeString_loop (json_text "`\uD83D\uDE00`") 13
    {| type_ := tokenString; offsetStart_ := 0; offsetEnd_ := 14 |} 1 13 []
    (reader_at (H := plainHost) Value_null true 14)
  = decodeString_loop (json_text "`\uD83D\uDE00`") 12
      {| type_ := tokenString; offsetStart_ := 0; offsetEnd_ := 14 |} 13 13
      ([] ++ codePointToUTF8 0x1F600)
      (reader_at Value_null true 14).
Proof.
  apply (decodeString_unicode_escape plainHost (json_text "`\uD83D\uDE00`") 12
           {| type_ := tokenString; offsetStart_ := 0; offsetEnd_ := 14 |}
           1 13 [] (reader_at Value_null true 14) (bytes "D83D\uDE00")).
  - lia.
  - vm_compute. discriminate.
  - reflexivity.
Defined.

Lemma parse_surrogate_pair :
  outcome (parse_bytes plainHost defaultFeatures (json_text "`\uD83D\uDE00`"))
  = Ok (true, leaf (stringValue [0xF0; 0x9F; 0x98; 0x80]) 0 14, []).
Proof. vm_compute. reflexivity. Qed.

(** A low surrogate without a high one before it is no error. *)
Lemma parse_lone_low_surrogate :
  outcome (parse_bytes plainHost defaultFeatures (json_text "`\uDE00`"))
  = Ok (true, leaf (stringValue [0xED; 0xB8; 0x80]) 0 8, []).
Proof. vm_compute. reflexivity. Qed.

(** A high surrogate followed by an escape that is no low surrogate is no
    error either: 0x10000 + ((0xD83D & 0x3FF) << 10) + (0x0041 & 0x3FF)
    is 0x1F441. *)
Lemma parse_high_surrogate_then_letter :
  outcome (parse_bytes plainHost defaultFeatures (json_text "`\uD83D\u0041`"))
  = Ok (true, leaf (stringValue (codePointToUTF8 0x1F441)) 0 14, []).
Proof. vm_compute. reflexivity. Qed.

(** A high surrogate at the end of the string is an error. *)
Lemma parse_lone_high_surrogate :
  outcome (parse_bytes plainHost defaultFeatures (json_text "`\uD83D`"))
  = Ok (false, leaf nullValue 0 0,
        [ {| token_ := {| line_ := 1; column_ := 1 |};
             message_ :=
               "additional six characters expected to parse unicode surrogate pair.";
             extra_ := {| line_ := 1; column_ := 8 |} |} ]).
Proof. vm_compute. reflexivity. Qed.


Lemma parse_single_quoted_with_double_quote :
  outcome (parse_bytes plainHost singleQuoteFeatures (json_text "'a`b'"))
  = Ok (true, leaf (stringValue (bytes "a")) 0 5, []).
Proof. vm_compute. reflexivity. Qed.

(** ** Input after the value *)

(** In strict mode the token after the value is an Error token (the letter g
    starts no token), and [parse] reports it all the same. *)
Lemma parse_strict_garbage :
  exists token r,
    skipCommentTokens strictFeatures (json_text "{ `x`: 1 } garbage") 20
      (reader_at (H := plainHost)
         (leaf (objectValue [(bytes "x", leaf (intValue 1) 7 8)]) 0 10)
         false 10)
    = Ok (token, r)
    /\ type_ token = tokenError
    /\ failIfExtra_ strictFeatures = true
    /\ outcome (parse_bytes plainHost strictFeatures
                            (json_text "{ `x`: 1 } garbage"))
       = Ok (false,
             leaf (objectValue [(bytes "x", leaf (intValue 1) 7 8)]) 0 10,
             [ {| token_ := {| line_ := 1; column_ := 12 |};
                  message_ := "Extra non-whitespace after JSON value.";
                  extra_ := noLocation |} ]).
Proof. do 2 eexists. vm_compute. repeat split; reflexivity. Qed.

(** With the defaults and failIfExtra alone, the same Error token is let
    through. *)
Lemma parse_fail_if_extra_garbage :
  outcome (parse_bytes plainHost failIfExtraFeatures
                       (json_text "{ `x`: 1 } garbage"))
  = Ok (true, leaf (objectValue [(bytes "x", leaf (intValue 1) 7 8)]) 0 10, []).
Proof. vm_compute. reflexivity. Qed.

Lemma parse_fail_if_extra_second_value :
  outcome (parse_bytes plainHost failIfExtraFeatures
                       (json_text "{ `x`: 1 } 2"))
  = Ok (false, leaf (objectValue [(bytes "x", leaf (intValue 1) 7 8)]) 0 10,
        [ {| token_ := {| line_ := 1; column_ := 12 |};
             message_ := "Extra non-whitespace after JSON value.";
             extra_ := noLocation |} ]).
Proof. vm_compute. reflexivity. Qed.

Lemma parse_default_garbage :
  outcome (parse_bytes plainHost defaultFeatures
                       (json_text "{ `x`: 1 } garbage"))
  = Ok (true, leaf (objectValue [(bytes "x", leaf (intValue 1) 7 8)]) 0 10, []).
Proof. vm_compute. reflexivity. Qed.

Lemma parse_fail_if_extra_witness :
  exists r,
    parse (H := plainHost) strictFeatures (json_text "{ `x`: 1 } garbage") 20
          Value_null true
    = Ok (false, r)
    /\ errors_ r
       = [ extraError plainHost (json_text "{ `x`: 1 } garbage")
             {| type_ := tokenError; offsetStart_ := 11; offsetEnd_ := 12 |} ].
Proof.
  let v1 :=
    eval vm_compute in
      (readValue strictFeatures (json_text "{ `x`: 1 } garbage") 20
                 (reader_at (H := plainHost) Value_null false 0)) in
  match v1 with
  | Ok (?s, ?r1) =>
      let v2 :=
        eval vm_compute in
          (skipCommentTokens strictFeatures (json_text "{ `x`: 1 } garbage")
                             20 r1) in
      match v2 with
      | Ok (?tok, ?r2) =>
          pose proof
            (parse_fail_if_extra plainHost strictFeatures
               (json_text "{ `x`: 1 } garbage") 20 Value_null true s r1 r2 tok
               ltac:(vm_compute; reflexivity) ltac:(vm_compute; reflexivity))
            as W
      end
  end.
  match type of W with
  | (if _ then ?A else _) => change A in W
  end.
  eexists. split; [exact W|]. reflexivity.
Defined.

(** ** Objects *)

Lemma parse_empty_object :
  outcome (parse_bytes plainHost defaultFeatures (json_text "{}"))
  = Ok (true, leaf (objectValue []) 0 2, []).
Proof. vm_compute. reflexivity. Qed.

(** After a member with a non-empty name and its comma, the closing brace is
    refused. *)
Lemma parse_object_trailing_comma :
  outcome (parse_bytes plainHost defaultFeatures (json_text "{`a`:1,}"))
  = Ok (false, leaf (objectValue [(bytes "a", leaf (intValue 1) 5 6)]) 0 8,
        [ {| token_ := {| line_ := 1; column_ := 8 |};
             message_ := "Missing '}' or object member name";
             extra_ := noLocation |} ]).
Proof. vm_compute. reflexivity. Qed.

(** After a member with the empty name and its comma, the closing brace is
    accepted: the test is on the name last read, not on the members. *)
Lemma parse_object_empty_key_trailing_comma :
  outcome (parse_bytes plainHost defaultFeatures (json_text "{``:1,}"))
  = Ok (true, leaf (objectValue [([], leaf (intValue 1) 4 5)]) 0 7, []).
Proof. vm_compute. reflexivity. Qed.

(** ** Dropped null placeholders *)

(** The second comma of [[1,,2]], met by [readValue] for the element 1 of
    the array: the element becomes null at the offsets 2 and 3, the element
    0 stays, and the comma is read once more. *)
Lemma readValue_dropped_null_placeholder_witness :
  let doc := bytes "[1,,2]" in
  let r : OurReader plainHost :=
    {| root_ := leaf (arrayValue [leaf (intValue 1) 1 2; Value_null]) 0 0;
       nodes_ := [[Index 1%nat]; []]; errors_ := []; current_ := 3;
       lastValueEnd_ := Some 2; lastValue_ := Some [Index 0%nat];
       commentsBefore_ := []; collectComments_ := true |} in
  let token :=
    {| type_ := tokenArraySeparator; offsetStart_ := 3; offsetEnd_ := 4 |} in
  exists r' : OurReader plainHost,
    readValue droppedNullFeatures doc 2 r = Ok (true, r')
    /\ current_ r' = 3
    /\ get_at [Index 1%nat] (root_ r') = Some (leaf nullValue 2 3)
    /\ root_ r'
       = leaf (arrayValue [leaf (intValue 1) 1 2; leaf nullValue 2 3]) 0 0
    /\ nodes_ r' = [[Index 1%nat]; []]
    /\ errors_ r' = []
    /\ lastValueEnd_ r' = Some 3
    /\ lastValue_ r' = Some [Index 1%nat]
    /\ readToken droppedNullFeatures doc r' = (true, token, set_current r' 4).
Proof.
  intros doc r token.
  destruct (proj1 readValue_dropped_null_placeholder plainHost
              droppedNullFeatures doc 1%nat r (set_current r 4) token
              Value_null)
    as (r' & v & E & C & G & P & S & L & Cb & Cs & Ca & R & N & Er & Cc & Cbf
        & Lve & Lv & T & _).
  - reflexivity.
  - vm_compute. discriminate.
  - reflexivity.
  - left. reflexivity.
  - reflexivity.
  - assert (Ev : v = leaf nullValue 2 3).
    { destruct v as [p a b cb cs ca].
      cbn [payload offsetStart offsetLimit comment_before
           comment_after_on_same_line comment_after] in *.
      rewrite C in S, L. subst. reflexivity. }
    subst v. exists r'.
    split; [exact E|]. split; [exact C|].
    split; [rewrite R; reflexivity|]. split; [rewrite R; reflexivity|].
    split; [exact N|]. split; [exact Er|].
    split; [rewrite Lve, C; reflexivity|]. split; [exact Lv|].
    apply T. vm_compute. split; discriminate.
Defined.

Lemma parse_dropped_null_placeholder :
  outcome (parse_bytes plainHost droppedNullFeatures (bytes "[1, 2, , 3]"))
  = Ok (true,
        leaf (arrayValue [ leaf (intValue 1) 1 2; leaf (intValue 2) 4 5;
                           leaf nullValue 6 7; leaf (intValue 3) 9 10 ])
             0 11,
        []).
Proof. vm_compute. reflexivity. Qed.

(** ** Recovery *)

Lemma recoverFromError_restores_journal_witness :
  exists r,
    recoverFromError (H := plainHost) defaultFeatures (bytes "1 x ] 2") 8
                     tokenArrayEnd (reader_at Value_null true 0)
    = Ok (false, r)
    /\ skipped_until defaultFeatures (bytes "1 x ] 2") tokenArrayEnd
                     (reader_at Value_null true 0) r
    /\ errors_ r = errors_ (reader_at (H := plainHost) Value_null true 0).
Proof.
  apply (recoverFromError_restores_journal plainHost defaultFeatures
           (bytes "1 x ] 2") 8 tokenArrayEnd (reader_at Value_null true 0)).
  - vm_compute. split; discriminate.
  - vm_compute. lia.
Defined.

Lemma recoverFromError_cursor :
  exists r,
    recoverFromError (H := plainHost) defaultFeatures (bytes "1 x ] 2") 8
                     tokenArrayEnd (reader_at Value_null true 0)
    = Ok (false, r)
    /\ current_ r = 5.
Proof. eexists. vm_compute. split; reflexivity. Qed.

(** ** Locations *)

(** The offset of the line feed of a CR LF pair: the pair has been counted
    as one terminator, the line start lies one byte past the offset, and the
    column is 0. *)
Lemma getLocationLineAndColumn_inside_CRLF (H : Host) :
  getLocationLineAndColumn H [c_CR; c_LF] 1 = {| line_ := 2; column_ := 0 |}.
Proof. vm_compute. reflexivity. Qed.

(** The reader reports such a location: a backslash before a CR LF pair in a
    string is a bad escape, whose detail location is the line feed. *)
Lemma parse_bad_escape_before_CRLF :
  outcome (parse_bytes plainHost defaultFeatures
                       [c_DQUOTE; c_BACKSLASH; c_CR; c_LF; c_DQUOTE])
  = Ok (false, leaf nullValue 0 0,
        [ {| token_ := {| line_ := 1; column_ := 1 |};
             message_ := "Bad escape sequence in string";
             extra_ := {| line_ := 2; column_ := 0 |} |} ]).
Proof. vm_compute. reflexivity. Qed.

Lemma getLocationLineAndColumn_examples (H : Host) :
  getLocationLineAndColumn H (bytes "ab") 0 = {| line_ := 1; column_ := 1 |}
  /\ getLocationLineAndColumn H [97; c_CR; c_LF; 98] 3
     = {| line_ := 2; column_ := 1 |}
  /\ getLocationLineAndColumn H [97; c_CR; 98] 2
     = {| line_ := 2; column_ := 1 |}
  /\ getLocationLineAndColumn H [97; c_LF; 98] 3
     = {| line_ := 2; column_ := 2 |}.
Proof. vm_compute. repeat split; reflexivity. Qed.

(** ** Documents without a value *)

Lemma parse_blank_document_witness :
  exists r,
    parse (H := plainHost) defaultFeatures [c_SPACE; c_LF; c_TAB] 2 Value_null
          true
    = Ok (false, r)
    /\ errors_ r
       = [ {| token_ := {| line_ := 2; column_ := 2 |};
              message_ := "Syntax error: value, object or array expected.";
              extra_ := noLocation |} ].
Proof.
  apply (parse_blank_document plainHost [c_SPACE; c_LF; c_TAB] Value_null true 2).
  - reflexivity.
  - lia.
  - reflexivity.
Defined.

(** A carriage return that ends the document, with memory that goes on
    with a byte other than a line feed: line 2, column 1. *)
Lemma parse_blank_CR :
  outcome (parse_bytes plainHost defaultFeatures [c_CR])
  = Ok (false, leaf nullValue 1 1,
        [ {| token_ := {| line_ := 2; column_ := 1 |};
             message_ := "Syntax error: value, object or array expected.";
             extra_ := noLocation |} ]).
Proof. vm_compute. reflexivity. Qed.

(** C10.  On a document that is empty or holds only spaces, tabs, carriage
    returns and line feeds, [parse] with the default features returns false
    with exactly one entry in the journal, with the message of the missing
    value, at the line and the column of the end of the document: one more
    than the document has line ends, and one more than it has bytes behind
    the last of them.  But not always: for a document that ends in a
    carriage return [getLocationLineAndColumn] reads the byte behind it,
    which is the byte at [end_] and no part of the document, and when that
    is a line feed it steps over it, so that the line start lies one byte
    behind the end of the document and the column is 0.  The document that
    is one carriage return, handed over as a range of a buffer that goes on
    with a line feed, has its entry at line 2, column 0, where the end of
    the document is line 2, column 1. *)
Theorem parse_blank_CR_before_LF :
  (forall (H : Host) (doc : list Z) (root : Value H) (collectComments : bool)
          (fuel : nat),
      forallb is_space doc = true ->
      (2 <= fuel)%nat ->
      Z.of_nat (List.length doc) < 2 ^ 31 - 1 ->
      exists r,
        parse defaultFeatures doc fuel root collectComments = Ok (false, r)
        /\ errors_ r
           = [ {| token_ :=
                    {| line_ := line_ends doc + 1;
                       column_ :=
                         if ends_in_CR doc && (past_the_end H doc =? c_LF)
                         then 0
                         else bytes_behind_line_end 0 doc + 1 |};
                  message_ :=
                    "Syntax error: value, object or array expected.";
                  extra_ := noLocation |} ])
  /\ outcome (parse_bytes lineFeedBehind defaultFeatures [c_CR])
     = Ok (false, leaf nullValue 1 1,
           [ {| token_ := {| line_ := 2; column_ := 0 |};
                message_ := "Syntax error: value, object or array expected.";
                extra_ := noLocation |} ]).
Proof.
  split; [exact parse_blank_document|vm_compute; reflexivity].
Qed.

Lemma parse_empty_document :
  outcome (parse_bytes plainHost defaultFeatures [])
  = Ok (false, leaf nullValue 0 0,
        [ {| token_ := {| line_ := 1; column_ := 1 |};
             message_ := "Syntax error: value, object or array expected.";
             extra_ := noLocation |} ]).
Proof. vm_compute. reflexivity. Qed.

(** ** Depth *)

Lemma plainHost_scans : scans_numbers plainHost.
Proof.
  intros l E. cbn [sscanf_lf fixNumericLocaleInput plainHost]. rewrite E.
  split; discriminate.
Qed.


Lemma parse_strict_depth_4_limit_2 :
  outcome (parse_bytes plainHost (strictStackLimitFeatures 2)
                       (json_text "[[{`a`:1}],[]]"))
  = Fatal "Exceeded stackLimit in readValue().".
Proof. vm_compute. reflexivity. Qed.

Lemma parse_strict_depth_2_limit_2 :
  outcome (parse_bytes plainHost (strictStackLimitFeatures 2)
                       (json_text "[{},[]]"))
  = Ok (true,
        leaf (arrayValue [leaf (objectValue []) 1 3; leaf (arrayValue []) 4 6])
             0 7,
        []).
Proof. vm_compute. reflexivity. Qed.

Lemma parse_depth_3_limit_3 :
  outcome (parse_bytes plainHost (stackLimitFeatures 3)
                       (json_text "{`a`: [1, []]}"))
  = Ok (true,
        leaf (objectValue
                [(bytes "a",
                  leaf (arrayValue [leaf (intValue 1) 7 8;
                                    leaf (arrayValue []) 10 12]) 6 13)])
             0 14,
        []).
Proof. vm_compute. reflexivity. Qed.

Lemma parse_depth_3_limit_2 :
  outcome (parse_bytes plainHost (stackLimitFeatures 2)
                       (json_text "{`a`: [1, []]}"))
  = Fatal "Exceeded stackLimit in readValue().".
Proof. vm_compute. reflexivity. Qed.

Lemma parse_depth_1_limit_0 :
  outcome (parse_bytes plainHost (stackLimitFeatures 0) (json_text "1"))
  = Fatal "Exceeded stackLimit in readValue().".
Proof. vm_compute. reflexivity. Qed.


Lemma parse_strict_duplicate_name :
  outcome (parse_bytes plainHost strictFeatures (json_text "{`a`:1,`a`:2}"))
  = Ok (false,
        leaf (objectValue [(bytes "a", leaf (intValue 1) 5 6)]) 0 13,
        [ {| token_ := {| line_ := 1; column_ := 8 |};
             message_ := "Duplicate key: 'a'";
             extra_ := noLocation |} ]).
Proof. vm_compute. reflexivity. Qed.

(** ** The run of the parser *)

Lemma parse_terminates_witness :
  (exists ok r,
      parse (H := plainHost) strictFeatures (json_text "[1, {`a`: tru") 20
            Value_null true
      = Ok (ok, r))
  \/ (exists message,
         parse (H := plainHost) strictFeatures (json_text "[1, {`a`: tru") 20
               Value_null true
         = Fatal message
         /\ is_fatal_message message).
Proof.
  apply (parse_terminates plainHost strictFeatures
                          (json_text "[1, {`a`: tru") 20 Value_null true).
  vm_compute. lia.
Defined.

Lemma parse_success_iff_no_error_witness :
  exists ok r,
    parse (H := plainHost) strictFeatures (json_text "[1, {`a`: tru") 20
          Value_null true
    = Ok (ok, r)
    /\ (ok = true <-> errors_ r = [])
    /\ (List.length (errors_ r) <= 2)%nat
    /\ nodes_ r = [[]]
    /\ 0 <= current_ r <= end_ (json_text "[1, {`a`: tru").
Proof.
  let v :=
    eval vm_compute in
      (parse (H := plainHost) strictFeatures (json_text "[1, {`a`: tru") 20
             Value_null true) in
  match v with
  | Ok (?ok, ?r) =>
      exists ok, r; split;
      [ vm_compute; reflexivity
      | apply (parse_success_iff_no_error
                 plainHost strictFeatures (json_text "[1, {`a`: tru") 20
                 Value_null true ok r);
        [ vm_compute; lia | vm_compute; reflexivity ] ]
  end.
Defined.

Lemma readValue_keeps_stack_and_journal_witness :
  settled (json_text "[1, {`a`: tru")
          (reader_at (H := plainHost) Value_null false 0)
          (readValue strictFeatures (json_text "[1, {`a`: tru") 20
                     (reader_at (H := plainHost) Value_null false 0)).
Proof.
  apply (readValue_keeps_stack_and_journal
           plainHost strictFeatures (json_text "[1, {`a`: tru") 20
           (reader_at Value_null false 0)).
  - vm_compute. split; discriminate.
  - vm_compute. lia.
Defined.

(** ** The scanners *)

Lemma readToken_progress_witness :
  exists token r',
    readToken defaultFeatures (json_text "  `ab` ")
              (reader_at (H := plainHost) Value_null false 0)
    = (true, token, r')
    /\ type_ token = tokenString
    /\ offsetStart_ token = 2 /\ offsetEnd_ token = 6 /\ current_ r' = 6
    /\ (type_ token <> tokenEndOfStream -> 0 < current_ r')
    /\ (type_ token = tokenString -> offsetStart_ token + 2 <= offsetEnd_ token).
Proof.
  let v :=
    eval vm_compute in
      (readToken defaultFeatures (json_text "  `ab` ")
                 (reader_at (H := plainHost) Value_null false 0)) in
  match v with
  | (?ok, ?token, ?r') =>
      exists token, r';
      pose proof (readToken_progress
                    plainHost defaultFeatures (json_text "  `ab` ")
                    (reader_at Value_null false 0) r' ok token
                    ltac:(vm_compute; split; discriminate)
                    ltac:(vm_compute; reflexivity))
        as (_ & _ & _ & _ & Hmove & Hquotes & _)
  end.
  split; [vm_compute; reflexivity|].
  split; [reflexivity|]. split; [reflexivity|]. split; [reflexivity|].
  split; [reflexivity|]. split; [exact Hmove|exact Hquotes].
Defined.

Lemma match_prefix_witness :
  (match_ (bytes "null") (bytes "ull")
          (reader_at (H := plainHost) Value_null false 1)
   = (true,
      set_current (reader_at (H := plainHost) Value_null false 1)
                  (1 + Z.of_nat (List.length (bytes "ull"))))
   /\ exists rest, suffix (bytes "null") 1 = bytes "ull" ++ rest)
  \/ (match_ (bytes "null") (bytes "ull")
             (reader_at (H := plainHost) Value_null false 1)
      = (false, reader_at (H := plainHost) Value_null false 1)
      /\ forall rest, suffix (bytes "null") 1 <> bytes "ull" ++ rest).
Proof.
  apply (match_prefix plainHost (bytes "null") (bytes "ull")
                      (reader_at Value_null false 1)).
  vm_compute. split; discriminate.
Defined.

Lemma skipSpaces_stops_at_solid_witness :
  exists ws rest,
    suffix (json_text "  [1]") 0 = ws ++ rest
    /\ is_ws ws = true /\ solid rest
    /\ skipSpaces (json_text "  [1]")
                  (reader_at (H := plainHost) Value_null false 0)
       = set_current (reader_at (H := plainHost) Value_null false 0)
                     (0 + Z.of_nat (List.length ws))
    /\ suffix (json_text "  [1]") (0 + Z.of_nat (List.length ws)) = rest.
Proof.
  apply (skipSpaces_stops_at_solid plainHost (json_text "  [1]")
                                   (reader_at Value_null false 0)).
  vm_compute. split; discriminate.
Defined.

Lemma getLocationLineAndColumn_counts_from_one_witness :
  getLocationLineAndColumn plainHost
                           ([c_LBRACE; c_LF; c_SPACE; c_SPACE] ++ [c_COMMA])
                           (Z.of_nat (List.length
                                        [c_LBRACE; c_LF; c_SPACE; c_SPACE]))
  = {| line_ := line_breaks [c_LBRACE; c_LF; c_SPACE; c_SPACE] + 1;
       column_ := bytes_in_last_line 0 [c_LBRACE; c_LF; c_SPACE; c_SPACE] + 1 |}
  /\ 1 <= line_breaks [c_LBRACE; c_LF; c_SPACE; c_SPACE] + 1
  /\ 1 <= bytes_in_last_line 0 [c_LBRACE; c_LF; c_SPACE; c_SPACE] + 1
     <= Z.of_nat (List.length [c_LBRACE; c_LF; c_SPACE; c_SPACE]) + 1.
Proof.
  apply (getLocationLineAndColumn_counts_from_one
           plainHost [c_LBRACE; c_LF; c_SPACE; c_SPACE] [c_COMMA]).
  - intros Hin. repeat (destruct Hin as [Hin|Hin]; [discriminate|]).
    exact Hin.
  - vm_compute. reflexivity.
Defined.

(** ** Strings *)

Lemma decodeUnicodeCodePoint_within_unicode_witness :
  exists cur' cp,
    decodeUnicodeCodePoint
      (c_BACKSLASH :: c_u :: bytes "D83D"
         ++ c_BACKSLASH :: c_u :: bytes "DE00")
      {| type_ := tokenString; offsetStart_ := 0; offsetEnd_ := 12 |}
      2 12 (reader_at (H := plainHost) Value_null false 2)
    = (true, cur', cp, reader_at (H := plainHost) Value_null false 2)
    /\ 0 <= cp <= 0x10FFFF /\ (cp < 0xD800 \/ 0xDBFF < cp)
    /\ (cur' = 2 + 4 \/ cur' = 2 + 10) /\ cur' <= 12.
Proof.
  let v :=
    eval vm_compute in
      (decodeUnicodeCodePoint
         (c_BACKSLASH :: c_u :: bytes "D83D"
            ++ c_BACKSLASH :: c_u :: bytes "DE00")
         {| type_ := tokenString; offsetStart_ := 0; offsetEnd_ := 12 |}
         2 12 (reader_at (H := plainHost) Value_null false 2)) in
  match v with
  | (?ok, ?cur', ?cp, ?r') =>
      exists cur', cp;
      pose proof (decodeUnicodeCodePoint_within_unicode
                    plainHost
                    (c_BACKSLASH :: c_u :: bytes "D83D"
                       ++ c_BACKSLASH :: c_u :: bytes "DE00")
                    {| type_ := tokenString; offsetStart_ := 0;
                       offsetEnd_ := 12 |}
                    2 12 (reader_at Value_null false 2) r' ok cur' cp
                    ltac:(vm_compute; reflexivity))
        as (Hcp & Hhigh & Hcur & Hend & _)
  end.
  split; [vm_compute; reflexivity|].
  split; [exact Hcp|]. split; [exact Hhigh|]. split; [exact Hcur|exact Hend].
Defined.

(** ** Reports *)

Lemma OurCharReader_parse_errs_witness :
  exists r errs,
    OurCharReader_parse (H := plainHost) decimal strictFeatures true
                        (json_text "[1, {`a`: tru") 20 Value_null
    = Ok (false, r, errs)
    /\ (false = true <-> errs = ""%string)
    /\ parse strictFeatures (json_text "[1, {`a`: tru") 20 Value_null true
       = Ok (false, r).
Proof.
  let v :=
    eval vm_compute in
      (OurCharReader_parse (H := plainHost) decimal strictFeatures true
                           (json_text "[1, {`a`: tru") 20 Value_null) in
  match v with
  | Ok (?ok, ?r, ?errs) =>
      exists r, errs; split;
      [ vm_compute; reflexivity
      | apply (OurCharReader_parse_errs
                 plainHost decimal strictFeatures true
                 (json_text "[1, {`a`: tru") 20 Value_null ok r errs);
        [ vm_compute; lia | vm_compute; reflexivity ] ]
  end.
Defined.

(** ** The tree of a well-formed document *)

Lemma parse_tree_witness :
  exists r',
    parse (H := plainHost) strictFeatures
          (document
             [c_SPACE]
             (JObject
                (MCons [] [Plain c_a] [] [c_SPACE]
                       (JArray
                          (ECons []
                                 (JNumber {| minus := true; integer := [c_9; c_0];
                                             fraction := None;
                                             exponent := None |})
                                 [] (ELast [c_SPACE] JTrue [])))
                       []
                       (MLast [c_SPACE] [Plain c_b] [] [c_SPACE]
                              (JString [Escape c_n]) [c_SPACE])))
             [c_LF])
          40 Value_null true
    = Ok (true, r')
    /\ errors_ r' = []
    /\ root_ r'
       = put (tree (Z.of_nat (List.length [c_SPACE]))
                   (JObject
                      (MCons [] [Plain c_a] [] [c_SPACE]
                             (JArray
                                (ECons []
                                       (JNumber {| minus := true;
                                                   integer := [c_9; c_0];
                                                   fraction := None;
                                                   exponent := None |})
                                       [] (ELast [c_SPACE] JTrue [])))
                             []
                             (MLast [c_SPACE] [Plain c_b] [] [c_SPACE]
                                    (JString [Escape c_n]) [c_SPACE]))))
             Value_null.
Proof.
  apply (parse_tree plainHost strictFeatures).
  - exact plainHost_scans.
  - reflexivity.
  - reflexivity.
  - right. cbn. repeat split. repeat constructor.
    + intros [E|[]]. discriminate.
    + intros [].
  - reflexivity.
  - intros _. reflexivity.
  - vm_compute. discriminate.
  - vm_compute. reflexivity.
  - vm_compute. lia.
Defined.

Lemma parse_stops_at_NUL_witness :
  exists r',
    parse (H := plainHost) strictFeatures
          ([c_SPACE] ++ print (JArray (ELast [] JNull [])) ++ [c_LF]
             ++ c_NUL :: bytes "} not read")
          20 Value_null true
    = Ok (true, r')
    /\ errors_ r' = []
    /\ root_ r'
       = put (tree (Z.of_nat (List.length [c_SPACE]))
                   (JArray (ELast [] JNull [])))
             Value_null.
Proof.
  apply (parse_stops_at_NUL plainHost strictFeatures).
  - exact plainHost_scans.
  - reflexivity.
  - reflexivity.
  - right. exact I.
  - reflexivity.
  - intros _. reflexivity.
  - vm_compute. discriminate.
  - vm_compute. reflexivity.
  - vm_compute. lia.
Defined.

(** Without [rejectDupKeys_] the later value takes the place of the
    earlier one. *)
Lemma parse_default_duplicate_name :
  outcome (parse_bytes plainHost defaultFeatures
                       (json_text "{`a`:1,`b`:2,`a`:3}"))
  = Ok (true,
        leaf (objectValue [([c_a], leaf (intValue 3) 17 18);
                           ([c_b], leaf (intValue 2) 11 12)]) 0 19,
        []).
Proof. vm_compute. reflexivity. Qed.

(** ** Comments *)

Lemma readCStyleComment_end_witness :
  readCStyleComment (bytes "/*/")
                    (reader_at (H := plainHost) Value_null false 2)
  = (last (suffix (bytes "/*/") 2) c_NUL =? c_SLASH,
     set_current (reader_at (H := plainHost) Value_null false 2)
                 (end_ (bytes "/*/"))).
Proof.
  apply (proj2 (readCStyleComment_end
                  plainHost (bytes "/*/") (reader_at Value_null false 2)
                  ltac:(vm_compute; split; discriminate))).
  intros body rest E. change (suffix (bytes "/*/") 2) with [c_SLASH] in E.
  destruct body as [|b [|b' body]]; discriminate.
Defined.

(** The text [/*/] is a whole comment for [readToken]. *)
Lemma readToken_unterminated_comment :
  readToken defaultFeatures (bytes "/*/")
            (reader_at (H := plainHost) Value_null false 0)
  = (true,
     {| type_ := tokenComment; offsetStart_ := 0; offsetEnd_ := 3 |},
     reader_at Value_null false 3).
Proof. vm_compute. reflexivity. Qed.

(** ** NaN and the infinities *)

Lemma readValue_special_floats_witness :
  exists r',
    readValue specialFloatsFeatures ([c_SPACE] ++ bytes "NaN" ++ [c_COMMA]) 2
              (reader_at (H := plainHost) Value_null false 0)
    = Ok (true, r')
    /\ yields (reader_at (H := plainHost) Value_null false 0) r'
              (0 + Z.of_nat (List.length [c_SPACE])
               + Z.of_nat (List.length (bytes "NaN")))
              (modify_at
                 (top (reader_at (H := plainHost) Value_null false 0))
                 (put (leaf (realValue (quiet_NaN plainHost))
                            (0 + Z.of_nat (List.length [c_SPACE]))
                            (0 + Z.of_nat (List.length [c_SPACE])
                             + Z.of_nat (List.length (bytes "NaN")))))
                 Value_null).
Proof.
  apply (readValue_special_floats
           plainHost specialFloatsFeatures
           ([c_SPACE] ++ bytes "NaN" ++ [c_COMMA]) 0
           (reader_at Value_null false 0) [c_SPACE] (bytes "NaN") [c_COMMA]
           (realValue (quiet_NaN plainHost))).
  - reflexivity.
  - split; [vm_compute; split; discriminate|reflexivity].
  - left. split; reflexivity.
  - vm_compute. discriminate.
  - vm_compute. reflexivity.
  - reflexivity.
  - reflexivity.
Defined.

(** ** A name for the second time *)

Lemma readObject_duplicate_name_witness :
  exists r',
    readObject_loop
      strictFeatures (json_text "{`a`:1,`a`:2}")
      (readValue strictFeatures (json_text "{`a`:1,`a`:2}") 3) 4 [c_a]
      (reader_at (H := plainHost)
                 (leaf (objectValue [([c_a], leaf (intValue 1) 5 6)]) 0 0)
                 false 7)
    = Ok (false, r')
    /\ errors_ r'
       = [] ++ [{| token_ := getLocationLineAndColumn
                               plainHost (json_text "{`a`:1,`a`:2}")
                               (7 + Z.of_nat (List.length (@nil Z)));
                   message_ := "Duplicate key: '"
                               ++ string_of_bytes (decode_chars [Plain c_a])
                               ++ "'";
                   extra_ := noLocation |}]
    /\ nodes_ r' = [[]]
    /\ 7 + Z.of_nat (List.length (@nil Z))
       + Z.of_nat (List.length (print_string [Plain c_a]))
       + Z.of_nat (List.length (@nil Z)) + 1
       <= current_ r' <= end_ (json_text "{`a`:1,`a`:2}").
Proof.
  apply (readObject_duplicate_name
           plainHost strictFeatures (json_text "{`a`:1,`a`:2}") 3
           (readValue strictFeatures (json_text "{`a`:1,`a`:2}") 3) [c_a]
           (reader_at (leaf (objectValue [([c_a], leaf (intValue 1) 5 6)]) 0 0)
                      false 7)
           [Plain c_a] [] [] (bytes "2}")
           (leaf (objectValue [([c_a], leaf (intValue 1) 5 6)]) 0 0)
           [([c_a], leaf (intValue 1) 5 6)]).
  - vm_compute. reflexivity.
  - reflexivity.
  - reflexivity.
  - reflexivity.
  - reflexivity.
  - split; [vm_compute; split; discriminate|reflexivity].
  - reflexivity.
  - reflexivity.
  - left. reflexivity.
  - vm_compute. lia.
Defined.

(** ** A comment that is not allowed *)

Lemma readValue_comment_not_allowed_witness :
  exists r' info,
    readValue strictFeatures (json_text " /* c */ [1]") 1
              (reader_at (H := plainHost) Value_null false 0)
    = Ok (false, r')
    /\ errors_ r' = [] ++ [info]
    /\ message_ info
       = "Syntax error: value, object or array expected."%string
    /\ token_ info
       = getLocationLineAndColumn plainHost (json_text " /* c */ [1]")
                                  (0 + Z.of_nat (List.length [c_SPACE]))
    /\ nodes_ r' = [[]].
Proof.
  apply (readValue_comment_not_allowed
           plainHost strictFeatures (json_text " /* c */ [1]") 0
           (reader_at Value_null false 0) [c_SPACE] (bytes "* c */ [1]")).
  - reflexivity.
  - reflexivity.
  - reflexivity.
  - split; [vm_compute; split; discriminate|reflexivity].
  - vm_compute. discriminate.
  - vm_compute. reflexivity.
Defined.

(** ** A comment that is allowed *)

Lemma skipCommentTokens_skips_comments_witness :
  skipCommentTokens
    defaultFeatures
    ([c_TAB] ++ c_SLASH :: c_STAR :: [c_SPACE] ++ c_STAR :: c_SLASH :: [c_0])
    (S 3) (reader_at (H := plainHost) Value_null false 0)
  = skipCommentTokens
      defaultFeatures
      ([c_TAB] ++ c_SLASH :: c_STAR :: [c_SPACE] ++ c_STAR :: c_SLASH :: [c_0])
      3
      (set_current (reader_at (H := plainHost) Value_null false 0)
                   (0 + Z.of_nat (List.length [c_TAB]) + 2
                    + Z.of_nat (List.length [c_SPACE]) + 2)).
Proof.
  apply (proj2 (skipCommentTokens_skips_comments
                  plainHost defaultFeatures
                  ([c_TAB] ++ c_SLASH :: c_STAR
                           :: [c_SPACE] ++ c_STAR :: c_SLASH :: [c_0])
                  3 (reader_at Value_null false 0) [c_TAB] [c_SPACE] [c_0]
                  eq_refl eq_refl eq_refl)).
  - split; [vm_compute; split; discriminate|reflexivity].
  - intros b1 r1 E. cbv [c_SPACE c_STAR c_SLASH app] in E.
    destruct b1 as [|x [|y [|z b1]]]; discriminate.
Defined.

(** A column of [size_t] that holds -1 is written as -1. *)
Lemma toString_decimal_wraps :
  toString decimal {| line_ := 1; column_ := 2 ^ 64 - 1 |}
  = "Line 1, Column -1"%string.
Proof. vm_compute. reflexivity. Qed.
